(** * mcp-confluence, package storage: Parse, Render and Validate

    A shallow embedding of the Confluence Storage Format engine of
    [storage/parse.go], [storage/render.go], [storage/validate.go] and
    [storage/types.go], together with a model of the part of Go's
    [encoding/xml] tokenizer, [html.EscapeString] and [strings.TrimSpace]
    these files call.

    Go strings are byte sequences: they are modelled by [string], whose
    characters are the 256 byte values. *)

From Stdlib Require Import ZArith NArith Ascii String List Lia DecimalString.
From stdpp Require Import base gmap strings list.

#[local] Arguments String.append : simpl nomatch.
#[local] Set Warnings "-register-all".
#[local] Open Scope string_scope.

(* ================================================================== *)
(** ** Bytes and strings *)

Definition byte_of (n : N) : ascii := ascii_of_N n.
Definition code (c : ascii) : N := N_of_ascii c.

Definition dquote : ascii := "034"%char.
Definition squote : ascii := "039"%char.
Definition CR : ascii := "013"%char.
Definition LF : ascii := "010"%char.
Definition NUL : ascii := "000"%char.

Definition str1 (c : ascii) : string := String c EmptyString.

Fixpoint drop_bytes (n : nat) (s : string) : string :=
  match n, s with
  | O, _ => s
  | S n', String _ r => drop_bytes n' r
  | S _, EmptyString => EmptyString
  end.

Fixpoint take_bytes (n : nat) (s : string) : string :=
  match n, s with
  | O, _ => EmptyString
  | S n', String c r => String c (take_bytes n' r)
  | S _, EmptyString => EmptyString
  end.

Fixpoint rev_onto (s acc : string) : string :=
  match s with
  | EmptyString => acc
  | String c r => rev_onto r (String c acc)
  end.

Definition srev (s : string) : string := rev_onto s EmptyString.

(** [span p s] splits [s] after its longest prefix of bytes satisfying [p]. *)
Fixpoint span (p : ascii -> bool) (s : string) : string * string :=
  match s with
  | EmptyString => (EmptyString, EmptyString)
  | String c r =>
      if p c then let '(a, b) := span p r in (String c a, b)
      else (EmptyString, s)
  end.

Fixpoint count_byte (c : ascii) (s : string) : nat :=
  match s with
  | EmptyString => O
  | String b r => (if Ascii.eqb b c then 1 else 0) + count_byte c r
  end.

(** [strings.Cut(s, sep)] for a one byte separator. *)
Fixpoint cut_byte (c : ascii) (s : string) : option (string * string) :=
  match s with
  | EmptyString => None
  | String b r =>
      if Ascii.eqb b c then Some (EmptyString, r)
      else match cut_byte c r with
           | Some (a, z) => Some (String b a, z)
           | None => None
           end
  end.

(** [strings.HasPrefix]. *)
Definition HasPrefix (s p : string) : bool := String.prefix p s.

(** [strings.Index(s, sub)]: the offset of the first occurrence. *)
Fixpoint Index (s sub : string) : option nat :=
  if String.prefix sub s then Some O
  else match s with
       | EmptyString => None
       | String _ r => option_map S (Index r sub)
       end.

(* ------------------------------------------------------------------ *)
(** *** UTF-8 ([unicode/utf8]) *)

Definition RuneError : N := 65533.
Definition MaxRune : N := 1114111.

Definition between (lo hi : N) (c : ascii) : bool :=
  (lo <=? code c)%N && (code c <=? hi)%N.

Definition low6 (c : ascii) : N := N.land (code c) 63.

(** [utf8.DecodeRune]: the first rune of [s] and its width in bytes;
    [(RuneError, 1)] on an invalid encoding, [(RuneError, 0)] on the
    empty string. *)
Definition DecodeRune (s : string) : N * nat :=
  match s with
  | EmptyString => (RuneError, O)
  | String p0 t =>
      let x := code p0 in
      if (x <? 128)%N then (x, 1%nat)
      else if (x <? 194)%N then (RuneError, 1%nat)
      else if (x <=? 223)%N then
        match t with
        | String b1 _ =>
            if between 128 191 b1
            then (N.lor (N.shiftl (N.land x 31) 6) (low6 b1), 2%nat)
            else (RuneError, 1%nat)
        | _ => (RuneError, 1%nat)
        end
      else if (x <=? 239)%N then
        let lo := if (x =? 224)%N then 160%N else 128%N in
        let hi := if (x =? 237)%N then 159%N else 191%N in
        match t with
        | String b1 (String b2 _) =>
            if negb (between lo hi b1) then (RuneError, 1%nat)
            else if negb (between 128 191 b2) then (RuneError, 1%nat)
            else (N.lor (N.shiftl (N.land x 15) 12)
                    (N.lor (N.shiftl (low6 b1) 6) (low6 b2)), 3%nat)
        | _ => (RuneError, 1%nat)
        end
      else if (x <=? 244)%N then
        let lo := if (x =? 240)%N then 144%N else 128%N in
        let hi := if (x =? 244)%N then 143%N else 191%N in
        match t with
        | String b1 (String b2 (String b3 _)) =>
            if negb (between lo hi b1) then (RuneError, 1%nat)
            else if negb (between 128 191 b2) then (RuneError, 1%nat)
            else if negb (between 128 191 b3) then (RuneError, 1%nat)
            else (N.lor (N.shiftl (N.land x 7) 18)
                    (N.lor (N.shiftl (low6 b1) 12)
                       (N.lor (N.shiftl (low6 b2) 6) (low6 b3))), 4%nat)
        | _ => (RuneError, 1%nat)
        end
      else (RuneError, 1%nat)
  end.

(** [string(rune(n))]: the UTF-8 encoding of a code point; surrogates and
    values above [MaxRune] encode as U+FFFD. *)
Definition EncodeRune (n : N) : string :=
  let cont (k : N) := byte_of (N.lor 128 (N.land (N.shiftr n k) 63)) in
  if (n <? 128)%N then str1 (byte_of n)
  else if (n <? 2048)%N then
    String (byte_of (N.lor 192 (N.shiftr n 6))) (str1 (cont 0%N))
  else if ((55296 <=? n) && (n <=? 57343))%N || (MaxRune <? n)%N then
    String (byte_of 239) (String (byte_of 191) (str1 (byte_of 189)))
  else if (n <? 65536)%N then
    String (byte_of (N.lor 224 (N.shiftr n 12)))
      (String (cont 6%N) (str1 (cont 0%N)))
  else
    String (byte_of (N.lor 240 (N.shiftr n 18)))
      (String (cont 12%N) (String (cont 6%N) (str1 (cont 0%N)))).

(* ------------------------------------------------------------------ *)
(** *** [strings.TrimSpace]

    [TrimSpace] removes the leading and the trailing runes for which
    [unicode.IsSpace] holds.  A rune is read off the string by its UTF-8
    encoding: one byte for the six ASCII spaces, two bytes for U+0085 and
    U+00A0, three bytes for U+1680, U+2000..U+200A, U+2028, U+2029, U+202F,
    U+205F and U+3000. *)

Definition asciiSpace (c : ascii) : bool :=
  match code c with
  | 9 | 10 | 11 | 12 | 13 | 32 => true
  | _ => false
  end%N.

Definition space2 (a b : ascii) : bool :=
  match code a, code b with
  | 194, 133 | 194, 160 => true
  | _, _ => false
  end%N.

Definition space3 (a b c : ascii) : bool :=
  match code a, code b, code c with
  | 225, 154, 128 => true
  | 226, 128, z => ((128 <=? z) && (z <=? 138) || (z =? 168) || (z =? 169) || (z =? 175))%N
  | 226, 129, 159 => true
  | 227, 128, 128 => true
  | _, _, _ => false
  end%N.

(** Width in bytes of the white space rune [s] starts with, [0] if none. *)
Definition leadingSpace (s : string) : nat :=
  match s with
  | EmptyString => 0
  | String a t1 =>
      if asciiSpace a then 1
      else match t1 with
           | EmptyString => 0
           | String b t2 =>
               if space2 a b then 2
               else match t2 with
                    | EmptyString => 0
                    | String c _ => if space3 a b c then 3 else 0
                    end
           end
  end%nat.

(** The same for the rune [s] ends with, on the reversed string. *)
Definition trailingSpaceRev (r : string) : nat :=
  match r with
  | EmptyString => 0
  | String c t1 =>
      if asciiSpace c then 1
      else match t1 with
           | EmptyString => 0
           | String b t2 =>
               if space2 b c then 2
               else match t2 with
                    | EmptyString => 0
                    | String a _ => if space3 a b c then 3 else 0
                    end
           end
  end%nat.

Fixpoint TrimLeftSpace (s : string) : string :=
  match s with
  | EmptyString => EmptyString
  | String a t1 =>
      if asciiSpace a then TrimLeftSpace t1
      else match t1 with
           | EmptyString => s
           | String b t2 =>
               if space2 a b then TrimLeftSpace t2
               else match t2 with
                    | EmptyString => s
                    | String c t3 => if space3 a b c then TrimLeftSpace t3 else s
                    end
           end
  end.

Fixpoint TrimRightSpaceRev (r : string) : string :=
  match r with
  | EmptyString => EmptyString
  | String c t1 =>
      if asciiSpace c then TrimRightSpaceRev t1
      else match t1 with
           | EmptyString => r
           | String b t2 =>
               if space2 b c then TrimRightSpaceRev t2
               else match t2 with
                    | EmptyString => r
                    | String a t3 => if space3 a b c then TrimRightSpaceRev t3 else r
                    end
           end
  end.

Definition TrimRightSpace (s : string) : string := srev (TrimRightSpaceRev (srev s)).

Definition TrimSpace (s : string) : string := TrimRightSpace (TrimLeftSpace s).

(** A string has no leading and no trailing white space. *)
Definition trimmed (s : string) : Prop :=
  leadingSpace s = O /\ trailingSpaceRev (srev s) = O.

(* ------------------------------------------------------------------ *)
(** *** [html.EscapeString] *)

Definition escapeByte (c : ascii) : string :=
  if Ascii.eqb c "&" then "&amp;"
  else if Ascii.eqb c squote then "&#39;"
  else if Ascii.eqb c "<" then "&lt;"
  else if Ascii.eqb c ">" then "&gt;"
  else if Ascii.eqb c dquote then "&#34;"
  else str1 c.

Fixpoint EscapeString (s : string) : string :=
  match s with
  | EmptyString => EmptyString
  | String c r => escapeByte c ++ EscapeString r
  end.

(** [fmt.Sprintf] with verb [%d]. *)
Definition itoa (z : Z) : string := NilZero.string_of_int (Z.to_int z).

(* ================================================================== *)
(** ** [encoding/xml]: tokens and the strict tokenizer

    [Decoder.Token] is modelled by the sequence of its results: the tokens
    a decoder returns, ended by [io.EOF] or by the first error (which the
    decoder then keeps returning).  [NewDecoder] computes that sequence from
    the input bytes, following [Decoder.rawToken], [Decoder.text] and the
    element stack of [Decoder.Token] in strict mode.

    Not modelled: the line number in error messages, and the translation of
    a name's prefix to its name space URL ([Space] keeps the prefix; no
    code of this package reads it, and the decoder itself matches an end
    tag against the start tag before translating). *)

Module xml.

Record Name := { Space : string; Local : string }.

Record Attr := { AName : Name; Value : string }.

Inductive Token :=
| StartElement (name : Name) (attr : list Attr)
| EndElement (name : Name)
| CharData (data : string)
| Comment (data : string)
| ProcInst (target : string) (inst : string)
| Directive (data : string).

(** The results of the successive calls of [Decoder.Token]. *)
Inductive Decoder :=
| EOF
| Error (err : string)
| Tok (t : Token) (next : Decoder).

Fixpoint remaining (d : Decoder) : nat :=
  match d with
  | Tok _ d' => S (remaining d')
  | _ => O
  end.

Definition name_eqb (a b : Name) : bool :=
  String.eqb (Space a) (Space b) && String.eqb (Local a) (Local b).

(** The decoder's invariant in strict mode: every end tag closes the
    innermost open element, and [io.EOF] is only returned when no element
    is open.  [stk] is the stack of open elements. *)
Fixpoint balanced (stk : list Name) (d : Decoder) : bool :=
  match d with
  | EOF => match stk with [] => true | _ => false end
  | Error _ => true
  | Tok (StartElement n _) d' => balanced (n :: stk) d'
  | Tok (EndElement n) d' =>
      match stk with
      | [] => false
      | top :: stk' => name_eqb top n && balanced stk' d'
      end
  | Tok _ d' => balanced stk d'
  end.

(** Result of a scanning function: a value and the unread input. *)
Inductive lex (A : Type) : Type :=
| LexOk (a : A) (rest : string)
| LexErr (e : string).
Arguments LexOk {A} a rest.
Arguments LexErr {A} e.

Definition unexpectedEOF : string := "unexpected EOF".

(** Returned when a loop of the model exhausts its iteration bound; the
    bounds are the input length, which no loop exceeds. *)
Definition fuelError : string := "(iteration bound reached)".

Definition chop (n : nat) (s : string) : string :=
  take_bytes (String.length s - n) s.

(* -------------------------------------------------------------- *)
(** *** Names *)

Definition isNameByte (c : ascii) : bool :=
  between 65 90 c || between 97 122 c || between 48 57 c
  || Ascii.eqb c "_" || Ascii.eqb c ":" || Ascii.eqb c "." || Ascii.eqb c "-".

(** The test of [readName]: [b >= utf8.RuneSelf || isNameByte(b)]. *)
Definition nameByte (c : ascii) : bool := (128 <=? code c)%N || isNameByte c.

Definition isSpaceByte (c : ascii) : bool :=
  Ascii.eqb c " " || Ascii.eqb c CR || Ascii.eqb c LF || Ascii.eqb c "009".

(** [Decoder.space]. *)
Fixpoint space (s : string) : string :=
  match s with
  | String c r => if isSpaceByte c then space r else s
  | EmptyString => s
  end.

Section Tokenizer.

(** Membership of the runes from U+0080 on in the two Unicode range tables
    [first] and [second] of [encoding/xml] (name start and name
    continuation characters); their ASCII part is written out below. *)
Variable unicodeFirst unicodeSecond : N -> bool.

(** [Decoder.Entity], which this package sets to its table [htmlEntities]. *)
Variable Entity : gmap string string.

Definition inFirst (r : N) : bool :=
  if (r <? 128)%N then
    (r =? 58)%N || ((65 <=? r) && (r <=? 90))%N || (r =? 95)%N
    || ((97 <=? r) && (r <=? 122))%N
  else unicodeFirst r.

Definition inSecond (r : N) : bool :=
  if (r <? 128)%N then
    ((45 <=? r) && (r <=? 46))%N || ((48 <=? r) && (r <=? 57))%N
  else unicodeSecond r.

Fixpoint isName_loop (fuel : nat) (s : string) : bool :=
  match fuel with
  | O => false
  | S fuel =>
      match s with
      | EmptyString => true
      | _ =>
          let '(c, n) := DecodeRune s in
          if (c =? RuneError)%N && (n =? 1)%nat then false
          else if negb (inFirst c) && negb (inSecond c) then false
          else isName_loop fuel (drop_bytes n s)
      end
  end.

Definition isName (s : string) : bool :=
  match s with
  | EmptyString => false
  | _ =>
      let '(c, n) := DecodeRune s in
      if (c =? RuneError)%N && (n =? 1)%nat then false
      else if negb (inFirst c) then false
      else isName_loop (String.length s) (drop_bytes n s)
  end.

(** [Decoder.readName]: [LexOk None] when the next byte starts no name
    (nothing is read and no error is set). *)
Definition readName (s : string) : lex (option string) :=
  match s with
  | EmptyString => LexErr unexpectedEOF
  | String b _ =>
      if nameByte b then
        let '(n, rest) := span nameByte s in
        match rest with
        | EmptyString => LexErr unexpectedEOF
        | _ => LexOk (Some n) rest
        end
      else LexOk None s
  end.

(** [Decoder.name]. *)
Definition name (s : string) : lex (option string) :=
  match readName s with
  | LexOk (Some b) rest =>
      if isName b then LexOk (Some b) rest
      else LexErr ("invalid XML name: " ++ b)
  | r => r
  end.

(** [Decoder.nsname]. *)
Definition nsname (s : string) : lex (option Name) :=
  match name s with
  | LexOk (Some n) rest =>
      if (1 <? count_byte ":" n)%nat then LexOk None rest
      else match cut_byte ":" n with
           | Some (sp, loc) =>
               if String.eqb sp EmptyString || String.eqb loc EmptyString
               then LexOk (Some {| Space := EmptyString; Local := n |}) rest
               else LexOk (Some {| Space := sp; Local := loc |}) rest
           | None => LexOk (Some {| Space := EmptyString; Local := n |}) rest
           end
  | LexOk None rest => LexOk None rest
  | LexErr e => LexErr e
  end.

(* -------------------------------------------------------------- *)
(** *** Character data, attribute values and entities *)

Definition isInCharacterRange (r : N) : bool :=
  ((r =? 9) || (r =? 10) || (r =? 13)
   || ((32 <=? r) && (r <=? 55295))
   || ((57344 <=? r) && (r <=? 65533))
   || ((65536 <=? r) && (r <=? 1114111)))%N.

(** The check that ends [Decoder.text]: every rune is well encoded and is
    an XML character.  [None] when the data passes. *)
Fixpoint checkChars (fuel : nat) (buf : string) : option string :=
  match fuel with
  | O => None
  | S fuel =>
      match buf with
      | EmptyString => None
      | _ =>
          let '(r, size) := DecodeRune buf in
          if (r =? RuneError)%N && (size =? 1)%nat then Some "invalid UTF-8"
          else if negb (isInCharacterRange r) then Some "illegal character code"
          else checkChars fuel (drop_bytes size buf)
      end
  end.

Definition validChars (data : string) : option string :=
  checkChars (String.length data) data.

Definition isDigit (base : N) (c : ascii) : bool :=
  between 48 57 c
  || (base =? 16)%N && between 97 102 c
  || (base =? 16)%N && between 65 70 c.

Definition digitValue (c : ascii) : N :=
  if between 48 57 c then code c - 48
  else if between 97 102 c then code c - 87
  else code c - 55.

(** [strconv.ParseUint] on a run of digits, without the 64 bit bound
    (the caller discards every value above [MaxRune]). *)
Fixpoint parseDigits (base acc : N) (s : string) : N :=
  match s with
  | EmptyString => acc
  | String c r => parseDigits base (acc * base + digitValue c) r
  end.

(** The five predeclared entities. *)
Definition entity (s : string) : option string :=
  if String.eqb s "lt" then Some "<"
  else if String.eqb s "gt" then Some ">"
  else if String.eqb s "amp" then Some "&"
  else if String.eqb s "apos" then Some (str1 squote)
  else if String.eqb s "quot" then Some (str1 dquote)
  else None.

Definition invalidEntity : string := "invalid character entity".

(** The branch of [Decoder.text] taken after an ampersand, in strict
    mode: the replacement text, or an error. *)
Definition readEntity (input : string) : lex string :=
  match input with
  | EmptyString => LexErr unexpectedEOF
  | String b rest =>
      if Ascii.eqb b "#" then
        match rest with
        | EmptyString => LexErr unexpectedEOF
        | String b' rest' =>
            let base := if Ascii.eqb b' "x" then 16%N else 10%N in
            let '(digits, after) :=
              span (isDigit base) (if Ascii.eqb b' "x" then rest' else rest) in
            match after with
            | EmptyString => LexErr unexpectedEOF
            | String c after' =>
                if Ascii.eqb c ";" then
                  match digits with
                  | EmptyString => LexErr invalidEntity
                  | _ =>
                      let n := parseDigits base 0 digits in
                      if (n <=? MaxRune)%N then LexOk (EncodeRune n) after'
                      else LexErr invalidEntity
                  end
                else LexErr invalidEntity
            end
        end
      else
        let '(nm, after) := span nameByte input in
        match after with
        | EmptyString => LexErr unexpectedEOF
        | String c after' =>
            if Ascii.eqb c ";" then
              if isName nm then
                match entity nm with
                | Some text => LexOk text after'
                | None =>
                    match Entity !! nm with
                    | Some text => LexOk text after'
                    | None => LexErr invalidEntity
                    end
                end
              else LexErr invalidEntity
            else LexErr invalidEntity
        end
  end.

Definition emit (s : string) (r : lex string) : lex string :=
  match r with
  | LexOk d rest => LexOk (s ++ d) rest
  | LexErr e => LexErr e
  end.

Definition isQuote (quote : option ascii) (b : ascii) : bool :=
  match quote with
  | Some q => Ascii.eqb b q
  | None => false
  end.

(** The input loop of [Decoder.text]; [b0] and [b1] are the two bytes read
    before [b].  In a CDATA section the data returned still ends with the
    two brackets of the terminator. *)
Fixpoint text_loop (fuel : nat) (quote : option ascii) (cdata : bool)
    (b0 b1 : ascii) (input : string) : lex string :=
  match fuel with
  | O => LexErr fuelError
  | S fuel =>
      match input with
      | EmptyString =>
          if cdata then LexErr "unexpected EOF in CDATA section"
          else LexOk EmptyString EmptyString
      | String b rest =>
          if Ascii.eqb b0 "]" && Ascii.eqb b1 "]" && Ascii.eqb b ">" then
            if cdata then LexOk EmptyString rest
            else LexErr "unescaped ]]> not in CDATA section"
          else if Ascii.eqb b "<" && negb cdata then
            match quote with
            | Some _ => LexErr "unescaped < inside quoted string"
            | None => LexOk EmptyString input
            end
          else if isQuote quote b then LexOk EmptyString rest
          else if Ascii.eqb b "&" && negb cdata then
            match readEntity rest with
            | LexOk txt rest' =>
                emit txt (text_loop fuel quote cdata NUL NUL rest')
            | LexErr e => LexErr e
            end
          else
            emit (if Ascii.eqb b CR then str1 LF
                  else if Ascii.eqb b1 CR && Ascii.eqb b LF then EmptyString
                  else str1 b)
                 (text_loop fuel quote cdata b1 b rest)
      end
  end.

(** [Decoder.text(quote, cdata)]. *)
Definition text (quote : option ascii) (cdata : bool) (input : string) : lex string :=
  match text_loop (S (String.length input)) quote cdata NUL NUL input with
  | LexOk data rest =>
      let data := if cdata then chop 2 data else data in
      match validChars data with
      | None => LexOk data rest
      | Some e => LexErr e
      end
  | LexErr e => LexErr e
  end.

(** [Decoder.attrval] in strict mode. *)
Definition attrval (input : string) : lex string :=
  match input with
  | EmptyString => LexErr unexpectedEOF
  | String b rest =>
      if Ascii.eqb b dquote || Ascii.eqb b squote then text (Some b) false rest
      else LexErr "unquoted or missing attribute value in element"
  end.

(* -------------------------------------------------------------- *)
(** *** Markup *)

(** The attribute loop of [rawToken]: the attributes read so far are
    [acc]; the result tells whether the tag is self closing. *)
Fixpoint attributes (fuel : nat) (acc : list Attr) (input : string)
    : lex (list Attr * bool) :=
  match fuel with
  | O => LexErr fuelError
  | S fuel =>
      match space input with
      | EmptyString => LexErr unexpectedEOF
      | String b rest =>
          if Ascii.eqb b "/" then
            match rest with
            | EmptyString => LexErr unexpectedEOF
            | String b' rest' =>
                if Ascii.eqb b' ">" then LexOk (acc, true) rest'
                else LexErr "expected /> in element"
            end
          else if Ascii.eqb b ">" then LexOk (acc, false) rest
          else
            match nsname (String b rest) with
            | LexErr e => LexErr e
            | LexOk None _ => LexErr "expected attribute name in element"
            | LexOk (Some n) after =>
                match space after with
                | EmptyString => LexErr unexpectedEOF
                | String c after' =>
                    if Ascii.eqb c "=" then
                      match attrval (space after') with
                      | LexErr e => LexErr e
                      | LexOk v after'' =>
                          attributes fuel (acc ++ [{| AName := n; Value := v |}]) after''
                      end
                    else LexErr "attribute name without = in element"
                end
            end
      end
  end.

(** The terminator search of a comment: the bytes up to and including
    the closing sequence. *)
Fixpoint comment_loop (b0 b1 : ascii) (input : string) : lex string :=
  match input with
  | EmptyString => LexErr unexpectedEOF
  | String b rest =>
      if Ascii.eqb b0 "-" && Ascii.eqb b1 "-" then
        if Ascii.eqb b ">" then LexOk (str1 b) rest
        else LexErr "invalid sequence -- not allowed in comments"
      else emit (str1 b) (comment_loop b1 b rest)
  end.

Fixpoint procInst_loop (b0 : ascii) (input : string) : lex string :=
  match input with
  | EmptyString => LexErr unexpectedEOF
  | String b rest =>
      if Ascii.eqb b0 "?" && Ascii.eqb b ">" then LexOk (str1 b) rest
      else emit (str1 b) (procInst_loop b rest)
  end.

Fixpoint IndexByte (s : string) (c : ascii) : option nat :=
  match s with
  | EmptyString => None
  | String b r => if Ascii.eqb b c then Some O else option_map S (IndexByte r c)
  end.

(** [procInst(param, s)]: the quoted value that follows [param=] in the
    text of an XML declaration. *)
Fixpoint procInst_find (fuel : nat) (param : string) (s : string) : string :=
  match fuel with
  | O => EmptyString
  | S fuel =>
      match s with
      | EmptyString => EmptyString
      | _ =>
          match Index s param with
          | None => EmptyString
          | Some k =>
              match drop_bytes (String.length param + k) s with
              | EmptyString => EmptyString
              | String c after =>
                  if Ascii.eqb c squote || Ascii.eqb c dquote then
                    match IndexByte after c with
                    | Some j => take_bytes j after
                    | None => EmptyString
                    end
                  else procInst_find fuel param after
              end
          end
      end
  end.

Definition procInst (param s : string) : string :=
  procInst_find (String.length s) (param ++ "=") s.

Definition lowerByte (c : ascii) : ascii :=
  if between 65 90 c then byte_of (code c + 32) else c.

Fixpoint lower (s : string) : string :=
  match s with
  | EmptyString => EmptyString
  | String c r => String (lowerByte c) (lower r)
  end.

(** The comment search inside a directive. *)
Fixpoint directive_comment (b0 b1 : ascii) (input : string) : option string :=
  match input with
  | EmptyString => None
  | String b rest =>
      if Ascii.eqb b0 "-" && Ascii.eqb b1 "-" && Ascii.eqb b ">" then Some rest
      else directive_comment b1 b rest
  end.

(** The loop of [rawToken] over a directive; [inquote] is [NUL] outside
    quotes.  A comment inside the directive is replaced by a space. *)
Fixpoint directive_loop (fuel : nat) (inquote : ascii) (depth : nat)
    (input : string) : lex string :=
  match fuel with
  | O => LexErr fuelError
  | S fuel =>
      match input with
      | EmptyString => LexErr unexpectedEOF
      | String b rest =>
          if Ascii.eqb inquote NUL && Ascii.eqb b ">" && (depth =? 0)%nat
          then LexOk EmptyString rest
          else if Ascii.eqb b inquote then
            emit (str1 b) (directive_loop fuel NUL depth rest)
          else if negb (Ascii.eqb inquote NUL) then
            emit (str1 b) (directive_loop fuel inquote depth rest)
          else if Ascii.eqb b squote || Ascii.eqb b dquote then
            emit (str1 b) (directive_loop fuel b depth rest)
          else if Ascii.eqb b ">" then
            emit (str1 b) (directive_loop fuel inquote (depth - 1) rest)
          else if Ascii.eqb b "<" then
            match rest with
            | EmptyString => LexErr unexpectedEOF
            | String c1 r1 =>
                if negb (Ascii.eqb c1 "!") then
                  emit "<" (directive_loop fuel inquote (S depth) rest)
                else
                  match r1 with
                  | EmptyString => LexErr unexpectedEOF
                  | String c2 r2 =>
                      if negb (Ascii.eqb c2 "-") then
                        emit "<!" (directive_loop fuel inquote (S depth) r1)
                      else
                        match r2 with
                        | EmptyString => LexErr unexpectedEOF
                        | String c3 r3 =>
                            if negb (Ascii.eqb c3 "-") then
                              emit "<!-" (directive_loop fuel inquote (S depth) r2)
                            else
                              match directive_comment NUL NUL r3 with
                              | None => LexErr unexpectedEOF
                              | Some r4 =>
                                  emit " " (directive_loop fuel inquote depth r4)
                              end
                        end
                  end
            end
          else emit (str1 b) (directive_loop fuel inquote depth rest)
      end
  end.

(** Result of [Decoder.rawToken]: a token, the pending end tag of a self
    closing element, and the unread input. *)
Inductive raw :=
| RawTok (t : Token) (needClose : option Name) (rest : string)
| RawEOF
| RawErr (e : string).

Definition endElement (input : string) : raw :=
  match nsname input with
  | LexErr e => RawErr e
  | LexOk None _ => RawErr "expected element name after </"
  | LexOk (Some n) rest =>
      match space rest with
      | EmptyString => RawErr unexpectedEOF
      | String b rest' =>
          if Ascii.eqb b ">" then RawTok (EndElement n) None rest'
          else RawErr ("invalid characters between </" ++ Local n ++ " and >")
      end
  end.

Definition procInstToken (input : string) : raw :=
  match name input with
  | LexErr e => RawErr e
  | LexOk None _ => RawErr "expected target name after <?"
  | LexOk (Some target) rest =>
      match procInst_loop NUL (space rest) with
      | LexErr e => RawErr e
      | LexOk d rest' =>
          let data := chop 2 d in
          if String.eqb target "xml" then
            let ver := procInst "version" data in
            let enc := procInst "encoding" data in
            if negb (String.eqb ver EmptyString) && negb (String.eqb ver "1.0")
            then RawErr "xml: unsupported version; only version 1.0 is supported"
            else if negb (String.eqb enc EmptyString)
                    && negb (String.eqb (lower enc) "utf-8")
            then RawErr "xml: encoding declared but Decoder.CharsetReader is nil"
            else RawTok (ProcInst target data) None rest'
          else RawTok (ProcInst target data) None rest'
      end
  end.

(** The input after the two bytes that open a comment, a CDATA section
    or a directive. *)
Definition bangToken (input : string) : raw :=
  match input with
  | EmptyString => RawErr unexpectedEOF
  | String b rest =>
      if Ascii.eqb b "-" then
        match rest with
        | EmptyString => RawErr unexpectedEOF
        | String b' rest' =>
            if Ascii.eqb b' "-" then
              match comment_loop NUL NUL rest' with
              | LexOk d after => RawTok (Comment (chop 3 d)) None after
              | LexErr e => RawErr e
              end
            else RawErr "invalid sequence <!- not part of <!--"
        end
      else if Ascii.eqb b "[" then
        if String.prefix "CDATA[" rest then
          match text None true (drop_bytes 6 rest) with
          | LexOk data after => RawTok (CharData data) None after
          | LexErr e => RawErr e
          end
        else if (String.length rest <? 6)%nat && String.prefix rest "CDATA["
        then RawErr unexpectedEOF
        else RawErr "invalid <![ sequence"
      else
        match directive_loop (S (String.length rest)) NUL 0 rest with
        | LexOk d after => RawTok (Directive (String b d)) None after
        | LexErr e => RawErr e
        end
  end.

Definition startElement (input : string) : raw :=
  match nsname input with
  | LexErr e => RawErr e
  | LexOk None _ => RawErr "expected element name after <"
  | LexOk (Some n) rest =>
      match attributes (S (String.length rest)) [] rest with
      | LexErr e => RawErr e
      | LexOk (attr, empty) rest' =>
          RawTok (StartElement n attr) (if empty then Some n else None) rest'
      end
  end.

(** [Decoder.rawToken]. *)
Definition rawToken (needClose : option Name) (input : string) : raw :=
  match needClose with
  | Some n => RawTok (EndElement n) None input
  | None =>
      match input with
      | EmptyString => RawEOF
      | String b rest =>
          if negb (Ascii.eqb b "<") then
            match text None false input with
            | LexOk data rest' => RawTok (CharData data) None rest'
            | LexErr e => RawErr e
            end
          else
            match rest with
            | EmptyString => RawErr unexpectedEOF
            | String b' rest' =>
                if Ascii.eqb b' "/" then endElement rest'
                else if Ascii.eqb b' "?" then procInstToken rest'
                else if Ascii.eqb b' "!" then bangToken rest'
                else startElement rest
            end
      end
  end.

(** [Decoder.Token], iterated: the element stack [stk] is pushed at a
    start tag and popped, with the name check of [popElement], at an end
    tag. *)
Fixpoint decode (fuel : nat) (stk : list Name) (needClose : option Name)
    (input : string) : Decoder :=
  match fuel with
  | O => Error fuelError
  | S fuel =>
      match rawToken needClose input with
      | RawEOF =>
          match stk with
          | [] => EOF
          | _ => Error unexpectedEOF
          end
      | RawErr e => Error e
      | RawTok t nc rest =>
          match t with
          | StartElement n _ => Tok t (decode fuel (n :: stk) nc rest)
          | EndElement n =>
              match stk with
              | [] => Error ("unexpected end element </" ++ Local n ++ ">")
              | s :: stk' =>
                  if negb (String.eqb (Local s) (Local n)) then
                    Error ("element <" ++ Local s ++ "> closed by </" ++ Local n ++ ">")
                  else if negb (String.eqb (Space s) (Space n)) then
                    Error ("element <" ++ Local s ++ "> in space " ++ Space s
                           ++ " closed by </" ++ Local n ++ "> in another space")
                  else Tok t (decode fuel stk' nc rest)
              end
          | _ => Tok t (decode fuel stk nc rest)
          end
      end
  end.

(** A bound on the tokens still to come: every token reads at least one
    byte, but for the end tag that follows a self closing start tag. *)
Definition pending (needClose : option Name) (input : string) : nat :=
  2 * String.length input + match needClose with Some _ => 1 | None => 0 end.

(** The tokens of a decoder in the state given. *)
Definition stream (stk : list Name) (needClose : option Name) (input : string) : Decoder :=
  decode (S (pending needClose input)) stk needClose input.

(** [xml.NewDecoder(strings.NewReader(s))] with [Strict] set and [Entity]
    as given. *)
Definition NewDecoder (s : string) : Decoder := stream [] None s.

End Tokenizer.

End xml.

(* ================================================================== *)
(** ** The intermediate representation ([types.go])

    [Block] is the closed union of the eight block types; the pointer and
    the value form of a block, which [RenderBlock] treats alike, are one
    constructor. *)

Record Macro := { Name : string; Params : gmap string string; Body : string }.

Record Cell := { Cell_Text : string; Cell_Macro : option Macro }.

Record Row := { Cells : list Cell }.

Record Table := { Headers : list string; Rows : list Row }.

Record Paragraph := { Paragraph_Text : string }.

Record Heading := { Level : Z; Heading_Text : string }.

Record ListItem := { ListItem_Text : string }.

Record BulletList := { BulletList_Items : list ListItem }.

Record NumberedList := { NumberedList_Items : list ListItem }.

Record CodeBlock := { Language : string; Code : string }.

Inductive Block :=
| BTable (t : Table)
| BParagraph (p : Paragraph)
| BHeading (h : Heading)
| BBulletList (bl : BulletList)
| BNumberedList (nl : NumberedList)
| BMacro (m : Macro)
| BCodeBlock (cb : CodeBlock)
| BHorizontalRule.

Record Page := { Blocks : list Block }.

(** A Go result [(value, error)]; [Exhausted] is the model running out of
    its iteration bound. *)
Inductive result (A : Type) : Type :=
| Ok (a : A)
| Err (e : string)
| Exhausted.
Arguments Ok {A} a.
Arguments Err {A} e.
Arguments Exhausted {A}.

Definition bind {A B : Type} (m : result A) (k : A -> result B) : result B :=
  match m with
  | Ok a => k a
  | Err e => Err e
  | Exhausted => Exhausted
  end.

Notation "'let*' p := m 'in' k" := (bind m (fun p => k))
  (at level 10, p pattern, m at level 100, k at level 200).

(* ================================================================== *)
(** ** The parser ([parse.go])

    A parsing function takes the decoder and returns its value with the
    decoder after the tokens it has read. *)

Import xml (Tok, EOF, Error, StartElement, EndElement, CharData, Local).

Abbreviation Decoder := xml.Decoder.

(** [skipElement]. *)
Fixpoint skipElement_loop (depth : nat) (d : Decoder) {struct d} : result (unit * Decoder) :=
  match depth with
  | O => Ok (tt, d)
  | S k =>
      match d with
      | EOF => Ok (tt, d)
      | Error e => Err e
      | Tok t d' =>
          match t with
          | StartElement _ _ => skipElement_loop (S depth) d'
          | EndElement _ => skipElement_loop k d'
          | _ => skipElement_loop depth d'
          end
      end
  end.

Definition skipElement (d : Decoder) : result (unit * Decoder) :=
  skipElement_loop 1 d.

(** [extractNestedText]. *)
Fixpoint extractNestedText_loop (depth : nat) (content : string) (d : Decoder)
    {struct d} : result (string * Decoder) :=
  match depth with
  | O => Ok (TrimSpace content, d)
  | S k =>
      match d with
      | EOF => Ok (TrimSpace content, d)
      | Error e => Err e
      | Tok t d' =>
          match t with
          | CharData c => extractNestedText_loop depth (content ++ c) d'
          | StartElement _ _ => extractNestedText_loop (S depth) content d'
          | EndElement _ => extractNestedText_loop k content d'
          | _ => extractNestedText_loop depth content d'
          end
      end
  end.

Definition extractNestedText (d : Decoder) : result (string * Decoder) :=
  extractNestedText_loop 1 EmptyString d.

(** [parseTextContent]. *)
Fixpoint parseTextContent_loop (fuel : nat) (endTag : string) (content : string)
    (d : Decoder) : result (string * Decoder) :=
  match fuel with
  | O => Exhausted
  | S fuel =>
      match d with
      | EOF => Ok (content, d)
      | Error e => Err e
      | Tok t d' =>
          match t with
          | CharData c => parseTextContent_loop fuel endTag (content ++ c) d'
          | EndElement n =>
              if String.eqb (Local n) endTag then Ok (TrimSpace content, d')
              else parseTextContent_loop fuel endTag content d'
          | StartElement _ _ =>
              let* (_, d'') := skipElement d' in
              parseTextContent_loop fuel endTag content d''
          | _ => parseTextContent_loop fuel endTag content d'
          end
      end
  end.

Definition parseTextContent (fuel : nat) (d : Decoder) (endTag : string) :=
  parseTextContent_loop fuel endTag EmptyString d.

(** The value of the last attribute whose local name is [name]. *)
Fixpoint attrNamed (attrs : list xml.Attr) (acc : string) : string :=
  match attrs with
  | [] => acc
  | a :: r =>
      attrNamed r (if String.eqb (Local (xml.AName a)) "name" then xml.Value a else acc)
  end.

(** [parseMacro]. *)
Fixpoint parseMacro_loop (fuel : nat) (macro : Macro) (d : Decoder)
    : result (Macro * Decoder) :=
  match fuel with
  | O => Exhausted
  | S fuel =>
      match d with
      | EOF => Ok (macro, d)
      | Error e => Err e
      | Tok t d' =>
          match t with
          | StartElement n attr =>
              if String.eqb (Local n) "parameter" then
                let name := attrNamed attr EmptyString in
                let* (value, d'') := parseTextContent fuel d' "parameter" in
                parseMacro_loop fuel
                  (if String.eqb name EmptyString then macro
                   else {| Name := Name macro;
                           Params := <[name := value]> (Params macro);
                           Body := Body macro |}) d''
              else if String.eqb (Local n) "rich-text-body"
                      || String.eqb (Local n) "plain-text-body" then
                let* (body, d'') := parseTextContent fuel d' (Local n) in
                parseMacro_loop fuel
                  {| Name := Name macro; Params := Params macro; Body := body |} d''
              else
                let* (_, d'') := skipElement d' in
                parseMacro_loop fuel macro d''
          | EndElement n =>
              if String.eqb (Local n) "structured-macro" then Ok (macro, d')
              else parseMacro_loop fuel macro d'
          | _ => parseMacro_loop fuel macro d'
          end
      end
  end.

Definition parseMacro (fuel : nat) (d : Decoder) (attr : list xml.Attr)
    : result (Macro * Decoder) :=
  parseMacro_loop fuel
    {| Name := attrNamed attr EmptyString; Params := ∅; Body := EmptyString |} d.

(** [parseTableCell]: [macro] is the [Macro] field of the cell under
    construction and [content] the text builder. *)
Fixpoint parseTableCell_loop (fuel : nat) (tagName : string) (macro : option Macro)
    (content : string) (d : Decoder) : result (Cell * Decoder) :=
  match fuel with
  | O => Exhausted
  | S fuel =>
      match d with
      | EOF => Ok ({| Cell_Text := EmptyString; Cell_Macro := macro |}, d)
      | Error e => Err e
      | Tok t d' =>
          match t with
          | StartElement n attr =>
              if String.eqb (Local n) "structured-macro" then
                let* (m, d'') := parseMacro fuel d' attr in
                parseTableCell_loop fuel tagName (Some m) content d''
              else
                let* (nested, d'') := extractNestedText d' in
                let content :=
                  if (0 <? String.length content)%nat && (0 <? String.length nested)%nat
                  then content ++ " " else content in
                parseTableCell_loop fuel tagName macro (content ++ nested) d''
          | CharData c => parseTableCell_loop fuel tagName macro (content ++ c) d'
          | EndElement n =>
              if String.eqb (Local n) tagName then
                Ok ({| Cell_Text := TrimSpace content; Cell_Macro := macro |}, d')
              else parseTableCell_loop fuel tagName macro content d'
          | _ => parseTableCell_loop fuel tagName macro content d'
          end
      end
  end.

Definition parseTableCell (fuel : nat) (d : Decoder) (tagName : string) :=
  parseTableCell_loop fuel tagName None EmptyString d.

(** [parseTableRow]: the row and whether it holds a header cell. *)
Fixpoint parseTableRow_loop (fuel : nat) (row : Row) (isHeader : bool) (d : Decoder)
    : result (Row * bool * Decoder) :=
  match fuel with
  | O => Exhausted
  | S fuel =>
      match d with
      | EOF => Ok (row, isHeader, d)
      | Error e => Err e
      | Tok t d' =>
          match t with
          | StartElement n _ =>
              if String.eqb (Local n) "th" then
                let* (cell, d'') := parseTableCell fuel d' "th" in
                parseTableRow_loop fuel {| Cells := Cells row ++ [cell] |} true d''
              else if String.eqb (Local n) "td" then
                let* (cell, d'') := parseTableCell fuel d' "td" in
                parseTableRow_loop fuel {| Cells := Cells row ++ [cell] |} isHeader d''
              else
                let* (_, d'') := skipElement d' in
                parseTableRow_loop fuel row isHeader d''
          | EndElement n =>
              if String.eqb (Local n) "tr" then Ok (row, isHeader, d')
              else parseTableRow_loop fuel row isHeader d'
          | _ => parseTableRow_loop fuel row isHeader d'
          end
      end
  end.

Definition parseTableRow (fuel : nat) (d : Decoder) :=
  parseTableRow_loop fuel {| Cells := [] |} false d.

(** What [parseTable] and [parseTbody] do with a parsed row. *)
Definition addRow (table : Table) (row : Row) (isHeader : bool) : Table :=
  if isHeader then
    {| Headers := Headers table ++ map Cell_Text (Cells row); Rows := Rows table |}
  else
    {| Headers := Headers table; Rows := Rows table ++ [row] |}.

(** [parseTbody]: the table is updated in place in the source and
    returned here. *)
Fixpoint parseTbody (fuel : nat) (d : Decoder) (table : Table) : result (Table * Decoder) :=
  match fuel with
  | O => Exhausted
  | S fuel =>
      match d with
      | EOF => Ok (table, d)
      | Error e => Err e
      | Tok t d' =>
          match t with
          | StartElement n _ =>
              if String.eqb (Local n) "tr" then
                let* (row, isHeader, d'') := parseTableRow fuel d' in
                parseTbody fuel d'' (addRow table row isHeader)
              else
                let* (_, d'') := skipElement d' in
                parseTbody fuel d'' table
          | EndElement n =>
              if String.eqb (Local n) "tbody" then Ok (table, d')
              else parseTbody fuel d' table
          | _ => parseTbody fuel d' table
          end
      end
  end.

(** [parseTable]. *)
Fixpoint parseTable_loop (fuel : nat) (table : Table) (d : Decoder)
    : result (Table * Decoder) :=
  match fuel with
  | O => Exhausted
  | S fuel =>
      match d with
      | EOF => Ok (table, d)
      | Error e => Err e
      | Tok t d' =>
          match t with
          | StartElement n _ =>
              if String.eqb (Local n) "tbody" then
                let* (table', d'') := parseTbody fuel d' table in
                parseTable_loop fuel table' d''
              else if String.eqb (Local n) "tr" then
                let* (row, isHeader, d'') := parseTableRow fuel d' in
                parseTable_loop fuel (addRow table row isHeader) d''
              else
                let* (_, d'') := skipElement d' in
                parseTable_loop fuel table d''
          | EndElement n =>
              if String.eqb (Local n) "table" then Ok (table, d')
              else parseTable_loop fuel table d'
          | _ => parseTable_loop fuel table d'
          end
      end
  end.

Definition parseTable (fuel : nat) (d : Decoder) : result (Table * Decoder) :=
  parseTable_loop fuel {| Headers := []; Rows := [] |} d.

(** [parseParagraph]. *)
Fixpoint parseParagraph_loop (fuel : nat) (content : string) (d : Decoder)
    : result (Paragraph * Decoder) :=
  match fuel with
  | O => Exhausted
  | S fuel =>
      match d with
      | EOF => Ok ({| Paragraph_Text := content |}, d)
      | Error e => Err e
      | Tok t d' =>
          match t with
          | CharData c => parseParagraph_loop fuel (content ++ c) d'
          | EndElement n =>
              if String.eqb (Local n) "p"
              then Ok ({| Paragraph_Text := TrimSpace content |}, d')
              else parseParagraph_loop fuel content d'
          | StartElement _ _ =>
              let* (nested, d'') := extractNestedText d' in
              parseParagraph_loop fuel (content ++ nested) d''
          | _ => parseParagraph_loop fuel content d'
          end
      end
  end.

Definition parseParagraph (fuel : nat) (d : Decoder) :=
  parseParagraph_loop fuel EmptyString d.

(** [int(start.Name.Local[1] - '0')]: a byte subtraction. *)
Definition headingLevel (local : string) : Z :=
  match local with
  | String _ (String c _) => Z.of_N ((code c + 256 - 48) mod 256)
  | _ => 0
  end.

(** [parseHeading]. *)
Fixpoint parseHeading_loop (fuel : nat) (level : Z) (content : string) (d : Decoder)
    : result (Heading * Decoder) :=
  match fuel with
  | O => Exhausted
  | S fuel =>
      match d with
      | EOF => Ok ({| Level := level; Heading_Text := content |}, d)
      | Error e => Err e
      | Tok t d' =>
          match t with
          | CharData c => parseHeading_loop fuel level (content ++ c) d'
          | EndElement n =>
              if HasPrefix (Local n) "h"
              then Ok ({| Level := level; Heading_Text := TrimSpace content |}, d')
              else parseHeading_loop fuel level content d'
          | StartElement _ _ =>
              let* (nested, d'') := extractNestedText d' in
              parseHeading_loop fuel level (content ++ nested) d''
          | _ => parseHeading_loop fuel level content d'
          end
      end
  end.

Definition parseHeading (fuel : nat) (d : Decoder) (start : xml.Name) :=
  parseHeading_loop fuel (headingLevel (Local start)) EmptyString d.

(** [parseListItem]. *)
Fixpoint parseListItem_loop (fuel : nat) (content : string) (d : Decoder)
    : result (ListItem * Decoder) :=
  match fuel with
  | O => Exhausted
  | S fuel =>
      match d with
      | EOF => Ok ({| ListItem_Text := content |}, d)
      | Error e => Err e
      | Tok t d' =>
          match t with
          | CharData c => parseListItem_loop fuel (content ++ c) d'
          | EndElement n =>
              if String.eqb (Local n) "li"
              then Ok ({| ListItem_Text := TrimSpace content |}, d')
              else parseListItem_loop fuel content d'
          | StartElement _ _ =>
              let* (nested, d'') := extractNestedText d' in
              parseListItem_loop fuel (content ++ nested) d''
          | _ => parseListItem_loop fuel content d'
          end
      end
  end.

Definition parseListItem (fuel : nat) (d : Decoder) :=
  parseListItem_loop fuel EmptyString d.

(** The common loop of [parseBulletList] and [parseNumberedList], which
    differ in the end tag ([ul], [ol]) and in the type returned. *)
Fixpoint parseList_loop (fuel : nat) (endTag : string) (items : list ListItem)
    (d : Decoder) : result (list ListItem * Decoder) :=
  match fuel with
  | O => Exhausted
  | S fuel =>
      match d with
      | EOF => Ok (items, d)
      | Error e => Err e
      | Tok t d' =>
          match t with
          | StartElement n _ =>
              if String.eqb (Local n) "li" then
                let* (item, d'') := parseListItem fuel d' in
                parseList_loop fuel endTag (items ++ [item]) d''
              else
                let* (_, d'') := skipElement d' in
                parseList_loop fuel endTag items d''
          | EndElement n =>
              if String.eqb (Local n) endTag then Ok (items, d')
              else parseList_loop fuel endTag items d'
          | _ => parseList_loop fuel endTag items d'
          end
      end
  end.

Definition parseBulletList (fuel : nat) (d : Decoder) : result (BulletList * Decoder) :=
  let* (items, d') := parseList_loop fuel "ul" [] d in
  Ok ({| BulletList_Items := items |}, d').

Definition parseNumberedList (fuel : nat) (d : Decoder) : result (NumberedList * Decoder) :=
  let* (items, d') := parseList_loop fuel "ol" [] d in
  Ok ({| NumberedList_Items := items |}, d').

Definition isHeadingTag (local : string) : bool :=
  String.eqb local "h1" || String.eqb local "h2" || String.eqb local "h3"
  || String.eqb local "h4" || String.eqb local "h5" || String.eqb local "h6".

(** [parseElement]: [None] is the nil block. *)
Definition parseElement (fuel : nat) (d : Decoder) (start : xml.Name)
    (attr : list xml.Attr) : result (option Block * Decoder) :=
  let local := Local start in
  if String.eqb local "root" then Ok (None, d)
  else if String.eqb local "table" then
    let* (t, d') := parseTable fuel d in Ok (Some (BTable t), d')
  else if String.eqb local "p" then
    let* (p, d') := parseParagraph fuel d in Ok (Some (BParagraph p), d')
  else if isHeadingTag local then
    let* (h, d') := parseHeading fuel d start in Ok (Some (BHeading h), d')
  else if String.eqb local "ul" then
    let* (l, d') := parseBulletList fuel d in Ok (Some (BBulletList l), d')
  else if String.eqb local "ol" then
    let* (l, d') := parseNumberedList fuel d in Ok (Some (BNumberedList l), d')
  else if String.eqb local "hr" then Ok (Some BHorizontalRule, d)
  else if String.eqb local "structured-macro" then
    let* (m, d') := parseMacro fuel d attr in Ok (Some (BMacro m), d')
  else
    let* (_, d') := skipElement d in Ok (None, d').

(** The token loop of [Parse]. *)
Fixpoint Parse_loop (fuel : nat) (blocks : list Block) (d : Decoder) : result Page :=
  match fuel with
  | O => Exhausted
  | S fuel =>
      match d with
      | EOF => Ok {| Blocks := blocks |}
      | Error e => Err ("parse error: " ++ e)
      | Tok t d' =>
          match t with
          | StartElement n attr =>
              let* (block, d'') := parseElement fuel d' n attr in
              Parse_loop fuel
                (match block with Some b => blocks ++ [b] | None => blocks end) d''
          | _ => Parse_loop fuel blocks d'
          end
      end
  end.

(** [Parse] on the tokens of the wrapped input. *)
Definition ParseTokens (d : Decoder) : result Page :=
  Parse_loop (S (xml.remaining d)) [] d.

Definition confluenceNS : string := "http://atlassian.com/confluence".

Definition wrapped (xhtml : string) : string :=
  "<root xmlns:ac=" ++ str1 dquote ++ confluenceNS ++ str1 dquote
  ++ " xmlns:ri=" ++ str1 dquote ++ confluenceNS ++ str1 dquote ++ ">"
  ++ xhtml ++ "</root>".

Section Parse.

Variable unicodeFirst unicodeSecond : N -> bool.

(** The table [htmlEntities] of named HTML entities, which is declared in
    a file of the package that is not part of the sources at hand. *)
Variable htmlEntities : gmap string string.

Definition newDecoder (xhtml : string) : Decoder :=
  xml.NewDecoder unicodeFirst unicodeSecond htmlEntities (wrapped xhtml).

(** [Parse]. *)
Definition Parse (xhtml : string) : result Page :=
  if String.eqb xhtml EmptyString then Ok {| Blocks := [] |}
  else ParseTokens (newDecoder xhtml).

End Parse.

(* ================================================================== *)
(** ** The renderer ([render.go]) *)

Section Render.

(** The order in which a [range] statement visits the entries of a map,
    which Go leaves unspecified. *)
Variable mapRange : gmap string string -> list (string * string).

Definition renderParam (kv : string * string) : string :=
  "<ac:parameter ac:name=" ++ str1 dquote ++ EscapeString (fst kv)
  ++ str1 dquote ++ ">" ++ EscapeString (snd kv) ++ "</ac:parameter>".

Fixpoint concatMap {A : Type} (f : A -> string) (l : list A) : string :=
  match l with
  | [] => EmptyString
  | x :: r => f x ++ concatMap f r
  end.

(** [RenderMacro], which never fails. *)
Definition RenderMacro (m : Macro) : string :=
  "<ac:structured-macro ac:name=" ++ str1 dquote ++ EscapeString (Name m)
  ++ str1 dquote ++ ">"
  ++ concatMap renderParam (mapRange (Params m))
  ++ (if String.eqb (Body m) EmptyString then EmptyString
      else "<ac:rich-text-body>" ++ Body m ++ "</ac:rich-text-body>")
  ++ "</ac:structured-macro>".

(** [renderCell]. *)
Definition renderCell (c : Cell) : string :=
  match Cell_Macro c with
  | Some m => RenderMacro m
  | None => EscapeString (Cell_Text c)
  end.

Definition renderHeader (h : string) : string :=
  "<th>" ++ EscapeString h ++ "</th>".

Definition renderTd (c : Cell) : string :=
  "<td>" ++ renderCell c ++ "</td>".

Definition renderRow (row : Row) : string :=
  "<tr>" ++ concatMap renderTd (Cells row) ++ "</tr>".

(** [renderTable]. *)
Definition renderTable (t : Table) : string :=
  "<table><tbody>"
  ++ (if (0 <? length (Headers t))%nat
      then "<tr>" ++ concatMap renderHeader (Headers t) ++ "</tr>"
      else EmptyString)
  ++ concatMap renderRow (Rows t)
  ++ "</tbody></table>".

(** [renderParagraph]. *)
Definition renderParagraph (p : Paragraph) : string :=
  "<p>" ++ EscapeString (Paragraph_Text p) ++ "</p>".

(** [renderHeading]. *)
Definition renderHeading (h : Heading) : result string :=
  if (Level h <? 1)%Z || (6 <? Level h)%Z then
    Err ("invalid heading level: " ++ itoa (Level h))
  else
    Ok ("<h" ++ itoa (Level h) ++ ">" ++ EscapeString (Heading_Text h)
        ++ "</h" ++ itoa (Level h) ++ ">").

Definition renderItem (item : ListItem) : string :=
  "<li>" ++ EscapeString (ListItem_Text item) ++ "</li>".

(** [renderBulletList] and [renderNumberedList]. *)
Definition renderBulletList (bl : BulletList) : string :=
  "<ul>" ++ concatMap renderItem (BulletList_Items bl) ++ "</ul>".

Definition renderNumberedList (nl : NumberedList) : string :=
  "<ol>" ++ concatMap renderItem (NumberedList_Items nl) ++ "</ol>".

(** [renderCodeBlock]. *)
Definition renderCodeBlock (cb : CodeBlock) : string :=
  "<ac:structured-macro ac:name=" ++ str1 dquote ++ "code" ++ str1 dquote ++ ">"
  ++ (if String.eqb (Language cb) EmptyString then EmptyString
      else "<ac:parameter ac:name=" ++ str1 dquote ++ "language" ++ str1 dquote
           ++ ">" ++ EscapeString (Language cb) ++ "</ac:parameter>")
  ++ "<ac:plain-text-body><![CDATA[" ++ Code cb ++ "]]></ac:plain-text-body>"
  ++ "</ac:structured-macro>".

(** [RenderBlock]. *)
Definition RenderBlock (block : Block) : result string :=
  match block with
  | BTable t => Ok (renderTable t)
  | BParagraph p => Ok (renderParagraph p)
  | BHeading h => renderHeading h
  | BMacro m => Ok (RenderMacro m)
  | BBulletList bl => Ok (renderBulletList bl)
  | BNumberedList nl => Ok (renderNumberedList nl)
  | BCodeBlock cb => Ok (renderCodeBlock cb)
  | BHorizontalRule => Ok "<hr/>"
  end.

Fixpoint Render_blocks (blocks : list Block) : result string :=
  match blocks with
  | [] => Ok EmptyString
  | block :: rest =>
      let* s := RenderBlock block in
      let* r := Render_blocks rest in
      Ok (s ++ r)
  end.

(** [Render]. *)
Definition Render (page : Page) : result string := Render_blocks (Blocks page).

End Render.

(* ================================================================== *)
(** ** The validator ([validate.go]) *)

Record ValidationError := { Message : string; Tag : string }.

Record ValidatorOptions := {
  RequireTableTbody : bool;
  AllowedMacros : gmap string bool;
  ForbiddenTags : gmap string bool
}.

(** Reading a [map[string]bool]: [false] for a missing key. *)
Definition index (m : gmap string bool) (k : string) : bool :=
  default false (m !! k).

Definition forbiddenTagList : list string :=
  ["thead"; "tfoot"; "colgroup"; "col"; "div"; "span"; "script"; "style";
   "iframe"; "form"; "input"; "button"].

Definition defaultForbiddenTags : gmap string bool :=
  list_to_map (map (fun t => (t, true)) forbiddenTagList).

(** [DefaultValidatorOptions]. *)
Definition DefaultValidatorOptions : ValidatorOptions :=
  {| RequireTableTbody := true;
     AllowedMacros := ∅;
     ForbiddenTags := defaultForbiddenTags |}.

(** [getMacroName]: the value of the first attribute named [name]. *)
Fixpoint getMacroName (attrs : list xml.Attr) : string :=
  match attrs with
  | [] => EmptyString
  | a :: r =>
      if String.eqb (Local (xml.AName a)) "name" then xml.Value a
      else getMacroName r
  end.

(** The token loop of [ValidateWithOptions]; [None] is the nil error. *)
Fixpoint validate_loop (opts : ValidatorOptions) (tableDepth : Z) (tbodyFound : bool)
    (d : Decoder) : option ValidationError :=
  match d with
  | EOF => None
  | Error e => Some {| Message := "invalid XML: " ++ e; Tag := EmptyString |}
  | Tok t d' =>
      match t with
      | StartElement n attr =>
          let name := Local n in
          if index (ForbiddenTags opts) name then
            Some {| Message := "forbidden tag"; Tag := name |}
          else if String.eqb name "structured-macro"
                  && (0 <? size (AllowedMacros opts))%nat
                  && negb (String.eqb (getMacroName attr) EmptyString)
                  && negb (index (AllowedMacros opts) (getMacroName attr)) then
            Some {| Message := "disallowed macro"; Tag := getMacroName attr |}
          else
            let '(tableDepth, tbodyFound) :=
              if String.eqb name "table" then ((tableDepth + 1)%Z, false)
              else (tableDepth, tbodyFound) in
            let tbodyFound :=
              if String.eqb name "tbody" && (0 <? tableDepth)%Z then true
              else tbodyFound in
            if String.eqb name "tr" && (0 <? tableDepth)%Z && negb tbodyFound
               && RequireTableTbody opts then
              Some {| Message := "<tr> must be inside <tbody>"; Tag := "tr" |}
            else validate_loop opts tableDepth tbodyFound d'
      | EndElement n =>
          if String.eqb (Local n) "table" then
            if negb tbodyFound && RequireTableTbody opts then
              Some {| Message := "<table> must contain <tbody>"; Tag := "table" |}
            else validate_loop opts (tableDepth - 1)%Z tbodyFound d'
          else validate_loop opts tableDepth tbodyFound d'
      | _ => validate_loop opts tableDepth tbodyFound d'
      end
  end.

Definition ValidateTokens (d : Decoder) (opts : ValidatorOptions) : option ValidationError :=
  validate_loop opts 0 false d.

Section Validate.

Variable unicodeFirst unicodeSecond : N -> bool.
Variable htmlEntities : gmap string string.

(** [ValidateWithOptions]. *)
Definition ValidateWithOptions (xhtml : string) (opts : ValidatorOptions)
    : option ValidationError :=
  if String.eqb xhtml EmptyString then None
  else ValidateTokens (newDecoder unicodeFirst unicodeSecond htmlEntities xhtml) opts.

(** [Validate]. *)
Definition Validate (xhtml : string) : option ValidationError :=
  ValidateWithOptions xhtml DefaultValidatorOptions.

End Validate.

(* ================================================================== *)
(** ** A decoder environment for closed examples

    The ASCII part of the name tables is fixed by the model; the examples
    use no name with a rune from U+0080 on, and an entity table with the
    two entities the release notes name. *)

Definition asciiOnly (r : N) : bool := false.

Definition someEntities : gmap string string :=
  <["bull" := EncodeRune 8226]> (<["rarr" := EncodeRune 8594]> ∅).

Definition parse : string -> result Page := Parse asciiOnly asciiOnly someEntities.

Definition validateWith : string -> ValidatorOptions -> option ValidationError :=
  ValidateWithOptions asciiOnly asciiOnly someEntities.

Definition validate : string -> option ValidationError :=
  Validate asciiOnly asciiOnly someEntities.

(** A possible iteration order: the entries sorted as [gmap] lists them. *)
Definition listOrder (m : gmap string string) : list (string * string) :=
  map_to_list m.

Definition render : Page -> result string := Render listOrder.

(* ================================================================== *)
(** ** Inputs and notions used in the statements *)

(** The decimal digit of a heading level. *)
Definition digit (z : Z) : string := str1 (byte_of (Z.to_N (48 + z))).

(** Validator options with an allow list of two macros. *)
Definition statusInfoOnly : ValidatorOptions :=
  {| RequireTableTbody := true;
     AllowedMacros := <["status" := true]> (<["info" := true]> ∅);
     ForbiddenTags := defaultForbiddenTags |}.


(** Tokens that leave the state of [validate_loop] unchanged: no start tag
    of a table, a table body or a row, nothing the options forbid, and no
    end tag of a table. *)
Definition quiet (opts : ValidatorOptions) (t : xml.Token) : bool :=
  match t with
  | StartElement n attr =>
      negb (index (ForbiddenTags opts) (Local n))
      && negb (String.eqb (Local n) "structured-macro"
               && (0 <? size (AllowedMacros opts))%nat
               && negb (String.eqb (getMacroName attr) EmptyString)
               && negb (index (AllowedMacros opts) (getMacroName attr)))
      && negb (String.eqb (Local n) "table")
      && negb (String.eqb (Local n) "tbody")
      && negb (String.eqb (Local n) "tr")
  | EndElement n => negb (String.eqb (Local n) "table")
  | _ => true
  end.

(** The decoder that returns the tokens [ts] and then behaves as [d]. *)
Fixpoint feed (ts : list xml.Token) (d : Decoder) : Decoder :=
  match ts with
  | [] => d
  | t :: r => Tok t (feed r d)
  end.

Definition tagged (local : string) : xml.Name :=
  {| xml.Space := EmptyString; xml.Local := local |}.

(** The options of the package tests with [RequireTableTbody] set. *)
Definition msgTableTbody : ValidationError :=
  {| Message := "<table> must contain <tbody>"; Tag := "table" |}.

Definition msgTrTbody : ValidationError :=
  {| Message := "<tr> must be inside <tbody>"; Tag := "tr" |}.


(* ------------------------------------------------------------------ *)
(** *** Markup as trees

    The tokens a strict decoder returns before [io.EOF] are those of a
    sequence of well nested nodes.  [tokens] lists the tokens of a node in
    front of a decoder. *)

Inductive Node :=
| Element (name : xml.Name) (attr : list xml.Attr) (children : list Node)
| Chars (data : string)
| CommentNode (data : string)
| ProcInstNode (target inst : string)
| DirectiveNode (data : string).

Fixpoint tokens (n : Node) (k : Decoder) : Decoder :=
  match n with
  | Element name attr children =>
      Tok (StartElement name attr)
        (fold_right tokens (Tok (EndElement name) k) children)
  | Chars data => Tok (CharData data) k
  | CommentNode data => Tok (xml.Comment data) k
  | ProcInstNode target inst => Tok (xml.ProcInst target inst) k
  | DirectiveNode data => Tok (xml.Directive data) k
  end.

Definition tokensList (l : list Node) (k : Decoder) : Decoder :=
  fold_right tokens k l.

Fixpoint ntokens (n : Node) : nat :=
  match n with
  | Element _ _ children => 2 + fold_right (fun c acc => ntokens c + acc) 0 children
  | _ => 1
  end.

Definition ntokensList (l : list Node) : nat :=
  fold_right (fun c acc => ntokens c + acc) 0 l.

(** The character data of a node, at any depth, in document order. *)
Fixpoint allText (n : Node) : string :=
  match n with
  | Element _ _ children => fold_right (fun c acc => allText c ++ acc) EmptyString children
  | Chars data => data
  | _ => EmptyString
  end.

Definition allTextList (l : list Node) : string :=
  fold_right (fun c acc => allText c ++ acc) EmptyString l.

(** The character data among the nodes themselves, not below them. *)
Fixpoint directText (l : list Node) : string :=
  match l with
  | [] => EmptyString
  | Chars data :: r => data ++ directText r
  | _ :: r => directText r
  end.

(** What the parser makes of the children of a [structured-macro]
    element, of a table cell, of a row, of a table body and of a table,
    child by child. *)
Definition isBodyTag (local : string) : bool :=
  String.eqb local "rich-text-body" || String.eqb local "plain-text-body".

Definition macroChild (m : Macro) (c : Node) : Macro :=
  match c with
  | Element n attr kids =>
      if String.eqb (Local n) "parameter" then
        if String.eqb (attrNamed attr EmptyString) EmptyString then m
        else {| Name := Name m;
                Params := <[attrNamed attr EmptyString := TrimSpace (directText kids)]> (Params m);
                Body := Body m |}
      else if isBodyTag (Local n) then
        {| Name := Name m; Params := Params m; Body := TrimSpace (directText kids) |}
      else m
  | _ => m
  end.

Definition macroOf (attr : list xml.Attr) (kids : list Node) : Macro :=
  fold_left macroChild kids
    {| Name := attrNamed attr EmptyString; Params := ∅; Body := EmptyString |}.

Definition cellChild (st : option Macro * string) (c : Node) : option Macro * string :=
  match c with
  | Element n attr kids =>
      if String.eqb (Local n) "structured-macro" then (Some (macroOf attr kids), snd st)
      else
        let nested := TrimSpace (allTextList kids) in
        (fst st,
         (if (0 <? String.length (snd st))%nat && (0 <? String.length nested)%nat
          then snd st ++ " " else snd st) ++ nested)
  | Chars data => (fst st, snd st ++ data)
  | _ => st
  end.

Definition cellOf (kids : list Node) : Cell :=
  let st := fold_left cellChild kids (None, EmptyString) in
  {| Cell_Text := TrimSpace (snd st); Cell_Macro := fst st |}.

Definition rowChild (st : Row * bool) (c : Node) : Row * bool :=
  match c with
  | Element n _ kids =>
      if String.eqb (Local n) "th" then ({| Cells := Cells (fst st) ++ [cellOf kids] |}, true)
      else if String.eqb (Local n) "td" then
        ({| Cells := Cells (fst st) ++ [cellOf kids] |}, snd st)
      else st
  | _ => st
  end.

Definition rowOf (kids : list Node) : Row * bool :=
  fold_left rowChild kids ({| Cells := [] |}, false).

(** The rows of the [tr] children of a table body, in order, each with
    its header flag; and the rows of a table, whose [tr] children may also
    stand outside a table body. *)
Fixpoint parsedRows (kids : list Node) : list (Row * bool) :=
  match kids with
  | [] => []
  | Element n _ rkids :: r =>
      if String.eqb (Local n) "tr" then rowOf rkids :: parsedRows r else parsedRows r
  | _ :: r => parsedRows r
  end.

Fixpoint tableRows (kids : list Node) : list (Row * bool) :=
  match kids with
  | [] => []
  | Element n _ ckids :: r =>
      if String.eqb (Local n) "tbody" then parsedRows ckids ++ tableRows r
      else if String.eqb (Local n) "tr" then rowOf ckids :: tableRows r
      else tableRows r
  | _ :: r => tableRows r
  end.

(** The cell texts of all the header rows, and the rows without header
    cell, both in the order of the rows. *)
Definition headerTexts (rows : list (Row * bool)) : list string :=
  flat_map (fun rh => map Cell_Text (Cells (fst rh))) (List.filter (fun rh => snd rh) rows).

Definition dataRows (rows : list (Row * bool)) : list Row :=
  map fst (List.filter (fun rh => negb (snd rh)) rows).

Definition tableOf (kids : list Node) : Table :=
  {| Headers := headerTexts (tableRows kids); Rows := dataRows (tableRows kids) |}.

(** The text of a paragraph, a heading or a list item. *)
Definition flowChild (content : string) (c : Node) : string :=
  match c with
  | Chars data => content ++ data
  | Element _ _ kids => content ++ TrimSpace (allTextList kids)
  | _ => content
  end.

Definition flowText (kids : list Node) : string :=
  TrimSpace (fold_left flowChild kids EmptyString).

Fixpoint listItems (kids : list Node) : list ListItem :=
  match kids with
  | [] => []
  | Element n _ ckids :: r =>
      if String.eqb (Local n) "li"
      then {| ListItem_Text := flowText ckids |} :: listItems r
      else listItems r
  | _ :: r => listItems r
  end.

(** The blocks [Parse] returns for a node met by its token loop. *)
Fixpoint blocksOf (c : Node) : list Block :=
  match c with
  | Element n attr kids =>
      let local := Local n in
      if String.eqb local "root" then flat_map blocksOf kids
      else if String.eqb local "table" then [BTable (tableOf kids)]
      else if String.eqb local "p" then [BParagraph {| Paragraph_Text := flowText kids |}]
      else if isHeadingTag local then
        [BHeading {| Level := headingLevel local; Heading_Text := flowText kids |}]
      else if String.eqb local "ul" then [BBulletList {| BulletList_Items := listItems kids |}]
      else if String.eqb local "ol" then
        [BNumberedList {| NumberedList_Items := listItems kids |}]
      else if String.eqb local "hr" then BHorizontalRule :: flat_map blocksOf kids
      else if String.eqb local "structured-macro" then [BMacro (macroOf attr kids)]
      else []
  | _ => []
  end.

Definition isTh (c : Node) : bool :=
  match c with
  | Element n _ _ => String.eqb (Local n) "th"
  | _ => false
  end.

(** [addRow] over the rows of a table, in order. *)
Definition addRows (table : Table) (rows : list (Row * bool)) : Table :=
  fold_left (fun t rh => addRow t (fst rh) (snd rh)) rows table.

(** A decoder from which the token loop of [Parse], whatever blocks it
    holds, returns these blocks followed by [B]. *)
Definition yields (k : Decoder) (B : list Block) : Prop :=
  forall fuel blocks, (xml.remaining k < fuel)%nat ->
    Parse_loop fuel blocks k = Ok {| Blocks := (blocks ++ B)%list |}.

(** Children of a table cell that add nothing to its text: macros,
    comments, processing instructions and directives. *)
Definition noText (c : Node) : bool :=
  match c with
  | Element n _ _ => String.eqb (Local n) "structured-macro"
  | Chars _ => false
  | _ => true
  end.

(** The macro of the last [structured-macro] child. *)
Fixpoint lastMacro (acc : option Macro) (kids : list Node) : option Macro :=
  match kids with
  | [] => acc
  | Element n attr mkids :: r =>
      lastMacro (if String.eqb (Local n) "structured-macro"
                 then Some (macroOf attr mkids) else acc) r
  | _ :: r => lastMacro acc r
  end.

Definition isBody (c : Node) : bool :=
  match c with
  | Element n _ _ => isBodyTag (Local n)
  | _ => false
  end.

(** The texts of a page have no white space at either end. *)
Definition cellTrimmed (c : Cell) : Prop := trimmed (Cell_Text c).

Definition rowTrimmed (r : Row) : Prop := Forall cellTrimmed (Cells r).

Definition tableTrimmed (t : Table) : Prop :=
  Forall trimmed (Headers t) /\ Forall rowTrimmed (Rows t).

Definition itemTrimmed (i : ListItem) : Prop := trimmed (ListItem_Text i).

Definition blockTrimmed (b : Block) : Prop :=
  match b with
  | BTable t => tableTrimmed t
  | BParagraph p => trimmed (Paragraph_Text p)
  | BHeading h => trimmed (Heading_Text h)
  | BBulletList bl => Forall itemTrimmed (BulletList_Items bl)
  | BNumberedList nl => Forall itemTrimmed (NumberedList_Items nl)
  | _ => True
  end.

Definition pageTrimmed (p : Page) : Prop := Forall blockTrimmed (Blocks p).

(* ------------------------------------------------------------------ *)
(** *** Pages whose rendering the tokenizer reads back

    A text is well formed when the decoder accepts it as character data
    (it is valid UTF-8 made of XML characters) and it holds no carriage
    return, which the decoder would turn into a line feed. *)

Fixpoint noCR (t : string) : bool :=
  match t with
  | EmptyString => true
  | String c r => negb (Ascii.eqb c CR) && noCR r
  end.

Definition goodText (t : string) : bool :=
  noCR t && match xml.validChars t with None => true | Some _ => false end.

(** The text of a CDATA section must not hold the terminator. *)
Definition cdataSafe (t : string) : bool :=
  match Index t "]]>" with None => true | Some _ => false end.

(** A macro body is written as it is, between the tags of
    [ac:rich-text-body].  The decoder reads it back as the one text it is
    when it holds no [<] and no [&], which start a tag and an entity, and
    not the sequence []]>], which character data may not hold; quotes,
    apostrophes and [>] are read as they are. *)
Fixpoint noMarkup (t : string) : bool :=
  match t with
  | EmptyString => true
  | String c r => negb (Ascii.eqb c "<") && negb (Ascii.eqb c "&") && noMarkup r
  end.

Definition rawText (t : string) : bool := noMarkup t && cdataSafe t.

Definition goodParam (kv : string * string) : bool :=
  goodText (fst kv) && goodText (snd kv).

Definition goodMacro (m : Macro) : bool :=
  goodText (Name m) && forallb goodParam (map_to_list (Params m))
  && goodText (Body m) && rawText (Body m).

Definition goodCell (c : Cell) : bool :=
  match Cell_Macro c with
  | Some m => goodMacro m
  | None => goodText (Cell_Text c)
  end.

Definition goodItem (i : ListItem) : bool := goodText (ListItem_Text i).

Definition goodBlock (b : Block) : bool :=
  match b with
  | BTable t =>
      forallb goodText (Headers t) && forallb (fun r => forallb goodCell (Cells r)) (Rows t)
  | BParagraph p => goodText (Paragraph_Text p)
  | BHeading h => goodText (Heading_Text h)
  | BBulletList bl => forallb goodItem (BulletList_Items bl)
  | BNumberedList nl => forallb goodItem (NumberedList_Items nl)
  | BMacro m => goodMacro m
  | BCodeBlock cb => goodText (Language cb) && goodText (Code cb) && cdataSafe (Code cb)
  | BHorizontalRule => true
  end.

Definition goodPage (p : Page) : bool := forallb goodBlock (Blocks p).

(** The nodes a rendering stands for. *)
Definition ac (local : string) : xml.Name := {| xml.Space := "ac"; xml.Local := local |}.

Definition nameAttr (v : string) : xml.Attr := {| xml.AName := ac "name"; xml.Value := v |}.

Definition textNodes (t : string) : list Node :=
  match t with
  | EmptyString => []
  | _ => [Chars t]
  end.

Definition paramNode (kv : string * string) : Node :=
  Element (ac "parameter") [nameAttr (fst kv)] (textNodes (snd kv)).

Section PageNodes.

Variable mapRange : gmap string string -> list (string * string).

Definition macroNode (m : Macro) : Node :=
  Element (ac "structured-macro") [nameAttr (Name m)]
    (map paramNode (mapRange (Params m))
     ++ (if String.eqb (Body m) EmptyString then []
         else [Element (ac "rich-text-body") [] (textNodes (Body m))])).

Definition cellNode (c : Cell) : Node :=
  Element (tagged "td") []
    (match Cell_Macro c with
     | Some m => [macroNode m]
     | None => textNodes (Cell_Text c)
     end).

Definition headerNode (h : string) : Node := Element (tagged "th") [] (textNodes h).

Definition rowNode (r : Row) : Node := Element (tagged "tr") [] (map cellNode (Cells r)).

Definition tableNode (t : Table) : Node :=
  Element (tagged "table") []
    [Element (tagged "tbody") []
       ((if (0 <? length (Headers t))%nat
         then [Element (tagged "tr") [] (map headerNode (Headers t))] else [])
        ++ map rowNode (Rows t))].

Definition itemNode (i : ListItem) : Node :=
  Element (tagged "li") [] (textNodes (ListItem_Text i)).

Definition codeBlockNode (cb : CodeBlock) : Node :=
  Element (ac "structured-macro") [nameAttr "code"]
    ((if String.eqb (Language cb) EmptyString then []
      else [Element (ac "parameter") [nameAttr "language"] (textNodes (Language cb))])
     ++ [Element (ac "plain-text-body") [] [Chars (Code cb)]]).

Definition blockNode (b : Block) : Node :=
  match b with
  | BTable t => tableNode t
  | BParagraph p => Element (tagged "p") [] (textNodes (Paragraph_Text p))
  | BHeading h => Element (tagged ("h" ++ itoa (Level h))) [] (textNodes (Heading_Text h))
  | BBulletList bl => Element (tagged "ul") [] (map itemNode (BulletList_Items bl))
  | BNumberedList nl => Element (tagged "ol") [] (map itemNode (NumberedList_Items nl))
  | BMacro m => macroNode m
  | BCodeBlock cb => codeBlockNode cb
  | BHorizontalRule => Element (tagged "hr") [] []
  end.

End PageNodes.

(** The attributes of the wrapper element of [wrapped]. *)
Definition rootAttr : list xml.Attr :=
  [{| xml.AName := {| xml.Space := "xmlns"; xml.Local := "ac" |}; xml.Value := confluenceNS |};
   {| xml.AName := {| xml.Space := "xmlns"; xml.Local := "ri" |}; xml.Value := confluenceNS |}].

(** Tokens that leave the state of [validate_loop] unchanged once the
    flag is set: as [quiet], but the start tags of rows and table bodies
    are let through. *)
Definition calm (opts : ValidatorOptions) (t : xml.Token) : bool :=
  match t with
  | StartElement n attr =>
      negb (index (ForbiddenTags opts) (Local n))
      && negb (String.eqb (Local n) "structured-macro"
               && (0 <? size (AllowedMacros opts))%nat
               && negb (String.eqb (getMacroName attr) EmptyString)
               && negb (index (AllowedMacros opts) (getMacroName attr)))
      && negb (String.eqb (Local n) "table")
  | EndElement n => negb (String.eqb (Local n) "table")
  | _ => true
  end.

(** Nodes all of whose tokens satisfy [p]. *)
Fixpoint allTokens (p : xml.Token -> bool) (n : Node) : bool :=
  match n with
  | Element name attr kids =>
      p (StartElement name attr) && forallb (allTokens p) kids && p (EndElement name)
  | _ => true
  end.

(** Pages that [Parse] reads back as they were rendered: no code block,
    every text well-formed and equal to its own trimmed form, every
    parameter with a name, macro bodies without [<], [&] and []]>]. *)
Definition plainText (t : string) : bool := goodText t && String.eqb (TrimSpace t) t.

Definition plainParam (kv : string * string) : bool :=
  negb (String.eqb (fst kv) EmptyString) && goodText (fst kv) && plainText (snd kv).

Definition plainMacro (m : Macro) : bool :=
  goodText (Name m) && forallb plainParam (map_to_list (Params m))
  && plainText (Body m) && rawText (Body m).

Definition plainCell (c : Cell) : bool :=
  match Cell_Macro c with
  | Some m => plainMacro m
  | None => plainText (Cell_Text c)
  end.

Definition plainItem (i : ListItem) : bool := plainText (ListItem_Text i).

Definition plainBlock (b : Block) : bool :=
  match b with
  | BTable t =>
      forallb plainText (Headers t) && forallb (fun r => forallb plainCell (Cells r)) (Rows t)
  | BParagraph p => plainText (Paragraph_Text p)
  | BHeading h => plainText (Heading_Text h)
  | BBulletList bl => forallb plainItem (BulletList_Items bl)
  | BNumberedList nl => forallb plainItem (NumberedList_Items nl)
  | BMacro m => plainMacro m
  | BCodeBlock _ => false
  | BHorizontalRule => true
  end.

Definition plainPage (p : Page) : bool := forallb plainBlock (Blocks p).

(** The macros of a page: the macro blocks and the macros of table cells. *)
Definition cellMacros (c : Cell) : list Macro :=
  match Cell_Macro c with
  | Some m => [m]
  | None => []
  end.

Definition blockMacros (b : Block) : list Macro :=
  match b with
  | BTable t => flat_map (fun r => flat_map cellMacros (Cells r)) (Rows t)
  | BMacro m => [m]
  | _ => []
  end.

Definition pageMacros (p : Page) : list Macro := flat_map blockMacros (Blocks p).

(** What [Parse] returns for a rendered plain page: the page itself, but
    for the text of the cells that hold a macro, which [renderTable] does
    not write. *)
Definition normCell (c : Cell) : Cell :=
  match Cell_Macro c with
  | Some m => {| Cell_Text := EmptyString; Cell_Macro := Some m |}
  | None => c
  end.

Definition normRow (r : Row) : Row := {| Cells := map normCell (Cells r) |}.

Definition normBlock (b : Block) : Block :=
  match b with
  | BTable t => BTable {| Headers := Headers t; Rows := map normRow (Rows t) |}
  | _ => b
  end.

(** The end of a text: the start of a tag, or the closing quote of an
    attribute value. *)
Inductive textEnd : option ascii -> ascii -> Prop :=
| endOfChars : textEnd None "<"
| endOfValue : textEnd (Some dquote) dquote.

Definition afterText (quote : option ascii) (c : ascii) (tail : string) : string :=
  match quote with
  | None => String c tail
  | Some _ => tail
  end.

Section Markup.

Variable uF uS : N -> bool.
Variable ents : gmap string string.

(** A string of complete elements, read as the nodes given whatever
    follows; and the content of an element, read up to the tag that
    follows it. *)
Definition markup (s : string) (nodes : list Node) : Prop :=
  forall stk tail, xml.stream uF uS ents stk None (s ++ tail) = tokensList nodes (xml.stream uF uS ents stk None tail).

Definition content (s : string) (nodes : list Node) : Prop :=
  forall stk tail,
    xml.stream uF uS ents stk None (s ++ String "<" tail)
    = tokensList nodes (xml.stream uF uS ents stk None (String "<" tail)).

End Markup.

(** A parsing function called on [d] finishes: it returns within its
    iteration bound, and with a decoder that has no more tokens left than
    [d] has. *)
Definition finishes {A : Type} (r : result (A * Decoder)) (d : Decoder) : Prop :=
  match r with
  | Ok (_, d') => (xml.remaining d' <= xml.remaining d)%nat
  | Err _ => True
  | Exhausted => False
  end.

(** Results that are not the error of an iteration bound of the model. *)
Definition withinBound {A : Type} (r : xml.lex A) : Prop :=
  match r with
  | xml.LexErr e => e <> xml.fuelError
  | _ => True
  end.

Definition rawWithinBound (r : xml.raw) : Prop :=
  match r with
  | xml.RawErr e => e <> xml.fuelError
  | _ => True
  end.

Fixpoint streamWithinBound (d : Decoder) : Prop :=
  match d with
  | Tok _ d' => streamWithinBound d'
  | Error e => e <> xml.fuelError
  | EOF => True
  end.

(* ================================================================== *)
(** ** [IsValidXML] ([validate.go])

    The loop of [IsValidXML] reads tokens until the end of the input
    ([true]) or an error ([false]). *)

Fixpoint IsValidXML_loop (d : Decoder) : bool :=
  match d with
  | EOF => true
  | Error _ => false
  | Tok _ d' => IsValidXML_loop d'
  end.

Section IsValidXML.

Variable unicodeFirst unicodeSecond : N -> bool.
Variable htmlEntities : gmap string string.

(** [IsValidXML]: the wrapper element declares no name space here. *)
Definition IsValidXML (xhtml : string) : bool :=
  IsValidXML_loop
    (xml.NewDecoder unicodeFirst unicodeSecond htmlEntities ("<root>" ++ xhtml ++ "</root>")).

End IsValidXML.

(** A parsing function called on [d] reads it: it returns within its
    iteration bound; when it returns a value, the tokens it has read held
    no error and are no more than [d] has; when it fails, the tokens of
    [d] end in an error. *)
Definition reads {A : Type} (r : result (A * Decoder)) (d : Decoder) : Prop :=
  match r with
  | Ok (_, d') =>
      IsValidXML_loop d' = IsValidXML_loop d /\ (xml.remaining d' <= xml.remaining d)%nat
  | Err _ => IsValidXML_loop d = false
  | Exhausted => False
  end.

(** The start tags a decoder returns, in order, up to the end of the
    input or the first error. *)
Fixpoint startTags (d : Decoder) : list (xml.Name * list xml.Attr) :=
  match d with
  | Tok (StartElement n attr) d' => (n, attr) :: startTags d'
  | Tok _ d' => startTags d'
  | _ => []
  end.

(** A start tag that the options permit: its name is not forbidden and,
    for a macro with a name under a non-empty allow list, the name is
    allowed. *)
Definition permitted (opts : ValidatorOptions) (tag : xml.Name * list xml.Attr) : Prop :=
  index (ForbiddenTags opts) (Local (fst tag)) = false
  /\ (Local (fst tag) = "structured-macro" ->
      (0 < size (AllowedMacros opts))%nat ->
      getMacroName (snd tag) <> EmptyString ->
      index (AllowedMacros opts) (getMacroName (snd tag)) = true).

(** Options [lax] that reject no more than [opts]: fewer forbidden tags,
    [tbody] required only if [opts] requires it, and no allow list or a
    larger one. *)
Definition laxer (lax opts : ValidatorOptions) : Prop :=
  (forall t, index (ForbiddenTags lax) t = true -> index (ForbiddenTags opts) t = true)
  /\ (RequireTableTbody lax = true -> RequireTableTbody opts = true)
  /\ (size (AllowedMacros lax) = 0%nat
      \/ ((0 < size (AllowedMacros opts))%nat
          /\ forall m, index (AllowedMacros opts) m = true ->
                       index (AllowedMacros lax) m = true)).

(** The blocks [Parse] can return: no code block, and headings of a
    level from 1 to 6. *)
Definition parsedBlock (b : Block) : Prop :=
  match b with
  | BCodeBlock _ => False
  | BHeading h => (1 <= Level h <= 6)%Z
  | _ => True
  end.

(** The level of the first heading of a list of blocks that
    [renderHeading] rejects. *)
Fixpoint firstBadLevel (blocks : list Block) : option Z :=
  match blocks with
  | [] => None
  | BHeading h :: r =>
      if (Level h <? 1)%Z || (6 <? Level h)%Z then Some (Level h) else firstBadLevel r
  | _ :: r => firstBadLevel r
  end.

(** The values of the attributes with local name [name], in order. *)
Definition nameValues (attrs : list xml.Attr) : list string :=
  map xml.Value (List.filter (fun a => String.eqb (Local (xml.AName a)) "name") attrs).

(** The element names for which [parseElement] has a case. *)
Definition isBlockTag (local : string) : bool :=
  String.eqb local "root" || String.eqb local "table" || String.eqb local "p"
  || isHeadingTag local || String.eqb local "ul" || String.eqb local "ol"
  || String.eqb local "hr" || String.eqb local "structured-macro".

(* ================================================================== *)
(** ** [ValidateBlock] ([validate.go])

    A Go [error] is represented by its message: [Err] of the text that
    its [Error] method returns. *)

(** [ValidationError.Error]. *)
Definition ValidationError_Error (e : ValidationError) : string :=
  if negb (String.eqb (Tag e) EmptyString)
  then "validation error: " ++ Message e ++ " (tag: " ++ Tag e ++ ")"
  else "validation error: " ++ Message e.

Section ValidateBlock.

Variable unicodeFirst unicodeSecond : N -> bool.
Variable htmlEntities : gmap string string.
Variable mapRange : gmap string string -> list (string * string).

(** [ValidateBlockWithOptions]. *)
Definition ValidateBlockWithOptions (block : Block) (opts : ValidatorOptions)
    : result unit :=
  let* xhtml := RenderBlock mapRange block in
  match ValidateWithOptions unicodeFirst unicodeSecond htmlEntities xhtml opts with
  | None => Ok tt
  | Some e => Err (ValidationError_Error e)
  end.

(** [ValidateBlock]. *)
Definition ValidateBlock (block : Block) : result unit :=
  let* xhtml := RenderBlock mapRange block in
  match Validate unicodeFirst unicodeSecond htmlEntities xhtml with
  | None => Ok tt
  | Some e => Err (ValidationError_Error e)
  end.

End ValidateBlock.

(* ================================================================== *)
(** ** Blocks as loosely typed values ([mcpserver/convert.go], [types.go])

    A value of type [interface{}] is represented with its dynamic type,
    which the type assertions of the package tell apart: a [[]string] is
    not a [[]interface{}], an [int] is not a [float64].  The type
    [float64] and the conversion [int(l)] are left abstract. *)

Section Convert.

Variable float64 : Type.

(** [int(l)] for [l] of type [float64]. *)
Variable truncate : float64 -> Z.

Inductive any : Type :=
| Nil
| Bool (b : bool)
| Number (f : float64)
| Int (z : Z)
| Str (s : string)
| Slice (l : list any)
| Map (m : gmap string any)
| Strings (l : list string)
| StringMap (m : gmap string string)
| RowSlice (l : list Row).

(** [v.(string)], and its use [s, _ := m[k].(string)], where a failed
    assertion leaves the empty string. *)
Definition asString (v : any) : option string :=
  match v with
  | Str s => Some s
  | _ => None
  end.

Definition stringAt (m : gmap string any) (k : string) : string :=
  match m !! k with
  | Some (Str s) => s
  | _ => EmptyString
  end.

(** The loop that keeps the strings of a [[]interface{}]. *)
Fixpoint stringsOf (l : list any) : list string :=
  match l with
  | [] => []
  | Str s :: r => s :: stringsOf r
  | _ :: r => stringsOf r
  end.

(** The loop that copies the string values of a
    [map[string]interface{}] into a [map[string]string]. *)
Definition stringParams (params : gmap string any) : gmap string string :=
  omap asString params.

Definition paramsAt (m : gmap string any) : gmap string string :=
  match m !! "params" with
  | Some (Map params) => stringParams params
  | _ => ∅
  end.

(** [BlockType], a method of each of the eight block types. *)
Definition BlockType (b : Block) : string :=
  match b with
  | BTable _ => "table"
  | BParagraph _ => "paragraph"
  | BHeading _ => "heading"
  | BBulletList _ => "bullet_list"
  | BNumberedList _ => "numbered_list"
  | BMacro _ => "macro"
  | BCodeBlock _ => "code_block"
  | BHorizontalRule => "horizontal_rule"
  end.

Definition cellToJSON (c : Cell) : any :=
  match Cell_Macro c with
  | Some m =>
      Map (<["macro" := Map (<["name" := Str (Name m)]>
                               (<["params" := StringMap (Params m)]> ∅))]> ∅)
  | None => Str (Cell_Text c)
  end.

(** [blockToJSON].  Its type switch lists the pointer types only:
    [pointer] tells whether the [Block] holds a pointer, as the blocks of
    [Parse] and of [parseBlock] do, or a struct value, which falls to the
    default case. *)
Definition blockToJSON (pointer : bool) (block : Block) : gmap string any :=
  if negb pointer then <["type" := Str "unknown"]> ∅
  else
    match block with
    | BTable b =>
        <["type" := Str "table"]>
          (<["headers" := Strings (Headers b)]>
             (<["rows" := Slice (map (fun row => Slice (map cellToJSON (Cells row)))
                                   (Rows b))]> ∅))
    | BParagraph b =>
        <["type" := Str "paragraph"]> (<["text" := Str (Paragraph_Text b)]> ∅)
    | BHeading b =>
        <["type" := Str "heading"]>
          (<["level" := Int (Level b)]> (<["text" := Str (Heading_Text b)]> ∅))
    | BBulletList b =>
        <["type" := Str "bullet_list"]>
          (<["items" := Strings (map ListItem_Text (BulletList_Items b))]> ∅)
    | BNumberedList b =>
        <["type" := Str "numbered_list"]>
          (<["items" := Strings (map ListItem_Text (NumberedList_Items b))]> ∅)
    | BMacro b =>
        <["type" := Str "macro"]>
          (<["name" := Str (Name b)]>
             (<["params" := StringMap (Params b)]> (<["body" := Str (Body b)]> ∅)))
    | BCodeBlock b =>
        <["type" := Str "code_block"]>
          (<["language" := Str (Language b)]> (<["code" := Str (Code b)]> ∅))
    | BHorizontalRule => <["type" := Str "horizontal_rule"]> ∅
    end.

(** [blocksToJSON]: each block comes with its [pointer] flag. *)
Definition blocksToJSON (blocks : list (bool * Block)) : list any :=
  map (fun pb => Map (blockToJSON (fst pb) (snd pb))) blocks.

(** [parseCell]. *)
Definition parseCell (raw : any) : Cell :=
  match raw with
  | Str v => {| Cell_Text := v; Cell_Macro := None |}
  | Map v =>
      match v !! "text" with
      | Some (Str text) => {| Cell_Text := text; Cell_Macro := None |}
      | _ =>
          match v !! "macro" with
          | Some (Map macroRaw) =>
              {| Cell_Text := EmptyString;
                 Cell_Macro := Some {| Name := stringAt macroRaw "name";
                                       Params := paramsAt macroRaw;
                                       Body := EmptyString |} |}
          | _ => {| Cell_Text := EmptyString; Cell_Macro := None |}
          end
      end
  | _ => {| Cell_Text := EmptyString; Cell_Macro := None |}
  end.

(** The row that [parseTableBlock] appends for an element of [rows]. *)
Definition parseRow (rowRaw : any) : Row :=
  match rowRaw with
  | Slice cells => {| Cells := map parseCell cells |}
  | _ => {| Cells := [] |}
  end.

(** [parseTableBlock]. *)
Definition parseTableBlock (m : gmap string any) : Table :=
  {| Headers := match m !! "headers" with
                | Some (Slice headers) => stringsOf headers
                | _ => []
                end;
     Rows := match m !! "rows" with
             | Some (Slice rows) => map parseRow rows
             | _ => []
             end |}.

(** [parseBulletListBlock] and [parseNumberedListBlock]. *)
Definition parseBulletListBlock (m : gmap string any) : BulletList :=
  {| BulletList_Items :=
       match m !! "items" with
       | Some (Slice items) => map (fun s => {| ListItem_Text := s |}) (stringsOf items)
       | _ => []
       end |}.

Definition parseNumberedListBlock (m : gmap string any) : NumberedList :=
  {| NumberedList_Items :=
       match m !! "items" with
       | Some (Slice items) => map (fun s => {| ListItem_Text := s |}) (stringsOf items)
       | _ => []
       end |}.

(** [parseMacroBlock]. *)
Definition parseMacroBlock (m : gmap string any) : Macro :=
  {| Name := stringAt m "name"; Params := paramsAt m; Body := stringAt m "body" |}.

(** [parseBlock]; the blocks it returns are pointers. *)
Definition parseBlock (raw : any) : result Block :=
  match raw with
  | Map m =>
      let blockType := stringAt m "type" in
      if String.eqb blockType "table" then Ok (BTable (parseTableBlock m))
      else if String.eqb blockType "paragraph" then
        Ok (BParagraph {| Paragraph_Text := stringAt m "text" |})
      else if String.eqb blockType "heading" then
        let level := match m !! "level" with
                     | Some (Number l) => truncate l
                     | _ => 1%Z
                     end in
        Ok (BHeading {| Level := level; Heading_Text := stringAt m "text" |})
      else if String.eqb blockType "bullet_list" then
        Ok (BBulletList (parseBulletListBlock m))
      else if String.eqb blockType "numbered_list" then
        Ok (BNumberedList (parseNumberedListBlock m))
      else if String.eqb blockType "macro" then Ok (BMacro (parseMacroBlock m))
      else if String.eqb blockType "code_block" then
        Ok (BCodeBlock {| Language := stringAt m "language"; Code := stringAt m "code" |})
      else if String.eqb blockType "horizontal_rule" then Ok BHorizontalRule
      else Err ("unknown block type: " ++ blockType)
  | _ => Err "block must be an object"
  end.

(** [parseBlocks]: [parseBlock] returns no nil block without an error, so
    that the test [block != nil] of the loop always holds. *)
Fixpoint parseBlocks_loop (blocks : list Block) (blocksRaw : list any) : result Page :=
  match blocksRaw with
  | [] => Ok {| Blocks := blocks |}
  | b :: rest =>
      let* block := parseBlock b in
      parseBlocks_loop (blocks ++ [block]) rest
  end.

Definition parseBlocks (blocksRaw : list any) : result Page :=
  parseBlocks_loop [] blocksRaw.

End Convert.

Arguments Nil {float64}.
Arguments Bool {float64} b.
Arguments Number {float64} f.
Arguments Int {float64} z.
Arguments Str {float64} s.
Arguments Slice {float64} l.
Arguments Map {float64} m.
Arguments Strings {float64} l.
Arguments StringMap {float64} m.
Arguments RowSlice {float64} l.
Arguments asString {float64} v.
Arguments stringAt {float64} m k.
Arguments stringsOf {float64} l.
Arguments stringParams {float64} params.
Arguments paramsAt {float64} m.
Arguments cellToJSON {float64} c.
Arguments blockToJSON {float64} pointer block.
Arguments blocksToJSON {float64} blocks.
Arguments parseCell {float64} raw.
Arguments parseRow {float64} rowRaw.
Arguments parseTableBlock {float64} m.
Arguments parseBulletListBlock {float64} m.
Arguments parseNumberedListBlock {float64} m.
Arguments parseMacroBlock {float64} m.
Arguments parseBlock {float64} truncate raw.
Arguments parseBlocks_loop {float64} truncate blocks blocksRaw.
Arguments parseBlocks {float64} truncate blocksRaw.

(** What [blockToJSON] keeps of a block: all but the body of the macro of
    a table cell, and the text of a cell that holds a macro. *)
Definition keptCell (c : Cell) : Cell :=
  match Cell_Macro c with
  | Some m =>
      {| Cell_Text := EmptyString;
         Cell_Macro := Some {| Name := Name m; Params := Params m; Body := EmptyString |} |}
  | None => c
  end.

Definition keptBlock (b : Block) : Block :=
  match b with
  | BTable t =>
      BTable {| Headers := Headers t;
                Rows := map (fun r => {| Cells := map keptCell (Cells r) |}) (Rows t) |}
  | _ => b
  end.

(* ================================================================== *)
(** ** [handleCreateTable] (package [mcpserver])

    The one tool handler that does not call the Confluence client. *)

Section CreateTable.

Variable unicodeFirst unicodeSecond : N -> bool.
Variable htmlEntities : gmap string string.
Variable mapRange : gmap string string -> list (string * string).
Variable float64 : Type.

(** [v, _ := input[k].([]interface{})]: a nil slice when the assertion
    fails. *)
Definition sliceAt (input : gmap string (any float64)) (k : string) : list (any float64) :=
  match input !! k with
  | Some (Slice l) => l
  | _ => []
  end.

(** The loop over [rowsRaw], which goes on to the next element at one
    that is no slice. *)
Fixpoint createRows (rowsRaw : list (any float64)) : list Row :=
  match rowsRaw with
  | [] => []
  | Slice cells :: rest => {| Cells := map parseCell cells |} :: createRows rest
  | _ :: rest => createRows rest
  end.

(** The table that [handleCreateTable] builds from its input. *)
Definition createTable (input : gmap string (any float64)) : Table :=
  {| Headers := stringsOf (sliceAt input "headers");
     Rows := createRows (sliceAt input "rows") |}.

(** [handleCreateTable]. *)
Definition handleCreateTable (input : gmap string (any float64))
    : result (gmap string (any float64)) :=
  let table := createTable input in
  match ValidateBlock unicodeFirst unicodeSecond htmlEntities mapRange (BTable table) with
  | Err e => Err ("table validation failed: " ++ e)
  | Exhausted => Exhausted
  | Ok _ =>
      let* xhtml := RenderBlock mapRange (BTable table) in
      Ok (<["block" := Map (<["type" := Str "table"]>
                              (<["headers" := Strings (Headers table)]>
                                 (<["rows" := RowSlice (Rows table)]> ∅)))]>
            (<["xhtml" := Str xhtml]> ∅))
  end.

End CreateTable.

Arguments sliceAt {float64} input k.
Arguments createRows {float64} rowsRaw.
Arguments createTable {float64} input.
Arguments handleCreateTable unicodeFirst unicodeSecond htmlEntities mapRange {float64} input.

(** Whether a value is a [[]interface{}]. *)
Definition isSlice {float64 : Type} (v : any float64) : bool :=
  match v with
  | Slice _ => true
  | _ => false
  end.

(** A cell with at most one of its two fields set, and a macro without
    body if any. *)
Definition textOrBodilessMacro (c : Cell) : Prop :=
  (Cell_Macro c = None \/ Cell_Text c = EmptyString)
  /\ forall m, Cell_Macro c = Some m -> Body m = EmptyString.

(** A value with the dynamic types that the type assertions of
    [parseBlock] expect, down to depth [depth]: a [[]string] as a
    [[]interface{}] of strings, a [map[string]string] as a
    [map[string]interface{}] of strings, an [int] as the [float64] that
    [toFloat] gives; the other values are left as they are. *)
Fixpoint retyped {float64 : Type} (toFloat : Z -> float64) (depth : nat)
    (v : any float64) : any float64 :=
  match depth with
  | O => v
  | S depth =>
      match v with
      | Int z => Number (toFloat z)
      | Strings l => Slice (map Str l)
      | StringMap m => Map (Str <$> m)
      | Slice l => Slice (map (retyped toFloat depth) l)
      | Map m => Map (retyped toFloat depth <$> m)
      | _ => v
      end
  end.

(** Options that enable no rule. *)
Definition noRules : ValidatorOptions :=
  {| RequireTableTbody := false; AllowedMacros := ∅; ForbiddenTags := ∅ |}.

(** The five kinds of error of [ValidateWithOptions]. *)
Definition errorKind (opts : ValidatorOptions) (e : ValidationError) : Prop :=
  (exists err, Message e = "invalid XML: " ++ err /\ Tag e = EmptyString)
  \/ (Message e = "forbidden tag" /\ index (ForbiddenTags opts) (Tag e) = true)
  \/ (Message e = "disallowed macro" /\ Tag e <> EmptyString
      /\ (0 < size (AllowedMacros opts))%nat /\ index (AllowedMacros opts) (Tag e) = false)
  \/ (e = msgTrTbody /\ RequireTableTbody opts = true)
  \/ (e = msgTableTbody /\ RequireTableTbody opts = true).

(** The block that [Parse] returns for the rendering of a block: texts
    are trimmed, a parameter without name is dropped, the text of a cell
    that holds a macro is not written, and a code block comes back as the
    macro named [code] that stands for it. *)
Definition asParsedMacro (m : Macro) : Macro :=
  {| Name := Name m;
     Params := TrimSpace <$> delete EmptyString (Params m);
     Body := TrimSpace (Body m) |}.

Definition asParsedCell (c : Cell) : Cell :=
  match Cell_Macro c with
  | Some m => {| Cell_Text := EmptyString; Cell_Macro := Some (asParsedMacro m) |}
  | None => {| Cell_Text := TrimSpace (Cell_Text c); Cell_Macro := None |}
  end.

Definition asParsedItem (i : ListItem) : ListItem :=
  {| ListItem_Text := TrimSpace (ListItem_Text i) |}.

Definition asParsed (b : Block) : Block :=
  match b with
  | BTable t =>
      BTable {| Headers := map TrimSpace (Headers t);
                Rows := map (fun r => {| Cells := map asParsedCell (Cells r) |}) (Rows t) |}
  | BParagraph p => BParagraph {| Paragraph_Text := TrimSpace (Paragraph_Text p) |}
  | BHeading h => BHeading {| Level := Level h; Heading_Text := TrimSpace (Heading_Text h) |}
  | BBulletList bl =>
      BBulletList {| BulletList_Items := map asParsedItem (BulletList_Items bl) |}
  | BNumberedList nl =>
      BNumberedList {| NumberedList_Items := map asParsedItem (NumberedList_Items nl) |}
  | BMacro m => BMacro (asParsedMacro m)
  | BCodeBlock cb =>
      BMacro {| Name := "code";
                Params := if String.eqb (Language cb) EmptyString then ∅
                          else <["language" := TrimSpace (Language cb)]> ∅;
                Body := TrimSpace (Code cb) |}
  | BHorizontalRule => BHorizontalRule
  end.

(** What [parseMacro] does with a parameter of name [fst kv] and text
    [snd kv]. *)
Definition readParam (acc : gmap string string) (kv : string * string)
    : gmap string string :=
  if String.eqb (fst kv) EmptyString then acc
  else <[fst kv := TrimSpace (snd kv)]> acc.

(** A conversion of [int] to a number type of 53 significant bits, as
    [float64] is: exact up to [2^53] in absolute value, rounded to an even
    number beyond (the exponent range is left out). *)
Definition roundedInt (z : Z) : Z :=
  if (Z.abs z <=? 2 ^ 53)%Z then z else (2 * (z / 2))%Z.

(** A cell with both fields set. *)
Definition textAndMacro : Cell :=
  {| Cell_Text := "ok";
     Cell_Macro := Some {| Name := "status"; Params := ∅; Body := EmptyString |} |}.

(** The elements open after the tokens [ts], innermost first, when [stk]
    were open before them: a start tag opens its element, an end tag
    closes the innermost one. *)
Fixpoint openAfter (stk : list xml.Name) (ts : list xml.Token) : list xml.Name :=
  match ts with
  | [] => stk
  | StartElement n _ :: r => openAfter (n :: stk) r
  | EndElement _ :: r => openAfter (List.tl stk) r
  | _ :: r => openAfter stk r
  end.

Definition isTable (n : xml.Name) : bool := String.eqb (Local n) "table".

(** The number of [table] elements among the open elements. *)
Definition openTables (stk : list xml.Name) : Z :=
  Z.of_nat (length (List.filter isTable stk)).

(** The first [k] tokens of a decoder, and the decoder after them. *)
Fixpoint firstTokens (k : nat) (d : Decoder) : list xml.Token :=
  match k, d with
  | S k', Tok t d' => t :: firstTokens k' d'
  | _, _ => []
  end.

Fixpoint afterTokens (k : nat) (d : Decoder) : Decoder :=
  match k, d with
  | S k', Tok _ d' => afterTokens k' d'
  | _, _ => d
  end.

(** *** Pages whose rendering the validator accepts

    Character data as the decoder returns it: a carriage return is read
    as a line feed, and the line feed that follows a carriage return is
    left out.  [afterCR] tells whether the byte before [t] was a carriage
    return. *)
Fixpoint crlf (afterCR : bool) (t : string) : string :=
  match t with
  | EmptyString => EmptyString
  | String b r =>
      (if Ascii.eqb b CR then str1 LF
       else if afterCR && Ascii.eqb b LF then EmptyString
       else str1 b)
      ++ crlf (Ascii.eqb b CR) r
  end.

(** Bytes from 128 on: the bytes of the encoding of a rune from U+0080 on. *)
Fixpoint allHigh (s : string) : bool :=
  match s with
  | EmptyString => true
  | String c r => (128 <=? code c)%N && allHigh r
  end.

(** A text the decoder accepts as character data: valid UTF-8 made of XML
    characters. *)
Definition validText (t : string) : bool :=
  match xml.validChars t with None => true | Some _ => false end.

(** Tokens that the validator, under the default options, passes over
    wherever every open table has had its [tbody]: it goes on with the
    table counter as it was and, inside a table, with the flag set. *)
Definition accepted (ts : list xml.Token) : Prop :=
  forall depth found d,
    (0 <= depth)%Z -> ((0 < depth)%Z -> found = true) ->
    exists found',
      ((0 < depth)%Z -> found' = true)
      /\ validate_loop DefaultValidatorOptions depth found (feed ts d)
         = validate_loop DefaultValidatorOptions depth found' d.

Section ValidPages.

Variable uF uS : N -> bool.
Variable ents : gmap string string.

(** A macro body is written to the output as it is ([RenderMacro] assumes
    it to be valid storage markup).  It is valid here when the decoder
    reads it, on its own, as well-formed markup (every element it opens
    it closes) and the loop of the validator, under the default options,
    accepts its tokens. *)
Definition validBody (body : string) : bool :=
  match ValidateTokens (xml.NewDecoder uF uS ents body) DefaultValidatorOptions with
  | None => true
  | Some _ => false
  end.

Definition validParam (kv : string * string) : bool :=
  validText (fst kv) && validText (snd kv).

Definition validMacro (m : Macro) : bool :=
  validText (Name m) && forallb validParam (map_to_list (Params m)) && validBody (Body m).

Definition validCell (c : Cell) : bool :=
  match Cell_Macro c with
  | Some m => validMacro m
  | None => validText (Cell_Text c)
  end.

Definition validItem (i : ListItem) : bool := validText (ListItem_Text i).

Definition validBlock (b : Block) : bool :=
  match b with
  | BTable t =>
      forallb validText (Headers t) && forallb (fun r => forallb validCell (Cells r)) (Rows t)
  | BParagraph p => validText (Paragraph_Text p)
  | BHeading h => validText (Heading_Text h)
  | BBulletList bl => forallb validItem (BulletList_Items bl)
  | BNumberedList nl => forallb validItem (NumberedList_Items nl)
  | BMacro m => validMacro m
  | BCodeBlock cb => validText (Language cb) && validText (Code cb) && cdataSafe (Code cb)
  | BHorizontalRule => true
  end.

Definition validPage (p : Page) : bool := forallb validBlock (Blocks p).

(** A string of complete elements, read as the tokens given whatever
    follows and whatever elements are open; and the content of an
    element, read up to the tag that follows it. *)
Definition lexed (s : string) (ts : list xml.Token) : Prop :=
  forall stk tail,
    xml.stream uF uS ents stk None (s ++ tail) = feed ts (xml.stream uF uS ents stk None tail).

Definition lexedContent (s : string) (ts : list xml.Token) : Prop :=
  forall stk tail,
    xml.stream uF uS ents stk None (s ++ String "<" tail)
    = feed ts (xml.stream uF uS ents stk None (String "<" tail)).

(** Markup that the decoder reads and the validator passes over, in the
    middle of any input. *)
Definition validMarkup (s : string) : Prop := exists ts, lexed s ts /\ accepted ts.

Definition validContent (s : string) : Prop := exists ts, lexedContent s ts /\ accepted ts.

End ValidPages.


(** A page with a macro whose body holds an element, a macro whose body
    holds an apostrophe, two lines separated by a carriage return and a
    line feed, a table with a macro in a cell and a code block. *)
Definition notePage : Page :=
  {| Blocks :=
       [BMacro {| Name := "info"; Params := <["title" := "Note"]> ∅;
                  Body := "<p>This is important</p>" |};
        BMacro {| Name := "note"; Params := ∅; Body := "it's ok" |};
        BParagraph {| Paragraph_Text := "a" ++ String CR (String LF "b") |};
        BTable {| Headers := ["h"];
                  Rows := [{| Cells := [{| Cell_Text := "x > y"; Cell_Macro := None |};
                                        {| Cell_Text := EmptyString;
                                           Cell_Macro :=
                                             Some {| Name := "status"; Params := ∅;
                                                     Body := "<b>done</b>" |} |}] |}] |};
        BCodeBlock {| Language := "go"; Code := "a < b" |}] |}.

(** A plain page: a heading, a table, and a macro whose body holds an
    apostrophe, a quote and [>]. *)
Definition quotedPage : Page :=
  {| Blocks :=
       [BHeading {| Level := 2; Heading_Text := "T" |};
        BTable {| Headers := ["a"];
                  Rows := [{| Cells := [{| Cell_Text := "b & c"; Cell_Macro := None |}] |}] |};
        BMacro {| Name := "info"; Params := <["title" := "Note"]> ∅;
                  Body := "it's ok: a > b, " ++ str1 dquote ++ "c" ++ str1 dquote |}] |}.

(* ================================================================== *)
(** * Properties *)

(* ================================================================== *)
(** ** Heading levels (C8) *)

Lemma itoa_digit (z : Z) : (1 <= z <= 6)%Z -> itoa z = digit z.
Proof.
  intros Hz.
  assert (z = 1 \/ z = 2 \/ z = 3 \/ z = 4 \/ z = 5 \/ z = 6)%Z as Hc by lia.
  destruct Hc as [-> | [-> | [-> | [-> | [-> | ->]]]]]; reflexivity.
Qed.

(** C8: [RenderBlock] on a heading fails exactly when the level is outside
    1..6, and for a level in 1..6 returns the escaped text between the
    opening and the closing tag of that level; no level is clamped or
    replaced by a default. *)
Theorem heading_render_bounds (ord : gmap string string -> list (string * string))
    (h : Heading) :
  ((exists e, RenderBlock ord (BHeading h) = Err e) <-> (Level h < 1 \/ 6 < Level h)%Z)
  /\ ((1 <= Level h <= 6)%Z ->
      RenderBlock ord (BHeading h)
      = Ok ("<h" ++ digit (Level h) ++ ">" ++ EscapeString (Heading_Text h)
            ++ "</h" ++ digit (Level h) ++ ">")).
Proof.
  cbn [RenderBlock]. unfold renderHeading.
  destruct (Level h <? 1)%Z eqn:Hlo; [| destruct (6 <? Level h)%Z eqn:Hhi]; cbn [orb].
  - apply Z.ltb_lt in Hlo. split; [split; [lia | eauto] | lia].
  - apply Z.ltb_lt in Hhi. split; [split; [lia | eauto] | lia].
  - apply Z.ltb_ge in Hlo. apply Z.ltb_ge in Hhi. split.
    + split; [intros [e He]; discriminate | lia].
    + intros Hr. rewrite (itoa_digit _ Hr). reflexivity.
Qed.

Lemma heading_render_bounds_witness :
  RenderBlock listOrder (BHeading {| Level := 3; Heading_Text := "a<b" |})
  = Ok "<h3>a&lt;b</h3>".
Proof.
  apply (proj2 (heading_render_bounds listOrder {| Level := 3; Heading_Text := "a<b" |})).
  cbn. lia.
Defined.

(* ================================================================== *)
(** ** The macro allow list (C7) *)

(** C7, as stated, fails: a macro whose name attribute is empty is in no
    allow list, and yet passes a non-empty one. *)
Lemma allowlist_passes_empty_name :
  (0 < size (AllowedMacros statusInfoOnly))%nat
  /\ AllowedMacros statusInfoOnly !! EmptyString = None
  /\ validateWith "<ac:structured-macro ac:name=''></ac:structured-macro>" statusInfoOnly
     = None.
Proof. split; [vm_compute; lia | split; vm_compute; reflexivity]. Qed.

(** C7, amended: at a [structured-macro] start tag that the forbidden tags
    let through, with a non-empty allow list, the validator fails with the
    macro name as tag when the first [name] attribute is non-empty and is
    not mapped to [true]; it goes on to the next token when that name is
    mapped to [true], and also when it is empty or missing. *)
Theorem macro_allowlist_check (opts : ValidatorOptions) (depth : Z) (found : bool)
    (n : xml.Name) (attr : list xml.Attr) (d : Decoder) :
  Local n = "structured-macro" ->
  index (ForbiddenTags opts) "structured-macro" = false ->
  (0 < size (AllowedMacros opts))%nat ->
  (getMacroName attr <> EmptyString ->
   index (AllowedMacros opts) (getMacroName attr) = false ->
   validate_loop opts depth found (Tok (StartElement n attr) d)
   = Some {| Message := "disallowed macro"; Tag := getMacroName attr |})
  /\ (getMacroName attr = EmptyString
      \/ index (AllowedMacros opts) (getMacroName attr) = true ->
      validate_loop opts depth found (Tok (StartElement n attr) d)
      = validate_loop opts depth found d).
Proof.
  intros Hn Hf Hsz. apply Nat.ltb_lt in Hsz.
  cbn [validate_loop]. rewrite Hn, Hf, Hsz. cbn [String.eqb Ascii.eqb Bool.eqb andb].
  split.
  - intros Hne Hidx. apply String.eqb_neq in Hne. rewrite Hne, Hidx. reflexivity.
  - intros [He | Hidx].
    + rewrite He. reflexivity.
    + rewrite Hidx, andb_false_r. reflexivity.
Qed.

Lemma macro_allowlist_check_witness :
  validate_loop statusInfoOnly 0 false
    (Tok (StartElement (tagged "structured-macro")
            [{| xml.AName := tagged "name"; xml.Value := "danger" |}]) EOF)
  = Some {| Message := "disallowed macro"; Tag := "danger" |}
  /\ validate_loop statusInfoOnly 0 false
       (Tok (StartElement (tagged "structured-macro")
               [{| xml.AName := tagged "name"; xml.Value := "status" |}]) EOF)
     = None.
Proof.
  split.
  - apply (macro_allowlist_check statusInfoOnly 0 false (tagged "structured-macro")
             [{| xml.AName := tagged "name"; xml.Value := "danger" |}] EOF);
      [reflexivity | reflexivity | vm_compute; lia | discriminate | reflexivity].
  - rewrite (proj2 (macro_allowlist_check statusInfoOnly 0 false
                      (tagged "structured-macro")
                      [{| xml.AName := tagged "name"; xml.Value := "status" |}] EOF
                      eq_refl eq_refl ltac:(vm_compute; lia)));
      [reflexivity | right; reflexivity].
Defined.

(* ================================================================== *)
(** ** The [tbody] flag (C4) *)

Lemma validate_quiet (opts : ValidatorOptions) (ts : list xml.Token) :
  forallb (quiet opts) ts = true ->
  forall depth found d,
    validate_loop opts depth found (feed ts d) = validate_loop opts depth found d.
Proof.
  induction ts as [| t ts IH]; intros Hq depth found d; [reflexivity |].
  cbn [forallb] in Hq. apply andb_true_iff in Hq as [Ht Hts].
  cbn [feed validate_loop]. destruct t as [n attr | n | | | |]; cbn [quiet] in Ht; auto.
  - repeat (apply andb_true_iff in Ht as [Ht ?]).
    repeat match goal with H : negb _ = true |- _ => apply negb_true_iff in H end.
    rewrite Ht. 
    match goal with H : (_ && _ && _ && _)%bool = false |- _ => rewrite H end.
    repeat match goal with H : String.eqb _ _ = false |- _ => rewrite H end.
    cbn. auto.
  - apply negb_true_iff in Ht. rewrite Ht. auto.
Qed.

(** C4, as stated, fails: in this input of the package tests the table
    closes without a [tbody], and the validator fails with the message of
    the row rule, not with the one the claim names. *)
Lemma table_without_tbody_row_message :
  validate "<table><tr><td>Data</td></tr></table>" = Some msgTrTbody
  /\ msgTrTbody <> msgTableTbody.
Proof. split; [vm_compute; reflexivity | discriminate]. Qed.

(** The flag is one variable, not one per table: a [tbody] of an inner
    table also counts for the table around it. *)
Lemma inner_tbody_counts_for_outer :
  validate "<table><table><tbody></tbody></table><tr><td>x</td></tr></table>" = None.
Proof. vm_compute. reflexivity. Qed.

(** C4, amended: the flag is cleared at every table start tag, whatever
    the state before it (a sibling or an enclosing table may have set it).
    When [tbody] is required and the content after the start tag is quiet,
    a table end tag met next fails with the table message, and a [tr]
    start tag met next inside a table fails, earlier, with the row
    message. *)
Theorem table_flag_cleared_at_start (opts : ValidatorOptions) (depth : Z) (found : bool)
    (n : xml.Name) (attr : list xml.Attr) (body : list xml.Token) (m : xml.Name)
    (mattr : list xml.Attr) (rest : Decoder) :
  RequireTableTbody opts = true ->
  Local n = "table" ->
  index (ForbiddenTags opts) "table" = false ->
  forallb (quiet opts) body = true ->
  (Local m = "table" ->
   validate_loop opts depth found
     (Tok (StartElement n attr) (feed body (Tok (EndElement m) rest)))
   = Some msgTableTbody)
  /\ (Local m = "tr" -> index (ForbiddenTags opts) "tr" = false -> (0 <= depth)%Z ->
      validate_loop opts depth found
        (Tok (StartElement n attr) (feed body (Tok (StartElement m mattr) rest)))
      = Some msgTrTbody).
Proof.
  intros Hreq Hn Hf Hq.
  assert (Hstart : forall d, validate_loop opts depth found (Tok (StartElement n attr) d)
                             = validate_loop opts (depth + 1) false d).
  { intros d. cbn [validate_loop]. rewrite Hn, Hf. cbn.
    destruct (0 <? depth + 1)%Z; rewrite ?Hreq; reflexivity. }
  split.
  - intros Hm. rewrite Hstart, (validate_quiet opts body Hq).
    cbn [validate_loop]. rewrite Hm, Hreq. reflexivity.
  - intros Hm Hftr Hd. rewrite Hstart, (validate_quiet opts body Hq).
    cbn [validate_loop]. rewrite Hm, Hftr. cbn.
    destruct (0 <? depth + 1)%Z eqn:Hp; [| apply Z.ltb_ge in Hp; lia].
    rewrite Hreq. reflexivity.
Qed.

Lemma table_flag_cleared_at_start_witness :
  validate_loop DefaultValidatorOptions 1 true
    (Tok (StartElement (tagged "table") [])
       (feed [CharData "x"] (Tok (EndElement (tagged "table")) EOF)))
  = Some msgTableTbody.
Proof.
  apply (proj1 (table_flag_cleared_at_start DefaultValidatorOptions 1 true
                  (tagged "table") [] [CharData "x"] (tagged "table") [] EOF
                  eq_refl eq_refl eq_refl eq_refl)).
  reflexivity.
Defined.

(* ================================================================== *)
(** ** The parser on trees

    On the tokens of well nested nodes every parsing function returns what
    the functions [macroOf], [cellOf], [rowOf], [tableOf], [flowText],
    [listItems] and [blocksOf] compute from the nodes. *)

Lemma Node_nested_ind (P : Node -> Prop) :
  (forall n a kids, Forall P kids -> P (Element n a kids)) ->
  (forall s, P (Chars s)) ->
  (forall s, P (CommentNode s)) ->
  (forall t i, P (ProcInstNode t i)) ->
  (forall s, P (DirectiveNode s)) ->
  forall n, P n.
Proof.
  intros HE HC HK HP HD.
  fix IH 1. intros [n a kids | s | s | t i | s];
    [| apply HC | apply HK | apply HP | apply HD].
  apply HE. induction kids as [| c r IHr]; constructor; [apply IH | exact IHr].
Qed.

Lemma tokens_Element n a kids k :
  tokens (Element n a kids) k = Tok (StartElement n a) (tokensList kids (Tok (EndElement n) k)).
Proof. reflexivity. Qed.

Lemma tokensList_cons c r k : tokensList (c :: r) k = tokens c (tokensList r k).
Proof. reflexivity. Qed.

Lemma tokensList_app l1 l2 k : tokensList (l1 ++ l2) k = tokensList l1 (tokensList l2 k).
Proof. unfold tokensList. apply fold_right_app. Qed.

Lemma skip_node (c : Node) :
  forall depth k, skipElement_loop (S depth) (tokens c k) = skipElement_loop (S depth) k.
Proof.
  induction c as [n a kids IH | | | |] using Node_nested_ind; intros depth k; try reflexivity.
  rewrite tokens_Element. cbn [skipElement_loop].
  revert depth. induction IH as [| c r Hc _ IHr]; intros depth.
  - reflexivity.
  - rewrite tokensList_cons, Hc. apply IHr.
Qed.

Lemma append_nil_r (s : string) : s ++ EmptyString = s.
Proof. induction s as [| c s IH]; cbn; [reflexivity | now rewrite IH]. Qed.

Lemma append_assoc (a b c : string) : (a ++ b) ++ c = a ++ (b ++ c).
Proof. induction a as [| x a IH]; cbn; [reflexivity | now rewrite IH]. Qed.

Lemma length_append (a b : string) :
  String.length (a ++ b) = (String.length a + String.length b)%nat.
Proof. induction a as [| x a IH]; cbn; [reflexivity | now rewrite IH]. Qed.

Lemma remaining_tokens (c : Node) :
  forall k, xml.remaining (tokens c k) = (ntokens c + xml.remaining k)%nat.
Proof.
  induction c as [n a kids IH | | | |] using Node_nested_ind; intros k; try reflexivity.
  rewrite tokens_Element. cbn [xml.remaining ntokens].
  assert (Hl : forall k', xml.remaining (tokensList kids k')
                          = (ntokensList kids + xml.remaining k')%nat).
  { induction IH as [| c r Hc _ IHr]; intros k'; [reflexivity |].
    rewrite tokensList_cons, Hc, IHr. cbn [ntokensList fold_right]. fold (ntokensList r). lia. }
  rewrite Hl. cbn [xml.remaining]. fold (ntokensList kids). lia.
Qed.

Lemma remaining_tokensList (l : list Node) (k : Decoder) :
  xml.remaining (tokensList l k) = (ntokensList l + xml.remaining k)%nat.
Proof.
  induction l as [| c r IH]; [reflexivity |].
  rewrite tokensList_cons, remaining_tokens, IH. cbn [ntokensList fold_right].
  fold (ntokensList r). lia.
Qed.

Lemma ntokensList_cons c r : ntokensList (c :: r) = (ntokens c + ntokensList r)%nat.
Proof. reflexivity. Qed.

Lemma ntokens_Element n a kids : ntokens (Element n a kids) = S (S (ntokensList kids)).
Proof. reflexivity. Qed.

Lemma ntokens_pos c : (1 <= ntokens c)%nat.
Proof. destruct c; cbn; lia. Qed.

Lemma skipElement_loop_0 (d : Decoder) : skipElement_loop 0 d = Ok (tt, d).
Proof. destruct d; reflexivity. Qed.

Lemma extractNestedText_loop_0 (content : string) (d : Decoder) :
  extractNestedText_loop 0 content d = Ok (TrimSpace content, d).
Proof. destruct d; reflexivity. Qed.

Lemma skip_nodes (l : list Node) :
  forall depth k, skipElement_loop (S depth) (tokensList l k) = skipElement_loop (S depth) k.
Proof.
  induction l as [| c r IH]; intros depth k; [reflexivity |].
  rewrite tokensList_cons, skip_node. apply IH.
Qed.

Lemma skipElement_children (kids : list Node) (n : xml.Name) (k : Decoder) :
  skipElement (tokensList kids (Tok (EndElement n) k)) = Ok (tt, k).
Proof.
  unfold skipElement. rewrite skip_nodes. cbn [skipElement_loop].
  apply skipElement_loop_0.
Qed.

Lemma allTextList_cons c r : allTextList (c :: r) = allText c ++ allTextList r.
Proof. reflexivity. Qed.

Lemma extract_node (c : Node) :
  forall depth content k,
    extractNestedText_loop (S depth) content (tokens c k)
    = extractNestedText_loop (S depth) (content ++ allText c) k.
Proof.
  induction c as [n a kids IH | | | |] using Node_nested_ind; intros depth content k;
    cbn [tokens extractNestedText_loop allText]; rewrite ?append_nil_r; try reflexivity.
  fold (tokensList kids (Tok (EndElement n) k)). fold (allTextList kids).
  revert depth content. induction IH as [| c r Hc _ IHr]; intros depth content.
  - cbn. now rewrite append_nil_r.
  - rewrite tokensList_cons, Hc, IHr, allTextList_cons, append_assoc. reflexivity.
Qed.

Lemma extract_nodes (l : list Node) :
  forall depth content k,
    extractNestedText_loop (S depth) content (tokensList l k)
    = extractNestedText_loop (S depth) (content ++ allTextList l) k.
Proof.
  induction l as [| c r IH]; intros depth content k.
  - cbn. now rewrite append_nil_r.
  - rewrite tokensList_cons, extract_node, IH, allTextList_cons, append_assoc. reflexivity.
Qed.

Lemma extractNestedText_children (kids : list Node) (n : xml.Name) (k : Decoder) :
  extractNestedText (tokensList kids (Tok (EndElement n) k))
  = Ok (TrimSpace (allTextList kids), k).
Proof.
  unfold extractNestedText. rewrite extract_nodes. cbn [extractNestedText_loop append].
  apply extractNestedText_loop_0.
Qed.

Lemma parseTextContent_children (kids : list Node) :
  forall fuel endTag content n k,
    Local n = endTag -> (length kids < fuel)%nat ->
    parseTextContent_loop fuel endTag content (tokensList kids (Tok (EndElement n) k))
    = Ok (TrimSpace (content ++ directText kids), k).
Proof.
  induction kids as [| c r IH]; intros fuel endTag content n k Hn Hf;
    (destruct fuel as [| fuel]; [cbn in Hf; lia |]).
  - cbn. rewrite Hn, String.eqb_refl, append_nil_r. reflexivity.
  - cbn [length] in Hf. rewrite tokensList_cons.
    destruct c as [cn ca ckids | s | s | t i | s]; cbn [directText].
    + rewrite tokens_Element. cbn [parseTextContent_loop].
      rewrite skipElement_children. cbn [bind]. apply IH; [assumption | lia].
    + cbn [tokens parseTextContent_loop]. rewrite IH by (assumption || lia).
      now rewrite append_assoc.
    + cbn [tokens parseTextContent_loop]. apply IH; [assumption | lia].
    + cbn [tokens parseTextContent_loop]. apply IH; [assumption | lia].
    + cbn [tokens parseTextContent_loop]. apply IH; [assumption | lia].
Qed.

Lemma length_le_ntokensList (l : list Node) : (length l <= ntokensList l)%nat.
Proof.
  induction l as [| c r IH]; [cbn; lia |].
  rewrite ntokensList_cons. cbn [length]. pose proof (ntokens_pos c). lia.
Qed.

Lemma parseMacro_children (kids : list Node) :
  forall fuel m n k,
    Local n = "structured-macro" -> (ntokensList kids < fuel)%nat ->
    parseMacro_loop fuel m (tokensList kids (Tok (EndElement n) k))
    = Ok (fold_left macroChild kids m, k).
Proof.
  induction kids as [| c r IH]; intros fuel m n k Hn Hf;
    (destruct fuel as [| fuel]; [cbn in Hf; lia |]).
  - cbn. rewrite Hn. reflexivity.
  - rewrite ntokensList_cons in Hf. pose proof (ntokens_pos c) as Hc.
    rewrite tokensList_cons.
    destruct c as [cn ca ckids | s | s | t i | s]; cbn [fold_left macroChild];
      try (cbn [tokens parseMacro_loop]; apply IH; [assumption | lia]).
    rewrite tokens_Element. rewrite ntokens_Element in Hf.
    pose proof (length_le_ntokensList ckids) as Hl.
    cbn [parseMacro_loop]. unfold parseTextContent, isBodyTag.
    destruct (String.eqb (Local cn) "parameter") eqn:Hp.
    + apply String.eqb_eq in Hp.
      rewrite parseTextContent_children by (assumption || lia). cbn [bind append].
      destruct (String.eqb (attrNamed ca EmptyString) EmptyString);
        apply IH; (assumption || lia).
    + destruct (String.eqb (Local cn) "rich-text-body" || String.eqb (Local cn) "plain-text-body").
      * rewrite parseTextContent_children by (reflexivity || lia). cbn [bind append].
        apply IH; (assumption || lia).
      * rewrite skipElement_children. cbn [bind]. apply IH; (assumption || lia).
Qed.

Lemma parseTableCell_children (kids : list Node) :
  forall fuel tagName macro content n k,
    Local n = tagName -> (ntokensList kids < fuel)%nat ->
    parseTableCell_loop fuel tagName macro content (tokensList kids (Tok (EndElement n) k))
    = Ok ({| Cell_Text := TrimSpace (snd (fold_left cellChild kids (macro, content)));
             Cell_Macro := fst (fold_left cellChild kids (macro, content)) |}, k).
Proof.
  induction kids as [| c r IH]; intros fuel tagName macro content n k Hn Hf;
    (destruct fuel as [| fuel]; [cbn in Hf; lia |]).
  - cbn. rewrite Hn, String.eqb_refl. reflexivity.
  - rewrite ntokensList_cons in Hf. pose proof (ntokens_pos c) as Hc.
    rewrite tokensList_cons.
    destruct c as [cn ca ckids | s | s | t i | s]; cbn [fold_left cellChild fst snd];
      try (cbn [tokens parseTableCell_loop]; apply IH; [assumption | lia]).
    rewrite tokens_Element. rewrite ntokens_Element in Hf.
    cbn [parseTableCell_loop].
    destruct (String.eqb (Local cn) "structured-macro") eqn:Hm.
    + apply String.eqb_eq in Hm. unfold parseMacro.
      rewrite parseMacro_children by (assumption || lia). cbn [bind].
      apply IH; (assumption || lia).
    + rewrite extractNestedText_children. cbn [bind].
      apply IH; (assumption || lia).
Qed.

Lemma parseTableRow_children (kids : list Node) :
  forall fuel row isHeader n k,
    Local n = "tr" -> (ntokensList kids < fuel)%nat ->
    parseTableRow_loop fuel row isHeader (tokensList kids (Tok (EndElement n) k))
    = Ok (fold_left rowChild kids (row, isHeader), k).
Proof.
  induction kids as [| c r IH]; intros fuel row isHeader n k Hn Hf;
    (destruct fuel as [| fuel]; [cbn in Hf; lia |]).
  - cbn. rewrite Hn. reflexivity.
  - rewrite ntokensList_cons in Hf. pose proof (ntokens_pos c) as Hc.
    rewrite tokensList_cons.
    destruct c as [cn ca ckids | s | s | t i | s]; cbn [fold_left rowChild fst snd];
      try (cbn [tokens parseTableRow_loop]; apply IH; [assumption | lia]).
    rewrite tokens_Element. rewrite ntokens_Element in Hf.
    cbn [parseTableRow_loop]. unfold parseTableCell.
    destruct (String.eqb (Local cn) "th") eqn:Hth;
      [| destruct (String.eqb (Local cn) "td") eqn:Htd].
    + apply String.eqb_eq in Hth.
      rewrite parseTableCell_children by (assumption || lia). cbn [bind].
      apply IH; (assumption || lia).
    + apply String.eqb_eq in Htd.
      rewrite parseTableCell_children by (assumption || lia). cbn [bind].
      apply IH; (assumption || lia).
    + rewrite skipElement_children. cbn [bind]. apply IH; (assumption || lia).
Qed.

Lemma parseTbody_children (kids : list Node) :
  forall fuel table n k,
    Local n = "tbody" -> (ntokensList kids < fuel)%nat ->
    parseTbody fuel (tokensList kids (Tok (EndElement n) k)) table
    = Ok (addRows table (parsedRows kids), k).
Proof.
  induction kids as [| c r IH]; intros fuel table n k Hn Hf;
    (destruct fuel as [| fuel]; [cbn in Hf; lia |]).
  - cbn. rewrite Hn. reflexivity.
  - rewrite ntokensList_cons in Hf. pose proof (ntokens_pos c) as Hc.
    rewrite tokensList_cons.
    destruct c as [cn ca ckids | s | s | t i | s]; cbn [parsedRows];
      try (cbn [tokens parseTbody]; apply IH; [assumption | lia]).
    rewrite tokens_Element. rewrite ntokens_Element in Hf.
    cbn [parseTbody]. unfold parseTableRow.
    destruct (String.eqb (Local cn) "tr") eqn:Htr.
    + apply String.eqb_eq in Htr.
      rewrite parseTableRow_children by (assumption || lia).
      fold (rowOf ckids). destruct (rowOf ckids) as [row h] eqn:Hrow. cbn [bind].
      rewrite IH by (assumption || lia). reflexivity.
    + rewrite skipElement_children. cbn [bind]. apply IH; (assumption || lia).
Qed.

Lemma addRows_app table l1 l2 : addRows table (l1 ++ l2) = addRows (addRows table l1) l2.
Proof. unfold addRows. apply fold_left_app. Qed.

Lemma parseTable_children (kids : list Node) :
  forall fuel table n k,
    Local n = "table" -> (ntokensList kids < fuel)%nat ->
    parseTable_loop fuel table (tokensList kids (Tok (EndElement n) k))
    = Ok (addRows table (tableRows kids), k).
Proof.
  induction kids as [| c r IH]; intros fuel table n k Hn Hf;
    (destruct fuel as [| fuel]; [cbn in Hf; lia |]).
  - cbn. rewrite Hn. reflexivity.
  - rewrite ntokensList_cons in Hf. pose proof (ntokens_pos c) as Hc.
    rewrite tokensList_cons.
    destruct c as [cn ca ckids | s | s | t i | s]; cbn [tableRows];
      try (cbn [tokens parseTable_loop]; apply IH; [assumption | lia]).
    rewrite tokens_Element. rewrite ntokens_Element in Hf.
    cbn [parseTable_loop]. unfold parseTableRow.
    destruct (String.eqb (Local cn) "tbody") eqn:Htb;
      [| destruct (String.eqb (Local cn) "tr") eqn:Htr].
    + apply String.eqb_eq in Htb.
      rewrite parseTbody_children by (assumption || lia). cbn [bind].
      rewrite IH by (assumption || lia). now rewrite addRows_app.
    + apply String.eqb_eq in Htr.
      rewrite parseTableRow_children by (assumption || lia).
      fold (rowOf ckids). destruct (rowOf ckids) as [row h] eqn:Hrow. cbn [bind].
      rewrite IH by (assumption || lia). reflexivity.
    + rewrite skipElement_children. cbn [bind]. apply IH; (assumption || lia).
Qed.

Lemma addRows_spec (rows : list (Row * bool)) :
  forall table,
    addRows table rows
    = {| Headers := Headers table ++ headerTexts rows;
         Rows := Rows table ++ dataRows rows |}.
Proof.
  unfold headerTexts, dataRows.
  induction rows as [| [row h] rows IH]; intros table.
  - cbn. rewrite !app_nil_r. now destruct table.
  - cbn [addRows fold_left fst snd]. fold (addRows (addRow table row h) rows).
    rewrite IH. unfold addRow. destruct h; cbn [List.filter snd fst negb flat_map map Headers Rows];
      rewrite <- ?app_assoc; reflexivity.
Qed.

Lemma parseTable_tree (kids : list Node) (fuel : nat) (n : xml.Name) (k : Decoder) :
  Local n = "table" -> (ntokensList kids < fuel)%nat ->
  parseTable fuel (tokensList kids (Tok (EndElement n) k)) = Ok (tableOf kids, k).
Proof.
  intros Hn Hf. unfold parseTable. rewrite parseTable_children by assumption.
  rewrite addRows_spec. reflexivity.
Qed.

Ltac flow_loop IH Hn :=
  match goal with
  | Hf : (length (?c :: _) < S _)%nat |- _ =>
      cbn [length] in Hf; rewrite tokensList_cons;
      destruct c as [cn ca ckids | s | s | t i | s]; cbn [fold_left flowChild];
      [ rewrite tokens_Element;
        cbn [parseParagraph_loop parseHeading_loop parseListItem_loop];
        rewrite extractNestedText_children; cbn [bind]
      | cbn [tokens parseParagraph_loop parseHeading_loop parseListItem_loop] ..];
      apply IH; (exact Hn || lia)
  end.

Lemma parseParagraph_children (kids : list Node) :
  forall fuel content n k,
    Local n = "p" -> (length kids < fuel)%nat ->
    parseParagraph_loop fuel content (tokensList kids (Tok (EndElement n) k))
    = Ok ({| Paragraph_Text := TrimSpace (fold_left flowChild kids content) |}, k).
Proof.
  induction kids as [| c r IH]; intros fuel content n k Hn Hf;
    (destruct fuel as [| fuel]; [cbn in Hf; lia |]).
  - cbn. rewrite Hn. reflexivity.
  - flow_loop IH Hn.
Qed.

Lemma parseHeading_children (kids : list Node) :
  forall fuel level content n k,
    HasPrefix (Local n) "h" = true -> (length kids < fuel)%nat ->
    parseHeading_loop fuel level content (tokensList kids (Tok (EndElement n) k))
    = Ok ({| Level := level; Heading_Text := TrimSpace (fold_left flowChild kids content) |}, k).
Proof.
  induction kids as [| c r IH]; intros fuel level content n k Hn Hf;
    (destruct fuel as [| fuel]; [cbn in Hf; lia |]).
  - cbn [tokensList fold_right parseHeading_loop fold_left]. rewrite Hn. reflexivity.
  - flow_loop IH Hn.
Qed.

Lemma parseListItem_children (kids : list Node) :
  forall fuel content n k,
    Local n = "li" -> (length kids < fuel)%nat ->
    parseListItem_loop fuel content (tokensList kids (Tok (EndElement n) k))
    = Ok ({| ListItem_Text := TrimSpace (fold_left flowChild kids content) |}, k).
Proof.
  induction kids as [| c r IH]; intros fuel content n k Hn Hf;
    (destruct fuel as [| fuel]; [cbn in Hf; lia |]).
  - cbn. rewrite Hn. reflexivity.
  - flow_loop IH Hn.
Qed.

Lemma parseList_children (kids : list Node) :
  forall fuel endTag items n k,
    Local n = endTag -> (ntokensList kids < fuel)%nat ->
    parseList_loop fuel endTag items (tokensList kids (Tok (EndElement n) k))
    = Ok ((items ++ listItems kids)%list, k).
Proof.
  induction kids as [| c r IH]; intros fuel endTag items n k Hn Hf;
    (destruct fuel as [| fuel]; [cbn in Hf; lia |]).
  - cbn. rewrite Hn, String.eqb_refl, app_nil_r. reflexivity.
  - rewrite ntokensList_cons in Hf. pose proof (ntokens_pos c) as Hc.
    rewrite tokensList_cons.
    destruct c as [cn ca ckids | s | s | t i | s]; cbn [listItems];
      try (cbn [tokens parseList_loop]; apply IH; [assumption | lia]).
    rewrite tokens_Element. rewrite ntokens_Element in Hf.
    pose proof (length_le_ntokensList ckids) as Hl.
    cbn [parseList_loop]. unfold parseListItem.
    destruct (String.eqb (Local cn) "li") eqn:Hli.
    + apply String.eqb_eq in Hli.
      rewrite parseListItem_children by (assumption || lia). cbn [bind].
      rewrite IH by (assumption || lia). rewrite <- app_assoc. reflexivity.
    + rewrite skipElement_children. cbn [bind]. apply IH; (assumption || lia).
Qed.

Lemma isHeadingTag_prefix (local : string) : isHeadingTag local = true -> HasPrefix local "h" = true.
Proof.
  unfold isHeadingTag. intros H.
  repeat (apply orb_true_iff in H as [H | H]); apply String.eqb_eq in H; subst; reflexivity.
Qed.

(** The result of [parseElement] at the start tag of an element that is
    neither [root] nor [hr]. *)
Lemma parseElement_tree (n : xml.Name) (attr : list xml.Attr) (kids : list Node)
    (fuel : nat) (k : Decoder) :
  String.eqb (Local n) "root" = false -> String.eqb (Local n) "hr" = false ->
  (ntokensList kids < fuel)%nat ->
  exists ob, parseElement fuel (tokensList kids (Tok (EndElement n) k)) n attr = Ok (ob, k)
             /\ blocksOf (Element n attr kids) = match ob with Some b => [b] | None => [] end.
Proof.
  intros Hroot Hhr Hf. pose proof (length_le_ntokensList kids) as Hl.
  unfold parseElement. cbn [blocksOf]. rewrite Hroot.
  destruct (String.eqb (Local n) "table") eqn:H1.
  { apply String.eqb_eq in H1. rewrite parseTable_tree by assumption. cbn [bind]. eauto. }
  destruct (String.eqb (Local n) "p") eqn:H2.
  { apply String.eqb_eq in H2. unfold parseParagraph.
    rewrite parseParagraph_children by (assumption || lia). cbn [bind]. eauto. }
  destruct (isHeadingTag (Local n)) eqn:H3.
  { unfold parseHeading.
    rewrite parseHeading_children by (auto using isHeadingTag_prefix || lia). cbn [bind]. eauto. }
  destruct (String.eqb (Local n) "ul") eqn:H4.
  { apply String.eqb_eq in H4. unfold parseBulletList.
    rewrite parseList_children by (assumption || lia). cbn [bind app]. eauto. }
  destruct (String.eqb (Local n) "ol") eqn:H5.
  { apply String.eqb_eq in H5. unfold parseNumberedList.
    rewrite parseList_children by (assumption || lia). cbn [bind app]. eauto. }
  rewrite Hhr.
  destruct (String.eqb (Local n) "structured-macro") eqn:H6.
  { apply String.eqb_eq in H6. unfold parseMacro.
    rewrite parseMacro_children by (assumption || lia). cbn [bind]. eauto. }
  rewrite skipElement_children. cbn [bind]. eauto.
Qed.

Lemma yields_EOF : yields EOF [].
Proof.
  intros fuel blocks Hf. destruct fuel; [cbn in Hf; lia |]. cbn. now rewrite app_nil_r.
Qed.

Lemma yields_end (n : xml.Name) (k : Decoder) (B : list Block) :
  yields k B -> yields (Tok (EndElement n) k) B.
Proof.
  intros Hk fuel blocks Hf. destruct fuel; cbn [xml.remaining] in Hf; [lia |].
  cbn [Parse_loop]. apply Hk. lia.
Qed.

Lemma yields_node (c : Node) :
  forall k B, yields k B -> yields (tokens c k) (blocksOf c ++ B)%list.
Proof.
  induction c as [n a kids IH | | | |] using Node_nested_ind; intros k B Hk;
    try (intros fuel blocks Hf; destruct fuel; cbn [xml.remaining tokens] in Hf; [lia |];
         cbn [tokens Parse_loop blocksOf app]; apply Hk; lia).
  assert (Hkids : forall k' B', yields k' B' ->
                    yields (tokensList kids k') (flat_map blocksOf kids ++ B')%list).
  { clear Hk. induction IH as [| c r Hc _ IHr]; intros k' B' Hk'; [exact Hk' |].
    rewrite tokensList_cons. cbn [flat_map]. rewrite <- app_assoc. apply Hc, IHr, Hk'. }
  intros fuel blocks Hf. rewrite tokens_Element in *.
  destruct fuel; cbn [xml.remaining] in Hf; [lia |].
  rewrite remaining_tokensList in Hf. cbn [xml.remaining] in Hf.
  cbn [Parse_loop].
  destruct (String.eqb (Local n) "root") eqn:Hroot.
  { unfold parseElement. rewrite Hroot. cbn [bind blocksOf]. rewrite Hroot.
    apply (Hkids _ _ (yields_end n k B Hk)).
    rewrite remaining_tokensList. cbn [xml.remaining]. lia. }
  destruct (String.eqb (Local n) "hr") eqn:Hhr.
  { apply String.eqb_eq in Hhr. unfold parseElement. rewrite Hhr. cbn [bind blocksOf String.eqb Ascii.eqb Bool.eqb isHeadingTag orb].
    rewrite Hhr. cbn [String.eqb Ascii.eqb Bool.eqb isHeadingTag orb].
    rewrite (Hkids _ _ (yields_end n k B Hk))
      by (rewrite remaining_tokensList; cbn [xml.remaining]; lia).
    cbn [app]. rewrite <- app_assoc. reflexivity. }
  destruct (parseElement_tree n a kids fuel k Hroot Hhr ltac:(lia)) as (ob & Hpe & Hb).
  rewrite Hpe, Hb. cbn [bind]. rewrite Hk by lia.
  destruct ob; cbn [app]; rewrite <- ?app_assoc; reflexivity.
Qed.

(** [Parse] on the tokens of a sequence of nodes returns their blocks. *)
Lemma ParseTokens_tree (nodes : list Node) :
  ParseTokens (tokensList nodes EOF) = Ok {| Blocks := flat_map blocksOf nodes |}.
Proof.
  unfold ParseTokens.
  assert (H : yields (tokensList nodes EOF) (flat_map blocksOf nodes ++ [])%list).
  { induction nodes as [| c r IH]; [apply yields_EOF |].
    rewrite tokensList_cons. cbn [flat_map]. rewrite <- app_assoc. apply yields_node, IH. }
  rewrite app_nil_r in H. apply (H _ []). lia.
Qed.

(* ================================================================== *)
(** ** Header rows (C3) *)

Lemma rowOf_flag_aux (kids : list Node) :
  forall row h, snd (fold_left rowChild kids (row, h)) = h || existsb isTh kids.
Proof.
  induction kids as [| c r IH]; intros row h; cbn [fold_left existsb].
  - now rewrite orb_false_r.
  - destruct c as [n a ckids | | | |]; cbn [rowChild isTh fst snd]; rewrite ?IH; try reflexivity.
    destruct (String.eqb (Local n) "th"); [| destruct (String.eqb (Local n) "td")];
      rewrite IH; cbn [orb]; rewrite ?orb_true_r; reflexivity.
Qed.

(** C3, as stated, fails: with two header rows the headers are those of
    both rows, not those of the last one. *)
Lemma two_header_rows_both_kept :
  parse "<table><tbody><tr><th>A</th></tr><tr><th>B</th></tr><tr><td>c</td></tr></tbody></table>"
  = Ok {| Blocks :=
            [BTable {| Headers := ["A"; "B"];
                       Rows := [{| Cells := [{| Cell_Text := "c"; Cell_Macro := None |}] |}] |}] |}.
Proof. vm_compute. reflexivity. Qed.

(** C3, amended: [Parse] appends the cell texts of every row that has a
    [th] cell to the headers, in the order of the rows and of the cells (so
    the headers of several such rows are concatenated, none is
    overwritten); every row without [th] cell is appended to the rows in
    the order met.  A row has the header flag exactly when one of its
    children is a [th] element. *)
Theorem headers_appended_in_order (root tbl : xml.Name) (rattr tattr : list xml.Attr)
    (kids : list Node) :
  Local root = "root" -> Local tbl = "table" ->
  ParseTokens (tokens (Element root rattr [Element tbl tattr kids]) EOF)
  = Ok {| Blocks := [BTable {| Headers := headerTexts (tableRows kids);
                               Rows := dataRows (tableRows kids) |}] |}
  /\ (forall cells : list Node, snd (rowOf cells) = existsb isTh cells).
Proof.
  intros Hroot Htbl. split.
  - change (tokens (Element root rattr [Element tbl tattr kids]) EOF)
      with (tokensList [Element root rattr [Element tbl tattr kids]] EOF).
    rewrite ParseTokens_tree. cbn [flat_map blocksOf]. rewrite Hroot, Htbl.
    reflexivity.
  - intros cells. unfold rowOf. now rewrite rowOf_flag_aux.
Qed.

Lemma headers_appended_in_order_witness :
  ParseTokens
    (tokens (Element (tagged "root") []
               [Element (tagged "table") []
                  [Element (tagged "tbody") []
                     [Element (tagged "tr") [] [Element (tagged "th") [] [Chars "A"]];
                      Element (tagged "tr") [] [Element (tagged "td") [] [Chars "c"]];
                      Element (tagged "tr") []
                        [Element (tagged "td") [] [Chars "B"];
                         Element (tagged "th") [] [Chars "C"]]]]]) EOF)
  = Ok {| Blocks :=
            [BTable {| Headers := ["A"; "B"; "C"];
                       Rows := [{| Cells := [{| Cell_Text := "c"; Cell_Macro := None |}] |}] |}] |}.
Proof.
  apply (proj1 (headers_appended_in_order (tagged "root") (tagged "table") [] []
                  [Element (tagged "tbody") []
                     [Element (tagged "tr") [] [Element (tagged "th") [] [Chars "A"]];
                      Element (tagged "tr") [] [Element (tagged "td") [] [Chars "c"]];
                      Element (tagged "tr") []
                        [Element (tagged "td") [] [Chars "B"];
                         Element (tagged "th") [] [Chars "C"]]]]
                  eq_refl eq_refl)).
Defined.

(* ================================================================== *)
(** ** Cells with text and macro (C5) *)

(** C5: the code breaks the claim.  For a cell that holds the text [ok]
    and a [status] macro, [Parse] returns a cell with both fields set:
    [parseTableCell] stores the macro and still gathers the text.  The
    rest of the code takes the two fields as exclusive, as the comment of
    the type [Cell] says ("text or a macro"): [renderCell] writes the
    macro alone, so rendering the parsed page gives what the page without
    the text gives, and the text is lost. *)
Theorem cell_with_text_and_macro :
  parse "<table><tbody><tr><td>ok <ac:structured-macro ac:name='status'></ac:structured-macro></td></tr></tbody></table>"
  = Ok {| Blocks := [BTable {| Headers := []; Rows := [{| Cells := [textAndMacro] |}] |}] |}
  /\ Cell_Text textAndMacro = "ok"
  /\ Cell_Macro textAndMacro
     = Some {| Name := "status"; Params := ∅; Body := EmptyString |}
  /\ render {| Blocks := [BTable {| Headers := []; Rows := [{| Cells := [textAndMacro] |}] |}] |}
     = render {| Blocks := [BTable {| Headers := [];
                                      Rows := [{| Cells := [normCell textAndMacro] |}] |}] |}.
Proof. repeat split; vm_compute; reflexivity. Qed.

Lemma cellChild_noText (kids : list Node) :
  Forall (fun c => noText c = true) kids ->
  forall acc, fold_left cellChild kids (acc, EmptyString) = (lastMacro acc kids, EmptyString).
Proof.
  induction 1 as [| c r Hc _ IH]; intros acc; [reflexivity |].
  cbn [fold_left lastMacro].
  destruct c as [n a ckids | | | |]; cbn [noText cellChild fst snd] in *;
    try discriminate; try apply IH.
  rewrite Hc. apply IH.
Qed.

(** Where the claim does hold: a cell whose children are
    [structured-macro] elements only (comments and the like apart) has an
    empty text, and its macro is the one of the last such child. *)
Lemma macro_only_cell_has_empty_text (root tbl tb tr td : xml.Name)
    (rattr tattr battr trattr tdattr : list xml.Attr) (kids : list Node) :
  Local root = "root" -> Local tbl = "table" -> Local tb = "tbody" ->
  Local tr = "tr" -> Local td = "td" ->
  Forall (fun c => noText c = true) kids ->
  ParseTokens
    (tokens (Element root rattr
               [Element tbl tattr
                  [Element tb battr [Element tr trattr [Element td tdattr kids]]]]) EOF)
  = Ok {| Blocks :=
            [BTable {| Headers := [];
                       Rows := [{| Cells := [{| Cell_Text := EmptyString;
                                                Cell_Macro := lastMacro None kids |}] |}] |}] |}.
Proof.
  intros Hroot Htbl Htb Htr Htd Hkids.
  match goal with |- ParseTokens (tokens ?e EOF) = _ =>
    change (tokens e EOF) with (tokensList [e] EOF) end.
  rewrite ParseTokens_tree. cbn [flat_map blocksOf]. rewrite Hroot, Htbl.
  cbn [String.eqb Ascii.eqb Bool.eqb app].
  unfold tableOf. cbn [tableRows]. rewrite Htb. cbn [parsedRows]. rewrite Htr.
  unfold rowOf. cbn [fold_left rowChild]. rewrite Htd.
  cbn [String.eqb Ascii.eqb Bool.eqb fst snd Cells app].
  unfold cellOf. rewrite (cellChild_noText kids Hkids). reflexivity.
Qed.

Lemma macro_only_cell_has_empty_text_witness :
  ParseTokens
    (tokens (Element (tagged "root") []
               [Element (tagged "table") []
                  [Element (tagged "tbody") []
                     [Element (tagged "tr") []
                        [Element (tagged "td") []
                           [Element (tagged "structured-macro")
                              [{| xml.AName := tagged "name"; xml.Value := "status" |}] []]]]]]) EOF)
  = Ok {| Blocks :=
            [BTable {| Headers := [];
                       Rows := [{| Cells :=
                                     [{| Cell_Text := EmptyString;
                                         Cell_Macro := Some {| Name := "status"; Params := ∅;
                                                               Body := EmptyString |} |}] |}] |}] |}.
Proof.
  apply (macro_only_cell_has_empty_text (tagged "root") (tagged "table") (tagged "tbody")
           (tagged "tr") (tagged "td") [] [] [] [] []
           [Element (tagged "structured-macro")
              [{| xml.AName := tagged "name"; xml.Value := "status" |}] []]
           eq_refl eq_refl eq_refl eq_refl eq_refl).
  repeat constructor.
Defined.

(* ================================================================== *)
(** ** Macro bodies (C6) *)

(** C6, as stated, fails: the text inside an element of the body is not
    flattened into the body of the macro, it is skipped. *)
Lemma macro_body_nested_text_skipped :
  parse "<ac:structured-macro ac:name='info'><ac:rich-text-body><p>Hi</p> there</ac:rich-text-body></ac:structured-macro>"
  = Ok {| Blocks := [BMacro {| Name := "info"; Params := ∅; Body := "there" |}] |}.
Proof. vm_compute. reflexivity. Qed.

Lemma macroChild_Body_other (post : list Node) :
  Forall (fun c => isBody c = false) post ->
  forall m, Body (fold_left macroChild post m) = Body m.
Proof.
  induction 1 as [| c r Hc _ IH]; intros m; [reflexivity |].
  cbn [fold_left]. rewrite IH.
  destruct c as [n a ckids | | | |]; cbn [macroChild isBody] in *; try reflexivity.
  rewrite Hc. destruct (String.eqb (Local n) "parameter"); [| reflexivity].
  destruct (String.eqb (attrNamed a EmptyString) EmptyString); reflexivity.
Qed.

(** C6, amended: the body of a parsed macro is the trimmed concatenation
    of the character data that are children of its last [rich-text-body] or
    [plain-text-body] child; the elements inside that child are skipped
    together with the text they hold. *)
Theorem macro_body_is_direct_text (root mname bname : xml.Name)
    (rattr mattr battr : list xml.Attr) (pre bkids post : list Node) :
  Local root = "root" -> Local mname = "structured-macro" ->
  isBodyTag (Local bname) = true ->
  Forall (fun c => isBody c = false) post ->
  exists m,
    ParseTokens
      (tokens (Element root rattr
                 [Element mname mattr (pre ++ Element bname battr bkids :: post)]) EOF)
    = Ok {| Blocks := [BMacro m] |}
    /\ Body m = TrimSpace (directText bkids).
Proof.
  intros Hroot Hm Hb Hpost.
  exists (macroOf mattr (pre ++ Element bname battr bkids :: post)). split.
  - match goal with |- ParseTokens (tokens ?e EOF) = _ =>
      change (tokens e EOF) with (tokensList [e] EOF) end.
    rewrite ParseTokens_tree. cbn [flat_map blocksOf]. rewrite Hroot, Hm. reflexivity.
  - unfold macroOf. rewrite fold_left_app. cbn [fold_left].
    rewrite (macroChild_Body_other post Hpost). cbn [macroChild].
    assert (Hp : String.eqb (Local bname) "parameter" = false).
    { unfold isBodyTag in Hb. apply orb_true_iff in Hb as [Hb | Hb];
        apply String.eqb_eq in Hb; rewrite Hb; reflexivity. }
    rewrite Hp, Hb. reflexivity.
Qed.

Lemma macro_body_is_direct_text_witness :
  exists m,
    ParseTokens
      (tokens (Element (tagged "root") []
                 [Element (tagged "structured-macro") []
                    ([] ++ Element (tagged "rich-text-body") []
                              [Element (tagged "p") [] [Chars "Hi"]; Chars " there"] :: [])]) EOF)
    = Ok {| Blocks := [BMacro m] |}
    /\ Body m = TrimSpace (directText [Element (tagged "p") [] [Chars "Hi"]; Chars " there"]).
Proof.
  apply (macro_body_is_direct_text (tagged "root") (tagged "structured-macro")
           (tagged "rich-text-body") [] [] [] []
           [Element (tagged "p") [] [Chars "Hi"]; Chars " there"] []
           eq_refl eq_refl eq_refl).
  constructor.
Defined.

(* ================================================================== *)
(** ** [TrimSpace] leaves no white space at either end *)

Lemma rev_onto_app (s acc : string) : rev_onto s acc = srev s ++ acc.
Proof.
  unfold srev. revert acc. induction s as [| c s IH]; intros acc; cbn [rev_onto].
  - reflexivity.
  - rewrite IH, (IH (String c EmptyString)), append_assoc. reflexivity.
Qed.

Lemma srev_cons (c : ascii) (s : string) : srev (String c s) = srev s ++ str1 c.
Proof. unfold srev at 1. cbn [rev_onto]. apply rev_onto_app. Qed.

Lemma srev_app (a b : string) : srev (a ++ b) = srev b ++ srev a.
Proof.
  induction a as [| c a IH]; cbn [append].
  - now rewrite append_nil_r.
  - rewrite !srev_cons, IH, append_assoc. reflexivity.
Qed.

Lemma srev_involutive (s : string) : srev (srev s) = s.
Proof.
  induction s as [| c s IH]; [reflexivity |].
  rewrite srev_cons, srev_app, IH. reflexivity.
Qed.

Lemma TrimLeftSpace_bounded (n : nat) :
  forall s, (String.length s <= n)%nat -> leadingSpace (TrimLeftSpace s) = O.
Proof.
  induction n as [| n IH]; intros s Hs.
  - destruct s; [reflexivity | cbn in Hs; lia].
  - destruct s as [| a t1]; [reflexivity |]. cbn [String.length] in Hs.
    cbn [TrimLeftSpace]. destruct (asciiSpace a) eqn:Ha; [apply IH; lia |].
    destruct t1 as [| b t2]; [cbn; now rewrite Ha |]. cbn [String.length] in Hs.
    destruct (space2 a b) eqn:Hab; [apply IH; lia |].
    destruct t2 as [| c t3]; [cbn; now rewrite Ha, Hab |]. cbn [String.length] in Hs.
    destruct (space3 a b c) eqn:Habc; [apply IH; lia |].
    cbn. now rewrite Ha, Hab, Habc.
Qed.

Lemma TrimLeftSpace_leading (s : string) : leadingSpace (TrimLeftSpace s) = O.
Proof. apply (TrimLeftSpace_bounded (String.length s)). lia. Qed.

Lemma TrimRightSpaceRev_bounded (n : nat) :
  forall r, (String.length r <= n)%nat ->
    trailingSpaceRev (TrimRightSpaceRev r) = O
    /\ exists q, r = q ++ TrimRightSpaceRev r.
Proof.
  induction n as [| n IH]; intros r Hr.
  - destruct r; [split; [reflexivity | now exists EmptyString] | cbn in Hr; lia].
  - destruct r as [| c t1]; [split; [reflexivity | now exists EmptyString] |].
    cbn [String.length] in Hr. cbn [TrimRightSpaceRev].
    destruct (asciiSpace c) eqn:Hc.
    { destruct (IH t1 ltac:(lia)) as [H0 [q Hq]]. split; [exact H0 |].
      exists (String c q). cbn [append]. now rewrite <- Hq. }
    destruct t1 as [| b t2].
    { split; [cbn; now rewrite Hc | now exists EmptyString]. }
    cbn [String.length] in Hr.
    destruct (space2 b c) eqn:Hbc.
    { destruct (IH t2 ltac:(lia)) as [H0 [q Hq]]. split; [exact H0 |].
      exists (String c (String b q)). cbn [append]. now rewrite <- Hq. }
    destruct t2 as [| a t3].
    { split; [cbn; now rewrite Hc, Hbc | now exists EmptyString]. }
    cbn [String.length] in Hr.
    destruct (space3 a b c) eqn:Habc.
    { destruct (IH t3 ltac:(lia)) as [H0 [q Hq]]. split; [exact H0 |].
      exists (String c (String b (String a q))). cbn [append]. now rewrite <- Hq. }
    split; [cbn; now rewrite Hc, Hbc, Habc | now exists EmptyString].
Qed.

Lemma leadingSpace_prefix (p q : string) : leadingSpace (p ++ q) = O -> leadingSpace p = O.
Proof.
  destruct p as [| a [| b [| c p]]]; cbn [append leadingSpace]; try reflexivity.
  - destruct (asciiSpace a); [discriminate | reflexivity].
  - destruct (asciiSpace a); [discriminate |].
    destruct (space2 a b); [discriminate | reflexivity].
  - auto.
Qed.

(** The result of [TrimSpace] neither starts nor ends with white space. *)
Lemma TrimSpace_trimmed (s : string) : trimmed (TrimSpace s).
Proof.
  unfold trimmed, TrimSpace, TrimRightSpace.
  destruct (TrimRightSpaceRev_bounded _ (srev (TrimLeftSpace s)) (Nat.le_refl _))
    as [Ht [q Hq]].
  split.
  - apply (leadingSpace_prefix _ (srev q)).
    rewrite <- srev_app, <- Hq, srev_involutive. apply TrimLeftSpace_leading.
  - now rewrite srev_involutive.
Qed.

(* ================================================================== *)
(** ** The parser on a strict decoder (C9) *)

Lemma name_eqb_Local (a b : xml.Name) : xml.name_eqb a b = true -> Local b = Local a.
Proof.
  unfold xml.name_eqb. intros H. apply andb_true_iff in H as [_ H].
  apply String.eqb_eq in H. now symmetry.
Qed.

Lemma skipElement_balanced (d : Decoder) :
  forall depth pre stk r,
    length pre = depth -> xml.balanced (pre ++ stk) d = true ->
    skipElement_loop depth d = Ok r -> xml.balanced stk (snd r) = true.
Proof.
  induction d as [| e | t d IH]; intros depth pre stk r Hl Hb Hr.
  - destruct depth; [| destruct pre; [discriminate | cbn in Hb; discriminate]].
    destruct pre; [| discriminate]. cbn in Hr. now inversion Hr.
  - destruct depth; [| discriminate]. destruct pre; [| discriminate].
    cbn in Hr. now inversion Hr.
  - destruct depth as [| k].
    + destruct pre; [| discriminate]. cbn in Hr. now inversion Hr.
    + cbn [skipElement_loop] in Hr. destruct t as [n a | n | | | |]; cbn [xml.balanced] in Hb.
      * apply (IH (S (S k)) (n :: pre) stk r); [cbn; lia | exact Hb | exact Hr].
      * destruct pre as [| top pre]; [discriminate |]. cbn [app] in Hb.
        apply andb_true_iff in Hb as [_ Hb]. cbn [length] in Hl.
        apply (IH k pre stk r); [lia | exact Hb | exact Hr].
      * apply (IH (S k) pre stk r); assumption.
      * apply (IH (S k) pre stk r); assumption.
      * apply (IH (S k) pre stk r); assumption.
      * apply (IH (S k) pre stk r); assumption.
Qed.

Lemma extractNestedText_balanced (d : Decoder) :
  forall depth content pre stk r,
    length pre = depth -> xml.balanced (pre ++ stk) d = true ->
    extractNestedText_loop depth content d = Ok r -> xml.balanced stk (snd r) = true.
Proof.
  induction d as [| e | t d IH]; intros depth content pre stk r Hl Hb Hr.
  - destruct depth; [| destruct pre; [discriminate | cbn in Hb; discriminate]].
    destruct pre; [| discriminate]. cbn in Hr. now inversion Hr.
  - destruct depth; [| discriminate]. destruct pre; [| discriminate].
    cbn in Hr. now inversion Hr.
  - destruct depth as [| k].
    + destruct pre; [| discriminate]. cbn in Hr. now inversion Hr.
    + cbn [extractNestedText_loop] in Hr.
      destruct t as [n a | n | | | |]; cbn [xml.balanced] in Hb.
      * apply (IH (S (S k)) content (n :: pre) stk r); [cbn; lia | exact Hb | exact Hr].
      * destruct pre as [| top pre]; [discriminate |]. cbn [app] in Hb.
        apply andb_true_iff in Hb as [_ Hb]. cbn [length] in Hl.
        apply (IH k content pre stk r); [lia | exact Hb | exact Hr].
      * eapply (IH (S k)); eassumption.
      * eapply (IH (S k)); eassumption.
      * eapply (IH (S k)); eassumption.
      * eapply (IH (S k)); eassumption.
Qed.

Lemma skipElement_inside (n : xml.Name) (stk : list xml.Name) (d d' : Decoder) (u : unit) :
  xml.balanced (n :: stk) d = true -> skipElement d = Ok (u, d') ->
  xml.balanced stk d' = true.
Proof.
  intros Hb Hr. apply (skipElement_balanced d 1 [n] stk (u, d') eq_refl Hb Hr).
Qed.

Lemma extractNestedText_inside (n : xml.Name) (stk : list xml.Name) (d d' : Decoder)
    (x : string) :
  xml.balanced (n :: stk) d = true -> extractNestedText d = Ok (x, d') ->
  xml.balanced stk d' = true.
Proof.
  intros Hb Hr. apply (extractNestedText_balanced d 1 _ [n] stk (x, d') eq_refl Hb Hr).
Qed.

(** Steps shared by the loops: the decoder cannot be at [io.EOF] inside an
    element, and the results of the calls made so far are named. *)
Ltac bind_ok H :=
  match type of H with
  | bind ?m _ = Ok _ =>
      let E := fresh "Hcall" in
      destruct m as [[? ?] | |] eqn:E; cbn [bind] in H; [| discriminate H ..]
  end.

Ltac loop_start fuel d IH :=
  induction fuel as [| fuel IH]; [discriminate |];
  intros until d; destruct d as [| e | t d];
  [ cbn [xml.balanced]; discriminate | discriminate | ].

Lemma parseTextContent_balanced (fuel : nat) :
  forall endTag content top stk d x d',
    xml.balanced (top :: stk) d = true -> Local top = endTag ->
    parseTextContent_loop fuel endTag content d = Ok (x, d') ->
    xml.balanced stk d' = true.
Proof.
  induction fuel as [| fuel IH]; [discriminate |].
  intros endTag content top stk d x d' Hb Ht Hr.
  destruct d as [| e | t d]; [discriminate | discriminate |].
  cbn [parseTextContent_loop] in Hr. destruct t as [n a | n | | | |]; cbn [xml.balanced] in Hb;
    try (eapply IH; eassumption).
  - bind_ok Hr. eapply IH; [| eassumption | eassumption].
    eapply skipElement_inside; eassumption.
  - apply andb_true_iff in Hb as [Hn Hb]. apply name_eqb_Local in Hn.
    rewrite Hn, Ht, String.eqb_refl in Hr. now inversion Hr; subst.
Qed.

Lemma parseMacro_balanced (fuel : nat) :
  forall m top stk d m' d',
    xml.balanced (top :: stk) d = true -> Local top = "structured-macro" ->
    parseMacro_loop fuel m d = Ok (m', d') ->
    xml.balanced stk d' = true.
Proof.
  induction fuel as [| fuel IH]; [discriminate |].
  intros m top stk d m' d' Hb Ht Hr.
  destruct d as [| e | t d]; [discriminate | discriminate |].
  cbn [parseMacro_loop] in Hr. destruct t as [n a | n | | | |]; cbn [xml.balanced] in Hb;
    try (eapply IH; eassumption).
  - unfold parseTextContent in Hr.
    destruct (String.eqb (Local n) "parameter") eqn:Hp;
      [| destruct (String.eqb (Local n) "rich-text-body" || String.eqb (Local n) "plain-text-body")];
      bind_ok Hr; (eapply IH; [| eassumption | eassumption]).
    + apply String.eqb_eq in Hp. eapply parseTextContent_balanced; eassumption.
    + eapply parseTextContent_balanced; [eassumption | reflexivity | eassumption].
    + eapply skipElement_inside; eassumption.
  - apply andb_true_iff in Hb as [Hn Hb]. apply name_eqb_Local in Hn.
    rewrite Hn, Ht in Hr. cbn in Hr. now inversion Hr; subst.
Qed.

Lemma parseTableCell_balanced (fuel : nat) :
  forall tagName macro content top stk d c d',
    xml.balanced (top :: stk) d = true -> Local top = tagName ->
    parseTableCell_loop fuel tagName macro content d = Ok (c, d') ->
    cellTrimmed c /\ xml.balanced stk d' = true.
Proof.
  induction fuel as [| fuel IH]; [discriminate |].
  intros tagName macro content top stk d c d' Hb Ht Hr.
  destruct d as [| e | t d]; [discriminate | discriminate |].
  cbn [parseTableCell_loop] in Hr. destruct t as [n a | n | | | |]; cbn [xml.balanced] in Hb;
    try (eapply IH; eassumption).
  - destruct (String.eqb (Local n) "structured-macro") eqn:Hm;
      bind_ok Hr; (eapply IH; [| eassumption | eassumption]).
    + apply String.eqb_eq in Hm. eapply parseMacro_balanced; eassumption.
    + eapply extractNestedText_inside; eassumption.
  - apply andb_true_iff in Hb as [Hn Hb]. apply name_eqb_Local in Hn.
    rewrite Hn, Ht, String.eqb_refl in Hr. inversion Hr; subst.
    split; [apply TrimSpace_trimmed | exact Hb].
Qed.

Lemma parseTableRow_balanced (fuel : nat) :
  forall row h top stk d row' h' d',
    xml.balanced (top :: stk) d = true -> Local top = "tr" -> rowTrimmed row ->
    parseTableRow_loop fuel row h d = Ok (row', h', d') ->
    rowTrimmed row' /\ xml.balanced stk d' = true.
Proof.
  induction fuel as [| fuel IH]; [discriminate |].
  intros row h top stk d row' h' d' Hb Ht Hrow Hr.
  destruct d as [| e | t d]; [discriminate | discriminate |].
  cbn [parseTableRow_loop] in Hr. destruct t as [n a | n | | | |]; cbn [xml.balanced] in Hb;
    try (eapply IH; eassumption).
  - unfold parseTableCell in Hr.
    destruct (String.eqb (Local n) "th") eqn:Hth;
      [| destruct (String.eqb (Local n) "td") eqn:Htd]; bind_ok Hr.
    + apply String.eqb_eq in Hth.
      destruct (parseTableCell_balanced _ _ _ _ _ _ _ _ _ Hb Hth Hcall) as [Hc Hb'].
      eapply IH; [exact Hb' | exact Ht | | exact Hr].
      unfold rowTrimmed in *. cbn [Cells]. apply Forall_app; split; [exact Hrow | now constructor].
    + apply String.eqb_eq in Htd.
      destruct (parseTableCell_balanced _ _ _ _ _ _ _ _ _ Hb Htd Hcall) as [Hc Hb'].
      eapply IH; [exact Hb' | exact Ht | | exact Hr].
      unfold rowTrimmed in *. cbn [Cells]. apply Forall_app; split; [exact Hrow | now constructor].
    + eapply IH; [| eassumption | eassumption | eassumption].
      eapply skipElement_inside; eassumption.
  - apply andb_true_iff in Hb as [Hn Hb]. apply name_eqb_Local in Hn.
    rewrite Hn, Ht in Hr. cbn in Hr. inversion Hr; subst. now split.
Qed.

Lemma rowTrimmed_nil : rowTrimmed {| Cells := [] |}.
Proof. constructor. Qed.

Lemma addRow_trimmed (table : Table) (row : Row) (h : bool) :
  tableTrimmed table -> rowTrimmed row -> tableTrimmed (addRow table row h).
Proof.
  intros [Hh Hr] Hrow. unfold addRow, tableTrimmed. destruct h; cbn [Headers Rows]; split;
    try assumption.
  - apply Forall_app; split; [exact Hh |].
    unfold rowTrimmed in Hrow. induction Hrow; cbn [map]; constructor; assumption.
  - apply Forall_app; split; [exact Hr | now constructor].
Qed.

Lemma parseTbody_balanced (fuel : nat) :
  forall table top stk d table' d',
    xml.balanced (top :: stk) d = true -> Local top = "tbody" -> tableTrimmed table ->
    parseTbody fuel d table = Ok (table', d') ->
    tableTrimmed table' /\ xml.balanced stk d' = true.
Proof.
  induction fuel as [| fuel IH]; [discriminate |].
  intros table top stk d table' d' Hb Ht Htab Hr.
  destruct d as [| e | t d]; [discriminate | discriminate |].
  cbn [parseTbody] in Hr. destruct t as [n a | n | | | |]; cbn [xml.balanced] in Hb;
    try (eapply IH; eassumption).
  - unfold parseTableRow in Hr.
    destruct (String.eqb (Local n) "tr") eqn:Htr; bind_ok Hr.
    + apply String.eqb_eq in Htr. destruct p as [row h].
      destruct (parseTableRow_balanced _ _ _ _ _ _ _ _ _ Hb Htr rowTrimmed_nil Hcall)
        as [Hrow Hb'].
      eapply IH; [exact Hb' | exact Ht | | exact Hr]. now apply addRow_trimmed.
    + eapply IH; [| eassumption | eassumption | eassumption].
      eapply skipElement_inside; eassumption.
  - apply andb_true_iff in Hb as [Hn Hb]. apply name_eqb_Local in Hn.
    rewrite Hn, Ht in Hr. cbn in Hr. inversion Hr; subst. now split.
Qed.

Lemma parseTable_balanced (fuel : nat) :
  forall table top stk d table' d',
    xml.balanced (top :: stk) d = true -> Local top = "table" -> tableTrimmed table ->
    parseTable_loop fuel table d = Ok (table', d') ->
    tableTrimmed table' /\ xml.balanced stk d' = true.
Proof.
  induction fuel as [| fuel IH]; [discriminate |].
  intros table top stk d table' d' Hb Ht Htab Hr.
  destruct d as [| e | t d]; [discriminate | discriminate |].
  cbn [parseTable_loop] in Hr. destruct t as [n a | n | | | |]; cbn [xml.balanced] in Hb;
    try (eapply IH; eassumption).
  - unfold parseTableRow in Hr.
    destruct (String.eqb (Local n) "tbody") eqn:Htb;
      [| destruct (String.eqb (Local n) "tr") eqn:Htr]; bind_ok Hr.
    + apply String.eqb_eq in Htb.
      destruct (parseTbody_balanced _ _ _ _ _ _ _ Hb Htb Htab Hcall) as [Htab' Hb'].
      eapply IH; eassumption.
    + apply String.eqb_eq in Htr. destruct p as [row h].
      destruct (parseTableRow_balanced _ _ _ _ _ _ _ _ _ Hb Htr rowTrimmed_nil Hcall)
        as [Hrow Hb'].
      eapply IH; [exact Hb' | exact Ht | | exact Hr]. now apply addRow_trimmed.
    + eapply IH; [| eassumption | eassumption | eassumption].
      eapply skipElement_inside; eassumption.
  - apply andb_true_iff in Hb as [Hn Hb]. apply name_eqb_Local in Hn.
    rewrite Hn, Ht in Hr. cbn in Hr. inversion Hr; subst. now split.
Qed.

Lemma parseParagraph_balanced (fuel : nat) :
  forall content top stk d p d',
    xml.balanced (top :: stk) d = true -> Local top = "p" ->
    parseParagraph_loop fuel content d = Ok (p, d') ->
    trimmed (Paragraph_Text p) /\ xml.balanced stk d' = true.
Proof.
  induction fuel as [| fuel IH]; [discriminate |].
  intros content top stk d p d' Hb Ht Hr.
  destruct d as [| e | t d]; [discriminate | discriminate |].
  cbn [parseParagraph_loop] in Hr. destruct t as [n a | n | | | |]; cbn [xml.balanced] in Hb;
    try (eapply IH; eassumption).
  - bind_ok Hr. eapply IH; [| eassumption | eassumption].
    eapply extractNestedText_inside; eassumption.
  - apply andb_true_iff in Hb as [Hn Hb]. apply name_eqb_Local in Hn.
    rewrite Hn, Ht in Hr. cbn in Hr. inversion Hr; subst.
    split; [apply TrimSpace_trimmed | exact Hb].
Qed.

Lemma parseHeading_balanced (fuel : nat) :
  forall level content top stk d h d',
    xml.balanced (top :: stk) d = true -> HasPrefix (Local top) "h" = true ->
    parseHeading_loop fuel level content d = Ok (h, d') ->
    trimmed (Heading_Text h) /\ xml.balanced stk d' = true.
Proof.
  induction fuel as [| fuel IH]; [discriminate |].
  intros level content top stk d h d' Hb Ht Hr.
  destruct d as [| e | t d]; [discriminate | discriminate |].
  cbn [parseHeading_loop] in Hr. destruct t as [n a | n | | | |]; cbn [xml.balanced] in Hb;
    try (eapply IH; eassumption).
  - bind_ok Hr. eapply IH; [| eassumption | eassumption].
    eapply extractNestedText_inside; eassumption.
  - apply andb_true_iff in Hb as [Hn Hb]. apply name_eqb_Local in Hn.
    rewrite Hn, Ht in Hr. inversion Hr; subst.
    split; [apply TrimSpace_trimmed | exact Hb].
Qed.

Lemma parseListItem_balanced (fuel : nat) :
  forall content top stk d i d',
    xml.balanced (top :: stk) d = true -> Local top = "li" ->
    parseListItem_loop fuel content d = Ok (i, d') ->
    itemTrimmed i /\ xml.balanced stk d' = true.
Proof.
  induction fuel as [| fuel IH]; [discriminate |].
  intros content top stk d i d' Hb Ht Hr.
  destruct d as [| e | t d]; [discriminate | discriminate |].
  cbn [parseListItem_loop] in Hr. destruct t as [n a | n | | | |]; cbn [xml.balanced] in Hb;
    try (eapply IH; eassumption).
  - bind_ok Hr. eapply IH; [| eassumption | eassumption].
    eapply extractNestedText_inside; eassumption.
  - apply andb_true_iff in Hb as [Hn Hb]. apply name_eqb_Local in Hn.
    rewrite Hn, Ht in Hr. cbn in Hr. inversion Hr; subst.
    split; [apply TrimSpace_trimmed | exact Hb].
Qed.

Lemma parseList_balanced (fuel : nat) :
  forall endTag items top stk d items' d',
    xml.balanced (top :: stk) d = true -> Local top = endTag ->
    Forall itemTrimmed items ->
    parseList_loop fuel endTag items d = Ok (items', d') ->
    Forall itemTrimmed items' /\ xml.balanced stk d' = true.
Proof.
  induction fuel as [| fuel IH]; [discriminate |].
  intros endTag items top stk d items' d' Hb Ht Hit Hr.
  destruct d as [| e | t d]; [discriminate | discriminate |].
  cbn [parseList_loop] in Hr. destruct t as [n a | n | | | |]; cbn [xml.balanced] in Hb;
    try (eapply IH; eassumption).
  - unfold parseListItem in Hr.
    destruct (String.eqb (Local n) "li") eqn:Hli; bind_ok Hr.
    + apply String.eqb_eq in Hli.
      destruct (parseListItem_balanced _ _ _ _ _ _ _ Hb Hli Hcall) as [Hi Hb'].
      eapply IH; [exact Hb' | exact Ht | | exact Hr].
      apply Forall_app; split; [exact Hit | now constructor].
    + eapply IH; [| eassumption | eassumption | eassumption].
      eapply skipElement_inside; eassumption.
  - apply andb_true_iff in Hb as [Hn Hb]. apply name_eqb_Local in Hn.
    rewrite Hn, Ht, String.eqb_refl in Hr. inversion Hr; subst. now split.
Qed.

Lemma parseElement_balanced (fuel : nat) (start : xml.Name) (attr : list xml.Attr)
    (stk : list xml.Name) (d d' : Decoder) (ob : option Block) :
  xml.balanced (start :: stk) d = true ->
  parseElement fuel d start attr = Ok (ob, d') ->
  match ob with Some b => blockTrimmed b | None => True end
  /\ exists stk', xml.balanced stk' d' = true.
Proof.
  intros Hb Hr. unfold parseElement in Hr.
  destruct (String.eqb (Local start) "root").
  { inversion Hr; subst. eauto. }
  destruct (String.eqb (Local start) "table") eqn:H1.
  { apply String.eqb_eq in H1. unfold parseTable in Hr. bind_ok Hr. inversion Hr; subst.
    assert (Hinit : tableTrimmed {| Headers := []; Rows := [] |}) by (split; constructor).
    destruct (parseTable_balanced _ _ _ _ _ _ _ Hb H1 Hinit Hcall). eauto. }
  destruct (String.eqb (Local start) "p") eqn:H2.
  { apply String.eqb_eq in H2. unfold parseParagraph in Hr. bind_ok Hr. inversion Hr; subst.
    destruct (parseParagraph_balanced _ _ _ _ _ _ _ Hb H2 Hcall). eauto. }
  destruct (isHeadingTag (Local start)) eqn:H3.
  { apply isHeadingTag_prefix in H3. unfold parseHeading in Hr. bind_ok Hr.
    inversion Hr; subst.
    destruct (parseHeading_balanced _ _ _ _ _ _ _ _ Hb H3 Hcall). eauto. }
  destruct (String.eqb (Local start) "ul") eqn:H4.
  { apply String.eqb_eq in H4. unfold parseBulletList in Hr. bind_ok Hr.
    inversion Hr; subst. clear Hr. bind_ok Hcall. inversion Hcall; subst.
    destruct (parseList_balanced _ _ _ _ _ _ _ _ Hb H4 (List.Forall_nil _) Hcall0). eauto. }
  destruct (String.eqb (Local start) "ol") eqn:H5.
  { apply String.eqb_eq in H5. unfold parseNumberedList in Hr. bind_ok Hr.
    inversion Hr; subst. clear Hr. bind_ok Hcall. inversion Hcall; subst.
    destruct (parseList_balanced _ _ _ _ _ _ _ _ Hb H5 (List.Forall_nil _) Hcall0). eauto. }
  destruct (String.eqb (Local start) "hr").
  { inversion Hr; subst. cbn. eauto. }
  destruct (String.eqb (Local start) "structured-macro") eqn:H6.
  { apply String.eqb_eq in H6. unfold parseMacro in Hr. bind_ok Hr. inversion Hr; subst.
    pose proof (parseMacro_balanced _ _ _ _ _ _ _ Hb H6 Hcall). cbn. eauto. }
  bind_ok Hr. inversion Hr; subst. split; [exact I |].
  exists stk. eapply skipElement_inside; eassumption.
Qed.

Lemma Parse_loop_trimmed (fuel : nat) :
  forall blocks stk d page,
    xml.balanced stk d = true -> Forall blockTrimmed blocks ->
    Parse_loop fuel blocks d = Ok page -> pageTrimmed page.
Proof.
  induction fuel as [| fuel IH]; [discriminate |].
  intros blocks stk d page Hb Hbl Hr.
  destruct d as [| e | t d]; [now inversion Hr | discriminate |].
  cbn [Parse_loop] in Hr. destruct t as [n a | n | | | |]; cbn [xml.balanced] in Hb;
    try (eapply IH; eassumption).
  - bind_ok Hr.
    destruct (parseElement_balanced _ _ _ _ _ _ _ Hb Hcall) as [Hob [stk' Hb']].
    eapply IH; [exact Hb' | | exact Hr].
    destruct o; [apply Forall_app; split; [exact Hbl | now constructor] | exact Hbl].
  - destruct stk as [| top stk]; [discriminate |].
    apply andb_true_iff in Hb as [_ Hb]. eapply IH; eassumption.
Qed.

(** The tokens of [NewDecoder] are those of a strict decoder. *)
Lemma decode_balanced (uF uS : N -> bool) (ents : gmap string string) (fuel : nat) :
  forall stk nc input, xml.balanced stk (xml.decode uF uS ents fuel stk nc input) = true.
Proof.
  induction fuel as [| fuel IH]; intros stk nc input; [reflexivity |].
  cbn [xml.decode].
  destruct (xml.rawToken uF uS ents nc input) as [t nc' rest | | e]; [| | reflexivity].
  - destruct t as [n a | n | | | |]; cbn [xml.balanced]; try apply IH.
    destruct stk as [| s stk]; [reflexivity |].
    destruct (String.eqb (Local s) (Local n)) eqn:Hl; [| reflexivity].
    destruct (String.eqb (xml.Space s) (xml.Space n)) eqn:Hs; [| reflexivity].
    cbn [negb xml.balanced]. unfold xml.name_eqb. rewrite Hl, Hs. apply IH.
  - destruct stk; reflexivity.
Qed.

(** C9: in the page [Parse] returns, the text of every paragraph, heading,
    list item and table cell (and every table header) has no leading and
    no trailing white space. *)
Theorem parse_text_trimmed (uF uS : N -> bool) (ents : gmap string string)
    (xhtml : string) (page : Page) :
  Parse uF uS ents xhtml = Ok page -> pageTrimmed page.
Proof.
  unfold Parse. destruct (String.eqb xhtml EmptyString).
  - intros H. inversion H. constructor.
  - unfold ParseTokens, newDecoder, xml.NewDecoder, xml.stream. intros H.
    eapply Parse_loop_trimmed; [apply decode_balanced | constructor | exact H].
Qed.

Lemma parse_text_trimmed_witness :
  pageTrimmed
    {| Blocks :=
         [BParagraph {| Paragraph_Text := "a  b" |};
          BBulletList {| BulletList_Items := [{| ListItem_Text := "c" |}] |}] |}.
Proof.
  apply (parse_text_trimmed asciiOnly asciiOnly someEntities
           "<p>  a  <b>b </b> </p> <ul><li> c</li></ul>").
  vm_compute. reflexivity.
Defined.

(* ================================================================== *)
(** ** Rows outside tables (C10) *)

Lemma openTables_push (n : xml.Name) (stk : list xml.Name) :
  openTables (n :: stk)
  = (if String.eqb (Local n) "table" then openTables stk + 1 else openTables stk)%Z.
Proof.
  unfold openTables. cbn [List.filter]. unfold isTable at 1.
  destruct (String.eqb (Local n) "table"); cbn [length]; lia.
Qed.

Lemma openTables_none (stk : list xml.Name) :
  existsb isTable stk = false -> openTables stk = 0%Z.
Proof.
  unfold openTables. induction stk as [| n stk IH]; [reflexivity |].
  cbn [existsb List.filter]. intros H. apply orb_false_iff in H as [Hn H].
  rewrite Hn. now apply IH.
Qed.

(** The counter of the validator is the number of open [table] elements:
    on the tokens of a strict decoder, where every end tag closes the
    innermost open element, the loop that started with the counter at the
    number of open tables has, after any tokens it lets through, the
    counter at the number of tables then open. *)
Lemma validate_loop_counts_open_tables (opts : ValidatorOptions) (pre : list xml.Token) :
  forall stk found d,
    xml.balanced stk (feed pre d) = true ->
    validate_loop opts (openTables stk) found (feed pre EOF) = None ->
    exists found',
      validate_loop opts (openTables stk) found (feed pre d)
      = validate_loop opts (openTables (openAfter stk pre)) found' d.
Proof.
  induction pre as [| t pre IH]; intros stk found d Hb Hv.
  - exists found. reflexivity.
  - cbn [feed] in *. destruct t as [n a | n | | | |]; cbn [xml.balanced openAfter] in *;
      try (cbn [validate_loop] in *; now apply IH).
    + cbn [validate_loop] in *.
      destruct (index (ForbiddenTags opts) (Local n)); [discriminate |].
      match goal with
      | |- context [if ?c then Some {| Message := "disallowed macro"; Tag := _ |} else _] =>
          destruct c; [discriminate |]
      end.
      pose proof (openTables_push n stk) as Hpush.
      destruct (String.eqb (Local n) "table"); cbv beta iota zeta in *;
        rewrite <- Hpush in *;
        match goal with
        | |- context [if ?c then Some {| Message := "<tr> must be inside <tbody>"; Tag := _ |}
                      else _] =>
            destruct c; [discriminate |]
        end; now apply IH.
    + destruct stk as [| top stk]; [discriminate |].
      apply andb_true_iff in Hb as [Hn Hb]. unfold xml.name_eqb in Hn.
      apply andb_true_iff in Hn as [_ Hn]. apply String.eqb_eq in Hn.
      cbn [validate_loop List.tl] in *.
      rewrite (openTables_push top stk) in *. rewrite Hn in *.
      destruct (String.eqb (Local n) "table").
      * destruct (negb found && RequireTableTbody opts); [discriminate |].
        replace (openTables stk + 1 - 1)%Z with (openTables stk) in * by lia.
        now apply IH.
      * now apply IH.
Qed.

(** What follows the tokens [pre] is validated in a state that depends on
    [pre] alone: two inputs that start with [pre] get the same verdict as
    soon as what follows [pre] gets the same verdict in every state whose
    counter is the number of tables open after [pre]. *)
Lemma validate_loop_same_rest (opts : ValidatorOptions) (pre : list xml.Token) :
  forall stk found d1 d2,
    xml.balanced stk (feed pre d1) = true ->
    (forall found',
        validate_loop opts (openTables (openAfter stk pre)) found' d1
        = validate_loop opts (openTables (openAfter stk pre)) found' d2) ->
    validate_loop opts (openTables stk) found (feed pre d1)
    = validate_loop opts (openTables stk) found (feed pre d2).
Proof.
  induction pre as [| t pre IH]; intros stk found d1 d2 Hb Hrest.
  - apply Hrest.
  - cbn [feed] in *. destruct t as [n a | n | | | |]; cbn [xml.balanced openAfter] in *;
      try (cbn [validate_loop]; now apply IH).
    + cbn [validate_loop].
      destruct (index (ForbiddenTags opts) (Local n)); [reflexivity |].
      match goal with
      | |- context [if ?c then Some {| Message := "disallowed macro"; Tag := _ |} else _] =>
          destruct c; [reflexivity |]
      end.
      pose proof (openTables_push n stk) as Hpush.
      destruct (String.eqb (Local n) "table"); cbv beta iota zeta;
        rewrite <- Hpush;
        match goal with
        | |- context [if ?c then Some {| Message := "<tr> must be inside <tbody>"; Tag := _ |}
                      else _] =>
            destruct c; [reflexivity |]
        end; now apply IH.
    + destruct stk as [| top stk]; [discriminate |].
      apply andb_true_iff in Hb as [Hn Hb]. unfold xml.name_eqb in Hn.
      apply andb_true_iff in Hn as [_ Hn]. apply String.eqb_eq in Hn.
      cbn [validate_loop List.tl] in *.
      rewrite (openTables_push top stk). rewrite Hn.
      destruct (String.eqb (Local n) "table").
      * destruct (negb found && RequireTableTbody opts); [reflexivity |].
        replace (openTables stk + 1 - 1)%Z with (openTables stk) by lia.
        now apply IH.
      * now apply IH.
Qed.

(** C10: a [tr] element that is not inside any open [table] element is
    accepted, whatever the options say about [tbody].  For every input
    and every [tr] start tag in its tokens at which no [table] is open
    (the tables before it are closed), the validator answers as if the
    tag were not there; and if it has not rejected a token before the
    tag, it does not stop at the tag: its verdict is the one of the
    tokens after the tag, validated with the table counter at zero. *)
Theorem stray_tr_accepted (uF uS : N -> bool) (ents : gmap string string)
    (opts : ValidatorOptions) (xhtml : string) (pre : list xml.Token)
    (n : xml.Name) (attr : list xml.Attr) (d : Decoder) :
  newDecoder uF uS ents xhtml = feed pre (Tok (StartElement n attr) d) ->
  Local n = "tr" ->
  existsb isTable (openAfter [] pre) = false ->
  index (ForbiddenTags opts) "tr" = false ->
  ValidateWithOptions uF uS ents xhtml opts = ValidateTokens (feed pre d) opts
  /\ (ValidateTokens (feed pre EOF) opts = None ->
      exists found,
        ValidateWithOptions uF uS ents xhtml opts = validate_loop opts 0 found d).
Proof.
  intros Hdec Hn Hopen Hforb. unfold ValidateWithOptions.
  destruct (String.eqb xhtml EmptyString) eqn:He.
  { apply String.eqb_eq in He. subst xhtml. exfalso. revert Hdec.
    vm_compute. destruct pre as [| t1 [| t2 [| t3 pre]]]; cbn; intros H; inversion H.
    subst n. discriminate Hn. }
  assert (Hb : xml.balanced [] (feed pre (Tok (StartElement n attr) d)) = true).
  { rewrite <- Hdec. apply decode_balanced. }
  assert (Hstep : forall found,
             validate_loop opts (openTables (openAfter [] pre)) found
               (Tok (StartElement n attr) d)
             = validate_loop opts (openTables (openAfter [] pre)) found d).
  { intros found. rewrite (openTables_none _ Hopen).
    cbn [validate_loop]. rewrite Hn, Hforb. reflexivity. }
  unfold ValidateTokens in *. rewrite Hdec. split.
  - exact (validate_loop_same_rest opts pre [] false _ _ Hb Hstep).
  - intros Hpre.
    destruct (validate_loop_counts_open_tables opts pre [] false
                (Tok (StartElement n attr) d) Hb Hpre) as [found Hrun].
    change (openTables []) with 0%Z in Hrun. rewrite Hrun, Hstep.
    rewrite (openTables_none _ Hopen). now exists found.
Qed.

(** The theorem at a row that follows a closed table. *)
Lemma stray_tr_accepted_witness :
  validateWith "<table><tbody><tr><td>a</td></tr></tbody></table><tr><td>x</td></tr>"
    DefaultValidatorOptions
  = ValidateTokens
      (feed
         (firstTokens 10
            (newDecoder asciiOnly asciiOnly someEntities
               "<table><tbody><tr><td>a</td></tr></tbody></table><tr><td>x</td></tr>"))
         (afterTokens 11
            (newDecoder asciiOnly asciiOnly someEntities
               "<table><tbody><tr><td>a</td></tr></tbody></table><tr><td>x</td></tr>")))
      DefaultValidatorOptions.
Proof.
  apply (stray_tr_accepted asciiOnly asciiOnly someEntities DefaultValidatorOptions
           "<table><tbody><tr><td>a</td></tr></tbody></table><tr><td>x</td></tr>"
           (firstTokens 10
              (newDecoder asciiOnly asciiOnly someEntities
                 "<table><tbody><tr><td>a</td></tr></tbody></table><tr><td>x</td></tr>"))
           (tagged "tr") []).
  - vm_compute. reflexivity.
  - reflexivity.
  - vm_compute. reflexivity.
  - vm_compute. reflexivity.
Defined.

(** Two inputs with a row outside every table, under the default options:
    both are accepted. *)
Lemma stray_tr_examples :
  validate "<tr><td>x</td></tr>" = None
  /\ validate "<table><tbody><tr><td>a</td></tr></tbody></table><tr><td>x</td></tr>" = None.
Proof. split; vm_compute; reflexivity. Qed.

(** Inside a table without [tbody] the same row is rejected. *)
Lemma tr_in_table_rejected :
  validate "<table><tr><td>x</td></tr></table>" = Some msgTrTbody.
Proof. vm_compute. reflexivity. Qed.

(* ================================================================== *)
(** ** The tokenizer reads its input forward

    Every scanning function returns a suffix of its input, so that the
    bound [pending] decreases from token to token and the iteration bound
    of [decode] is never reached. *)

Section TokenizerProgress.

Variable uF uS : N -> bool.
Variable ents : gmap string string.

Local Abbreviation slen := String.length.

Lemma span_length (p : ascii -> bool) (s : string) :
  (slen (fst (span p s)) + slen (snd (span p s)) = slen s)%nat.
Proof.
  induction s as [| c s IH]; [reflexivity |].
  cbn [span]. destruct (p c); [| reflexivity].
  destruct (span p s) as [a b]. cbn [fst snd String.length] in *. lia.
Qed.

Lemma span_rest_le (p : ascii -> bool) (s a b : string) :
  span p s = (a, b) -> (slen b <= slen s)%nat.
Proof. intros H. pose proof (span_length p s) as Hl. rewrite H in Hl. cbn in Hl. lia. Qed.

Lemma space_le (s : string) : (slen (xml.space s) <= slen s)%nat.
Proof.
  induction s as [| c s IH]; [reflexivity |].
  cbn [xml.space]. destruct (xml.isSpaceByte c); cbn [String.length]; lia.
Qed.

Lemma readName_le (s : string) (o : option string) (rest : string) :
  xml.readName s = xml.LexOk o rest ->
  (slen rest <= slen s)%nat /\ (o <> None -> slen rest < slen s)%nat.
Proof.
  destruct s as [| b s]; [discriminate |]. cbn [xml.readName].
  destruct (xml.nameByte b) eqn:Hb.
  - cbn [span]. rewrite Hb. destruct (span xml.nameByte s) as [a r] eqn:Hs.
    apply span_rest_le in Hs. destruct r; [discriminate |].
    intros H. inversion H; subst. cbn [String.length] in *. split; [lia | intros; lia].
  - intros H. inversion H; subst. split; [lia | congruence].
Qed.

Lemma name_le (s : string) (o : option string) (rest : string) :
  xml.name uF uS s = xml.LexOk o rest ->
  (slen rest <= slen s)%nat /\ (o <> None -> slen rest < slen s)%nat.
Proof.
  unfold xml.name. destruct (xml.readName s) as [[b |] r | e] eqn:Hr; try discriminate.
  - destruct (xml.isName uF uS b); [| discriminate].
    intros H. inversion H; subst. eapply readName_le; eassumption.
  - intros H. inversion H; subst. eapply readName_le; eassumption.
Qed.

Lemma nsname_le (s : string) (o : option xml.Name) (rest : string) :
  xml.nsname uF uS s = xml.LexOk o rest -> (slen rest < slen s)%nat \/ (o = None /\ (slen rest <= slen s)%nat).
Proof.
  unfold xml.nsname. destruct (xml.name uF uS s) as [[n |] r | e] eqn:Hn; try discriminate.
  - destruct (name_le _ _ _ Hn) as [_ Hlt]. specialize (Hlt ltac:(discriminate)).
    destruct (1 <? count_byte ":" n)%nat.
    { intros H. inversion H; subst. left. exact Hlt. }
    destruct (cut_byte ":" n) as [[sp loc] |].
    + destruct (String.eqb sp EmptyString || String.eqb loc EmptyString);
        intros H; inversion H; subst; left; exact Hlt.
    + intros H; inversion H; subst; left; exact Hlt.
  - destruct (name_le _ _ _ Hn) as [Hle _].
    intros H. inversion H; subst. right. split; [reflexivity | exact Hle].
Qed.

Lemma readEntity_lt (input : string) (t rest : string) :
  xml.readEntity uF uS ents input = xml.LexOk t rest -> (slen rest < slen input)%nat.
Proof.
  destruct input as [| b r]; [discriminate |]. cbn [xml.readEntity].
  destruct (Ascii.eqb b "#").
  - destruct r as [| b' r']; [discriminate |].
    destruct (span (xml.isDigit (if Ascii.eqb b' "x" then 16%N else 10%N))
                (if Ascii.eqb b' "x" then r' else String b' r')) as [digits after] eqn:Hs.
    apply span_rest_le in Hs.
    destruct after as [| c after']; [discriminate |].
    destruct (Ascii.eqb c ";"); [| discriminate].
    destruct digits; [discriminate |].
    match goal with |- context [N.leb ?a ?b] => destruct (N.leb a b) end; [| discriminate].
    intros H. inversion H; subst.
    destruct (Ascii.eqb b' "x"); cbn [String.length] in *; lia.
  - destruct (span xml.nameByte (String b r)) as [nm after] eqn:Hs.
    apply span_rest_le in Hs.
    destruct after as [| c after']; [discriminate |].
    destruct (Ascii.eqb c ";"); [| discriminate].
    destruct (xml.isName uF uS nm); [| discriminate].
    destruct (xml.entity nm); [| destruct (ents !! nm); [| discriminate]];
      intros H; inversion H; subst; cbn [String.length] in *; lia.
Qed.

Lemma emit_ok (s : string) (r : xml.lex string) (d rest : string) :
  xml.emit s r = xml.LexOk d rest -> exists d', r = xml.LexOk d' rest /\ d = s ++ d'.
Proof. destruct r; cbn; intros H; inversion H; eauto. Qed.

Lemma text_loop_le (fuel : nat) :
  forall quote cdata b0 b1 input d rest,
    xml.text_loop uF uS ents fuel quote cdata b0 b1 input = xml.LexOk d rest ->
    (slen rest <= slen input)%nat
    /\ (forall b r, input = String b r -> Ascii.eqb b "<" && negb cdata = false ->
                    slen rest <= slen r)%nat.
Proof.
  induction fuel as [| fuel IH]; [discriminate |].
  intros quote cdata b0 b1 input d rest. cbn [xml.text_loop].
  destruct input as [| b r].
  { destruct cdata; [discriminate |]. intros H. inversion H; subst.
    split; [lia | discriminate]. }
  destruct (Ascii.eqb b0 "]" && Ascii.eqb b1 "]" && Ascii.eqb b ">").
  { destruct cdata; [| discriminate]. intros H. inversion H; subst.
    cbn [String.length]. split; [lia |]. intros ? ? E _. inversion E; subst. lia. }
  destruct (Ascii.eqb b "<" && negb cdata) eqn:Hlt.
  { destruct quote; [discriminate |]. intros H. inversion H; subst.
    split; [lia |]. intros ? ? E Hn. inversion E; subst. congruence. }
  destruct (xml.isQuote quote b).
  { intros H. inversion H; subst. cbn [String.length].
    split; [lia |]. intros ? ? E _. inversion E; subst. lia. }
  destruct (Ascii.eqb b "&" && negb cdata).
  { destruct (xml.readEntity uF uS ents r) as [txt rest' | e] eqn:He; [| discriminate].
    apply readEntity_lt in He. intros H. apply emit_ok in H as (d' & H & _).
    apply IH in H as [H _]. cbn [String.length].
    split; [lia |]. intros ? ? E _. inversion E; subst. lia. }
  intros H. apply emit_ok in H as (d' & H & _). apply IH in H as [H _].
  cbn [String.length]. split; [lia |]. intros ? ? E _. inversion E; subst. lia.
Qed.

Lemma text_le (quote : option ascii) (cdata : bool) (input d rest : string) :
  xml.text uF uS ents quote cdata input = xml.LexOk d rest ->
  (slen rest <= slen input)%nat
  /\ (forall b r, input = String b r -> Ascii.eqb b "<" && negb cdata = false ->
                  slen rest <= slen r)%nat.
Proof.
  unfold xml.text.
  destruct (xml.text_loop uF uS ents (S (slen input)) quote cdata NUL NUL input)
    as [data r | e] eqn:Hl; [| discriminate].
  destruct (xml.validChars _); [discriminate |].
  intros H. inversion H; subst. eapply text_loop_le; eassumption.
Qed.

Lemma attrval_lt (input d rest : string) :
  xml.attrval uF uS ents input = xml.LexOk d rest -> (slen rest < slen input)%nat.
Proof.
  destruct input as [| b r]; [discriminate |]. cbn [xml.attrval].
  destruct (Ascii.eqb b dquote || Ascii.eqb b squote); [| discriminate].
  intros H. apply text_le in H as [H _]. cbn [String.length]. lia.
Qed.

Lemma attributes_lt (fuel : nat) :
  forall acc input r rest,
    xml.attributes uF uS ents fuel acc input = xml.LexOk r rest ->
    (slen rest < slen input)%nat.
Proof.
  induction fuel as [| fuel IH]; [discriminate |].
  intros acc input r rest. cbn [xml.attributes].
  pose proof (space_le input) as Hsp.
  destruct (xml.space input) as [| b r0] eqn:Hs; [discriminate |].
  cbn [String.length] in Hsp.
  destruct (Ascii.eqb b "/").
  { destruct r0 as [| b' r']; [discriminate |].
    destruct (Ascii.eqb b' ">"); [| discriminate].
    intros H. inversion H; subst. cbn [String.length] in Hsp. lia. }
  destruct (Ascii.eqb b ">").
  { intros H. inversion H; subst. lia. }
  destruct (xml.nsname uF uS (String b r0)) as [[n |] after | e] eqn:Hn; try discriminate.
  apply nsname_le in Hn as [Hn | [Hn _]]; [| discriminate].
  cbn [String.length] in Hn.
  pose proof (space_le after) as Hsp2.
  destruct (xml.space after) as [| c after'] eqn:Hs2; [discriminate |].
  cbn [String.length] in Hsp2.
  destruct (Ascii.eqb c "="); [| discriminate].
  destruct (xml.attrval uF uS ents (xml.space after')) as [v after'' | e] eqn:Hv;
    [| discriminate].
  apply attrval_lt in Hv. pose proof (space_le after') as Hsp3.
  intros H. apply IH in H. lia.
Qed.

Lemma comment_loop_lt (input : string) :
  forall b0 b1 d rest,
    xml.comment_loop b0 b1 input = xml.LexOk d rest -> (slen rest < slen input)%nat.
Proof.
  induction input as [| b r IH]; intros b0 b1 d rest; [discriminate |].
  cbn [xml.comment_loop String.length].
  destruct (Ascii.eqb b0 "-" && Ascii.eqb b1 "-").
  - destruct (Ascii.eqb b ">"); [| discriminate]. intros H. inversion H; subst. lia.
  - intros H. apply emit_ok in H as (d' & H & _). apply IH in H. lia.
Qed.

Lemma procInst_loop_lt (input : string) :
  forall b0 d rest,
    xml.procInst_loop b0 input = xml.LexOk d rest -> (slen rest < slen input)%nat.
Proof.
  induction input as [| b r IH]; intros b0 d rest; [discriminate |].
  cbn [xml.procInst_loop String.length].
  destruct (Ascii.eqb b0 "?" && Ascii.eqb b ">").
  - intros H. inversion H; subst. lia.
  - intros H. apply emit_ok in H as (d' & H & _). apply IH in H. lia.
Qed.

Lemma directive_comment_lt (input : string) :
  forall b0 b1 rest,
    xml.directive_comment b0 b1 input = Some rest -> (slen rest < slen input)%nat.
Proof.
  induction input as [| b r IH]; intros b0 b1 rest; [discriminate |].
  cbn [xml.directive_comment String.length].
  destruct (Ascii.eqb b0 "-" && Ascii.eqb b1 "-" && Ascii.eqb b ">").
  - intros H. inversion H; subst. lia.
  - intros H. apply IH in H. lia.
Qed.

Lemma directive_loop_lt (fuel : nat) :
  forall inquote depth input d rest,
    xml.directive_loop fuel inquote depth input = xml.LexOk d rest ->
    (slen rest < slen input)%nat.
Proof.
  induction fuel as [| fuel IH]; [discriminate |].
  intros inquote depth input d rest. cbn [xml.directive_loop].
  destruct input as [| b r]; [discriminate |]. cbn [String.length].
  assert (Hstep : forall s inq dep r',
             (slen r' <= slen r)%nat ->
             xml.emit s (xml.directive_loop fuel inq dep r') = xml.LexOk d rest ->
             (slen rest < S (slen r))%nat).
  { intros s inq dep r' Hle H. apply emit_ok in H as (d' & H & _). apply IH in H. lia. }
  destruct (Ascii.eqb inquote NUL && Ascii.eqb b ">" && (depth =? 0)%nat).
  { intros H. inversion H; subst. lia. }
  destruct (Ascii.eqb b inquote); [apply Hstep; lia |].
  destruct (negb (Ascii.eqb inquote NUL)); [apply Hstep; lia |].
  destruct (Ascii.eqb b squote || Ascii.eqb b dquote); [apply Hstep; lia |].
  destruct (Ascii.eqb b ">"); [apply Hstep; lia |].
  destruct (Ascii.eqb b "<"); [| apply Hstep; lia].
  destruct r as [| c1 r1]; [discriminate |]. cbn [String.length] in *.
  destruct (negb (Ascii.eqb c1 "!")); [apply Hstep; cbn [String.length]; lia |].
  destruct r1 as [| c2 r2]; [discriminate |]. cbn [String.length] in *.
  destruct (negb (Ascii.eqb c2 "-")); [apply Hstep; cbn [String.length]; lia |].
  destruct r2 as [| c3 r3]; [discriminate |]. cbn [String.length] in *.
  destruct (negb (Ascii.eqb c3 "-")); [apply Hstep; cbn [String.length]; lia |].
  destruct (xml.directive_comment NUL NUL r3) as [r4 |] eqn:Hc; [| discriminate].
  apply directive_comment_lt in Hc. apply Hstep. lia.
Qed.

Lemma drop_bytes_le (n : nat) (s : string) : (slen (drop_bytes n s) <= slen s)%nat.
Proof.
  revert s. induction n as [| n IH]; intros [| c s]; cbn [drop_bytes String.length]; try lia.
  specialize (IH s). lia.
Qed.

(** A token read from the input leaves less input. *)
Lemma rawToken_lt (input : string) (t : xml.Token) (nc : option xml.Name) (rest : string) :
  xml.rawToken uF uS ents None input = xml.RawTok t nc rest ->
  (slen rest < slen input)%nat.
Proof.
  cbn [xml.rawToken]. destruct input as [| b r]; [discriminate |].
  destruct (negb (Ascii.eqb b "<")) eqn:Hb.
  { destruct (xml.text uF uS ents None false (String b r)) as [data rest' | e] eqn:Ht;
      [| discriminate].
    intros H. inversion H; subst.
    apply text_le in Ht as [_ Ht]. cbn [String.length].
    specialize (Ht b r eq_refl). apply negb_true_iff in Hb. rewrite Hb in Ht.
    specialize (Ht eq_refl). lia. }
  destruct r as [| b' r']; [discriminate |]. cbn [String.length].
  destruct (Ascii.eqb b' "/").
  { unfold xml.endElement.
    destruct (xml.nsname uF uS r') as [[n |] rest0 | e] eqn:Hn; try discriminate.
    apply nsname_le in Hn as [Hn | [Hn _]]; [| discriminate].
    pose proof (space_le rest0) as Hsp.
    destruct (xml.space rest0) as [| c rest1]; [discriminate |]. cbn [String.length] in Hsp.
    destruct (Ascii.eqb c ">"); [| discriminate].
    intros H. inversion H; subst. lia. }
  destruct (Ascii.eqb b' "?").
  { unfold xml.procInstToken.
    destruct (xml.name uF uS r') as [[target |] rest0 | e] eqn:Hn; try discriminate.
    apply name_le in Hn as [Hn _]. pose proof (space_le rest0) as Hsp.
    destruct (xml.procInst_loop NUL (xml.space rest0)) as [d rest1 | e] eqn:Hp;
      [| discriminate].
    apply procInst_loop_lt in Hp.
    destruct (String.eqb target "xml").
    - match goal with |- context [if ?c then _ else _] => destruct c end; [discriminate |].
      match goal with |- context [if ?c then _ else _] => destruct c end; [discriminate |].
      intros H. inversion H; subst. lia.
    - intros H. inversion H; subst. lia. }
  destruct (Ascii.eqb b' "!").
  { unfold xml.bangToken. destruct r' as [| c r0]; [discriminate |]. cbn [String.length].
    destruct (Ascii.eqb c "-").
    - destruct r0 as [| c' r1]; [discriminate |]. cbn [String.length].
      destruct (Ascii.eqb c' "-"); [| discriminate].
      destruct (xml.comment_loop NUL NUL r1) as [d after | e] eqn:Hc; [| discriminate].
      apply comment_loop_lt in Hc. intros H. inversion H; subst. lia.
    - destruct (Ascii.eqb c "[").
      + destruct (String.prefix "CDATA[" r0).
        * destruct (xml.text uF uS ents None true (drop_bytes 6 r0)) as [data after | e] eqn:Ht;
            [| discriminate].
          apply text_le in Ht as [Ht _]. pose proof (drop_bytes_le 6 r0) as Hdrop.
          intros H. inversion H; subst. lia.
        * match goal with |- context [if ?c then _ else _] => destruct c end; discriminate.
      + destruct (xml.directive_loop (S (slen r0)) NUL 0 r0) as [d after | e] eqn:Hd;
          [| discriminate].
        apply directive_loop_lt in Hd. intros H. inversion H; subst. lia. }
  unfold xml.startElement.
  destruct (xml.nsname uF uS (String b' r')) as [[n |] rest0 | e] eqn:Hn; try discriminate.
  apply nsname_le in Hn as [Hn | [Hn _]]; [| discriminate]. cbn [String.length] in Hn.
  destruct (xml.attributes uF uS ents (S (slen rest0)) [] rest0) as [[attr empty] rest1 | e] eqn:Ha;
    [| discriminate].
  apply attributes_lt in Ha. intros H. inversion H; subst. lia.
Qed.

Lemma rawToken_pending (nc : option xml.Name) (input : string) (t : xml.Token)
    (nc' : option xml.Name) (rest : string) :
  xml.rawToken uF uS ents nc input = xml.RawTok t nc' rest ->
  (xml.pending nc' rest < xml.pending nc input)%nat.
Proof.
  destruct nc as [n |].
  - cbn [xml.rawToken]. intros H. inversion H; subst. unfold xml.pending. lia.
  - intros H. apply rawToken_lt in H. unfold xml.pending. destruct nc'; lia.
Qed.

(** [decode] does not depend on its iteration bound, once above [pending]. *)
Lemma decode_bound (fuel : nat) :
  forall fuel' stk nc input,
    (xml.pending nc input < fuel)%nat -> (xml.pending nc input < fuel')%nat ->
    xml.decode uF uS ents fuel stk nc input = xml.decode uF uS ents fuel' stk nc input.
Proof.
  induction fuel as [| fuel IH]; intros fuel' stk nc input Hf Hf'; [lia |].
  destruct fuel' as [| fuel']; [lia |]. cbn [xml.decode].
  destruct (xml.rawToken uF uS ents nc input) as [t nc' rest | | e] eqn:Hr; try reflexivity.
  apply rawToken_pending in Hr.
  destruct t as [n a | n | | | |]; try (f_equal; apply IH; lia).
  destruct stk as [| s stk]; [reflexivity |].
  destruct (negb (String.eqb (Local s) (Local n))); [reflexivity |].
  destruct (negb (String.eqb (xml.Space s) (xml.Space n))); [reflexivity |].
  f_equal; apply IH; lia.
Qed.

(** One call of [Decoder.Token]. *)
Lemma stream_step (stk : list xml.Name) (nc : option xml.Name) (input : string) :
  xml.stream uF uS ents stk nc input
  = match xml.rawToken uF uS ents nc input with
    | xml.RawEOF => match stk with [] => EOF | _ => Error xml.unexpectedEOF end
    | xml.RawErr e => Error e
    | xml.RawTok t nc' rest =>
        match t with
        | StartElement n _ => Tok t (xml.stream uF uS ents (n :: stk) nc' rest)
        | EndElement n =>
            match stk with
            | [] => Error ("unexpected end element </" ++ Local n ++ ">")
            | s :: stk' =>
                if negb (String.eqb (Local s) (Local n)) then
                  Error ("element <" ++ Local s ++ "> closed by </" ++ Local n ++ ">")
                else if negb (String.eqb (xml.Space s) (xml.Space n)) then
                  Error ("element <" ++ Local s ++ "> in space " ++ xml.Space s
                         ++ " closed by </" ++ Local n ++ "> in another space")
                else Tok t (xml.stream uF uS ents stk' nc' rest)
            end
        | _ => Tok t (xml.stream uF uS ents stk nc' rest)
        end
    end.
Proof.
  unfold xml.stream at 1. cbn [xml.decode].
  destruct (xml.rawToken uF uS ents nc input) as [t nc' rest | | e] eqn:Hr; try reflexivity.
  apply rawToken_pending in Hr. unfold xml.stream.
  destruct t as [n a | n | | | |]; try (f_equal; apply decode_bound; lia).
  destruct stk as [| s stk]; [reflexivity |].
  destruct (negb (String.eqb (Local s) (Local n))); [reflexivity |].
  destruct (negb (String.eqb (xml.Space s) (xml.Space n))); [reflexivity |].
  f_equal; apply decode_bound; lia.
Qed.

End TokenizerProgress.

(* ================================================================== *)
(** ** The tokenizer on rendered markup *)

Ltac raw_refl := intros; reflexivity.

Section RenderedMarkup.

Variable uF uS : N -> bool.
Variable ents : gmap string string.

Local Abbreviation slen := String.length.
Local Abbreviation text_loop := (xml.text_loop uF uS ents).
Local Abbreviation rawToken := (xml.rawToken uF uS ents).
Local Abbreviation stream := (xml.stream uF uS ents).
Local Abbreviation markup := (markup uF uS ents).
Local Abbreviation content := (content uF uS ents).

Lemma readEntity_amp rest : xml.readEntity uF uS ents ("amp;" ++ rest) = xml.LexOk "&" rest.
Proof. reflexivity. Qed.
Lemma readEntity_lt_ rest : xml.readEntity uF uS ents ("lt;" ++ rest) = xml.LexOk "<" rest.
Proof. reflexivity. Qed.
Lemma readEntity_gt rest : xml.readEntity uF uS ents ("gt;" ++ rest) = xml.LexOk ">" rest.
Proof. reflexivity. Qed.
Lemma readEntity_34 rest :
  xml.readEntity uF uS ents ("#34;" ++ rest) = xml.LexOk (str1 dquote) rest.
Proof. reflexivity. Qed.
Lemma readEntity_39 rest :
  xml.readEntity uF uS ents ("#39;" ++ rest) = xml.LexOk (str1 squote) rest.
Proof. reflexivity. Qed.

Lemma text_loop_cons fuel quote cdata b0 b1 b rest :
  text_loop (S fuel) quote cdata b0 b1 (String b rest)
  = if Ascii.eqb b0 "]" && Ascii.eqb b1 "]" && Ascii.eqb b ">" then
      if cdata then xml.LexOk EmptyString rest
      else xml.LexErr "unescaped ]]> not in CDATA section"
    else if Ascii.eqb b "<" && negb cdata then
      match quote with
      | Some _ => xml.LexErr "unescaped < inside quoted string"
      | None => xml.LexOk EmptyString (String b rest)
      end
    else if xml.isQuote quote b then xml.LexOk EmptyString rest
    else if Ascii.eqb b "&" && negb cdata then
      match xml.readEntity uF uS ents rest with
      | xml.LexOk txt rest' => xml.emit txt (text_loop fuel quote cdata NUL NUL rest')
      | xml.LexErr e => xml.LexErr e
      end
    else
      xml.emit (if Ascii.eqb b CR then str1 LF
                else if Ascii.eqb b1 CR && Ascii.eqb b LF then EmptyString
                else str1 b)
               (text_loop fuel quote cdata b1 b rest).
Proof. reflexivity. Qed.


Lemma text_loop_escaped (t : string) :
  forall fuel quote b0 b1 c tail,
    textEnd quote c -> noCR t = true -> b1 <> CR ->
    (slen (EscapeString t ++ String c tail) < fuel)%nat ->
    text_loop fuel quote false b0 b1 (EscapeString t ++ String c tail)
    = xml.LexOk t (afterText quote c tail).
Proof.
  induction t as [| x t IH]; intros fuel quote b0 b1 c tail Hend Hcr Hb1 Hf;
    (destruct fuel as [| fuel]; [lia |]).
  - cbn [EscapeString append]. rewrite text_loop_cons.
    destruct Hend; cbn; rewrite ?andb_false_r; reflexivity.
  - cbn [EscapeString noCR] in *. apply andb_true_iff in Hcr as [Hx Hcr].
    apply negb_true_iff in Hx. rewrite append_assoc in *.
    assert (Hb1' : Ascii.eqb b1 CR = false) by (now apply Ascii.eqb_neq).
    unfold escapeByte in *.
    destruct (Ascii.eqb x "&") eqn:E1.
    { apply Ascii.eqb_eq in E1. subst x. cbn [append] in *. rewrite text_loop_cons.
      replace (xml.isQuote quote "&") with false by (destruct Hend; reflexivity).
      cbn [Ascii.eqb Bool.eqb andb negb]. rewrite !andb_false_r.
      pose proof (readEntity_amp (EscapeString t ++ String c tail)) as He;
      cbn [append] in He; rewrite He; clear He.
      rewrite IH; [reflexivity | assumption | assumption | discriminate |].
      cbn [String.length] in Hf. lia. }
    destruct (Ascii.eqb x squote) eqn:E2.
    { apply Ascii.eqb_eq in E2. subst x. cbn [append] in *. rewrite text_loop_cons.
      replace (xml.isQuote quote "&") with false by (destruct Hend; reflexivity).
      cbn [Ascii.eqb Bool.eqb andb negb squote]. rewrite !andb_false_r.
      pose proof (readEntity_39 (EscapeString t ++ String c tail)) as He;
      cbn [append] in He; rewrite He; clear He.
      rewrite IH; [reflexivity | assumption | assumption | discriminate |].
      cbn [String.length] in Hf. lia. }
    destruct (Ascii.eqb x "<") eqn:E3.
    { apply Ascii.eqb_eq in E3. subst x. cbn [append] in *. rewrite text_loop_cons.
      replace (xml.isQuote quote "&") with false by (destruct Hend; reflexivity).
      cbn [Ascii.eqb Bool.eqb andb negb]. rewrite !andb_false_r.
      pose proof (readEntity_lt_ (EscapeString t ++ String c tail)) as He;
      cbn [append] in He; rewrite He; clear He.
      rewrite IH; [reflexivity | assumption | assumption | discriminate |].
      cbn [String.length] in Hf. lia. }
    destruct (Ascii.eqb x ">") eqn:E4.
    { apply Ascii.eqb_eq in E4. subst x. cbn [append] in *. rewrite text_loop_cons.
      replace (xml.isQuote quote "&") with false by (destruct Hend; reflexivity).
      cbn [Ascii.eqb Bool.eqb andb negb]. rewrite !andb_false_r.
      pose proof (readEntity_gt (EscapeString t ++ String c tail)) as He;
      cbn [append] in He; rewrite He; clear He.
      rewrite IH; [reflexivity | assumption | assumption | discriminate |].
      cbn [String.length] in Hf. lia. }
    destruct (Ascii.eqb x dquote) eqn:E5.
    { apply Ascii.eqb_eq in E5. subst x. cbn [append] in *. rewrite text_loop_cons.
      replace (xml.isQuote quote "&") with false by (destruct Hend; reflexivity).
      cbn [Ascii.eqb Bool.eqb andb negb]. rewrite !andb_false_r.
      pose proof (readEntity_34 (EscapeString t ++ String c tail)) as He;
      cbn [append] in He; rewrite He; clear He.
      rewrite IH; [reflexivity | assumption | assumption | discriminate |].
      cbn [String.length] in Hf. lia. }
    cbn [str1 append] in *. rewrite text_loop_cons.
    replace (xml.isQuote quote x) with false by (destruct Hend; cbn; congruence).
    rewrite E1, E3, E4, Hx, Hb1'. cbn [andb negb]. rewrite !andb_false_r.
    rewrite IH; [reflexivity | assumption | assumption | now apply Ascii.eqb_neq |].
    cbn [String.length] in Hf. lia.
Qed.

Lemma validChars_good (t : string) : goodText t = true -> xml.validChars t = None.
Proof.
  unfold goodText. intros H. apply andb_true_iff in H as [_ H].
  destruct (xml.validChars t); [discriminate | reflexivity].
Qed.

Lemma noCR_good (t : string) : goodText t = true -> noCR t = true.
Proof. unfold goodText. intros H. now apply andb_true_iff in H as [H _]. Qed.

Lemma text_escaped (t : string) (quote : option ascii) (c : ascii) (tail : string) :
  textEnd quote c -> goodText t = true ->
  xml.text uF uS ents quote false (EscapeString t ++ String c tail)
  = xml.LexOk t (afterText quote c tail).
Proof.
  intros Hend Hg. unfold xml.text.
  rewrite text_loop_escaped;
    [| assumption | now apply noCR_good | discriminate | lia].
  now rewrite (validChars_good t Hg).
Qed.

Lemma escaped_head (x : ascii) (t r : string) :
  exists b r', EscapeString (String x t) ++ r = String b r' /\ Ascii.eqb b "<" = false.
Proof.
  cbn [EscapeString]. unfold escapeByte.
  repeat match goal with
         | |- context [if ?c then _ else _] => destruct c eqn:?
         end; cbn [append str1]; eauto.
Qed.

(** Character data in front of a tag. *)
Lemma rawToken_text (t : string) (tail : string) :
  goodText t = true -> t <> EmptyString ->
  rawToken None (EscapeString t ++ String "<" tail)
  = xml.RawTok (CharData t) None (String "<" tail).
Proof.
  intros Hg Hne. destruct t as [| x t]; [congruence |].
  destruct (escaped_head x t (String "<" tail)) as (b & r' & Hb & Hlt).
  pose proof (text_escaped (String x t) None "<" tail endOfChars Hg) as Ht.
  rewrite Hb in *. cbn [xml.rawToken]. rewrite Hlt. cbn [negb]. rewrite Ht. reflexivity.
Qed.

(** The three shapes of a token step. *)
Lemma stream_start (stk : list xml.Name) (input : string) (n : xml.Name)
    (attr : list xml.Attr) (rest : string) :
  rawToken None input = xml.RawTok (StartElement n attr) None rest ->
  stream stk None input = Tok (StartElement n attr) (stream (n :: stk) None rest).
Proof. intros H. rewrite stream_step, H. reflexivity. Qed.

Lemma stream_end (stk : list xml.Name) (input : string) (n : xml.Name) (rest : string) :
  rawToken None input = xml.RawTok (EndElement n) None rest ->
  stream (n :: stk) None input = Tok (EndElement n) (stream stk None rest).
Proof. intros H. rewrite stream_step, H, !String.eqb_refl. reflexivity. Qed.

Lemma stream_chars (stk : list xml.Name) (input : string) (data rest : string) :
  rawToken None input = xml.RawTok (CharData data) None rest ->
  stream stk None input = Tok (CharData data) (stream stk None rest).
Proof. intros H. rewrite stream_step, H. reflexivity. Qed.

Lemma stream_empty_element (stk : list xml.Name) (input : string) (n : xml.Name)
    (attr : list xml.Attr) (rest : string) :
  rawToken None input = xml.RawTok (StartElement n attr) (Some n) rest ->
  stream stk None input
  = Tok (StartElement n attr) (Tok (EndElement n) (stream stk None rest)).
Proof.
  intros H. rewrite stream_step, H. f_equal.
  rewrite stream_step. cbn [xml.rawToken]. rewrite !String.eqb_refl. reflexivity.
Qed.

Lemma markup_nil : markup EmptyString [].
Proof. intros stk tail. reflexivity. Qed.

Lemma markup_app s1 n1 s2 n2 : markup s1 n1 -> markup s2 n2 -> markup (s1 ++ s2) (n1 ++ n2)%list.
Proof.
  intros H1 H2 stk tail. rewrite append_assoc, H1, H2, tokensList_app. reflexivity.
Qed.

Lemma markup_content s nodes : markup s nodes -> content s nodes.
Proof. intros H stk tail. apply H. Qed.

Lemma content_text (t : string) : goodText t = true -> content (EscapeString t) (textNodes t).
Proof.
  intros Hg stk tail. destruct t as [| x t]; [reflexivity |].
  rewrite (stream_chars stk _ _ _ (rawToken_text (String x t) tail Hg ltac:(discriminate))).
  reflexivity.
Qed.

Lemma markup_element (open close : string) (n : xml.Name) (attr : list xml.Attr)
    (inner : string) (kids : list Node) :
  (forall r, rawToken None (open ++ r) = xml.RawTok (StartElement n attr) None r) ->
  (forall r, rawToken None (String "<" close ++ r) = xml.RawTok (EndElement n) None r) ->
  content inner kids ->
  markup (open ++ inner ++ String "<" close) [Element n attr kids].
Proof.
  intros Ho Hc Hi stk tail. rewrite !append_assoc.
  rewrite (stream_start stk _ _ _ _ (Ho _)).
  cbn [append]. rewrite Hi.
  change (String "<" (close ++ tail)) with (String "<" close ++ tail).
  rewrite (stream_end stk _ _ _ (Hc _)). reflexivity.
Qed.

Lemma markup_concat {A : Type} (f : A -> string) (g : A -> Node) (l : list A) :
  (forall x, In x l -> markup (f x) [g x]) ->
  markup (concatMap f l) (map g l).
Proof.
  induction l as [| x l IH]; intros H; [apply markup_nil |].
  cbn [concatMap map]. change (g x :: map g l) with ([g x] ++ map g l)%list.
  apply markup_app; [apply H; now left | apply IH; intros y Hy; apply H; now right].
Qed.


(** An element without attribute. *)
Lemma markup_simple_element (tag : string) (n : xml.Name) (inner : string)
    (kids : list Node) :
  (forall r, rawToken None ("<" ++ tag ++ ">" ++ r)
             = xml.RawTok (StartElement n []) None r) ->
  (forall r, rawToken None ("</" ++ tag ++ ">" ++ r)
             = xml.RawTok (EndElement n) None r) ->
  content inner kids ->
  markup ("<" ++ tag ++ ">" ++ inner ++ "</" ++ tag ++ ">") [Element n [] kids].
Proof.
  intros Ho Hc Hi.
  pose proof (markup_element ("<" ++ tag ++ ">") ("/" ++ tag ++ ">") n []
                inner kids) as H.
  rewrite !append_assoc in H. apply H; [| | exact Hi].
  - intros r. rewrite <- (Ho r). now rewrite !append_assoc.
  - intros r. rewrite <- (Hc r). cbn [append]. now rewrite !append_assoc.
Qed.

Lemma markup_text_element (tag : string) (t : string) :
  (forall r, rawToken None ("<" ++ tag ++ ">" ++ r)
             = xml.RawTok (StartElement (tagged tag) []) None r) ->
  (forall r, rawToken None ("</" ++ tag ++ ">" ++ r)
             = xml.RawTok (EndElement (tagged tag)) None r) ->
  goodText t = true ->
  markup ("<" ++ tag ++ ">" ++ EscapeString t ++ "</" ++ tag ++ ">")
         [Element (tagged tag) [] (textNodes t)].
Proof.
  intros Ho Hc Hg. apply markup_simple_element; [exact Ho | exact Hc |].
  now apply content_text.
Qed.




Lemma markup_paragraph (p : Paragraph) :
  goodText (Paragraph_Text p) = true ->
  markup (renderParagraph p) [Element (tagged "p") [] (textNodes (Paragraph_Text p))].
Proof. intros Hg. apply (markup_text_element "p"); [raw_refl | raw_refl | exact Hg]. Qed.

Lemma markup_header (h : string) :
  goodText h = true -> markup (renderHeader h) [headerNode h].
Proof. intros Hg. apply (markup_text_element "th"); [raw_refl | raw_refl | exact Hg]. Qed.

Lemma markup_item (i : ListItem) :
  goodItem i = true -> markup (renderItem i) [itemNode i].
Proof. intros Hg. apply (markup_text_element "li"); [raw_refl | raw_refl | exact Hg]. Qed.

Lemma markup_heading (h : Heading) (s : string) :
  goodText (Heading_Text h) = true -> renderHeading h = Ok s ->
  markup s [Element (tagged ("h" ++ itoa (Level h))) [] (textNodes (Heading_Text h))].
Proof.
  intros Hg. unfold renderHeading.
  destruct (Level h <? 1)%Z eqn:Hlo; [discriminate |].
  destruct (6 <? Level h)%Z eqn:Hhi; [discriminate |]. cbn [orb].
  intros H. inversion H; subst. clear H.
  apply Z.ltb_ge in Hlo. apply Z.ltb_ge in Hhi.
  assert (Hc : (Level h = 1 \/ Level h = 2 \/ Level h = 3 \/ Level h = 4
                \/ Level h = 5 \/ Level h = 6)%Z) by lia.
  destruct Hc as [-> | [-> | [-> | [-> | [-> | ->]]]]];
    match goal with
    | |- markup _ [Element (tagged ("h" ++ itoa ?z)) _ _] =>
        apply (markup_text_element ("h" ++ itoa z)); [raw_refl | raw_refl | exact Hg]
    end.
Qed.

Lemma markup_list (tag : string) (items : list ListItem) :
  (forall r, rawToken None ("<" ++ tag ++ ">" ++ r)
             = xml.RawTok (StartElement (tagged tag) []) None r) ->
  (forall r, rawToken None ("</" ++ tag ++ ">" ++ r)
             = xml.RawTok (EndElement (tagged tag)) None r) ->
  forallb goodItem items = true ->
  markup ("<" ++ tag ++ ">" ++ concatMap renderItem items ++ "</" ++ tag ++ ">")
         [Element (tagged tag) [] (map itemNode items)].
Proof.
  intros Ho Hc Hg. apply markup_simple_element; [exact Ho | exact Hc |].
  apply markup_content, markup_concat. intros i Hi. apply markup_item.
  rewrite forallb_forall in Hg. now apply Hg.
Qed.

Lemma markup_hr : markup "<hr/>" [Element (tagged "hr") [] []].
Proof.
  intros stk tail.
  rewrite (stream_empty_element stk ("<hr/>" ++ tail) (tagged "hr") [] tail eq_refl).
  reflexivity.
Qed.


Lemma attributes_name (fuel : nat) (acc : list xml.Attr) (X : string) :
  xml.attributes uF uS ents (S fuel) acc (" ac:name=" ++ String dquote X)
  = match xml.text uF uS ents (Some dquote) false X with
    | xml.LexOk v after =>
        xml.attributes uF uS ents fuel (acc ++ [nameAttr v])%list after
    | xml.LexErr e => xml.LexErr e
    end.
Proof. reflexivity. Qed.

Lemma attributes_close (fuel : nat) (acc : list xml.Attr) (r : string) :
  (0 < fuel)%nat ->
  xml.attributes uF uS ents fuel acc (">" ++ r) = xml.LexOk (acc, false) r.
Proof. destruct fuel; [lia | reflexivity]. Qed.

(** The start tag of an element with the attribute [ac:name]. *)
Lemma rawToken_named (elt : string) (n : xml.Name) (v r : string) :
  (forall tail, rawToken None ("<" ++ elt ++ String " " tail)
                = match xml.attributes uF uS ents (S (slen (String " " tail))) []
                          (String " " tail) with
                  | xml.LexOk (attr, empty) rest' =>
                      xml.RawTok (StartElement n attr) (if empty then Some n else None) rest'
                  | xml.LexErr e => xml.RawErr e
                  end) ->
  goodText v = true ->
  rawToken None ("<" ++ elt ++ " ac:name=" ++ str1 dquote ++ EscapeString v
                 ++ str1 dquote ++ ">" ++ r)
  = xml.RawTok (StartElement n [nameAttr v]) None r.
Proof.
  intros Helt Hg.
  change (" ac:name=" ++ str1 dquote ++ EscapeString v ++ str1 dquote ++ ">" ++ r)
    with (String " " ("ac:name=" ++ String dquote (EscapeString v ++ String dquote (">" ++ r)))).
  rewrite Helt.
  change (String " " ("ac:name=" ++ String dquote (EscapeString v ++ String dquote (">" ++ r))))
    with (" ac:name=" ++ String dquote (EscapeString v ++ String dquote (">" ++ r))).
  rewrite attributes_name.
  rewrite (text_escaped v (Some dquote) dquote (">" ++ r) endOfValue Hg).
  cbn [afterText app]. rewrite attributes_close; [reflexivity |].
  cbn [String.length append]. lia.
Qed.

Lemma rawToken_macro_open (v r : string) :
  goodText v = true ->
  rawToken None ("<ac:structured-macro ac:name=" ++ str1 dquote ++ EscapeString v
                 ++ str1 dquote ++ ">" ++ r)
  = xml.RawTok (StartElement (ac "structured-macro") [nameAttr v]) None r.
Proof. apply (rawToken_named "ac:structured-macro"). reflexivity. Qed.

Lemma rawToken_param_open (v r : string) :
  goodText v = true ->
  rawToken None ("<ac:parameter ac:name=" ++ str1 dquote ++ EscapeString v
                 ++ str1 dquote ++ ">" ++ r)
  = xml.RawTok (StartElement (ac "parameter") [nameAttr v]) None r.
Proof. apply (rawToken_named "ac:parameter"). reflexivity. Qed.


(* -------------------------------------------------------------- *)
(** *** CDATA sections *)

Lemma Index_tail (c : ascii) (s sub : string) :
  Index (String c s) sub = None -> Index s sub = None.
Proof.
  cbn [Index]. destruct (String.prefix sub (String c s)); [discriminate |].
  destruct (Index s sub); [discriminate | reflexivity].
Qed.

Lemma Index_head (s sub : string) : Index s sub = None -> String.prefix sub s = false.
Proof.
  destruct s; cbn [Index]; destruct (String.prefix sub _); (discriminate || reflexivity).
Qed.

Lemma Index_skip (c : ascii) (s : string) :
  c <> "]"%char -> Index (String c s) "]]>" = option_map S (Index s "]]>").
Proof.
  intros Hc. cbn [Index String.prefix].
  destruct (ascii_dec "]" c); [congruence | reflexivity].
Qed.

Lemma text_loop_cdata (code : string) :
  forall fuel b0 b1 tail,
    Index (String b0 (String b1 code)) "]]>" = None ->
    noCR code = true -> b1 <> CR ->
    (slen (code ++ "]]>" ++ tail) < fuel)%nat ->
    text_loop fuel None true b0 b1 (code ++ "]]>" ++ tail) = xml.LexOk (code ++ "]]") tail.
Proof.
  induction code as [| x code IH]; intros fuel b0 b1 tail Hidx Hcr Hb1 Hf.
  - cbn [append String.length] in *.
    do 3 (destruct fuel as [| fuel]; [lia |]).
    assert (Hb1' : Ascii.eqb b1 CR = false) by (now apply Ascii.eqb_neq).
    rewrite text_loop_cons, Hb1'.
    cbn [Ascii.eqb Bool.eqb andb negb xml.isQuote CR LF]. rewrite !andb_false_r.
    rewrite text_loop_cons.
    cbn [Ascii.eqb Bool.eqb andb negb xml.isQuote CR LF]. rewrite !andb_false_r.
    rewrite text_loop_cons.
    cbn [Ascii.eqb Bool.eqb andb negb xml.isQuote CR LF]. reflexivity.
  - destruct fuel as [| fuel]; [lia |].
    cbn [noCR] in Hcr. apply andb_true_iff in Hcr as [Hx Hcr]. apply negb_true_iff in Hx.
    assert (Hb1' : Ascii.eqb b1 CR = false) by (now apply Ascii.eqb_neq).
    cbn [append String.length] in *. rewrite text_loop_cons.
    assert (Htrig : Ascii.eqb b0 "]" && Ascii.eqb b1 "]" && Ascii.eqb x ">" = false).
    { apply Index_head in Hidx.
      destruct (Ascii.eqb b0 "]") eqn:E0; [| reflexivity].
      destruct (Ascii.eqb b1 "]") eqn:E1; [| reflexivity].
      destruct (Ascii.eqb x ">") eqn:E2; [| reflexivity].
      apply Ascii.eqb_eq in E0, E1, E2. subst. destruct code; cbv in Hidx; discriminate. }
    rewrite Htrig. cbn [negb andb xml.isQuote]. rewrite !andb_false_r, Hx, Hb1'.
    cbn [andb]. rewrite IH; [reflexivity | | assumption | now apply Ascii.eqb_neq | lia].
    now apply Index_tail in Hidx.
Qed.

Lemma take_bytes_app (a b : string) : take_bytes (slen a) (a ++ b) = a.
Proof. induction a as [| c a IH]; cbn; [now destruct b | now rewrite IH]. Qed.

Lemma chop_brackets (code : string) : xml.chop 2 (code ++ "]]") = code.
Proof.
  unfold xml.chop. rewrite length_append. cbn [String.length].
  replace (slen code + 2 - 2)%nat with (slen code) by lia. apply take_bytes_app.
Qed.

Lemma prefix_CDATA (s : string) : String.prefix "CDATA[" ("CDATA[" ++ s) = true.
Proof. destruct s; reflexivity. Qed.

Lemma rawToken_cdata (code tail : string) :
  goodText code = true -> cdataSafe code = true ->
  rawToken None ("<![CDATA[" ++ code ++ "]]>" ++ tail)
  = xml.RawTok (CharData code) None tail.
Proof.
  intros Hg Hs.
  change (rawToken None ("<![CDATA[" ++ code ++ "]]>" ++ tail))
    with (if String.prefix "CDATA[" ("CDATA[" ++ code ++ "]]>" ++ tail) then
            match xml.text uF uS ents None true (code ++ "]]>" ++ tail) with
            | xml.LexOk data after => xml.RawTok (CharData data) None after
            | xml.LexErr e => xml.RawErr e
            end
          else if (slen ("CDATA[" ++ code ++ "]]>" ++ tail) <? 6)%nat
                  && String.prefix ("CDATA[" ++ code ++ "]]>" ++ tail) "CDATA["
          then xml.RawErr xml.unexpectedEOF
          else xml.RawErr "invalid <![ sequence").
  rewrite prefix_CDATA.
  unfold xml.text. rewrite text_loop_cdata;
    [| | now apply noCR_good | discriminate | lia].
  - rewrite chop_brackets, (validChars_good code Hg). reflexivity.
  - unfold cdataSafe in Hs. rewrite !Index_skip by discriminate.
    destruct (Index code "]]>"); [discriminate | reflexivity].
Qed.

Lemma markup_cdata (code : string) :
  goodText code = true -> cdataSafe code = true ->
  markup ("<![CDATA[" ++ code ++ "]]>") [Chars code].
Proof.
  intros Hg Hs stk tail. rewrite !append_assoc.
  rewrite (stream_chars stk _ _ _ (rawToken_cdata code tail Hg Hs)). reflexivity.
Qed.

(* -------------------------------------------------------------- *)
(** *** Text written without escaping *)

Lemma text_loop_raw (t : string) :
  forall fuel b0 b1 tail,
    noMarkup t = true ->
    Index (String b0 (String b1 t)) "]]>" = None ->
    noCR t = true -> b1 <> CR ->
    (slen (t ++ String "<" tail) < fuel)%nat ->
    text_loop fuel None false b0 b1 (t ++ String "<" tail) = xml.LexOk t (String "<" tail).
Proof.
  induction t as [| x t IH]; intros fuel b0 b1 tail Hm Hidx Hcr Hb1 Hf;
    (destruct fuel as [| fuel]; [lia |]).
  - cbn [append]. rewrite text_loop_cons.
    cbn [Ascii.eqb Bool.eqb andb negb]. rewrite !andb_false_r. reflexivity.
  - cbn [noCR noMarkup] in *. apply andb_true_iff in Hcr as [Hx Hcr].
    apply negb_true_iff in Hx.
    apply andb_true_iff in Hm as [Hm Hm']. apply andb_true_iff in Hm as [Hlt Hamp].
    apply negb_true_iff in Hlt, Hamp.
    assert (Hb1' : Ascii.eqb b1 CR = false) by (now apply Ascii.eqb_neq).
    cbn [append String.length] in *. rewrite text_loop_cons.
    assert (Htrig : Ascii.eqb b0 "]" && Ascii.eqb b1 "]" && Ascii.eqb x ">" = false).
    { apply Index_head in Hidx.
      destruct (Ascii.eqb b0 "]") eqn:E0; [| reflexivity].
      destruct (Ascii.eqb b1 "]") eqn:E1; [| reflexivity].
      destruct (Ascii.eqb x ">") eqn:E2; [| reflexivity].
      apply Ascii.eqb_eq in E0, E1, E2. subst. destruct t; cbv in Hidx; discriminate. }
    rewrite Htrig, Hlt, Hamp. cbn [negb andb xml.isQuote]. rewrite Hx, Hb1'.
    cbn [andb]. rewrite IH; [reflexivity | assumption | | assumption | now apply Ascii.eqb_neq | lia].
    now apply Index_tail in Hidx.
Qed.

(** A text without markup, in front of a tag, is read as it is. *)
Lemma rawToken_raw (t : string) (tail : string) :
  goodText t = true -> rawText t = true -> t <> EmptyString ->
  rawToken None (t ++ String "<" tail) = xml.RawTok (CharData t) None (String "<" tail).
Proof.
  intros Hg Hr Hne. unfold rawText in Hr. apply andb_true_iff in Hr as [Hm Hs].
  destruct t as [| x t]; [congruence |].
  assert (Hx : Ascii.eqb x "<" = false).
  { cbn [noMarkup] in Hm. apply andb_true_iff in Hm as [Hm _].
    apply andb_true_iff in Hm as [Hm _]. now apply negb_true_iff in Hm. }
  cbn [append xml.rawToken]. rewrite Hx. cbn [negb].
  change (String x (t ++ String "<" tail)) with (String x t ++ String "<" tail).
  unfold xml.text. rewrite text_loop_raw;
    [| assumption | | now apply noCR_good | discriminate | lia].
  - now rewrite (validChars_good _ Hg).
  - unfold cdataSafe in Hs. rewrite !Index_skip by discriminate.
    destruct (Index (String x t) "]]>"); [discriminate | reflexivity].
Qed.

Lemma content_raw (t : string) :
  goodText t = true -> rawText t = true -> content t (textNodes t).
Proof.
  intros Hg Hr stk tail. destruct t as [| x t]; [reflexivity |].
  rewrite (stream_chars stk _ _ _ (rawToken_raw (String x t) tail Hg Hr ltac:(discriminate))).
  reflexivity.
Qed.

End RenderedMarkup.

Section RenderedBlocks.

Variable uF uS : N -> bool.
Variable ents : gmap string string.
Variable mapRange : gmap string string -> list (string * string).
Hypothesis mapRange_perm : forall m, Permutation (mapRange m) (map_to_list m).

Local Abbreviation rawToken := (xml.rawToken uF uS ents).
Local Abbreviation markup := (markup uF uS ents).
Local Abbreviation content := (content uF uS ents).

Lemma markup_named_element (elt : string) (n : xml.Name) (v inner : string)
    (kids : list Node) :
  (forall r, rawToken None ("<" ++ elt ++ " ac:name=" ++ str1 dquote ++ EscapeString v
                            ++ str1 dquote ++ ">" ++ r)
             = xml.RawTok (StartElement n [nameAttr v]) None r) ->
  (forall r, rawToken None ("</" ++ elt ++ ">" ++ r) = xml.RawTok (EndElement n) None r) ->
  content inner kids ->
  markup ("<" ++ elt ++ " ac:name=" ++ str1 dquote ++ EscapeString v ++ str1 dquote ++ ">"
          ++ inner ++ "</" ++ elt ++ ">")
         [Element n [nameAttr v] kids].
Proof.
  intros Ho Hc Hi.
  pose proof (markup_element uF uS ents
                ("<" ++ elt ++ " ac:name=" ++ str1 dquote ++ EscapeString v ++ str1 dquote ++ ">")
                ("/" ++ elt ++ ">") n [nameAttr v] inner kids) as H.
  rewrite !append_assoc in H. apply H; [| | exact Hi].
  - intros r. rewrite <- (Ho r). now rewrite !append_assoc.
  - intros r. rewrite <- (Hc r). cbn [append]. now rewrite !append_assoc.
Qed.

Lemma markup_param (kv : string * string) :
  goodParam kv = true -> markup (renderParam kv) [paramNode kv].
Proof.
  unfold goodParam. intros H. apply andb_true_iff in H as [Hk Hv].
  apply (markup_named_element "ac:parameter").
  - intros r. now apply rawToken_param_open.
  - raw_refl.
  - now apply content_text.
Qed.

Lemma markup_body (body : string) :
  goodText body = true -> rawText body = true ->
  markup ("<ac:rich-text-body>" ++ body ++ "</ac:rich-text-body>")
         [Element (ac "rich-text-body") [] (textNodes body)].
Proof.
  intros Hg Hm.
  apply (markup_simple_element uF uS ents "ac:rich-text-body"); [raw_refl | raw_refl |].
  now apply content_raw.
Qed.

Lemma goodMacro_params (m : Macro) :
  goodMacro m = true -> forall kv, In kv (mapRange (Params m)) -> goodParam kv = true.
Proof.
  unfold goodMacro. intros H kv Hin.
  repeat (apply andb_true_iff in H as [H ?]).
  match goal with Hp : forallb goodParam _ = true |- _ => rewrite forallb_forall in Hp; apply Hp end.
  eapply Permutation_in; [apply mapRange_perm | exact Hin].
Qed.

Lemma markup_macro (m : Macro) :
  goodMacro m = true -> markup (RenderMacro mapRange m) [macroNode mapRange m].
Proof.
  intros Hg. pose proof (goodMacro_params m Hg) as Hparams.
  unfold goodMacro in Hg. apply andb_true_iff in Hg as [Hg Hfree].
  apply andb_true_iff in Hg as [Hg Hbody]. apply andb_true_iff in Hg as [Hname _].
  unfold RenderMacro, macroNode.
  set (ps := concatMap renderParam (mapRange (Params m))).
  set (bd := if String.eqb (Body m) EmptyString then EmptyString
             else "<ac:rich-text-body>" ++ Body m ++ "</ac:rich-text-body>").
  replace ("<ac:structured-macro ac:name=" ++ str1 dquote ++ EscapeString (Name m)
           ++ str1 dquote ++ ">" ++ ps ++ bd ++ "</ac:structured-macro>")
    with ("<" ++ "ac:structured-macro" ++ " ac:name=" ++ str1 dquote ++ EscapeString (Name m)
          ++ str1 dquote ++ ">" ++ (ps ++ bd) ++ "</" ++ "ac:structured-macro" ++ ">")
    by (rewrite (append_assoc ps bd); reflexivity).
  apply (markup_named_element "ac:structured-macro").
  - intros r. exact (rawToken_macro_open uF uS ents (Name m) r Hname).
  - raw_refl.
  - apply markup_content, markup_app.
    + apply markup_concat. intros kv Hin. apply markup_param. now apply Hparams.
    + subst bd. destruct (String.eqb (Body m) EmptyString); [apply markup_nil |].
      now apply markup_body.
Qed.

Lemma markup_cell (c : Cell) : goodCell c = true -> markup (renderTd mapRange c) [cellNode mapRange c].
Proof.
  unfold goodCell, renderTd, renderCell, cellNode. intros Hg.
  apply (markup_simple_element uF uS ents "td"); [raw_refl | raw_refl |].
  destruct (Cell_Macro c) as [m |].
  - apply markup_content. now apply markup_macro.
  - now apply content_text.
Qed.

Lemma markup_row (r : Row) :
  forallb goodCell (Cells r) = true -> markup (renderRow mapRange r) [rowNode mapRange r].
Proof.
  intros Hg. unfold renderRow, rowNode.
  apply (markup_simple_element uF uS ents "tr"); [raw_refl | raw_refl |].
  apply markup_content, markup_concat. intros c Hc. apply markup_cell.
  rewrite forallb_forall in Hg. now apply Hg.
Qed.

Lemma markup_table (t : Table) :
  forallb goodText (Headers t) = true ->
  forallb (fun r => forallb goodCell (Cells r)) (Rows t) = true ->
  markup (renderTable mapRange t) [tableNode mapRange t].
Proof.
  intros Hh Hr. unfold renderTable, tableNode.
  set (h := if (0 <? length (Headers t))%nat
            then "<tr>" ++ concatMap renderHeader (Headers t) ++ "</tr>" else EmptyString).
  set (rows := concatMap (renderRow mapRange) (Rows t)).
  replace ("<table><tbody>" ++ h ++ rows ++ "</tbody></table>")
    with ("<" ++ "table" ++ ">"
          ++ ("<" ++ "tbody" ++ ">" ++ (h ++ rows) ++ "</" ++ "tbody" ++ ">")
          ++ "</" ++ "table" ++ ">")
    by (rewrite !append_assoc; reflexivity).
  apply (markup_simple_element uF uS ents "table"); [raw_refl | raw_refl |].
  apply markup_content.
  apply (markup_simple_element uF uS ents "tbody"); [raw_refl | raw_refl |].
  apply markup_content, markup_app.
  - subst h. destruct (0 <? length (Headers t))%nat; [| apply markup_nil].
    apply (markup_simple_element uF uS ents "tr"); [raw_refl | raw_refl |].
    apply markup_content, markup_concat. intros h Hin. apply markup_header.
    rewrite forallb_forall in Hh. now apply Hh.
  - apply markup_concat. intros r Hin. apply markup_row.
    rewrite forallb_forall in Hr. now apply Hr.
Qed.

Lemma markup_codeBlock (cb : CodeBlock) :
  goodText (Language cb) = true -> goodText (Code cb) = true -> cdataSafe (Code cb) = true ->
  markup (renderCodeBlock cb) [codeBlockNode cb].
Proof.
  intros Hl Hc Hs. unfold renderCodeBlock, codeBlockNode.
  set (lang := if String.eqb (Language cb) EmptyString then EmptyString
               else "<ac:parameter ac:name=" ++ str1 dquote ++ "language" ++ str1 dquote
                    ++ ">" ++ EscapeString (Language cb) ++ "</ac:parameter>").
  replace ("<ac:structured-macro ac:name=" ++ str1 dquote ++ "code" ++ str1 dquote ++ ">"
           ++ lang
           ++ "<ac:plain-text-body><![CDATA[" ++ Code cb ++ "]]></ac:plain-text-body>"
           ++ "</ac:structured-macro>")
    with ("<" ++ "ac:structured-macro" ++ " ac:name=" ++ str1 dquote
          ++ EscapeString "code" ++ str1 dquote ++ ">"
          ++ (lang ++ "<" ++ "ac:plain-text-body" ++ ">"
              ++ ("<![CDATA[" ++ Code cb ++ "]]>")
              ++ "</" ++ "ac:plain-text-body" ++ ">")
          ++ "</" ++ "ac:structured-macro" ++ ">")
    by (rewrite !append_assoc; reflexivity).
  apply (markup_named_element "ac:structured-macro").
  - intros r. exact (rawToken_macro_open uF uS ents "code" r eq_refl).
  - raw_refl.
  - apply markup_content, markup_app.
    + subst lang. destruct (String.eqb (Language cb) EmptyString); [apply markup_nil |].
      change (markup ("<" ++ "ac:parameter" ++ " ac:name=" ++ str1 dquote
                      ++ EscapeString "language" ++ str1 dquote ++ ">"
                      ++ EscapeString (Language cb) ++ "</" ++ "ac:parameter" ++ ">")
                [Element (ac "parameter") [nameAttr "language"] (textNodes (Language cb))]).
      apply (markup_named_element "ac:parameter").
      * intros r. exact (rawToken_param_open uF uS ents "language" r eq_refl).
      * raw_refl.
      * now apply content_text.
    + apply (markup_simple_element uF uS ents "ac:plain-text-body"); [raw_refl | raw_refl |].
      apply markup_content. now apply markup_cdata.
Qed.

Lemma markup_block (b : Block) (s : string) :
  goodBlock b = true -> RenderBlock mapRange b = Ok s -> markup s [blockNode mapRange b].
Proof.
  destruct b as [t | p | h | bl | nl | m | cb |]; cbn [goodBlock RenderBlock blockNode];
    intros Hg Hr; try (inversion Hr; subst; clear Hr).
  - apply andb_true_iff in Hg as [Hh Hrows]. now apply markup_table.
  - now apply markup_paragraph.
  - now apply markup_heading.
  - apply (markup_list uF uS ents "ul"); [raw_refl | raw_refl | exact Hg].
  - apply (markup_list uF uS ents "ol"); [raw_refl | raw_refl | exact Hg].
  - now apply markup_macro.
  - apply andb_true_iff in Hg as [Hg Hs]. apply andb_true_iff in Hg as [Hl Hc].
    now apply markup_codeBlock.
  - apply markup_hr.
Qed.

Lemma markup_blocks (blocks : list Block) :
  forall s, forallb goodBlock blocks = true -> Render_blocks mapRange blocks = Ok s ->
            markup s (map (blockNode mapRange) blocks).
Proof.
  induction blocks as [| b blocks IH]; intros s Hg Hr.
  - inversion Hr; subst. apply markup_nil.
  - cbn [forallb] in Hg. apply andb_true_iff in Hg as [Hb Hg].
    cbn [Render_blocks] in Hr.
    destruct (RenderBlock mapRange b) as [sb | |] eqn:Eb; cbn [bind] in Hr; try discriminate.
    destruct (Render_blocks mapRange blocks) as [sr | |] eqn:Er; cbn [bind] in Hr;
      try discriminate.
    inversion Hr; subst. cbn [map].
    change (blockNode mapRange b :: map (blockNode mapRange) blocks)
      with ([blockNode mapRange b] ++ map (blockNode mapRange) blocks)%list.
    apply markup_app; [now apply markup_block | now apply IH].
Qed.

(** The decoder of [Parse] and of [Validate] on a rendered page returns
    the tokens of the wrapper element around the nodes of the blocks. *)
Lemma newDecoder_rendered (page : Page) (s : string) :
  goodPage page = true -> Render mapRange page = Ok s ->
  newDecoder uF uS ents s
  = tokens (Element (tagged "root") rootAttr (map (blockNode mapRange) (Blocks page))) EOF.
Proof.
  intros Hg Hr. unfold newDecoder, xml.NewDecoder, wrapped.
  match goal with
  | |- xml.stream _ _ _ _ _ (?a ++ ?b ++ ?c ++ ?d ++ ?e ++ ?f ++ ?g ++ ?h ++ ?i ++ s ++ ?z) = _ =>
      set (open := a ++ b ++ c ++ d ++ e ++ f ++ g ++ h ++ i);
      change (a ++ b ++ c ++ d ++ e ++ f ++ g ++ h ++ i ++ s ++ z) with (open ++ s ++ z)
  end.
  rewrite (stream_start uF uS ents [] (open ++ s ++ "</root>") (tagged "root") rootAttr
             (s ++ "</root>") eq_refl).
  rewrite tokens_Element. f_equal.
  rewrite (markup_blocks (Blocks page) s Hg Hr).
  apply f_equal. reflexivity.
Qed.

End RenderedBlocks.

(* ================================================================== *)
(** ** The validator on the nodes of a rendered page *)

Lemma validate_quiet_token (opts : ValidatorOptions) (t : xml.Token) :
  quiet opts t = true ->
  forall depth found d,
    validate_loop opts depth found (Tok t d) = validate_loop opts depth found d.
Proof.
  intros Hq depth found d. apply (validate_quiet opts [t]). cbn. now rewrite Hq.
Qed.

Lemma validate_calm_token (opts : ValidatorOptions) (t : xml.Token) :
  calm opts t = true ->
  forall depth d,
    validate_loop opts depth true (Tok t d) = validate_loop opts depth true d.
Proof.
  intros Hc depth d. cbn [validate_loop].
  destruct t as [n attr | n | | | |]; cbn [calm] in Hc; auto.
  - repeat (apply andb_true_iff in Hc as [Hc ?]).
    repeat match goal with H : negb _ = true |- _ => apply negb_true_iff in H end.
    rewrite Hc.
    match goal with H : (_ && _ && _ && _)%bool = false |- _ => rewrite H end.
    match goal with H : String.eqb _ "table" = false |- _ => rewrite H end.
    destruct (String.eqb (Local n) "tbody" && (0 <? depth)%Z); cbn [negb];
      rewrite ?andb_false_r; reflexivity.
  - apply negb_true_iff in Hc. now rewrite Hc.
Qed.

Lemma validate_allTokens (opts : ValidatorOptions) (p : xml.Token -> bool) (found : bool) :
  (forall t, p t = true ->
     forall depth d, validate_loop opts depth found (Tok t d) = validate_loop opts depth found d) ->
  forall c, allTokens p c = true ->
    forall depth d, validate_loop opts depth found (tokens c d) = validate_loop opts depth found d.
Proof.
  intros Hp.
  induction c as [n a kids IH | | | |] using Node_nested_ind; intros Hc depth d;
    try reflexivity.
  cbn [allTokens] in Hc. apply andb_true_iff in Hc as [Hc Hend].
  apply andb_true_iff in Hc as [Hstart Hkids].
  rewrite tokens_Element, (Hp _ Hstart).
  assert (Hl : forall d', validate_loop opts depth found (tokensList kids d')
                          = validate_loop opts depth found d').
  { clear Hstart Hend. induction IH as [| c r Hc _ IHr]; intros d'; [reflexivity |].
    cbn [forallb] in Hkids. apply andb_true_iff in Hkids as [Hck Hkids].
    rewrite tokensList_cons, (Hc Hck). now apply IHr. }
  rewrite Hl. now apply Hp.
Qed.

Lemma validate_quiet_node (opts : ValidatorOptions) (c : Node) :
  allTokens (quiet opts) c = true ->
  forall depth found d,
    validate_loop opts depth found (tokens c d) = validate_loop opts depth found d.
Proof.
  intros Hc depth found d. revert depth d.
  apply (validate_allTokens opts (quiet opts) found); [| exact Hc].
  intros t Ht depth d. now apply validate_quiet_token.
Qed.

Lemma validate_calm_node (opts : ValidatorOptions) (c : Node) :
  allTokens (calm opts) c = true ->
  forall depth d,
    validate_loop opts depth true (tokens c d) = validate_loop opts depth true d.
Proof.
  intros Hc. apply (validate_allTokens opts (calm opts) true); [| exact Hc].
  intros t Ht depth d. now apply validate_calm_token.
Qed.

Lemma quiet_calm (opts : ValidatorOptions) (t : xml.Token) :
  quiet opts t = true -> calm opts t = true.
Proof.
  destruct t as [n attr | n | | | |]; cbn [quiet calm]; auto.
  intros H. repeat (apply andb_true_iff in H as [H ?]).
  repeat (apply andb_true_iff; split); assumption.
Qed.

Lemma allTokens_impl (p q : xml.Token -> bool) :
  (forall t, p t = true -> q t = true) ->
  forall c, allTokens p c = true -> allTokens q c = true.
Proof.
  intros Hpq. induction c as [n a kids IH | | | |] using Node_nested_ind; try reflexivity.
  cbn [allTokens]. intros H. apply andb_true_iff in H as [H Hend].
  apply andb_true_iff in H as [Hstart Hkids].
  rewrite (Hpq _ Hstart), (Hpq _ Hend), andb_true_r. cbn [andb].
  induction IH as [| c r Hc _ IHr]; [reflexivity |].
  cbn [forallb] in *. apply andb_true_iff in Hkids as [Hck Hkids].
  rewrite (Hc Hck). now apply IHr.
Qed.

Section RenderedNodes.

Variable mapRange : gmap string string -> list (string * string).

Local Abbreviation opts := DefaultValidatorOptions.

Lemma quiet_textNodes (t : string) : forallb (allTokens (quiet opts)) (textNodes t) = true.
Proof. destruct t; reflexivity. Qed.

Lemma quiet_text_element (tag : string) (t : string) :
  quiet opts (StartElement (tagged tag) []) = true ->
  quiet opts (EndElement (tagged tag)) = true ->
  allTokens (quiet opts) (Element (tagged tag) [] (textNodes t)) = true.
Proof. intros Hs He. cbn [allTokens]. now rewrite Hs, He, quiet_textNodes. Qed.

Lemma forallb_map_true {A B : Type} (p : B -> bool) (f : A -> B) (l : list A) :
  (forall x, p (f x) = true) -> forallb p (map f l) = true.
Proof. intros H. induction l as [| x l IH]; cbn; [reflexivity | now rewrite H, IH]. Qed.

Lemma quiet_paramNode (kv : string * string) : allTokens (quiet opts) (paramNode kv) = true.
Proof. unfold paramNode. cbn [allTokens]. now rewrite quiet_textNodes. Qed.

Lemma quiet_macroNode (m : Macro) : allTokens (quiet opts) (macroNode mapRange m) = true.
Proof.
  unfold macroNode. cbn [allTokens]. rewrite forallb_app.
  rewrite (forallb_map_true _ paramNode _ quiet_paramNode).
  destruct (String.eqb (Body m) EmptyString); [reflexivity |].
  cbn [forallb allTokens]. now rewrite quiet_textNodes.
Qed.

Lemma calm_cellNode (c : Cell) : allTokens (calm opts) (cellNode mapRange c) = true.
Proof.
  apply (allTokens_impl _ _ (quiet_calm opts)).
  unfold cellNode. cbn [allTokens]. destruct (Cell_Macro c).
  - cbn [forallb]. now rewrite quiet_macroNode.
  - now rewrite quiet_textNodes.
Qed.

Lemma calm_rowNode (r : Row) : allTokens (calm opts) (rowNode mapRange r) = true.
Proof.
  unfold rowNode. cbn [allTokens].
  now rewrite (forallb_map_true _ (cellNode mapRange) _ calm_cellNode).
Qed.

Lemma calm_headerNode (h : string) : allTokens (calm opts) (headerNode h) = true.
Proof.
  apply (allTokens_impl _ _ (quiet_calm opts)). unfold headerNode.
  now apply quiet_text_element.
Qed.

Lemma validate_tableNode (t : Table) (depth : Z) (found : bool) (d : Decoder) :
  (0 <= depth)%Z ->
  validate_loop opts depth found (tokens (tableNode mapRange t) d)
  = validate_loop opts depth true d.
Proof.
  intros Hd. unfold tableNode. rewrite tokens_Element. cbn [tokensList fold_right].
  rewrite tokens_Element.
  assert (Hopen : forall k,
             validate_loop opts depth found
               (Tok (StartElement (tagged "table") [])
                  (Tok (StartElement (tagged "tbody") []) k))
             = validate_loop opts (depth + 1) true k).
  { intros k. cbn.
    destruct (0 <? depth + 1)%Z eqn:Hp; [reflexivity | apply Z.ltb_ge in Hp; lia]. }
  rewrite Hopen.
  assert (Hkids : forall (kids : list Node) k,
             forallb (allTokens (calm opts)) kids = true ->
             validate_loop opts (depth + 1) true (tokensList kids k)
             = validate_loop opts (depth + 1) true k).
  { induction kids as [| c r IH]; intros k Hk; [reflexivity |].
    cbn [forallb] in Hk. apply andb_true_iff in Hk as [Hc Hr].
    rewrite tokensList_cons, (validate_calm_node opts c Hc). now apply IH. }
  rewrite Hkids.
  - cbn. f_equal. lia.
  - rewrite forallb_app. apply andb_true_iff. split.
    + destruct (0 <? length (Headers t))%nat; [| reflexivity].
      cbn [forallb allTokens]. rewrite (forallb_map_true _ headerNode _ calm_headerNode).
      reflexivity.
    + apply forallb_map_true. apply calm_rowNode.
Qed.

Lemma quiet_itemNode (i : ListItem) : allTokens (quiet opts) (itemNode i) = true.
Proof. unfold itemNode. now apply quiet_text_element. Qed.

Lemma quiet_codeBlockNode (cb : CodeBlock) : allTokens (quiet opts) (codeBlockNode cb) = true.
Proof.
  unfold codeBlockNode. cbn [allTokens]. rewrite forallb_app.
  destruct (String.eqb (Language cb) EmptyString); cbn [forallb allTokens];
    rewrite ?quiet_textNodes; reflexivity.
Qed.

Lemma validate_blockNode (b : Block) (s : string) (found : bool) (d : Decoder) :
  RenderBlock mapRange b = Ok s ->
  exists found',
    validate_loop opts 0 found (tokens (blockNode mapRange b) d)
    = validate_loop opts 0 found' d.
Proof.
  intros Hr. destruct b as [t | p | h | bl | nl | m | cb |]; cbn [blockNode].
  - exists true. now apply validate_tableNode.
  - exists found. apply validate_quiet_node. now apply quiet_text_element.
  - exists found. apply validate_quiet_node.
    cbn [RenderBlock] in Hr. unfold renderHeading in Hr.
    destruct (Level h <? 1)%Z eqn:Hlo; [discriminate |].
    destruct (6 <? Level h)%Z eqn:Hhi; [discriminate |].
    apply Z.ltb_ge in Hlo. apply Z.ltb_ge in Hhi.
    assert (Hc : (Level h = 1 \/ Level h = 2 \/ Level h = 3 \/ Level h = 4
                  \/ Level h = 5 \/ Level h = 6)%Z) by lia.
    destruct Hc as [-> | [-> | [-> | [-> | [-> | ->]]]]];
      now apply quiet_text_element.
  - exists found. apply validate_quiet_node. cbn [allTokens].
    now rewrite (forallb_map_true _ itemNode _ quiet_itemNode).
  - exists found. apply validate_quiet_node. cbn [allTokens].
    now rewrite (forallb_map_true _ itemNode _ quiet_itemNode).
  - exists found. apply validate_quiet_node, quiet_macroNode.
  - exists found. apply validate_quiet_node, quiet_codeBlockNode.
  - exists found. now apply validate_quiet_node.
Qed.

Lemma validate_blockNodes (blocks : list Block) :
  forall s found d,
    Render_blocks mapRange blocks = Ok s ->
    exists found',
      validate_loop opts 0 found (tokensList (map (blockNode mapRange) blocks) d)
      = validate_loop opts 0 found' d.
Proof.
  induction blocks as [| b blocks IH]; intros s found d Hr; [now exists found |].
  cbn [Render_blocks] in Hr.
  destruct (RenderBlock mapRange b) as [sb | |] eqn:Eb; cbn [bind] in Hr; try discriminate.
  destruct (Render_blocks mapRange blocks) as [sr | |] eqn:Er; cbn [bind] in Hr;
    try discriminate.
  cbn [map]. rewrite tokensList_cons.
  destruct (validate_blockNode b sb found
              (tokensList (map (blockNode mapRange) blocks) d) Eb) as [f1 H1].
  destruct (IH sr f1 d eq_refl) as [f2 H2].
  exists f2. now rewrite H1, H2.
Qed.

End RenderedNodes.

(* ================================================================== *)
(** ** Rendering, parsing and rendering again (C2) *)

Lemma plainText_good (t : string) : plainText t = true -> goodText t = true.
Proof. unfold plainText. intros H. now apply andb_true_iff in H as [H _]. Qed.

Lemma plainText_trim (t : string) : plainText t = true -> TrimSpace t = t.
Proof.
  unfold plainText. intros H. apply andb_true_iff in H as [_ H]. now apply String.eqb_eq.
Qed.

Lemma forallb_impl {A : Type} (p q : A -> bool) (l : list A) :
  (forall x, p x = true -> q x = true) -> forallb p l = true -> forallb q l = true.
Proof.
  intros Hpq. induction l as [| x l IH]; cbn; [reflexivity |].
  intros H. apply andb_true_iff in H as [Hx Hl]. now rewrite (Hpq x Hx), IH.
Qed.

Lemma plainParam_good (kv : string * string) : plainParam kv = true -> goodParam kv = true.
Proof.
  unfold plainParam, goodParam. intros H.
  apply andb_true_iff in H as [H Hv]. apply andb_true_iff in H as [_ Hk].
  now rewrite Hk, (plainText_good _ Hv).
Qed.

Lemma plainMacro_good (m : Macro) : plainMacro m = true -> goodMacro m = true.
Proof.
  unfold plainMacro, goodMacro. intros H.
  apply andb_true_iff in H as [H Hfree]. apply andb_true_iff in H as [H Hbody].
  apply andb_true_iff in H as [Hname Hparams].
  now rewrite Hname, (forallb_impl _ _ _ plainParam_good Hparams),
    (plainText_good _ Hbody), Hfree.
Qed.

Lemma plainCell_good (c : Cell) : plainCell c = true -> goodCell c = true.
Proof.
  unfold plainCell, goodCell. destruct (Cell_Macro c).
  - apply plainMacro_good.
  - apply plainText_good.
Qed.

Lemma plainBlock_good (b : Block) : plainBlock b = true -> goodBlock b = true.
Proof.
  destruct b as [t | p | h | bl | nl | m | cb |]; cbn [plainBlock goodBlock];
    try apply plainText_good; try apply plainMacro_good; try discriminate; auto.
  - intros H. apply andb_true_iff in H as [Hh Hr].
    rewrite (forallb_impl _ _ _ plainText_good Hh). cbn [andb].
    revert Hr. apply forallb_impl. intros r. apply forallb_impl, plainCell_good.
  - apply forallb_impl. intros i. apply plainText_good.
  - apply forallb_impl. intros i. apply plainText_good.
Qed.

Lemma plainPage_good (p : Page) : plainPage p = true -> goodPage p = true.
Proof. apply forallb_impl, plainBlock_good. Qed.

(** *** What the parser makes of the nodes of a plain page *)

Lemma directText_textNodes (t : string) : directText (textNodes t) = t.
Proof. destruct t; [reflexivity |]. cbn [textNodes directText]. apply append_nil_r. Qed.

Lemma flowText_textNodes (t : string) : plainText t = true -> flowText (textNodes t) = t.
Proof.
  intros H. unfold flowText. destruct t; [reflexivity |].
  cbn [textNodes fold_left flowChild append]. now apply plainText_trim.
Qed.

Lemma macroChild_params (l : list (string * string)) :
  forall m0 : Macro,
    Forall (fun kv => plainParam kv = true) l ->
    fold_left macroChild (map paramNode l) m0
    = {| Name := Name m0;
         Params := fold_left (fun acc kv => <[fst kv := snd kv]> acc) l (Params m0);
         Body := Body m0 |}.
Proof.
  induction l as [| [k v] l IH]; intros m0 Hl.
  - now destruct m0.
  - inversion Hl as [| ? ? Hkv Hl']; subst. cbn [map fold_left].
    rewrite (IH _ Hl'). unfold plainParam in Hkv. cbn [fst snd] in *.
    apply andb_true_iff in Hkv as [Hkv Hv]. apply andb_true_iff in Hkv as [Hk _].
    apply negb_true_iff in Hk.
    unfold paramNode, macroChild. cbn [fst snd Local ac xml.Local].
    change (attrNamed [nameAttr k] EmptyString) with k.
    rewrite Hk. cbn [String.eqb Ascii.eqb Name Params Body].
    now rewrite directText_textNodes, (plainText_trim _ Hv).
Qed.

Lemma fold_insert_to_list (m : gmap string string) (l : list (string * string)) :
  Permutation l (map_to_list m) ->
  fold_left (fun acc kv => <[fst kv := snd kv]> acc) l ∅ = m.
Proof.
  intros Hp. rewrite <- fold_left_rev_right.
  change (fold_right (fun (y : string * string) (x : gmap string string) =>
                        <[fst y := snd y]> x) ∅ (rev l))
    with (list_to_map (M := gmap string string) (rev l)).
  assert (Hr : Permutation (rev l) (map_to_list m)).
  { etransitivity; [symmetry; apply Permutation_rev | exact Hp]. }
  transitivity (list_to_map (M := gmap string string) (map_to_list m));
    [| apply list_to_map_to_list].
  apply list_to_map_proper; [| exact Hr].
  rewrite Hr. apply NoDup_fst_map_to_list.
Qed.

Section RoundTrip.

Variable ord1 ord2 : gmap string string -> list (string * string).
Hypothesis ord1_perm : forall m, Permutation (ord1 m) (map_to_list m).

Lemma plainMacro_params (m : Macro) :
  plainMacro m = true -> Forall (fun kv => plainParam kv = true) (ord1 (Params m)).
Proof.
  unfold plainMacro. intros H.
  apply andb_true_iff in H as [H _]. apply andb_true_iff in H as [H _].
  apply andb_true_iff in H as [_ H]. rewrite forallb_forall in H.
  apply List.Forall_forall. intros kv Hin. apply H.
  eapply Permutation_in; [apply ord1_perm | exact Hin].
Qed.

Lemma macroOf_macroNode (m : Macro) :
  plainMacro m = true ->
  macroOf [nameAttr (Name m)]
    (map paramNode (ord1 (Params m))
     ++ (if String.eqb (Body m) EmptyString then []
         else [Element (ac "rich-text-body") [] (textNodes (Body m))]))%list
  = m.
Proof.
  intros Hm. pose proof (plainMacro_params m Hm) as Hps.
  unfold plainMacro in Hm. apply andb_true_iff in Hm as [Hm _].
  apply andb_true_iff in Hm as [_ Hbody].
  unfold macroOf. rewrite fold_left_app, (macroChild_params _ _ Hps).
  cbn [Name Params Body]. rewrite (fold_insert_to_list _ _ (ord1_perm (Params m))).
  change (attrNamed [nameAttr (Name m)] EmptyString) with (Name m).
  destruct (String.eqb (Body m) EmptyString) eqn:Hb.
  - apply String.eqb_eq in Hb. destruct m as [n ps b]. cbn in *. now subst.
  - cbn [fold_left macroChild Local ac xml.Local String.eqb Ascii.eqb isBodyTag orb
           Name Params Body].
    rewrite directText_textNodes, (plainText_trim _ Hbody). now destruct m.
Qed.

Lemma blocksOf_macroNode (m : Macro) :
  plainMacro m = true -> blocksOf (macroNode ord1 m) = [BMacro m].
Proof.
  intros Hm. unfold macroNode.
  change (blocksOf (Element (ac "structured-macro") [nameAttr (Name m)] ?kids))
    with [BMacro (macroOf [nameAttr (Name m)] kids)].
  now rewrite macroOf_macroNode.
Qed.

Lemma cellOf_cellNode (c : Cell) :
  plainCell c = true ->
  match cellNode ord1 c with
  | Element _ _ kids => cellOf kids = normCell c
  | _ => False
  end.
Proof.
  unfold plainCell, cellNode, normCell. destruct c as [t [m |]]; cbn [Cell_Macro Cell_Text].
  - intros Hm. unfold cellOf, macroNode.
    cbn [fold_left cellChild Local ac xml.Local String.eqb Ascii.eqb fst snd].
    now rewrite macroOf_macroNode.
  - intros Ht. unfold cellOf. destruct t; [reflexivity |].
    cbn [textNodes fold_left cellChild fst snd append].
    now rewrite (plainText_trim _ Ht).
Qed.

Lemma rowOf_cells (cells : list Cell) :
  forallb plainCell cells = true ->
  forall acc flag,
    fold_left rowChild (map (cellNode ord1) cells) ({| Cells := acc |}, flag)
    = ({| Cells := acc ++ map normCell cells |}, flag).
Proof.
  induction cells as [| c cells IH]; intros Hc acc flag.
  - cbn. now rewrite app_nil_r.
  - cbn [forallb] in Hc. apply andb_true_iff in Hc as [Hc Hcs].
    cbn [map fold_left].
    assert (Hstep : rowChild ({| Cells := acc |}, flag) (cellNode ord1 c)
                    = ({| Cells := acc ++ [normCell c] |}, flag)).
    { pose proof (cellOf_cellNode c Hc) as Hcell. unfold cellNode in *.
      cbn [rowChild Local tagged xml.Local String.eqb Ascii.eqb fst snd Cells].
      now rewrite Hcell. }
    rewrite Hstep, (IH Hcs). now rewrite <- app_assoc.
Qed.

Lemma rowOf_rowNode (r : Row) :
  forallb plainCell (Cells r) = true ->
  match rowNode ord1 r with
  | Element _ _ kids => rowOf kids = (normRow r, false)
  | _ => False
  end.
Proof. intros Hr. unfold rowNode, rowOf, normRow. now rewrite rowOf_cells. Qed.

Lemma rowOf_headers (hs : list string) :
  forallb plainText hs = true ->
  forall acc flag,
    fold_left rowChild (map headerNode hs) ({| Cells := acc |}, flag)
    = ({| Cells := acc ++ map (fun h => {| Cell_Text := h; Cell_Macro := None |}) hs |},
       flag || (0 <? length hs)%nat).
Proof.
  induction hs as [| h hs IH]; intros Hh acc flag.
  - cbn. now rewrite app_nil_r, orb_false_r.
  - cbn [forallb] in Hh. apply andb_true_iff in Hh as [Hh Hhs].
    cbn [map fold_left].
    assert (Hstep : rowChild ({| Cells := acc |}, flag) (headerNode h)
                    = ({| Cells := acc ++ [{| Cell_Text := h; Cell_Macro := None |}] |}, true)).
    { unfold headerNode.
      cbn [rowChild Local tagged xml.Local String.eqb Ascii.eqb fst snd Cells].
      do 3 f_equal. unfold cellOf. destruct h; [reflexivity |].
      cbn [textNodes fold_left cellChild fst snd append].
      now rewrite (plainText_trim _ Hh). }
    rewrite Hstep, (IH Hhs). cbn [length Nat.ltb Nat.leb orb]. rewrite orb_true_r.
    now rewrite <- app_assoc.
Qed.

Lemma parsedRows_app (a b : list Node) : parsedRows (a ++ b) = (parsedRows a ++ parsedRows b)%list.
Proof.
  induction a as [| [n attr kids | | | |] a IH]; cbn [parsedRows app]; auto.
  destruct (String.eqb (Local n) "tr"); [cbn [app]; now rewrite IH | exact IH].
Qed.

Lemma parsedRows_rows (rows : list Row) :
  forallb (fun r => forallb plainCell (Cells r)) rows = true ->
  parsedRows (map (rowNode ord1) rows) = map (fun r => (normRow r, false)) rows.
Proof.
  induction rows as [| r rows IH]; intros H; [reflexivity |].
  cbn [forallb] in H. apply andb_true_iff in H as [Hr Hrs].
  cbn [map]. rewrite <- (IH Hrs).
  pose proof (rowOf_rowNode r Hr) as Hrow. unfold rowNode in Hrow |- * at 1.
  cbn [parsedRows Local tagged xml.Local String.eqb Ascii.eqb].
  now rewrite Hrow.
Qed.

Lemma headerTexts_data (rows : list Row) :
  headerTexts (map (fun r => (normRow r, false)) rows) = [].
Proof. unfold headerTexts. induction rows; cbn; auto. Qed.

Lemma dataRows_data (rows : list Row) :
  dataRows (map (fun r => (normRow r, false)) rows) = map normRow rows.
Proof. unfold dataRows. induction rows as [| r rows IH]; cbn; [reflexivity | now f_equal]. Qed.

Lemma tableRows_tbody (kids : list Node) :
  tableRows [Element (tagged "tbody") [] kids] = parsedRows kids.
Proof.
  change (tableRows [Element (tagged "tbody") [] kids]) with (parsedRows kids ++ [])%list.
  apply app_nil_r.
Qed.

Lemma parsedRows_tr (kids r : list Node) :
  parsedRows (Element (tagged "tr") [] kids :: r) = rowOf kids :: parsedRows r.
Proof. reflexivity. Qed.

Lemma blocksOf_tableNode (t : Table) :
  forallb plainText (Headers t) = true ->
  forallb (fun r => forallb plainCell (Cells r)) (Rows t) = true ->
  blocksOf (tableNode ord1 t) = [normBlock (BTable t)].
Proof.
  intros Hh Hr. unfold tableNode, normBlock.
  change (blocksOf (Element (tagged "table") [] ?kids)) with [BTable (tableOf kids)].
  do 2 f_equal. unfold tableOf.
  rewrite tableRows_tbody, parsedRows_app, (parsedRows_rows _ Hr).
  destruct (0 <? length (Headers t))%nat eqn:Hlen.
  - rewrite parsedRows_tr. unfold rowOf. rewrite (rowOf_headers _ Hh), Hlen.
    change (parsedRows []) with (@nil (Row * bool)).
    cbn [orb app].
    unfold headerTexts, dataRows. cbn [List.filter snd fst negb flat_map Cells map].
    fold (headerTexts (map (fun r => (normRow r, false)) (Rows t))).
    fold (dataRows (map (fun r => (normRow r, false)) (Rows t))).
    rewrite headerTexts_data, dataRows_data, app_nil_r.
    f_equal. rewrite map_map. cbn [Cell_Text]. apply map_id.
  - change (parsedRows []) with (@nil (Row * bool)). cbn [app].
    rewrite headerTexts_data, dataRows_data.
    destruct (Headers t); [reflexivity | discriminate].
Qed.

Lemma listItems_items (items : list ListItem) :
  forallb plainItem items = true -> listItems (map itemNode items) = items.
Proof.
  induction items as [| [t] items IH]; intros H; [reflexivity |].
  cbn [forallb] in H. apply andb_true_iff in H as [Ht Hi].
  unfold plainItem in Ht. cbn [ListItem_Text] in Ht.
  cbn [map]. unfold itemNode at 1. cbn [ListItem_Text].
  change (listItems (Element (tagged "li") [] ?k :: ?r))
    with ({| ListItem_Text := flowText k |} :: listItems r).
  now rewrite (flowText_textNodes _ Ht), (IH Hi).
Qed.

Lemma blocksOf_heading (z : Z) (kids : list Node) :
  (1 <= z <= 6)%Z ->
  blocksOf (Element (tagged ("h" ++ itoa z)) [] kids)
  = [BHeading {| Level := z; Heading_Text := flowText kids |}].
Proof.
  intros Hz.
  assert (Hc : (z = 1 \/ z = 2 \/ z = 3 \/ z = 4 \/ z = 5 \/ z = 6)%Z) by lia.
  destruct Hc as [-> | [-> | [-> | [-> | [-> | ->]]]]]; reflexivity.
Qed.

Lemma blocksOf_blockNode (b : Block) (s : string) :
  plainBlock b = true -> RenderBlock ord1 b = Ok s ->
  blocksOf (blockNode ord1 b) = [normBlock b].
Proof.
  destruct b as [t | p | h | bl | nl | m | cb |]; cbn [plainBlock blockNode normBlock];
    intros Hp Hr.
  - apply andb_true_iff in Hp as [Hh Hrows]. now apply blocksOf_tableNode.
  - destruct p as [t]. cbn [Paragraph_Text] in *.
    change (blocksOf (Element (tagged "p") [] ?k))
      with [BParagraph {| Paragraph_Text := flowText k |}].
    now rewrite (flowText_textNodes _ Hp).
  - destruct h as [z t]. cbn [RenderBlock Level Heading_Text] in *.
    unfold renderHeading in Hr. cbn [Level] in Hr.
    destruct (z <? 1)%Z eqn:Hlo; [discriminate |].
    destruct (6 <? z)%Z eqn:Hhi; [discriminate |].
    apply Z.ltb_ge in Hlo. apply Z.ltb_ge in Hhi.
    rewrite blocksOf_heading by lia. now rewrite (flowText_textNodes _ Hp).
  - destruct bl as [items]. cbn [BulletList_Items] in *.
    change (blocksOf (Element (tagged "ul") [] ?k))
      with [BBulletList {| BulletList_Items := listItems k |}].
    now rewrite (listItems_items _ Hp).
  - destruct nl as [items]. cbn [NumberedList_Items] in *.
    change (blocksOf (Element (tagged "ol") [] ?k))
      with [BNumberedList {| NumberedList_Items := listItems k |}].
    now rewrite (listItems_items _ Hp).
  - now apply blocksOf_macroNode.
  - discriminate.
  - reflexivity.
Qed.

(** *** Rendering what the parser returned *)

Lemma RenderMacro_order (m : Macro) :
  ord2 (Params m) = ord1 (Params m) -> RenderMacro ord2 m = RenderMacro ord1 m.
Proof. intros H. unfold RenderMacro. now rewrite H. Qed.

Lemma concatMap_ext {A : Type} (f g : A -> string) (l : list A) :
  (forall x, In x l -> f x = g x) -> concatMap f l = concatMap g l.
Proof.
  induction l as [| x l IH]; intros H; [reflexivity |].
  cbn [concatMap]. rewrite (H x (or_introl eq_refl)), IH; [reflexivity |].
  intros y Hy. apply H. now right.
Qed.

Lemma concatMap_map {A B : Type} (f : B -> string) (g : A -> B) (l : list A) :
  concatMap f (map g l) = concatMap (fun x => f (g x)) l.
Proof. induction l as [| x l IH]; cbn [map concatMap]; [reflexivity | now rewrite IH]. Qed.

Lemma renderTd_norm (c : Cell) :
  (forall m, In m (cellMacros c) -> ord2 (Params m) = ord1 (Params m)) ->
  renderTd ord2 (normCell c) = renderTd ord1 c.
Proof.
  unfold renderTd, renderCell, normCell, cellMacros.
  destruct c as [t [m |]]; cbn [Cell_Macro Cell_Text]; intros H; [| reflexivity].
  rewrite RenderMacro_order; [reflexivity |]. apply H. now left.
Qed.

Lemma renderRow_norm (r : Row) :
  (forall m, In m (flat_map cellMacros (Cells r)) -> ord2 (Params m) = ord1 (Params m)) ->
  renderRow ord2 (normRow r) = renderRow ord1 r.
Proof.
  intros H. unfold renderRow, normRow. cbn [Cells]. rewrite concatMap_map.
  rewrite (concatMap_ext _ (renderTd ord1)); [reflexivity |].
  intros c Hc. apply renderTd_norm. intros m Hm. apply H.
  apply in_flat_map. now exists c.
Qed.

Lemma RenderBlock_norm (b : Block) :
  (forall m, In m (blockMacros b) -> ord2 (Params m) = ord1 (Params m)) ->
  RenderBlock ord2 (normBlock b) = RenderBlock ord1 b.
Proof.
  destruct b as [t | p | h | bl | nl | m | cb |]; cbn [normBlock blockMacros RenderBlock];
    intros H; try reflexivity.
  - unfold renderTable. cbn [Headers Rows]. rewrite concatMap_map.
    rewrite (concatMap_ext _ (renderRow ord1)); [reflexivity |].
    intros r Hr. apply renderRow_norm. intros m Hm. apply H.
    apply in_flat_map. now exists r.
  - rewrite RenderMacro_order; [reflexivity |]. apply H. now left.
Qed.

Lemma blocks_round_trip (blocks : list Block) :
  forall s,
    forallb plainBlock blocks = true ->
    (forall m, In m (flat_map blockMacros blocks) -> ord2 (Params m) = ord1 (Params m)) ->
    Render_blocks ord1 blocks = Ok s ->
    flat_map blocksOf (map (blockNode ord1) blocks) = map normBlock blocks
    /\ Render_blocks ord2 (map normBlock blocks) = Ok s.
Proof.
  induction blocks as [| b blocks IH]; intros s Hp Hm Hr; [now split |].
  cbn [forallb] in Hp. apply andb_true_iff in Hp as [Hb Hbs].
  cbn [Render_blocks] in Hr.
  destruct (RenderBlock ord1 b) as [sb | |] eqn:Eb; cbn [bind] in Hr; try discriminate.
  destruct (Render_blocks ord1 blocks) as [sr | |] eqn:Er; cbn [bind] in Hr; try discriminate.
  destruct (IH sr Hbs) as [IH1 IH2]; [| reflexivity |].
  { intros m Hin. apply Hm. cbn [flat_map]. apply in_or_app. now right. }
  cbn [map flat_map Render_blocks]. split.
  - now rewrite (blocksOf_blockNode b sb Hb Eb), IH1.
  - rewrite RenderBlock_norm, Eb, IH2; [exact Hr |].
    intros m Hin. apply Hm. cbn [flat_map]. apply in_or_app. now left.
Qed.

End RoundTrip.

(** A code block comes back from [Parse] as a macro named [code], which
    [Render] writes with a rich-text body and no CDATA section. *)
Lemma code_block_rendering_changes :
  exists s page' s',
    render {| Blocks := [BCodeBlock {| Language := EmptyString; Code := "x" |}] |} = Ok s
    /\ parse s = Ok page'
    /\ render page' = Ok s'
    /\ s' <> s.
Proof.
  eexists. eexists. eexists.
  split; [vm_compute; reflexivity |].
  split; [vm_compute; reflexivity |].
  split; [vm_compute; reflexivity |].
  discriminate.
Qed.

(** A text with a leading space comes back trimmed. *)
Lemma untrimmed_text_rendering_changes :
  exists s page' s',
    render {| Blocks := [BParagraph {| Paragraph_Text := " a" |}] |} = Ok s
    /\ parse s = Ok page'
    /\ render page' = Ok s'
    /\ s' <> s.
Proof.
  eexists. eexists. eexists.
  split; [vm_compute; reflexivity |].
  split; [vm_compute; reflexivity |].
  split; [vm_compute; reflexivity |].
  discriminate.
Qed.

(** The other conditions of the amended claim are needed as well: a text
    with a carriage return comes back with a line feed, a parameter
    without a name is dropped, an entity in a macro body comes back as
    the character it stands for, and an element in a macro body is left
    out. *)
Lemma carriage_return_rendering_changes :
  exists s page' s',
    render {| Blocks := [BParagraph {| Paragraph_Text := "a" ++ String CR "b" |}] |} = Ok s
    /\ parse s = Ok page'
    /\ render page' = Ok s'
    /\ s' <> s.
Proof.
  eexists. eexists. eexists.
  split; [vm_compute; reflexivity |].
  split; [vm_compute; reflexivity |].
  split; [vm_compute; reflexivity |].
  discriminate.
Qed.

Lemma nameless_parameter_rendering_changes :
  exists s page' s',
    render {| Blocks := [BMacro {| Name := "info"; Params := <[EmptyString := "v"]> ∅;
                                   Body := EmptyString |}] |} = Ok s
    /\ parse s = Ok page'
    /\ render page' = Ok s'
    /\ s' <> s.
Proof.
  eexists. eexists. eexists.
  split; [vm_compute; reflexivity |].
  split; [vm_compute; reflexivity |].
  split; [vm_compute; reflexivity |].
  discriminate.
Qed.

Lemma entity_in_body_rendering_changes :
  exists s page' s',
    render {| Blocks := [BMacro {| Name := "info"; Params := ∅;
                                   Body := "a &amp; b" |}] |} = Ok s
    /\ parse s = Ok page'
    /\ render page' = Ok s'
    /\ s' <> s.
Proof.
  eexists. eexists. eexists.
  split; [vm_compute; reflexivity |].
  split; [vm_compute; reflexivity |].
  split; [vm_compute; reflexivity |].
  discriminate.
Qed.

Lemma element_in_body_rendering_changes :
  exists s page' s',
    render {| Blocks := [BMacro {| Name := "info"; Params := ∅;
                                   Body := "<b>x</b>" |}] |} = Ok s
    /\ parse s = Ok page'
    /\ render page' = Ok s'
    /\ s' <> s.
Proof.
  eexists. eexists. eexists.
  split; [vm_compute; reflexivity |].
  split; [vm_compute; reflexivity |].
  split; [vm_compute; reflexivity |].
  discriminate.
Qed.

(** A body with the sequence []]>] renders to markup that [Parse]
    rejects. *)
Lemma cdata_end_in_body_not_parsed :
  exists s e,
    render {| Blocks := [BMacro {| Name := "info"; Params := ∅; Body := "a]]>b" |}] |} = Ok s
    /\ parse s = Err e.
Proof.
  eexists. eexists. split; [vm_compute; reflexivity |]. vm_compute. reflexivity.
Qed.

(** C2 (amended): for every page without code block whose texts are
    well-formed character data without carriage return and equal to their
    own trimmed form, whose parameters have a non-empty name and whose
    macro bodies hold no [<], no [&] and not the sequence []]>] (any
    other character, quotes, apostrophes and [>] included, may occur), if
    the first rendering succeeds with output [s] then [Parse s] succeeds,
    and rendering the parsed page gives [s] again, provided the second
    rendering writes the parameters of every macro of the page in the
    order of the first. *)
Theorem render_parse_render
    (uF uS : N -> bool) (ents : gmap string string)
    (ord1 ord2 : gmap string string -> list (string * string))
    (page : Page) (s : string) :
  (forall m, Permutation (ord1 m) (map_to_list m)) ->
  plainPage page = true ->
  (forall m, In m (pageMacros page) -> ord2 (Params m) = ord1 (Params m)) ->
  Render ord1 page = Ok s ->
  exists page', Parse uF uS ents s = Ok page' /\ Render ord2 page' = Ok s.
Proof.
  intros Hperm Hp Hm Hr.
  destruct (blocks_round_trip ord1 ord2 Hperm (Blocks page) s Hp Hm Hr) as [Hb Hs].
  unfold Parse. destruct (String.eqb s EmptyString) eqn:Es.
  - apply String.eqb_eq in Es. subst s. exists {| Blocks := [] |}. split; reflexivity.
  - exists {| Blocks := map normBlock (Blocks page) |}. split; [| exact Hs].
    rewrite (newDecoder_rendered uF uS ents ord1 Hperm page s (plainPage_good page Hp) Hr).
    change (tokens ?n EOF) with (tokensList [n] EOF).
    rewrite ParseTokens_tree. do 2 f_equal.
    cbn [flat_map]. rewrite app_nil_r.
    change (blocksOf (Element (tagged "root") rootAttr ?k)) with (flat_map blocksOf k).
    exact Hb.
Qed.

(** The theorem at a page with a heading, a table and a macro whose body
    holds an apostrophe, a quote and [>]. *)
Lemma render_parse_render_witness :
  exists page',
    parse (match render quotedPage with Ok s => s | _ => EmptyString end) = Ok page'
    /\ render page' = Ok (match render quotedPage with Ok s => s | _ => EmptyString end).
Proof.
  apply (render_parse_render asciiOnly asciiOnly someEntities listOrder listOrder quotedPage).
  - intros m. reflexivity.
  - vm_compute. reflexivity.
  - intros m _. reflexivity.
  - vm_compute. reflexivity.
Defined.

(* ================================================================== *)
(** ** The iteration bounds of the parser are never reached *)

Lemma finishes_weaken {A : Type} (r : result (A * Decoder)) (d1 d : Decoder) :
  finishes r d1 -> (xml.remaining d1 <= xml.remaining d)%nat -> finishes r d.
Proof. destruct r as [[x d'] | e |]; cbn [finishes]; [lia | trivial | trivial]. Qed.

Lemma finishes_bind {A B : Type} (m : result (A * Decoder))
    (k : A * Decoder -> result (B * Decoder)) (d1 d : Decoder) :
  finishes m d1 ->
  (forall x d'', (xml.remaining d'' <= xml.remaining d1)%nat -> finishes (k (x, d'')) d) ->
  finishes (bind m k) d.
Proof.
  destruct m as [[x d''] | e |]; cbn [finishes bind]; intros Hm Hk;
    [now apply Hk | trivial | contradiction].
Qed.

Lemma skipElement_finishes (d : Decoder) :
  forall depth, finishes (skipElement_loop depth d) d.
Proof.
  induction d as [| e | t d IH]; intros depth; destruct depth as [| k];
    cbn [skipElement_loop finishes]; try lia; try trivial.
  destruct t; (eapply finishes_weaken; [apply IH | cbn [xml.remaining]; lia]).
Qed.

Lemma extractNestedText_finishes (d : Decoder) :
  forall depth content, finishes (extractNestedText_loop depth content d) d.
Proof.
  induction d as [| e | t d IH]; intros depth content; destruct depth as [| k];
    cbn [extractNestedText_loop finishes]; try lia; try trivial.
  destruct t; (eapply finishes_weaken; [apply IH | cbn [xml.remaining]; lia]).
Qed.

(** The steps shared by the loops: a recursive call on the rest of the
    tokens, and a call of another parsing function followed by one. *)
Ltac finish_rec IH :=
  eapply finishes_weaken; [apply IH; cbn [xml.remaining] in *; lia
                          | cbn [xml.remaining]; lia].

Ltac finish_call H IH :=
  cbv zeta; eapply finishes_bind;
  [ apply H; cbn [xml.remaining] in *; try lia
  | let x := fresh "x" in let d'' := fresh "d" in let Hle := fresh "Hle" in
    intros x d'' Hle;
    match type of x with (_ * _)%type => destruct x | _ => idtac end;
    eapply finishes_weaken; [apply IH; cbn [xml.remaining] in *; lia
                            | cbn [xml.remaining] in *; lia] ].

Ltac finish_start fuel d IH :=
  induction fuel as [| fuel IH]; [intros; lia |];
  intros until d; intros Hlt; destruct d as [| e | t d];
  [ cbn; lia | exact I | ].

Lemma parseTextContent_finishes (fuel : nat) :
  forall endTag content d,
    (xml.remaining d < fuel)%nat ->
    finishes (parseTextContent_loop fuel endTag content d) d.
Proof.
  finish_start fuel d IH.
  cbn [parseTextContent_loop]. destruct t as [n a | n | | | |]; try finish_rec IH.
  - unfold skipElement. finish_call skipElement_finishes IH.
  - destruct (String.eqb (Local n) endTag); [cbn; lia | finish_rec IH].
Qed.

Lemma parseMacro_finishes (fuel : nat) :
  forall m d,
    (xml.remaining d < fuel)%nat -> finishes (parseMacro_loop fuel m d) d.
Proof.
  finish_start fuel d IH.
  cbn [parseMacro_loop]. destruct t as [n a | n | | | |]; try finish_rec IH.
  - unfold parseTextContent, skipElement.
    destruct (String.eqb (Local n) "parameter");
      [| destruct (String.eqb (Local n) "rich-text-body"
                   || String.eqb (Local n) "plain-text-body")].
    + finish_call parseTextContent_finishes IH.
    + finish_call parseTextContent_finishes IH.
    + finish_call skipElement_finishes IH.
  - destruct (String.eqb (Local n) "structured-macro"); [cbn; lia | finish_rec IH].
Qed.

Lemma parseTableCell_finishes (fuel : nat) :
  forall tagName macro content d,
    (xml.remaining d < fuel)%nat ->
    finishes (parseTableCell_loop fuel tagName macro content d) d.
Proof.
  finish_start fuel d IH.
  cbn [parseTableCell_loop]. destruct t as [n a | n | | | |]; try finish_rec IH.
  - unfold parseMacro, extractNestedText.
    destruct (String.eqb (Local n) "structured-macro").
    + finish_call parseMacro_finishes IH.
    + finish_call extractNestedText_finishes IH.
  - destruct (String.eqb (Local n) tagName); [cbn; lia | finish_rec IH].
Qed.

Lemma parseTableRow_finishes (fuel : nat) :
  forall row isHeader d,
    (xml.remaining d < fuel)%nat ->
    finishes (parseTableRow_loop fuel row isHeader d) d.
Proof.
  finish_start fuel d IH.
  cbn [parseTableRow_loop]. destruct t as [n a | n | | | |]; try finish_rec IH.
  - unfold parseTableCell, skipElement.
    destruct (String.eqb (Local n) "th"); [| destruct (String.eqb (Local n) "td")].
    + finish_call parseTableCell_finishes IH.
    + finish_call parseTableCell_finishes IH.
    + finish_call skipElement_finishes IH.
  - destruct (String.eqb (Local n) "tr"); [cbn; lia | finish_rec IH].
Qed.

Lemma parseTbody_finishes (fuel : nat) :
  forall table d,
    (xml.remaining d < fuel)%nat -> finishes (parseTbody fuel d table) d.
Proof.
  induction fuel as [| fuel IH]; [intros; lia |].
  intros table d Hlt. destruct d as [| e | t d]; [cbn; lia | exact I |].
  cbn [parseTbody]. destruct t as [n a | n | | | |]; try finish_rec IH.
  - unfold parseTableRow, skipElement. destruct (String.eqb (Local n) "tr").
    + finish_call parseTableRow_finishes IH.
    + finish_call skipElement_finishes IH.
  - destruct (String.eqb (Local n) "tbody"); [cbn; lia | finish_rec IH].
Qed.

Lemma parseTable_finishes (fuel : nat) :
  forall table d,
    (xml.remaining d < fuel)%nat -> finishes (parseTable_loop fuel table d) d.
Proof.
  finish_start fuel d IH.
  cbn [parseTable_loop]. destruct t as [n a | n | | | |]; try finish_rec IH.
  - unfold parseTableRow, skipElement.
    destruct (String.eqb (Local n) "tbody"); [| destruct (String.eqb (Local n) "tr")].
    + finish_call parseTbody_finishes IH.
    + finish_call parseTableRow_finishes IH.
    + finish_call skipElement_finishes IH.
  - destruct (String.eqb (Local n) "table"); [cbn; lia | finish_rec IH].
Qed.

Lemma parseParagraph_finishes (fuel : nat) :
  forall content d,
    (xml.remaining d < fuel)%nat -> finishes (parseParagraph_loop fuel content d) d.
Proof.
  finish_start fuel d IH.
  cbn [parseParagraph_loop]. destruct t as [n a | n | | | |]; try finish_rec IH.
  - unfold extractNestedText. finish_call extractNestedText_finishes IH.
  - destruct (String.eqb (Local n) "p"); [cbn; lia | finish_rec IH].
Qed.

Lemma parseHeading_finishes (fuel : nat) :
  forall level content d,
    (xml.remaining d < fuel)%nat -> finishes (parseHeading_loop fuel level content d) d.
Proof.
  finish_start fuel d IH.
  cbn [parseHeading_loop]. destruct t as [n a | n | | | |]; try finish_rec IH.
  - unfold extractNestedText. finish_call extractNestedText_finishes IH.
  - destruct (HasPrefix (Local n) "h"); [cbn; lia | finish_rec IH].
Qed.

Lemma parseListItem_finishes (fuel : nat) :
  forall content d,
    (xml.remaining d < fuel)%nat -> finishes (parseListItem_loop fuel content d) d.
Proof.
  finish_start fuel d IH.
  cbn [parseListItem_loop]. destruct t as [n a | n | | | |]; try finish_rec IH.
  - unfold extractNestedText. finish_call extractNestedText_finishes IH.
  - destruct (String.eqb (Local n) "li"); [cbn; lia | finish_rec IH].
Qed.

Lemma parseList_finishes (fuel : nat) :
  forall endTag items d,
    (xml.remaining d < fuel)%nat -> finishes (parseList_loop fuel endTag items d) d.
Proof.
  finish_start fuel d IH.
  cbn [parseList_loop]. destruct t as [n a | n | | | |]; try finish_rec IH.
  - unfold parseListItem, skipElement. destruct (String.eqb (Local n) "li").
    + finish_call parseListItem_finishes IH.
    + finish_call skipElement_finishes IH.
  - destruct (String.eqb (Local n) endTag); [cbn; lia | finish_rec IH].
Qed.

Ltac finish_wrap d H :=
  apply (finishes_bind _ _ d); [apply H; assumption | intros ? ? ?; cbn [finishes]; lia].

Lemma parseElement_finishes (fuel : nat) (d : Decoder) (start : xml.Name)
    (attr : list xml.Attr) :
  (xml.remaining d < fuel)%nat -> finishes (parseElement fuel d start attr) d.
Proof.
  intros Hlt. unfold parseElement, parseTable, parseParagraph, parseHeading,
    parseBulletList, parseNumberedList, parseMacro, skipElement. cbv zeta.
  repeat match goal with
         | |- finishes (if ?c then _ else _) _ => destruct c
         end;
    try (cbn [finishes]; lia).
  - finish_wrap d parseTable_finishes.
  - finish_wrap d parseParagraph_finishes.
  - finish_wrap d parseHeading_finishes.
  - apply (finishes_bind _ _ d); [| intros ? ? ?; cbn [finishes]; lia].
    finish_wrap d parseList_finishes.
  - apply (finishes_bind _ _ d); [| intros ? ? ?; cbn [finishes]; lia].
    finish_wrap d parseList_finishes.
  - finish_wrap d parseMacro_finishes.
  - apply (finishes_bind _ _ d); [apply skipElement_finishes | intros ? ? ?; cbn [finishes]; lia].
Qed.

Lemma Parse_loop_finishes (fuel : nat) :
  forall blocks d,
    (xml.remaining d < fuel)%nat -> Parse_loop fuel blocks d <> Exhausted.
Proof.
  induction fuel as [| fuel IH]; [intros; lia |].
  intros blocks d Hlt. destruct d as [| e | t d]; [discriminate | discriminate |].
  cbn [xml.remaining] in Hlt. cbn [Parse_loop].
  destruct t as [n a | n | | | |]; try (apply IH; lia).
  pose proof (parseElement_finishes fuel d n a ltac:(lia)) as Hf.
  destruct (parseElement fuel d n a) as [[b d''] | e |]; cbn [finishes bind] in *;
    [apply IH; lia | discriminate | contradiction].
Qed.

(** [Parse] returns a page or an error for every input: the bound of
    [ParseTokens] is enough for any decoder. *)
Lemma ParseTokens_finishes (d : Decoder) : ParseTokens d <> Exhausted.
Proof. apply Parse_loop_finishes. lia. Qed.

Lemma Parse_finishes (uF uS : N -> bool) (ents : gmap string string) (s : string) :
  Parse uF uS ents s <> Exhausted.
Proof.
  unfold Parse. destruct (String.eqb s EmptyString); [discriminate |].
  apply ParseTokens_finishes.
Qed.

(* ================================================================== *)
(** ** The iteration bounds of the tokenizer are never reached *)

Lemma DecodeRune_size (c : ascii) (s : string) (r : N) (n : nat) :
  DecodeRune (String c s) = (r, n) -> (1 <= n)%nat.
Proof.
  unfold DecodeRune.
  repeat match goal with
         | |- context [if ?b then _ else _] => destruct b
         | |- context [match ?t with EmptyString => _ | String _ _ => _ end] => destruct t
         end;
    intros H; inversion H; lia.
Qed.

Lemma drop_bytes_lt (n : nat) (c : ascii) (s : string) :
  (1 <= n)%nat -> (String.length (drop_bytes n (String c s)) < String.length (String c s))%nat.
Proof.
  destruct n as [| n]; [lia |]. intros _. cbn [drop_bytes String.length].
  pose proof (drop_bytes_le n s). lia.
Qed.

Section TokenizerBounds.

Variable uF uS : N -> bool.
Variable ents : gmap string string.

Local Abbreviation slen := String.length.

(** The loops that answer at the bound as they do at the end of the
    input: any bound that is large enough gives the same answer. *)
Lemma isName_loop_bound (f1 : nat) :
  forall f2 s, (slen s < f1)%nat -> (slen s < f2)%nat ->
               xml.isName_loop uF uS f1 s = xml.isName_loop uF uS f2 s.
Proof.
  induction f1 as [| f1 IH]; intros f2 s H1 H2; [lia |].
  destruct f2 as [| f2]; [lia |]. cbn [xml.isName_loop].
  destruct s as [| c s]; [reflexivity |].
  destruct (DecodeRune (String c s)) as [r n] eqn:Hd.
  pose proof (drop_bytes_lt n c s (DecodeRune_size _ _ _ _ Hd)) as Hlt.
  rewrite (IH f2) by lia. reflexivity.
Qed.

Lemma checkChars_bound (f1 : nat) :
  forall f2 s, (slen s <= f1)%nat -> (slen s <= f2)%nat ->
               xml.checkChars f1 s = xml.checkChars f2 s.
Proof.
  induction f1 as [| f1 IH]; intros f2 s H1 H2.
  - destruct s; [| cbn in H1; lia]. now destruct f2.
  - destruct f2 as [| f2]; [destruct s; [reflexivity | cbn in H2; lia] |].
    cbn [xml.checkChars]. destruct s as [| c s]; [reflexivity |].
    destruct (DecodeRune (String c s)) as [r n] eqn:Hd.
    pose proof (drop_bytes_lt n c s (DecodeRune_size _ _ _ _ Hd)) as Hlt.
    rewrite (IH f2) by lia. reflexivity.
Qed.

Lemma procInst_find_bound (f1 : nat) :
  forall f2 param s, (slen s <= f1)%nat -> (slen s <= f2)%nat ->
                     xml.procInst_find f1 param s = xml.procInst_find f2 param s.
Proof.
  induction f1 as [| f1 IH]; intros f2 param s H1 H2.
  - destruct s; [| cbn in H1; lia]. now destruct f2.
  - destruct f2 as [| f2]; [destruct s; [reflexivity | cbn in H2; lia] |].
    cbn [xml.procInst_find]. destruct s as [| c s]; [reflexivity |].
    destruct (Index (String c s) param) as [k |]; [| reflexivity].
    pose proof (drop_bytes_le (slen param + k) (String c s)) as Hle.
    destruct (drop_bytes (slen param + k) (String c s)) as [| c' after]; [reflexivity |].
    cbn [String.length] in *.
    rewrite (IH f2) by lia. reflexivity.
Qed.

(** The loops that report the bound as an error: the error is never
    returned when the bound is the length of the input. *)
Ltac within_cases :=
  repeat match goal with
         | |- withinBound (if ?b then _ else _) => destruct b
         | |- withinBound (match ?x with _ => _ end) => destruct x eqn:?
         | |- rawWithinBound (if ?b then _ else _) => destruct b
         | |- rawWithinBound (match ?x with _ => _ end) => destruct x eqn:?
         end;
  cbn [withinBound rawWithinBound]; try exact I; try discriminate; try assumption.

Lemma within_emit (s : string) (r : xml.lex string) :
  withinBound r -> withinBound (xml.emit s r).
Proof. now destruct r. Qed.

Lemma readName_within (s : string) : withinBound (xml.readName s).
Proof. unfold xml.readName. within_cases. Qed.

Lemma name_within (s : string) : withinBound (xml.name uF uS s).
Proof.
  unfold xml.name. pose proof (readName_within s) as H.
  destruct (xml.readName s) as [[b |] r | e]; [| exact I | exact H].
  within_cases.
Qed.

Lemma nsname_within (s : string) : withinBound (xml.nsname uF uS s).
Proof.
  unfold xml.nsname. pose proof (name_within s) as H.
  destruct (xml.name uF uS s) as [[b |] r | e]; [| exact I | exact H].
  within_cases.
Qed.

Lemma readEntity_within (s : string) : withinBound (xml.readEntity uF uS ents s).
Proof. unfold xml.readEntity. within_cases. Qed.

Lemma text_loop_within (fuel : nat) :
  forall quote cdata b0 b1 input,
    (slen input < fuel)%nat ->
    withinBound (xml.text_loop uF uS ents fuel quote cdata b0 b1 input).
Proof.
  induction fuel as [| fuel IH]; intros quote cdata b0 b1 input Hlt; [lia |].
  cbn [xml.text_loop]. destruct input as [| b rest]; [within_cases |].
  cbn [String.length] in Hlt.
  destruct (Ascii.eqb b0 "]" && Ascii.eqb b1 "]" && Ascii.eqb b ">"); [within_cases |].
  destruct (Ascii.eqb b "<" && negb cdata); [within_cases |].
  destruct (xml.isQuote quote b); [exact I |].
  destruct (Ascii.eqb b "&" && negb cdata).
  - pose proof (readEntity_within rest) as He.
    destruct (xml.readEntity uF uS ents rest) as [txt rest' | e] eqn:Hr; [| exact He].
    apply readEntity_lt in Hr. apply within_emit, IH. lia.
  - apply within_emit, IH. lia.
Qed.

Lemma checkChars_within (fuel : nat) :
  forall s e, xml.checkChars fuel s = Some e -> e <> xml.fuelError.
Proof.
  induction fuel as [| fuel IH]; intros s e; [discriminate |].
  cbn [xml.checkChars]. destruct s as [| c s]; [discriminate |].
  destruct (DecodeRune (String c s)) as [r n].
  destruct ((r =? RuneError)%N && (n =? 1)%nat); [intros H; inversion H; discriminate |].
  destruct (negb (xml.isInCharacterRange r)); [intros H; inversion H; discriminate |].
  apply IH.
Qed.

Lemma text_within (quote : option ascii) (cdata : bool) (input : string) :
  withinBound (xml.text uF uS ents quote cdata input).
Proof.
  unfold xml.text.
  pose proof (text_loop_within (S (slen input)) quote cdata NUL NUL input ltac:(lia)) as H.
  destruct (xml.text_loop uF uS ents (S (slen input)) quote cdata NUL NUL input)
    as [data rest | e]; [| exact H].
  cbv zeta. destruct (xml.validChars _) as [e |] eqn:Hv; [| exact I].
  cbn [withinBound]. eapply checkChars_within. exact Hv.
Qed.

Lemma attrval_within (input : string) : withinBound (xml.attrval uF uS ents input).
Proof.
  unfold xml.attrval. destruct input as [| b rest]; [within_cases |].
  destruct (Ascii.eqb b dquote || Ascii.eqb b squote); [apply text_within | within_cases].
Qed.

Lemma attributes_within (fuel : nat) :
  forall acc input,
    (slen input < fuel)%nat -> withinBound (xml.attributes uF uS ents fuel acc input).
Proof.
  induction fuel as [| fuel IH]; intros acc input Hlt; [lia |].
  cbn [xml.attributes]. pose proof (space_le input) as Hsp.
  destruct (xml.space input) as [| b rest]; [within_cases |].
  destruct (Ascii.eqb b "/"); [within_cases |].
  destruct (Ascii.eqb b ">"); [exact I |].
  pose proof (nsname_within (String b rest)) as Hn.
  destruct (xml.nsname uF uS (String b rest)) as [[n |] after | e] eqn:Hns;
    [| within_cases | exact Hn].
  apply nsname_le in Hns. pose proof (space_le after) as Hsp'.
  destruct (xml.space after) as [| c after']; [within_cases |].
  destruct (Ascii.eqb c "="); [| within_cases].
  pose proof (attrval_within (xml.space after')) as Hv.
  pose proof (space_le after') as Hsp''.
  destruct (xml.attrval uF uS ents (xml.space after')) as [v after'' | e] eqn:Hav;
    [| exact Hv].
  apply attrval_lt in Hav. apply IH.
  cbn [String.length] in *. destruct Hns as [Hns | [Hns _]]; [lia | discriminate].
Qed.

Lemma comment_loop_within (input : string) :
  forall b0 b1, withinBound (xml.comment_loop b0 b1 input).
Proof.
  induction input as [| b rest IH]; intros b0 b1; cbn [xml.comment_loop]; [within_cases |].
  destruct (Ascii.eqb b0 "-" && Ascii.eqb b1 "-"); [within_cases |].
  apply within_emit, IH.
Qed.

Lemma procInst_loop_within (input : string) :
  forall b0, withinBound (xml.procInst_loop b0 input).
Proof.
  induction input as [| b rest IH]; intros b0; cbn [xml.procInst_loop]; [within_cases |].
  destruct (Ascii.eqb b0 "?" && Ascii.eqb b ">"); [exact I |].
  apply within_emit, IH.
Qed.

Lemma directive_loop_within (fuel : nat) :
  forall inquote depth input,
    (slen input < fuel)%nat -> withinBound (xml.directive_loop fuel inquote depth input).
Proof.
  induction fuel as [| fuel IH]; intros inquote depth input Hlt; [lia |].
  cbn [xml.directive_loop].
  repeat match goal with
         | |- withinBound (if ?b then _ else _) => destruct b
         | |- withinBound (match ?x with EmptyString => _ | String _ _ => _ end) =>
             destruct x
         | |- withinBound (match ?x with Some _ => _ | None => _ end) =>
             destruct x eqn:Hcomment
         end;
    cbn [withinBound]; try exact I; try discriminate;
    try (apply directive_comment_lt in Hcomment);
    apply within_emit, IH; cbn [String.length] in *; lia.
Qed.

Lemma endElement_within (input : string) : rawWithinBound (xml.endElement uF uS input).
Proof.
  unfold xml.endElement. pose proof (nsname_within input) as H.
  destruct (xml.nsname uF uS input) as [[n |] rest | e]; [| within_cases | exact H].
  within_cases.
Qed.

Lemma procInstToken_within (input : string) :
  rawWithinBound (xml.procInstToken uF uS input).
Proof.
  unfold xml.procInstToken. pose proof (name_within input) as H.
  destruct (xml.name uF uS input) as [[n |] rest | e]; [| within_cases | exact H].
  pose proof (procInst_loop_within (xml.space rest) NUL) as Hp.
  destruct (xml.procInst_loop NUL (xml.space rest)) as [d rest' | e]; [| exact Hp].
  cbv zeta. within_cases.
Qed.

Lemma bangToken_within (input : string) :
  rawWithinBound (xml.bangToken uF uS ents input).
Proof.
  unfold xml.bangToken. destruct input as [| b rest]; [within_cases |].
  destruct (Ascii.eqb b "-").
  - destruct rest as [| b' rest']; [within_cases |].
    destruct (Ascii.eqb b' "-"); [| within_cases].
    pose proof (comment_loop_within rest' NUL NUL) as H.
    destruct (xml.comment_loop NUL NUL rest'); [exact I | exact H].
  - destruct (Ascii.eqb b "[").
    + destruct (String.prefix "CDATA[" rest); [| within_cases].
      pose proof (text_within None true (drop_bytes 6 rest)) as H.
      destruct (xml.text uF uS ents None true (drop_bytes 6 rest)); [exact I | exact H].
    + pose proof (directive_loop_within (S (slen rest)) NUL 0 rest ltac:(lia)) as H.
      destruct (xml.directive_loop (S (slen rest)) NUL 0 rest); [exact I | exact H].
Qed.

Lemma startElement_within (input : string) :
  rawWithinBound (xml.startElement uF uS ents input).
Proof.
  unfold xml.startElement. pose proof (nsname_within input) as H.
  destruct (xml.nsname uF uS input) as [[n |] rest | e]; [| within_cases | exact H].
  pose proof (attributes_within (S (slen rest)) [] rest ltac:(lia)) as Ha.
  destruct (xml.attributes uF uS ents (S (slen rest)) [] rest) as [[attr empty] rest' | e];
    [exact I | exact Ha].
Qed.

Lemma rawToken_within (nc : option xml.Name) (input : string) :
  rawWithinBound (xml.rawToken uF uS ents nc input).
Proof.
  unfold xml.rawToken. destruct nc; [exact I |].
  destruct input as [| b rest]; [exact I |].
  destruct (negb (Ascii.eqb b "<")).
  - pose proof (text_within None false (String b rest)) as H.
    destruct (xml.text uF uS ents None false (String b rest)); [exact I | exact H].
  - destruct rest as [| b' rest']; [within_cases |].
    destruct (Ascii.eqb b' "/"); [apply endElement_within |].
    destruct (Ascii.eqb b' "?"); [apply procInstToken_within |].
    destruct (Ascii.eqb b' "!"); [apply bangToken_within | apply startElement_within].
Qed.

Lemma decode_within (fuel : nat) :
  forall stk nc input,
    (xml.pending nc input < fuel)%nat ->
    streamWithinBound (xml.decode uF uS ents fuel stk nc input).
Proof.
  induction fuel as [| fuel IH]; intros stk nc input Hlt; [lia |].
  cbn [xml.decode]. pose proof (rawToken_within nc input) as Hr.
  destruct (xml.rawToken uF uS ents nc input) as [t nc' rest | | e] eqn:Hraw.
  - apply rawToken_pending in Hraw.
    assert (Hrec : forall stk', streamWithinBound (xml.decode uF uS ents fuel stk' nc' rest))
      by (intros stk'; apply IH; lia).
    destruct t as [n a | n | | | |]; cbn [streamWithinBound]; try apply Hrec.
    destruct stk as [| s stk']; [cbn; discriminate |].
    destruct (negb (String.eqb (Local s) (Local n))); [cbn; discriminate |].
    destruct (negb (String.eqb (xml.Space s) (xml.Space n))); [cbn; discriminate |].
    cbn [streamWithinBound]. apply Hrec.
  - destruct stk; cbn; [exact I | discriminate].
  - exact Hr.
Qed.

(** No decoder of the model ever reports an iteration bound. *)
Lemma NewDecoder_within (s : string) :
  streamWithinBound (xml.NewDecoder uF uS ents s).
Proof. unfold xml.NewDecoder, xml.stream. apply decode_within. lia. Qed.

End TokenizerBounds.

(* ================================================================== *)
(** ** The tokenizer on an input that is followed by a tag

    What the tokenizer reads from an input on its own, up to the end of
    the input, it reads in the same way when a tag follows: no token
    reaches into the text after it. *)

Section TokenizerExtension.

Variable uF uS : N -> bool.
Variable ents : gmap string string.
Variable tl : string.

Local Abbreviation slen := String.length.
Local Abbreviation T := (String "<" tl).
Local Abbreviation text_loop := (xml.text_loop uF uS ents).

Lemma span_more (p : ascii -> bool) (x : string) :
  p "<"%char = false ->
  span p (x ++ T) = (fst (span p x), snd (span p x) ++ T).
Proof.
  intros Hp. induction x as [| c x IH]; cbn [append span].
  - rewrite Hp. reflexivity.
  - destruct (p c); [| reflexivity]. rewrite IH. now destruct (span p x).
Qed.

Lemma space_more (x : string) : xml.space (x ++ T) = xml.space x ++ T.
Proof.
  induction x as [| c x IH]; [reflexivity |]. cbn [append xml.space].
  destruct (xml.isSpaceByte c); [exact IH | reflexivity].
Qed.

Lemma readName_more (x : string) (o : option string) (r : string) :
  xml.readName x = xml.LexOk o r -> xml.readName (x ++ T) = xml.LexOk o (r ++ T).
Proof.
  destruct x as [| b x]; [discriminate |]. cbn [append]. unfold xml.readName.
  destruct (xml.nameByte b) eqn:Hb.
  - change (String b (x ++ T)) with (String b x ++ T). rewrite span_more by reflexivity.
    destruct (span xml.nameByte (String b x)) as [n rest]. cbn [fst snd].
    destruct rest as [| c rest]; [discriminate |]. intros H. now inversion H.
  - intros H. now inversion H.
Qed.

Lemma name_more (x : string) (o : option string) (r : string) :
  xml.name uF uS x = xml.LexOk o r -> xml.name uF uS (x ++ T) = xml.LexOk o (r ++ T).
Proof.
  unfold xml.name. destruct (xml.readName x) as [[b |] rest | e] eqn:Hn; try discriminate;
    rewrite (readName_more _ _ _ Hn).
  - destruct (xml.isName uF uS b); [| discriminate]. intros H. now inversion H.
  - intros H. now inversion H.
Qed.

Lemma nsname_more (x : string) (o : option xml.Name) (r : string) :
  xml.nsname uF uS x = xml.LexOk o r -> xml.nsname uF uS (x ++ T) = xml.LexOk o (r ++ T).
Proof.
  unfold xml.nsname. destruct (xml.name uF uS x) as [[n |] rest | e] eqn:Hn; try discriminate;
    rewrite (name_more _ _ _ Hn).
  - destruct (1 <? count_byte ":" n)%nat; [intros H; now inversion H |].
    destruct (cut_byte ":" n) as [[sp loc] |]; [| intros H; now inversion H].
    destruct (String.eqb sp EmptyString || String.eqb loc EmptyString);
      intros H; now inversion H.
  - intros H. now inversion H.
Qed.

Lemma readEntity_more (x t r : string) :
  xml.readEntity uF uS ents x = xml.LexOk t r ->
  xml.readEntity uF uS ents (x ++ T) = xml.LexOk t (r ++ T).
Proof.
  destruct x as [| b rest]; [discriminate |]. cbn [append]. unfold xml.readEntity.
  destruct (Ascii.eqb b "#").
  - destruct rest as [| b' rest']; [discriminate |]. cbn [append].
    destruct (Ascii.eqb b' "x").
    + rewrite span_more by reflexivity.
      destruct (span (xml.isDigit 16) rest') as [digits after]. cbn [fst snd].
      destruct after as [| c after']; [discriminate |]. cbn [append].
      destruct (Ascii.eqb c ";"); [| discriminate].
      destruct digits; [discriminate |].
      match goal with |- context [(?a <=? ?b)%N] => destruct (a <=? b)%N end;
        [| discriminate].
      intros H. now inversion H.
    + change (String b' (rest' ++ T)) with (String b' rest' ++ T).
      rewrite span_more by reflexivity.
      destruct (span (xml.isDigit 10) (String b' rest')) as [digits after]. cbn [fst snd].
      destruct after as [| c after']; [discriminate |]. cbn [append].
      destruct (Ascii.eqb c ";"); [| discriminate].
      destruct digits; [discriminate |].
      match goal with |- context [(?a <=? ?b)%N] => destruct (a <=? b)%N end;
        [| discriminate].
      intros H. now inversion H.
  - change (String b (rest ++ T)) with (String b rest ++ T).
    rewrite span_more by reflexivity.
    destruct (span xml.nameByte (String b rest)) as [nm after]. cbn [fst snd].
    destruct after as [| c after']; [discriminate |]. cbn [append].
    destruct (Ascii.eqb c ";"); [| discriminate].
    destruct (xml.isName uF uS nm); [| discriminate].
    destruct (xml.entity nm); [intros H; now inversion H |].
    destruct (ents !! nm); [intros H; now inversion H | discriminate].
Qed.

Lemma text_loop_more (fuel : nat) :
  forall quote cdata b0 b1 x v r fuel',
    text_loop fuel quote cdata b0 b1 x = xml.LexOk v r ->
    quote = None \/ r <> EmptyString ->
    (fuel <= fuel')%nat ->
    text_loop fuel' quote cdata b0 b1 (x ++ T) = xml.LexOk v (r ++ T).
Proof.
  induction fuel as [| fuel IH]; intros quote cdata b0 b1 x v r fuel' H Hq Hf;
    [discriminate |].
  destruct fuel' as [| fuel']; [lia |].
  destruct x as [| b rest].
  - cbn [xml.text_loop] in H. destruct cdata; [discriminate |]. inversion H; subst.
    destruct Hq as [-> | Hq]; [| congruence].
    cbn [append]. rewrite text_loop_cons.
    cbn [Ascii.eqb Bool.eqb andb negb]. rewrite !andb_false_r. reflexivity.
  - cbn [append]. rewrite text_loop_cons in *.
    destruct (Ascii.eqb b0 "]" && Ascii.eqb b1 "]" && Ascii.eqb b ">").
    { destruct cdata; [| discriminate]. now inversion H. }
    destruct (Ascii.eqb b "<" && negb cdata).
    { destruct quote; [discriminate |]. now inversion H. }
    destruct (xml.isQuote quote b).
    { now inversion H. }
    destruct (Ascii.eqb b "&" && negb cdata).
    { destruct (xml.readEntity uF uS ents rest) as [txt rest' | e] eqn:He; [| discriminate].
      rewrite (readEntity_more _ _ _ He).
      apply emit_ok in H as (d & H & ->).
      rewrite (IH _ _ _ _ _ _ _ fuel' H Hq ltac:(lia)). reflexivity. }
    apply emit_ok in H as (d & H & ->).
    rewrite (IH _ _ _ _ _ _ _ fuel' H Hq ltac:(lia)). reflexivity.
Qed.

Lemma text_more (quote : option ascii) (cdata : bool) (x v r : string) :
  xml.text uF uS ents quote cdata x = xml.LexOk v r ->
  quote = None \/ r <> EmptyString ->
  xml.text uF uS ents quote cdata (x ++ T) = xml.LexOk v (r ++ T).
Proof.
  unfold xml.text.
  destruct (text_loop (S (slen x)) quote cdata NUL NUL x) as [data rest | e] eqn:Hl;
    [| discriminate].
  intros H Hq.
  assert (Hr : rest = r).
  { destruct (xml.validChars (if cdata then xml.chop 2 data else data));
      [discriminate | now inversion H]. }
  subst rest.
  rewrite (text_loop_more _ _ _ _ _ _ _ _ (S (slen (x ++ T))) Hl Hq).
  - destruct (xml.validChars (if cdata then xml.chop 2 data else data));
      [discriminate | now inversion H].
  - rewrite length_append. lia.
Qed.

Lemma attrval_more (x v r : string) :
  xml.attrval uF uS ents x = xml.LexOk v r -> r <> EmptyString ->
  xml.attrval uF uS ents (x ++ T) = xml.LexOk v (r ++ T).
Proof.
  destruct x as [| b rest]; [discriminate |]. cbn [append]. unfold xml.attrval.
  destruct (Ascii.eqb b dquote || Ascii.eqb b squote); [| discriminate].
  intros H Hr. apply text_more; auto.
Qed.

Lemma attributes_more (fuel : nat) :
  forall acc x res r fuel',
    xml.attributes uF uS ents fuel acc x = xml.LexOk res r ->
    (fuel <= fuel')%nat ->
    xml.attributes uF uS ents fuel' acc (x ++ T) = xml.LexOk res (r ++ T).
Proof.
  induction fuel as [| fuel IH]; intros acc x res r fuel' H Hf; [discriminate |].
  destruct fuel' as [| fuel']; [lia |]. cbn [xml.attributes] in *.
  rewrite space_more.
  destruct (xml.space x) as [| b rest]; [discriminate |]. cbn [append].
  destruct (Ascii.eqb b "/").
  { destruct rest as [| b' rest']; [discriminate |]. cbn [append].
    destruct (Ascii.eqb b' ">"); [| discriminate]. now inversion H. }
  destruct (Ascii.eqb b ">"); [now inversion H |].
  destruct (xml.nsname uF uS (String b rest)) as [[n |] after | e] eqn:Hn; try discriminate.
  change (String b (rest ++ T)) with (String b rest ++ T).
  rewrite (nsname_more _ _ _ Hn), space_more.
  destruct (xml.space after) as [| c after']; [discriminate |]. cbn [append].
  destruct (Ascii.eqb c "="); [| discriminate]. rewrite space_more.
  destruct (xml.attrval uF uS ents (xml.space after')) as [v after'' | e] eqn:Hv;
    [| discriminate].
  assert (Hne : after'' <> EmptyString).
  { intros ->. destruct fuel; discriminate. }
  rewrite (attrval_more _ _ _ Hv Hne). apply IH; [exact H | lia].
Qed.

Lemma comment_loop_more (x : string) :
  forall b0 b1 v r,
    xml.comment_loop b0 b1 x = xml.LexOk v r ->
    xml.comment_loop b0 b1 (x ++ T) = xml.LexOk v (r ++ T).
Proof.
  induction x as [| b rest IH]; intros b0 b1 v r H; [discriminate |].
  cbn [append xml.comment_loop] in *.
  destruct (Ascii.eqb b0 "-" && Ascii.eqb b1 "-").
  - destruct (Ascii.eqb b ">"); [now inversion H | discriminate].
  - apply emit_ok in H as (d & H & ->). now rewrite (IH _ _ _ _ H).
Qed.

Lemma procInst_loop_more (x : string) :
  forall b0 v r,
    xml.procInst_loop b0 x = xml.LexOk v r ->
    xml.procInst_loop b0 (x ++ T) = xml.LexOk v (r ++ T).
Proof.
  induction x as [| b rest IH]; intros b0 v r H; [discriminate |].
  cbn [append xml.procInst_loop] in *.
  destruct (Ascii.eqb b0 "?" && Ascii.eqb b ">"); [now inversion H |].
  apply emit_ok in H as (d & H & ->). now rewrite (IH _ _ _ H).
Qed.

Lemma directive_comment_more (x : string) :
  forall b0 b1 r,
    xml.directive_comment b0 b1 x = Some r ->
    xml.directive_comment b0 b1 (x ++ T) = Some (r ++ T).
Proof.
  induction x as [| b rest IH]; intros b0 b1 r H; [discriminate |].
  cbn [append xml.directive_comment] in *.
  destruct (Ascii.eqb b0 "-" && Ascii.eqb b1 "-" && Ascii.eqb b ">");
    [now inversion H | now apply IH].
Qed.

Lemma directive_loop_more (fuel : nat) :
  forall inquote depth x v r fuel',
    xml.directive_loop fuel inquote depth x = xml.LexOk v r ->
    (fuel <= fuel')%nat ->
    xml.directive_loop fuel' inquote depth (x ++ T) = xml.LexOk v (r ++ T).
Proof.
  induction fuel as [| fuel IH]; intros inquote depth x v r fuel' H Hf; [discriminate |].
  destruct fuel' as [| fuel']; [lia |].
  destruct x as [| b rest]; [discriminate |].
  cbn [append xml.directive_loop] in *.
  assert (Hstep : forall s inq dep y,
             xml.emit s (xml.directive_loop fuel inq dep y) = xml.LexOk v r ->
             xml.emit s (xml.directive_loop fuel' inq dep (y ++ T)) = xml.LexOk v (r ++ T)).
  { intros s inq dep y Hy. apply emit_ok in Hy as (d & Hy & ->).
    now rewrite (IH _ _ _ _ _ fuel' Hy ltac:(lia)). }
  destruct (Ascii.eqb inquote NUL && Ascii.eqb b ">" && (depth =? 0)%nat);
    [now inversion H |].
  destruct (Ascii.eqb b inquote); [now apply Hstep |].
  destruct (negb (Ascii.eqb inquote NUL)); [now apply Hstep |].
  destruct (Ascii.eqb b squote || Ascii.eqb b dquote); [now apply Hstep |].
  destruct (Ascii.eqb b ">"); [now apply Hstep |].
  destruct (Ascii.eqb b "<"); [| now apply Hstep].
  destruct rest as [| c1 r1]; [discriminate |]. cbn [append].
  destruct (negb (Ascii.eqb c1 "!")); [now apply (Hstep _ _ _ (String c1 r1)) |].
  destruct r1 as [| c2 r2]; [discriminate |]. cbn [append].
  destruct (negb (Ascii.eqb c2 "-")); [now apply (Hstep _ _ _ (String c2 r2)) |].
  destruct r2 as [| c3 r3]; [discriminate |]. cbn [append].
  destruct (negb (Ascii.eqb c3 "-")); [now apply (Hstep _ _ _ (String c3 r3)) |].
  destruct (xml.directive_comment NUL NUL r3) as [r4 |] eqn:Hc; [| discriminate].
  rewrite (directive_comment_more _ _ _ _ Hc). now apply Hstep.
Qed.

Lemma endElement_more (x : string) (t : xml.Token) (nc : option xml.Name) (r : string) :
  xml.endElement uF uS x = xml.RawTok t nc r ->
  xml.endElement uF uS (x ++ T) = xml.RawTok t nc (r ++ T).
Proof.
  unfold xml.endElement.
  destruct (xml.nsname uF uS x) as [[n |] rest | e] eqn:Hn; try discriminate.
  rewrite (nsname_more _ _ _ Hn), space_more.
  destruct (xml.space rest) as [| b rest']; [discriminate |]. cbn [append].
  destruct (Ascii.eqb b ">"); [| discriminate]. intros H. now inversion H.
Qed.

Lemma procInstToken_more (x : string) (t : xml.Token) (nc : option xml.Name) (r : string) :
  xml.procInstToken uF uS x = xml.RawTok t nc r ->
  xml.procInstToken uF uS (x ++ T) = xml.RawTok t nc (r ++ T).
Proof.
  unfold xml.procInstToken.
  destruct (xml.name uF uS x) as [[target |] rest | e] eqn:Hn; try discriminate.
  rewrite (name_more _ _ _ Hn), space_more.
  destruct (xml.procInst_loop NUL (xml.space rest)) as [d rest' | e] eqn:Hp; [| discriminate].
  rewrite (procInst_loop_more _ _ _ _ Hp).
  destruct (String.eqb target "xml").
  - match goal with |- context [if ?c then xml.RawErr _ else _] => destruct c end;
      [discriminate |].
    match goal with |- context [if ?c then xml.RawErr _ else _] => destruct c end;
      [discriminate |].
    intros H. now inversion H.
  - intros H. now inversion H.
Qed.

Lemma prefix_more (p x : string) :
  String.prefix p x = true ->
  String.prefix p (x ++ T) = true
  /\ drop_bytes (slen p) (x ++ T) = drop_bytes (slen p) x ++ T.
Proof.
  revert x. induction p as [| c p IH]; intros x H.
  - split; [now destruct (x ++ T) | reflexivity].
  - destruct x as [| b x]; [discriminate |]. cbn [String.prefix append String.length drop_bytes] in *.
    destruct (ascii_dec c b); [| discriminate]. now apply IH.
Qed.

Lemma bangToken_more (x : string) (t : xml.Token) (nc : option xml.Name) (r : string) :
  xml.bangToken uF uS ents x = xml.RawTok t nc r ->
  xml.bangToken uF uS ents (x ++ T) = xml.RawTok t nc (r ++ T).
Proof.
  destruct x as [| b rest]; [discriminate |]. cbn [append]. unfold xml.bangToken.
  destruct (Ascii.eqb b "-").
  { destruct rest as [| b' rest']; [discriminate |]. cbn [append].
    destruct (Ascii.eqb b' "-"); [| discriminate].
    destruct (xml.comment_loop NUL NUL rest') as [d after | e] eqn:Hc; [| discriminate].
    rewrite (comment_loop_more _ _ _ _ _ Hc). intros H. now inversion H. }
  destruct (Ascii.eqb b "[").
  { destruct (String.prefix "CDATA[" rest) eqn:Hp.
    - destruct (prefix_more _ _ Hp) as [Hp' Hd]. rewrite Hp'.
      change (slen "CDATA[") with 6%nat in Hd. rewrite Hd.
      destruct (xml.text uF uS ents None true (drop_bytes 6 rest)) as [data after | e] eqn:Ht;
        [| discriminate].
      rewrite (text_more _ _ _ _ _ Ht (or_introl eq_refl)). intros H. now inversion H.
    - match goal with |- (if ?c then _ else _) = _ -> _ => destruct c end; discriminate. }
  destruct (xml.directive_loop (S (slen rest)) NUL 0 rest) as [d after | e] eqn:Hd;
    [| discriminate].
  rewrite (directive_loop_more _ _ _ _ _ _ (S (slen (rest ++ T))) Hd).
  - intros H. now inversion H.
  - rewrite length_append. lia.
Qed.

Lemma startElement_more (x : string) (t : xml.Token) (nc : option xml.Name) (r : string) :
  xml.startElement uF uS ents x = xml.RawTok t nc r ->
  xml.startElement uF uS ents (x ++ T) = xml.RawTok t nc (r ++ T).
Proof.
  unfold xml.startElement.
  destruct (xml.nsname uF uS x) as [[n |] rest | e] eqn:Hn; try discriminate.
  rewrite (nsname_more _ _ _ Hn).
  destruct (xml.attributes uF uS ents (S (slen rest)) [] rest) as [[attr empty] rest' | e]
    eqn:Ha; [| discriminate].
  rewrite (attributes_more _ _ _ _ _ (S (slen (rest ++ T))) Ha).
  - intros H. now inversion H.
  - rewrite length_append. lia.
Qed.

(** A token read from [x] alone is read from [x] followed by a tag, and
    leaves the tag unread. *)
Lemma rawToken_more (nc : option xml.Name) (x : string) (t : xml.Token)
    (nc' : option xml.Name) (r : string) :
  xml.rawToken uF uS ents nc x = xml.RawTok t nc' r ->
  xml.rawToken uF uS ents nc (x ++ T) = xml.RawTok t nc' (r ++ T).
Proof.
  destruct nc as [n |]; cbn [xml.rawToken]; [intros H; now inversion H |].
  destruct x as [| b rest]; [discriminate |]. cbn [append].
  destruct (negb (Ascii.eqb b "<")).
  { destruct (xml.text uF uS ents None false (String b rest)) as [data rest' | e] eqn:Ht;
      [| discriminate].
    change (String b (rest ++ T)) with (String b rest ++ T).
    rewrite (text_more _ _ _ _ _ Ht (or_introl eq_refl)). intros H. now inversion H. }
  destruct rest as [| b' rest']; [discriminate |]. cbn [append].
  destruct (Ascii.eqb b' "/"); [apply endElement_more |].
  destruct (Ascii.eqb b' "?"); [apply procInstToken_more |].
  destruct (Ascii.eqb b' "!"); [apply bangToken_more |].
  apply (startElement_more (String b' rest')).
Qed.

Lemma rawToken_EOF (nc : option xml.Name) (x : string) :
  xml.rawToken uF uS ents nc x = xml.RawEOF -> nc = None /\ x = EmptyString.
Proof.
  destruct nc; [discriminate |]. destruct x as [| b rest]; [auto |].
  cbn [xml.rawToken].
  destruct (negb (Ascii.eqb b "<")).
  { destruct (xml.text uF uS ents None false (String b rest)); discriminate. }
  destruct rest as [| b' rest']; [discriminate |].
  unfold xml.endElement, xml.procInstToken, xml.bangToken, xml.startElement.
  repeat match goal with
         | |- context [match ?e with _ => _ end] => destruct e
         end; discriminate.
Qed.

(** The tokens read from [x] alone, up to the end of the input, are read
    from [x] followed by a tag, whatever elements are open around [x];
    the decoder then goes on with the tag. *)
Lemma stream_more (ts : list xml.Token) :
  forall fuel stk nc x base,
    xml.decode uF uS ents fuel stk nc x = feed ts EOF ->
    xml.stream uF uS ents (stk ++ base) nc (x ++ T)
    = feed ts (xml.stream uF uS ents base None T).
Proof.
  induction ts as [| t0 ts IH]; intros fuel stk nc x base H;
    (destruct fuel as [| fuel]; [discriminate |]); cbn [xml.decode feed] in H;
    destruct (xml.rawToken uF uS ents nc x) as [t nc' rest | | e] eqn:Hr; try discriminate.
  - destruct t; try discriminate. destruct stk as [| s stk]; [discriminate |].
    destruct (negb (String.eqb (Local s) (Local name))); [discriminate |].
    destruct (negb (String.eqb (xml.Space s) (xml.Space name))); discriminate.
  - destruct stk; [| discriminate].
    apply rawToken_EOF in Hr as [-> ->]. reflexivity.
  - rewrite (stream_step uF uS ents), (rawToken_more _ _ _ _ _ Hr). cbn [feed].
    destruct t as [n a | n | | | |];
      try (inversion H; subst; f_equal; eapply IH; eassumption).
    + inversion H; subst. f_equal. apply (IH fuel (n :: stk)). assumption.
    + destruct stk as [| s stk]; [discriminate |]. cbn [app].
      destruct (negb (String.eqb (Local s) (Local n))); [discriminate |].
      destruct (negb (String.eqb (xml.Space s) (xml.Space n))); [discriminate |].
      inversion H; subst. f_equal. eapply IH; eassumption.
  - destruct stk; discriminate.
Qed.

End TokenizerExtension.

(* ================================================================== *)
(** ** Carriage returns and the character check *)

Lemma high_not_newline (c : ascii) :
  (128 <=? code c)%N = true -> Ascii.eqb c CR = false /\ Ascii.eqb c LF = false.
Proof.
  intros H. split.
  - destruct (Ascii.eqb c CR) eqn:E; [| reflexivity]. apply Ascii.eqb_eq in E. subst c.
    vm_compute in H. discriminate.
  - destruct (Ascii.eqb c LF) eqn:E; [| reflexivity]. apply Ascii.eqb_eq in E. subst c.
    vm_compute in H. discriminate.
Qed.

Lemma crlf_high (pre : string) :
  forall c f rest,
    allHigh (String c pre) = true ->
    crlf f (String c pre ++ rest) = String c pre ++ crlf false rest.
Proof.
  induction pre as [| b pre IH]; intros c f rest H; cbn [allHigh] in H;
    apply andb_true_iff in H as [Hc H]; destruct (high_not_newline c Hc) as [Hcr Hlf];
    cbn [append crlf]; rewrite Hcr, Hlf, andb_false_r; cbn [str1 append].
  - reflexivity.
  - f_equal. apply (IH b false rest). exact H.
Qed.

Lemma drop_bytes_app (a b : string) : drop_bytes (String.length a) (a ++ b) = b.
Proof. induction a as [| c a IH]; [now destruct b | exact IH]. Qed.

(** A rune that is well encoded: either one byte below 128, or the bytes,
    all from 128 on, of a longer encoding, which alone decide the rune. *)
Lemma DecodeRune_valid (c : ascii) (rest : string) (r : N) (size : nat) :
  DecodeRune (String c rest) = (r, size) ->
  ((r =? RuneError)%N && (size =? 1)%nat = false) ->
  ((code c <? 128)%N = true /\ r = code c /\ size = 1%nat)
  \/ exists pre rest',
       rest = pre ++ rest' /\ size = String.length (String c pre)
       /\ allHigh (String c pre) = true
       /\ forall rest'', DecodeRune (String c pre ++ rest'') = (r, size).
Proof.
  intros H Hv. unfold DecodeRune in H.
  assert (Hbad : (RuneError, 1%nat) = (r, size) -> False).
  { intros Hb. inversion Hb; subst. discriminate. }
  destruct (code c <? 128)%N eqn:H1.
  { inversion H. left. auto. }
  assert (Hc : (128 <=? code c)%N = true).
  { apply N.leb_le. apply N.ltb_ge in H1. exact H1. }
  destruct (code c <? 194)%N eqn:H2; [now apply Hbad in H |].
  assert (Hb : forall b, between 128 191 b = true -> (128 <=? code b)%N = true).
  { intros b Hbt. unfold between in Hbt. now apply andb_true_iff in Hbt as [Hbt _]. }
  assert (Hlo : forall lo hi b, (lo = 160 \/ lo = 128 \/ lo = 144)%N ->
                                between lo hi b = true -> (128 <=? code b)%N = true).
  { intros lo hi b Hl Hbt. unfold between in Hbt. apply andb_true_iff in Hbt as [Hbt _].
    apply N.leb_le in Hbt. apply N.leb_le. lia. }
  right.
  destruct (code c <=? 223)%N eqn:H3.
  { destruct rest as [| b1 rest1]; [now apply Hbad in H |].
    destruct (between 128 191 b1) eqn:E1; [| now apply Hbad in H].
    inversion H; subst. exists (str1 b1), rest1.
    cbn [str1 append String.length allHigh]. rewrite Hc, (Hb _ E1).
    repeat split. intros rest''. unfold DecodeRune. now rewrite H1, H2, H3, E1. }
  destruct (code c <=? 239)%N eqn:H4.
  { destruct rest as [| b1 [| b2 rest2]]; try (now apply Hbad in H).
    match type of H with
    | context [between ?lo ?hi b1] =>
        destruct (between lo hi b1) eqn:E1;
          [assert (H1' : (128 <=? code b1)%N = true)
             by (apply (Hlo lo hi b1); [destruct (code c =? 224)%N; auto | exact E1])
          | now apply Hbad in H]
    end.
    destruct (between 128 191 b2) eqn:E2; [| now apply Hbad in H].
    cbn [negb] in H. inversion H; subst.
    exists (String b1 (str1 b2)), rest2.
    cbn [str1 append String.length allHigh]. rewrite Hc, H1', (Hb _ E2).
    repeat split. intros rest''. unfold DecodeRune. now rewrite H1, H2, H3, H4, E1, E2. }
  destruct (code c <=? 244)%N eqn:H5; [| now apply Hbad in H].
  destruct rest as [| b1 [| b2 [| b3 rest3]]]; try (now apply Hbad in H).
  match type of H with
  | context [between ?lo ?hi b1] =>
      destruct (between lo hi b1) eqn:E1;
        [assert (H1' : (128 <=? code b1)%N = true)
           by (apply (Hlo lo hi b1); [destruct (code c =? 240)%N; auto | exact E1])
        | now apply Hbad in H]
  end.
  destruct (between 128 191 b2) eqn:E2; [| now apply Hbad in H].
  destruct (between 128 191 b3) eqn:E3; [| now apply Hbad in H].
  cbn [negb] in H. inversion H; subst.
  exists (String b1 (String b2 (str1 b3))), rest3.
  cbn [str1 append String.length allHigh]. rewrite Hc, H1', (Hb _ E2), (Hb _ E3).
  repeat split. intros rest''. unfold DecodeRune.
  now rewrite H1, H2, H3, H4, H5, E1, E2, E3.
Qed.

Lemma checkChars_crlf (n : nat) :
  forall t f,
    (String.length t <= n)%nat ->
    xml.checkChars n t = None ->
    xml.validChars (crlf f t) = None.
Proof.
  induction n as [| n IH]; intros t f Hn Hv.
  - destruct t; [reflexivity | cbn in Hn; lia].
  - destruct t as [| c rest]; [reflexivity |].
    cbn [xml.checkChars] in Hv.
    destruct (DecodeRune (String c rest)) as [r size] eqn:Hd.
    destruct ((r =? RuneError)%N && (size =? 1)%nat) eqn:He; [discriminate |].
    destruct (negb (xml.isInCharacterRange r)) eqn:Hr; [discriminate |].
    apply negb_false_iff in Hr.
    destruct (DecodeRune_valid _ _ _ _ Hd He)
      as [(Hlow & -> & ->) | (pre & rest' & -> & -> & Hhigh & Hdec)].
    + cbn [drop_bytes String.length] in *.
      assert (Hrest : xml.validChars (crlf (Ascii.eqb c CR) rest) = None)
        by (apply IH; [lia | exact Hv]).
      assert (Hone : forall b s, (code b <? 128)%N = true ->
                                 xml.isInCharacterRange (code b) = true ->
                                 xml.validChars s = None ->
                                 xml.validChars (String b s) = None).
      { intros b s Hb Hrange Hs. unfold xml.validChars. cbn [String.length xml.checkChars].
        unfold DecodeRune. rewrite Hb.
        replace ((code b =? RuneError)%N) with false
          by (symmetry; apply N.eqb_neq; apply N.ltb_lt in Hb; unfold RuneError; lia).
        cbn [andb]. rewrite Hrange. cbn [negb drop_bytes]. exact Hs. }
      cbn [crlf]. destruct (Ascii.eqb c CR).
      * cbn [str1 append]. apply Hone; [reflexivity | reflexivity | exact Hrest].
      * destruct (f && Ascii.eqb c LF); [exact Hrest |].
        cbn [str1 append]. now apply Hone.
    + change (String c (pre ++ rest')) with (String c pre ++ rest') in *.
      rewrite crlf_high by exact Hhigh.
      unfold xml.validChars.
      change (String c pre ++ crlf false rest') with (String c (pre ++ crlf false rest')).
      cbn [String.length xml.checkChars].
      change (String c (pre ++ crlf false rest')) with (String c pre ++ crlf false rest').
      rewrite Hdec, He, Hr. cbn [negb].
      rewrite drop_bytes_app. rewrite drop_bytes_app in Hv.
      assert (Hrest : xml.validChars (crlf false rest') = None).
      { apply IH; [| exact Hv].
        rewrite length_append in Hn. cbn [String.length] in Hn. lia. }
      unfold xml.validChars in Hrest.
      rewrite <- Hrest. apply checkChars_bound; [| lia].
      rewrite length_append. lia.
Qed.

Lemma validChars_crlf (t : string) (f : bool) :
  validText t = true -> xml.validChars (crlf f t) = None.
Proof.
  unfold validText. intros H. apply (checkChars_crlf (String.length t)); [lia |].
  unfold xml.validChars in H. now destruct (xml.checkChars (String.length t) t).
Qed.

(* ================================================================== *)
(** ** The validator on balanced tokens *)

Lemma openTables_nonneg (stk : list xml.Name) : (0 <= openTables stk)%Z.
Proof. unfold openTables. lia. Qed.

Lemma accepted_nil : accepted [].
Proof. intros depth found d _ Hf. now exists found. Qed.

Lemma accepted_app (a b : list xml.Token) : accepted a -> accepted b -> accepted (a ++ b).
Proof.
  intros Ha Hb depth found d Hd Hf.
  destruct (Ha depth found (feed b d) Hd Hf) as (f1 & Hf1 & H1).
  destruct (Hb depth f1 d Hd Hf1) as (f2 & Hf2 & H2).
  exists f2. split; [exact Hf2 |].
  assert (Hfeed : feed (a ++ b) d = feed a (feed b d)).
  { clear. induction a as [| t a IH]; [reflexivity |]. cbn [app feed]. now rewrite IH. }
  now rewrite Hfeed, H1, H2.
Qed.

Lemma accepted_quiet (t : xml.Token) : quiet DefaultValidatorOptions t = true -> accepted [t].
Proof.
  intros Hq depth found d _ Hf. exists found. split; [exact Hf |].
  cbn [feed]. now apply validate_quiet_token.
Qed.

(** The start tag of a row or of a table body. *)
Lemma accepted_calm (t : xml.Token) : calm DefaultValidatorOptions t = true -> accepted [t].
Proof.
  intros Hc depth found d Hd Hf. cbn [feed].
  destruct (Z.ltb_spec 0 depth) as [Hpos | Hzero].
  - rewrite (Hf Hpos). exists true. split; [reflexivity |]. now apply validate_calm_token.
  - assert (depth = 0%Z) by lia. subst depth.
    destruct t as [n attr | n | | | |]; cbn [calm] in Hc;
      try (exists found; split; [exact Hf | reflexivity]).
    + exists found. split; [exact Hf |]. cbn [validate_loop].
      repeat (apply andb_true_iff in Hc as [Hc ?]).
      repeat match goal with H : negb _ = true |- _ => apply negb_true_iff in H end.
      rewrite Hc.
      match goal with H : (_ && _ && _ && _)%bool = false |- _ => rewrite H end.
      match goal with H : String.eqb _ "table" = false |- _ => rewrite H end.
      cbn [Z.ltb Z.compare]. rewrite !andb_false_r. reflexivity.
    + exists found. split; [exact Hf |]. cbn [validate_loop].
      apply negb_true_iff in Hc. now rewrite Hc.
Qed.

Lemma feed_app (a b : list xml.Token) (d : Decoder) : feed (a ++ b) d = feed a (feed b d).
Proof. induction a as [| t a IH]; [reflexivity |]. cbn [app feed]. now rewrite IH. Qed.

(** A table with its [tbody] around accepted tokens. *)
Lemma accepted_table (tn bn : xml.Name) (ta ba : list xml.Attr) (ts : list xml.Token) :
  Local tn = "table" -> Local bn = "tbody" ->
  accepted ts ->
  accepted (StartElement tn ta :: StartElement bn ba :: ts
            ++ [EndElement bn; EndElement tn]).
Proof.
  intros Ht Hb Hts depth found d Hd Hf.
  destruct (Hts (depth + 1)%Z true (feed [EndElement bn; EndElement tn] d) ltac:(lia)
              (fun _ => eq_refl)) as (f1 & Hf1 & H1).
  exists true. split; [reflexivity |].
  cbn [app feed]. rewrite feed_app.
  cbn [validate_loop]. rewrite Ht. cbn [String.eqb Ascii.eqb Bool.eqb].
  change (index (ForbiddenTags DefaultValidatorOptions) "table") with false.
  cbn [andb negb]. cbv beta iota zeta.
  rewrite Hb.
  change (index (ForbiddenTags DefaultValidatorOptions) "tbody") with false.
  cbn [String.eqb Ascii.eqb Bool.eqb andb negb]. cbv beta iota zeta.
  replace (0 <? depth + 1)%Z with true by (symmetry; apply Z.ltb_lt; lia).
  cbn [andb negb]. rewrite H1, (Hf1 ltac:(lia)).
  cbn [feed validate_loop]. rewrite Hb, Ht.
  cbn [String.eqb Ascii.eqb Bool.eqb andb negb].
  replace (depth + 1 - 1)%Z with depth by lia. reflexivity.
Qed.

Lemma validated_tokens (opts : ValidatorOptions) (d : Decoder) :
  forall depth found,
    validate_loop opts depth found d = None -> exists ts, d = feed ts EOF.
Proof.
  induction d as [| e | t d IH]; intros depth found H.
  - now exists [].
  - discriminate.
  - assert (Hd : exists depth' found', validate_loop opts depth' found' d = None).
    { cbn [validate_loop] in H. destruct t as [n a | n | | | |]; eauto.
      - destruct (index (ForbiddenTags opts) (Local n)); [discriminate |].
        match type of H with
        | (if ?c then Some _ else _) = None => destruct c; [discriminate |]
        end.
        destruct (String.eqb (Local n) "table"); cbv beta iota zeta in H;
          match type of H with
          | (if ?c then Some _ else _) = None => destruct c; [discriminate |]
          end; eauto.
      - destruct (String.eqb (Local n) "table"); [| eauto].
        destruct (negb found && RequireTableTbody opts); [discriminate | eauto]. }
    destruct Hd as (depth' & found' & Hd). destruct (IH _ _ Hd) as [ts ->].
    now exists (t :: ts).
Qed.

(** Tokens of a strict decoder that the validator accepts on their own
    are accepted in the middle of any input, outside and inside tables:
    the counter is the number of tables opened by the tokens themselves
    plus the number open around them, and the flag is set wherever it was
    when the tokens were validated alone. *)
Lemma validate_in_context (ts : list xml.Token) :
  forall stk fs depth fc d,
    xml.balanced stk (feed ts EOF) = true ->
    validate_loop DefaultValidatorOptions (openTables stk) fs (feed ts EOF) = None ->
    (0 <= depth)%Z ->
    (fs = true -> fc = true) ->
    (openTables stk = 0%Z -> (0 < depth)%Z -> fc = true) ->
    exists fc',
      ((0 < depth)%Z -> fc' = true)
      /\ validate_loop DefaultValidatorOptions (openTables stk + depth) fc (feed ts d)
         = validate_loop DefaultValidatorOptions depth fc' d.
Proof.
  induction ts as [| t ts IH]; intros stk fs depth fc d Hb Hv Hd Hfs Hzero.
  - cbn [feed xml.balanced] in *. destruct stk; [| discriminate].
    exists fc. split; [now apply Hzero | reflexivity].
  - cbn [feed] in *. pose proof (openTables_nonneg stk) as Hnn.
    destruct t as [n a | n | | | |]; cbn [xml.balanced] in Hb;
      try (cbn [validate_loop] in *; now apply (IH stk fs)).
    + cbn [validate_loop] in *.
      destruct (index (ForbiddenTags DefaultValidatorOptions) (Local n)); [discriminate |].
      change (size (AllowedMacros DefaultValidatorOptions)) with 0%nat in *.
      change (RequireTableTbody DefaultValidatorOptions) with true in *.
      cbn [Nat.ltb Nat.leb] in *. rewrite ?andb_false_r, ?andb_true_r in *.
      cbn [andb] in *.
      pose proof (openTables_push n stk) as Hpush.
      destruct (String.eqb (Local n) "table") eqn:Htable.
      { apply String.eqb_eq in Htable. rewrite Htable in *.
        cbn [String.eqb Ascii.eqb Bool.eqb andb negb] in *. cbv beta iota zeta in *.
        replace (openTables stk + depth + 1)%Z with (openTables (n :: stk) + depth)%Z by lia.
        rewrite <- Hpush in Hv.
        apply (IH (n :: stk) false); [exact Hb | exact Hv | exact Hd | discriminate | lia]. }
      cbv beta iota zeta in *. rewrite <- Hpush in *.
      destruct (String.eqb (Local n) "tbody") eqn:Htbody.
      { apply String.eqb_eq in Htbody. rewrite Htbody in *.
        cbn [String.eqb Ascii.eqb Bool.eqb andb negb] in *.
        destruct (Z.ltb_spec 0 (openTables (n :: stk))) as [Hp | Hp];
          destruct (Z.ltb_spec 0 (openTables (n :: stk) + depth)) as [Hq | Hq];
          try lia.
        - apply (IH (n :: stk) true); auto; intros; lia.
        - apply (IH (n :: stk) fs); auto.
        - apply (IH (n :: stk) fs); auto; intros; lia. }
      destruct (String.eqb (Local n) "tr") eqn:Htr.
      { cbn [andb negb] in *.
        destruct (Z.ltb_spec 0 (openTables (n :: stk))) as [Hp | Hp]; cbn [andb] in Hv.
        - destruct fs; cbn [negb] in Hv; [| discriminate].
          rewrite (Hfs eq_refl) in *. cbn [negb]. rewrite andb_false_r.
          apply (IH (n :: stk) true); auto; lia.
        - destruct (Z.ltb_spec 0 (openTables (n :: stk) + depth)) as [Hq | Hq]; cbn [andb].
          + assert (Hfc : fc = true) by (apply Hzero; lia). subst fc. cbn [negb].
            apply (IH (n :: stk) fs); auto; intros; lia.
          + apply (IH (n :: stk) fs); auto; intros; lia. }
      cbn [andb] in *. apply (IH (n :: stk) fs); auto.
    + destruct stk as [| top stk]; [discriminate |].
      apply andb_true_iff in Hb as [Hn Hb]. unfold xml.name_eqb in Hn.
      apply andb_true_iff in Hn as [_ Hn]. apply String.eqb_eq in Hn.
      pose proof (openTables_push top stk) as Hpush. rewrite Hn in Hpush.
      pose proof (openTables_nonneg stk) as Hnn'.
      cbn [validate_loop] in *.
      change (RequireTableTbody DefaultValidatorOptions) with true in *.
      rewrite ?andb_true_r in *.
      destruct (String.eqb (Local n) "table").
      * destruct fs; cbn [negb] in Hv; [| discriminate].
        rewrite (Hfs eq_refl) in *. cbn [negb].
        replace (openTables (top :: stk) + depth - 1)%Z with (openTables stk + depth)%Z by lia.
        replace (openTables (top :: stk) - 1)%Z with (openTables stk) in Hv by lia.
        apply (IH stk true); auto.
      * rewrite Hpush in *. apply (IH stk fs); auto.
Qed.

(* ================================================================== *)
(** ** The tokenizer on rendered texts with carriage returns *)

Section RenderedTexts.

Variable uF uS : N -> bool.
Variable ents : gmap string string.

Local Abbreviation slen := String.length.
Local Abbreviation text_loop := (xml.text_loop uF uS ents).
Local Abbreviation rawToken := (xml.rawToken uF uS ents).
Local Abbreviation stream := (xml.stream uF uS ents).

Lemma crlf_plain (f : bool) (x : ascii) (t : string) :
  Ascii.eqb x CR = false -> Ascii.eqb x LF = false ->
  crlf f (String x t) = String x (crlf false t).
Proof. intros Hcr Hlf. cbn [crlf]. now rewrite Hcr, Hlf, andb_false_r. Qed.

Lemma text_loop_escaped_cr (t : string) :
  forall fuel quote b0 b1 c tail,
    textEnd quote c ->
    (slen (EscapeString t ++ String c tail) < fuel)%nat ->
    text_loop fuel quote false b0 b1 (EscapeString t ++ String c tail)
    = xml.LexOk (crlf (Ascii.eqb b1 CR) t) (afterText quote c tail).
Proof.
  induction t as [| x t IH]; intros fuel quote b0 b1 c tail Hend Hf;
    (destruct fuel as [| fuel]; [lia |]).
  - cbn [EscapeString append]. rewrite text_loop_cons.
    destruct Hend; cbn; rewrite ?andb_false_r; reflexivity.
  - cbn [EscapeString] in *. rewrite append_assoc in *.
    unfold escapeByte in *.
    assert (Hent : forall ent,
               (slen (EscapeString t ++ String c tail) < fuel)%nat ->
               Ascii.eqb x CR = false -> Ascii.eqb x LF = false ->
               xml.isQuote quote "&" = false ->
               xml.readEntity uF uS ents (ent ++ EscapeString t ++ String c tail)
               = xml.LexOk (str1 x) (EscapeString t ++ String c tail) ->
               text_loop (S fuel) quote false b0 b1
                 (String "&" (ent ++ EscapeString t ++ String c tail))
               = xml.LexOk (crlf (Ascii.eqb b1 CR) (String x t)) (afterText quote c tail)).
    { intros ent Hlen Hcr Hlf Hq He. rewrite text_loop_cons, Hq.
      cbn [Ascii.eqb Bool.eqb andb negb]. rewrite !andb_false_r. rewrite He.
      rewrite IH; [| exact Hend | exact Hlen].
      rewrite (crlf_plain _ x t Hcr Hlf). reflexivity. }
    assert (Hq : xml.isQuote quote "&" = false) by (destruct Hend; reflexivity).
    destruct (Ascii.eqb x "&") eqn:E1.
    { apply Ascii.eqb_eq in E1. subst x.
      apply (Hent "amp;"); [cbn [append String.length] in *; lia | reflexivity
                           | reflexivity | exact Hq | apply readEntity_amp]. }
    destruct (Ascii.eqb x squote) eqn:E2.
    { apply Ascii.eqb_eq in E2. subst x.
      apply (Hent "#39;"); [cbn [append String.length] in *; lia | reflexivity
                           | reflexivity | exact Hq | apply readEntity_39]. }
    destruct (Ascii.eqb x "<") eqn:E3.
    { apply Ascii.eqb_eq in E3. subst x.
      apply (Hent "lt;"); [cbn [append String.length] in *; lia | reflexivity
                          | reflexivity | exact Hq | apply readEntity_lt_]. }
    destruct (Ascii.eqb x ">") eqn:E4.
    { apply Ascii.eqb_eq in E4. subst x.
      apply (Hent "gt;"); [cbn [append String.length] in *; lia | reflexivity
                          | reflexivity | exact Hq | apply readEntity_gt]. }
    destruct (Ascii.eqb x dquote) eqn:E5.
    { apply Ascii.eqb_eq in E5. subst x.
      apply (Hent "#34;"); [cbn [append String.length] in *; lia | reflexivity
                           | reflexivity | exact Hq | apply readEntity_34]. }
    cbn [str1 append] in *. rewrite text_loop_cons.
    replace (xml.isQuote quote x) with false by (destruct Hend; cbn; congruence).
    rewrite E1, E3, E4. cbn [andb negb]. rewrite !andb_false_r.
    rewrite IH; [| exact Hend | cbn [String.length] in Hf; lia].
    cbn [xml.emit crlf]. reflexivity.
Qed.

Lemma text_escaped_cr (t : string) (quote : option ascii) (c : ascii) (tail : string) :
  textEnd quote c -> validText t = true ->
  xml.text uF uS ents quote false (EscapeString t ++ String c tail)
  = xml.LexOk (crlf false t) (afterText quote c tail).
Proof.
  intros Hend Hg. unfold xml.text.
  rewrite text_loop_escaped_cr; [| assumption | lia].
  change (Ascii.eqb NUL CR) with false.
  now rewrite (validChars_crlf t false Hg).
Qed.

(** Character data in front of a tag. *)
Lemma rawToken_text_cr (t : string) (tail : string) :
  validText t = true -> t <> EmptyString ->
  rawToken None (EscapeString t ++ String "<" tail)
  = xml.RawTok (CharData (crlf false t)) None (String "<" tail).
Proof.
  intros Hg Hne. destruct t as [| x t]; [congruence |].
  destruct (escaped_head x t (String "<" tail)) as (b & r' & Hb & Hlt).
  pose proof (text_escaped_cr (String x t) None "<" tail endOfChars Hg) as Ht.
  rewrite Hb in *. cbn [xml.rawToken]. rewrite Hlt. cbn [negb]. rewrite Ht. reflexivity.
Qed.

(** The start tag of an element with the attribute [ac:name]. *)
Lemma rawToken_named_cr (elt : string) (n : xml.Name) (v r : string) :
  (forall tail, rawToken None ("<" ++ elt ++ String " " tail)
                = match xml.attributes uF uS ents (S (slen (String " " tail))) []
                          (String " " tail) with
                  | xml.LexOk (attr, empty) rest' =>
                      xml.RawTok (StartElement n attr) (if empty then Some n else None) rest'
                  | xml.LexErr e => xml.RawErr e
                  end) ->
  validText v = true ->
  rawToken None ("<" ++ elt ++ " ac:name=" ++ str1 dquote ++ EscapeString v
                 ++ str1 dquote ++ ">" ++ r)
  = xml.RawTok (StartElement n [nameAttr (crlf false v)]) None r.
Proof.
  intros Helt Hg.
  change (" ac:name=" ++ str1 dquote ++ EscapeString v ++ str1 dquote ++ ">" ++ r)
    with (String " " ("ac:name=" ++ String dquote (EscapeString v ++ String dquote (">" ++ r)))).
  rewrite Helt.
  change (String " " ("ac:name=" ++ String dquote (EscapeString v ++ String dquote (">" ++ r))))
    with (" ac:name=" ++ String dquote (EscapeString v ++ String dquote (">" ++ r))).
  rewrite attributes_name.
  rewrite (text_escaped_cr v (Some dquote) dquote (">" ++ r) endOfValue Hg).
  cbn [afterText app]. rewrite attributes_close; [reflexivity |].
  cbn [String.length append]. lia.
Qed.

Lemma text_loop_cdata_cr (code : string) :
  forall fuel b0 b1 tail,
    Index (String b0 (String b1 code)) "]]>" = None ->
    (slen (code ++ "]]>" ++ tail) < fuel)%nat ->
    text_loop fuel None true b0 b1 (code ++ "]]>" ++ tail)
    = xml.LexOk (crlf (Ascii.eqb b1 CR) code ++ "]]") tail.
Proof.
  induction code as [| x code IH]; intros fuel b0 b1 tail Hidx Hf.
  - cbn [append String.length] in *.
    do 3 (destruct fuel as [| fuel]; [lia |]).
    rewrite text_loop_cons.
    cbn [Ascii.eqb Bool.eqb andb negb xml.isQuote CR LF]. rewrite !andb_false_r.
    rewrite text_loop_cons.
    cbn [Ascii.eqb Bool.eqb andb negb xml.isQuote CR LF]. rewrite !andb_false_r.
    rewrite text_loop_cons.
    cbn [Ascii.eqb Bool.eqb andb negb xml.isQuote CR LF]. reflexivity.
  - destruct fuel as [| fuel]; [lia |].
    cbn [append String.length] in *. rewrite text_loop_cons.
    assert (Htrig : Ascii.eqb b0 "]" && Ascii.eqb b1 "]" && Ascii.eqb x ">" = false).
    { apply Index_head in Hidx.
      destruct (Ascii.eqb b0 "]") eqn:E0; [| reflexivity].
      destruct (Ascii.eqb b1 "]") eqn:E1; [| reflexivity].
      destruct (Ascii.eqb x ">") eqn:E2; [| reflexivity].
      apply Ascii.eqb_eq in E0, E1, E2. subst. destruct code; cbv in Hidx; discriminate. }
    rewrite Htrig. cbn [negb andb xml.isQuote]. rewrite !andb_false_r.
    rewrite IH; [| now apply Index_tail in Hidx | lia].
    cbn [xml.emit crlf]. now rewrite append_assoc.
Qed.

Lemma rawToken_cdata_cr (code tail : string) :
  validText code = true -> cdataSafe code = true ->
  rawToken None ("<![CDATA[" ++ code ++ "]]>" ++ tail)
  = xml.RawTok (CharData (crlf false code)) None tail.
Proof.
  intros Hg Hs.
  change (rawToken None ("<![CDATA[" ++ code ++ "]]>" ++ tail))
    with (if String.prefix "CDATA[" ("CDATA[" ++ code ++ "]]>" ++ tail) then
            match xml.text uF uS ents None true (code ++ "]]>" ++ tail) with
            | xml.LexOk data after => xml.RawTok (CharData data) None after
            | xml.LexErr e => xml.RawErr e
            end
          else if (slen ("CDATA[" ++ code ++ "]]>" ++ tail) <? 6)%nat
                  && String.prefix ("CDATA[" ++ code ++ "]]>" ++ tail) "CDATA["
          then xml.RawErr xml.unexpectedEOF
          else xml.RawErr "invalid <![ sequence").
  rewrite prefix_CDATA.
  unfold xml.text. rewrite text_loop_cdata_cr; [| | lia].
  - change (Ascii.eqb NUL CR) with false.
    rewrite chop_brackets, (validChars_crlf code false Hg). reflexivity.
  - unfold cdataSafe in Hs. rewrite !Index_skip by discriminate.
    destruct (Index code "]]>"); [discriminate | reflexivity].
Qed.

End RenderedTexts.

(* ================================================================== *)
(** ** The validator on rendered pages (C1) *)

Section ValidatedMarkup.

Variable uF uS : N -> bool.
Variable ents : gmap string string.

Local Abbreviation rawToken := (xml.rawToken uF uS ents).
Local Abbreviation stream := (xml.stream uF uS ents).
Local Abbreviation lexed := (lexed uF uS ents).
Local Abbreviation lexedContent := (lexedContent uF uS ents).
Local Abbreviation validMarkup := (validMarkup uF uS ents).
Local Abbreviation validContent := (validContent uF uS ents).
Local Abbreviation opts := DefaultValidatorOptions.

Lemma validMarkup_nil : validMarkup EmptyString.
Proof. exists []. split; [intros stk tail; reflexivity | apply accepted_nil]. Qed.

Lemma validMarkup_app (s1 s2 : string) :
  validMarkup s1 -> validMarkup s2 -> validMarkup (s1 ++ s2).
Proof.
  intros (t1 & L1 & A1) (t2 & L2 & A2). exists (t1 ++ t2)%list. split.
  - intros stk tail. now rewrite append_assoc, L1, L2, feed_app.
  - now apply accepted_app.
Qed.

Lemma validMarkup_content (s : string) : validMarkup s -> validContent s.
Proof. intros (ts & L & A). exists ts. split; [intros stk tail; apply L | exact A]. Qed.

Lemma validMarkup_concat {A : Type} (f : A -> string) (l : list A) :
  (forall x, In x l -> validMarkup (f x)) -> validMarkup (concatMap f l).
Proof.
  induction l as [| x l IH]; intros H; [apply validMarkup_nil |].
  cbn [concatMap].
  apply validMarkup_app; [apply H; now left | apply IH; intros y Hy; apply H; now right].
Qed.

Lemma lexed_element (open close : string) (n : xml.Name) (attr : list xml.Attr)
    (inner : string) (ts : list xml.Token) :
  (forall r, rawToken None (open ++ r) = xml.RawTok (StartElement n attr) None r) ->
  (forall r, rawToken None (String "<" close ++ r) = xml.RawTok (EndElement n) None r) ->
  lexedContent inner ts ->
  lexed (open ++ inner ++ String "<" close) ([StartElement n attr] ++ ts ++ [EndElement n]).
Proof.
  intros Ho Hc L stk tail. rewrite !append_assoc.
  rewrite (stream_start uF uS ents stk _ _ _ _ (Ho _)).
  cbn [append]. rewrite L.
  change (String "<" (close ++ tail)) with (String "<" close ++ tail).
  rewrite (stream_end uF uS ents stk _ _ _ (Hc _)).
  cbn [app feed]. now rewrite feed_app.
Qed.

Lemma validMarkup_element (open close : string) (n : xml.Name) (attr : list xml.Attr)
    (inner : string) :
  (forall r, rawToken None (open ++ r) = xml.RawTok (StartElement n attr) None r) ->
  (forall r, rawToken None (String "<" close ++ r) = xml.RawTok (EndElement n) None r) ->
  accepted [StartElement n attr] -> accepted [EndElement n] ->
  validContent inner ->
  validMarkup (open ++ inner ++ String "<" close).
Proof.
  intros Ho Hc As Ae (ts & L & A).
  exists ([StartElement n attr] ++ ts ++ [EndElement n])%list. split.
  - now apply lexed_element.
  - apply accepted_app; [exact As |]. now apply accepted_app.
Qed.

(** An element without attribute. *)
Lemma validMarkup_simple_element (tag : string) (n : xml.Name) (inner : string) :
  (forall r, rawToken None ("<" ++ tag ++ ">" ++ r)
             = xml.RawTok (StartElement n []) None r) ->
  (forall r, rawToken None ("</" ++ tag ++ ">" ++ r)
             = xml.RawTok (EndElement n) None r) ->
  accepted [StartElement n []] -> accepted [EndElement n] ->
  validContent inner ->
  validMarkup ("<" ++ tag ++ ">" ++ inner ++ "</" ++ tag ++ ">").
Proof.
  intros Ho Hc As Ae Hi.
  pose proof (validMarkup_element ("<" ++ tag ++ ">") ("/" ++ tag ++ ">") n [] inner) as H.
  rewrite !append_assoc in H. apply H; [| | exact As | exact Ae | exact Hi].
  - intros r. rewrite <- (Ho r). now rewrite !append_assoc.
  - intros r. rewrite <- (Hc r). cbn [append]. now rewrite !append_assoc.
Qed.

(** An escaped text is read as character data. *)
Lemma validContent_text (t : string) : validText t = true -> validContent (EscapeString t).
Proof.
  intros Hg. destruct t as [| x t].
  - exists []. split; [intros stk tail; reflexivity | apply accepted_nil].
  - exists [CharData (crlf false (String x t))]. split; [| now apply accepted_quiet].
    intros stk tail.
    now rewrite (stream_chars uF uS ents stk _ _ _
                   (rawToken_text_cr uF uS ents (String x t) tail Hg ltac:(discriminate))).
Qed.

(** A valid body is read, where it is written, as it is read alone, and
    the validator accepts it there as it does alone. *)
Lemma validContent_body (body : string) :
  validBody uF uS ents body = true -> validContent body.
Proof.
  unfold validBody, ValidateTokens.
  destruct (validate_loop opts 0 false (xml.NewDecoder uF uS ents body)) eqn:Hv;
    [discriminate |]. intros _.
  destruct (validated_tokens _ _ _ _ Hv) as [ts Hts].
  exists ts. split.
  - intros stk tail.
    exact (stream_more uF uS ents tail ts _ [] None body stk Hts).
  - intros depth found d Hd Hf.
    destruct (validate_in_context ts [] false depth found d) as (f' & Hf' & H); auto.
    + rewrite <- Hts. apply decode_balanced.
    + rewrite <- Hts. exact Hv.
    + discriminate.
    + exists f'. split; [exact Hf' |]. exact H.
Qed.

Lemma validMarkup_text_element (tag : string) (t : string) :
  (forall r, rawToken None ("<" ++ tag ++ ">" ++ r)
             = xml.RawTok (StartElement (tagged tag) []) None r) ->
  (forall r, rawToken None ("</" ++ tag ++ ">" ++ r)
             = xml.RawTok (EndElement (tagged tag)) None r) ->
  quiet opts (StartElement (tagged tag) []) = true ->
  quiet opts (EndElement (tagged tag)) = true ->
  validText t = true ->
  validMarkup ("<" ++ tag ++ ">" ++ EscapeString t ++ "</" ++ tag ++ ">").
Proof.
  intros Ho Hc Qs Qe Hg.
  apply (validMarkup_simple_element tag (tagged tag));
    [exact Ho | exact Hc | now apply accepted_quiet | now apply accepted_quiet |].
  now apply validContent_text.
Qed.

Lemma validMarkup_paragraph (p : Paragraph) :
  validText (Paragraph_Text p) = true -> validMarkup (renderParagraph p).
Proof.
  intros Hg. apply (validMarkup_text_element "p"); [raw_refl | raw_refl | | | exact Hg];
    reflexivity.
Qed.

Lemma validMarkup_header (h : string) : validText h = true -> validMarkup (renderHeader h).
Proof.
  intros Hg. apply (validMarkup_text_element "th"); [raw_refl | raw_refl | | | exact Hg];
    reflexivity.
Qed.

Lemma validMarkup_item (i : ListItem) : validItem i = true -> validMarkup (renderItem i).
Proof.
  intros Hg. apply (validMarkup_text_element "li"); [raw_refl | raw_refl | | | exact Hg];
    reflexivity.
Qed.

Lemma validMarkup_heading (h : Heading) (s : string) :
  validText (Heading_Text h) = true -> renderHeading h = Ok s -> validMarkup s.
Proof.
  intros Hg. unfold renderHeading.
  destruct (Level h <? 1)%Z eqn:Hlo; [discriminate |].
  destruct (6 <? Level h)%Z eqn:Hhi; [discriminate |]. cbn [orb].
  intros H. inversion H; subst. clear H.
  apply Z.ltb_ge in Hlo. apply Z.ltb_ge in Hhi.
  assert (Hc : (Level h = 1 \/ Level h = 2 \/ Level h = 3 \/ Level h = 4
                \/ Level h = 5 \/ Level h = 6)%Z) by lia.
  destruct Hc as [-> | [-> | [-> | [-> | [-> | ->]]]]];
    match goal with
    | |- context [itoa ?z] =>
        apply (validMarkup_text_element ("h" ++ itoa z));
          [raw_refl | raw_refl | reflexivity | reflexivity | exact Hg]
    end.
Qed.

Lemma validMarkup_list (tag : string) (items : list ListItem) :
  (forall r, rawToken None ("<" ++ tag ++ ">" ++ r)
             = xml.RawTok (StartElement (tagged tag) []) None r) ->
  (forall r, rawToken None ("</" ++ tag ++ ">" ++ r)
             = xml.RawTok (EndElement (tagged tag)) None r) ->
  quiet opts (StartElement (tagged tag) []) = true ->
  quiet opts (EndElement (tagged tag)) = true ->
  forallb validItem items = true ->
  validMarkup ("<" ++ tag ++ ">" ++ concatMap renderItem items ++ "</" ++ tag ++ ">").
Proof.
  intros Ho Hc Qs Qe Hg.
  apply (validMarkup_simple_element tag (tagged tag));
    [exact Ho | exact Hc | now apply accepted_quiet | now apply accepted_quiet |].
  apply validMarkup_content, validMarkup_concat. intros i Hi. apply validMarkup_item.
  rewrite forallb_forall in Hg. now apply Hg.
Qed.

Lemma validMarkup_hr : validMarkup "<hr/>".
Proof.
  exists [StartElement (tagged "hr") []; EndElement (tagged "hr")]. split.
  - intros stk tail.
    now rewrite (stream_empty_element uF uS ents stk ("<hr/>" ++ tail) (tagged "hr") []
                   tail eq_refl).
  - apply (accepted_app [_] [_]); now apply accepted_quiet.
Qed.

Lemma validMarkup_named_element (elt : string) (n : xml.Name) (v w inner : string) :
  (forall r, rawToken None ("<" ++ elt ++ " ac:name=" ++ str1 dquote ++ EscapeString v
                            ++ str1 dquote ++ ">" ++ r)
             = xml.RawTok (StartElement n [nameAttr w]) None r) ->
  (forall r, rawToken None ("</" ++ elt ++ ">" ++ r) = xml.RawTok (EndElement n) None r) ->
  quiet opts (StartElement n [nameAttr w]) = true ->
  quiet opts (EndElement n) = true ->
  validContent inner ->
  validMarkup ("<" ++ elt ++ " ac:name=" ++ str1 dquote ++ EscapeString v ++ str1 dquote ++ ">"
               ++ inner ++ "</" ++ elt ++ ">").
Proof.
  intros Ho Hc Qs Qe Hi.
  pose proof (validMarkup_element
                ("<" ++ elt ++ " ac:name=" ++ str1 dquote ++ EscapeString v ++ str1 dquote ++ ">")
                ("/" ++ elt ++ ">") n [nameAttr w] inner) as H.
  rewrite !append_assoc in H.
  apply H; [| | now apply accepted_quiet | now apply accepted_quiet | exact Hi].
  - intros r. rewrite <- (Ho r). now rewrite !append_assoc.
  - intros r. rewrite <- (Hc r). cbn [append]. now rewrite !append_assoc.
Qed.

Lemma validMarkup_param (kv : string * string) :
  validParam kv = true -> validMarkup (renderParam kv).
Proof.
  unfold validParam. intros H. apply andb_true_iff in H as [Hk Hv].
  apply (validMarkup_named_element "ac:parameter" (ac "parameter") (fst kv)
           (crlf false (fst kv))).
  - intros r. apply (rawToken_named_cr uF uS ents "ac:parameter"); [reflexivity | exact Hk].
  - raw_refl.
  - reflexivity.
  - reflexivity.
  - now apply validContent_text.
Qed.

Lemma validMarkup_body (body : string) :
  validBody uF uS ents body = true ->
  validMarkup ("<ac:rich-text-body>" ++ body ++ "</ac:rich-text-body>").
Proof.
  intros Hb.
  apply (validMarkup_simple_element "ac:rich-text-body" (ac "rich-text-body"));
    [raw_refl | raw_refl | now apply accepted_quiet | now apply accepted_quiet |].
  now apply validContent_body.
Qed.

(** Content that is valid in the middle of any input is accepted by
    [Validate] when it is the whole input. *)
Lemma validContent_Validate (s : string) : validContent s -> Validate uF uS ents s = None.
Proof.
  intros (ts & L & A). unfold Validate, ValidateWithOptions.
  destruct (String.eqb s EmptyString); [reflexivity |].
  unfold ValidateTokens, newDecoder, xml.NewDecoder, wrapped.
  match goal with
  | |- context [xml.stream _ _ _ _ _ (?a ++ ?b ++ ?c ++ ?d ++ ?e ++ ?f ++ ?g ++ ?h ++ ?i ++ s ++ ?z)] =>
      set (open := a ++ b ++ c ++ d ++ e ++ f ++ g ++ h ++ i);
      change (a ++ b ++ c ++ d ++ e ++ f ++ g ++ h ++ i ++ s ++ z) with (open ++ s ++ z)
  end.
  rewrite (stream_start uF uS ents [] (open ++ s ++ "</root>") (tagged "root") rootAttr
             (s ++ "</root>") eq_refl).
  change (s ++ "</root>") with (s ++ String "<" "/root>").
  rewrite L.
  rewrite (stream_end uF uS ents [] "</root>" (tagged "root") EmptyString eq_refl).
  rewrite validate_quiet_token by reflexivity.
  destruct (A 0%Z false (Tok (EndElement (tagged "root")) (stream [] None EmptyString))
              ltac:(lia) ltac:(lia)) as (f' & _ & H).
  rewrite H. rewrite validate_quiet_token by reflexivity. reflexivity.
Qed.

(** A valid body is one that [Validate] accepts. *)
Lemma validBody_Validate (body : string) :
  validBody uF uS ents body = true -> Validate uF uS ents body = None.
Proof. intros H. now apply validContent_Validate, validContent_body. Qed.

Section Blocks.

Variable mapRange : gmap string string -> list (string * string).
Hypothesis mapRange_perm : forall m, Permutation (mapRange m) (map_to_list m).

Lemma validMarkup_macro (m : Macro) :
  validMacro uF uS ents m = true -> validMarkup (RenderMacro mapRange m).
Proof.
  unfold validMacro. intros Hg. apply andb_true_iff in Hg as [Hg Hbody].
  apply andb_true_iff in Hg as [Hname Hparams].
  unfold RenderMacro.
  set (ps := concatMap renderParam (mapRange (Params m))).
  set (bd := if String.eqb (Body m) EmptyString then EmptyString
             else "<ac:rich-text-body>" ++ Body m ++ "</ac:rich-text-body>").
  replace ("<ac:structured-macro ac:name=" ++ str1 dquote ++ EscapeString (Name m)
           ++ str1 dquote ++ ">" ++ ps ++ bd ++ "</ac:structured-macro>")
    with ("<" ++ "ac:structured-macro" ++ " ac:name=" ++ str1 dquote ++ EscapeString (Name m)
          ++ str1 dquote ++ ">" ++ (ps ++ bd) ++ "</" ++ "ac:structured-macro" ++ ">")
    by (rewrite (append_assoc ps bd); reflexivity).
  apply (validMarkup_named_element "ac:structured-macro" (ac "structured-macro") (Name m)
           (crlf false (Name m))).
  - intros r.
    apply (rawToken_named_cr uF uS ents "ac:structured-macro"); [reflexivity | exact Hname].
  - raw_refl.
  - reflexivity.
  - reflexivity.
  - apply validMarkup_content, validMarkup_app.
    + apply validMarkup_concat. intros kv Hin. apply validMarkup_param.
      rewrite forallb_forall in Hparams. apply Hparams.
      eapply Permutation_in; [apply mapRange_perm | exact Hin].
    + subst bd. destruct (String.eqb (Body m) EmptyString); [apply validMarkup_nil |].
      now apply validMarkup_body.
Qed.

Lemma validMarkup_cell (c : Cell) :
  validCell uF uS ents c = true -> validMarkup (renderTd mapRange c).
Proof.
  unfold validCell, renderTd, renderCell. intros Hg.
  apply (validMarkup_simple_element "td" (tagged "td"));
    [raw_refl | raw_refl | now apply accepted_quiet | now apply accepted_quiet |].
  destruct (Cell_Macro c) as [m |].
  - apply validMarkup_content. now apply validMarkup_macro.
  - now apply validContent_text.
Qed.

Lemma validMarkup_row (r : Row) :
  forallb (validCell uF uS ents) (Cells r) = true -> validMarkup (renderRow mapRange r).
Proof.
  intros Hg. unfold renderRow.
  apply (validMarkup_simple_element "tr" (tagged "tr"));
    [raw_refl | raw_refl | now apply accepted_calm | now apply accepted_quiet |].
  apply validMarkup_content, validMarkup_concat. intros c Hc. apply validMarkup_cell.
  rewrite forallb_forall in Hg. now apply Hg.
Qed.

Lemma validMarkup_table (t : Table) :
  forallb validText (Headers t) = true ->
  forallb (fun r => forallb (validCell uF uS ents) (Cells r)) (Rows t) = true ->
  validMarkup (renderTable mapRange t).
Proof.
  intros Hh Hr. unfold renderTable.
  set (h := if (0 <? length (Headers t))%nat
            then "<tr>" ++ concatMap renderHeader (Headers t) ++ "</tr>" else EmptyString).
  set (rows := concatMap (renderRow mapRange) (Rows t)).
  assert (Hin : validMarkup (h ++ rows)).
  { apply validMarkup_app.
    - subst h. destruct (0 <? length (Headers t))%nat; [| apply validMarkup_nil].
      apply (validMarkup_simple_element "tr" (tagged "tr"));
        [raw_refl | raw_refl | now apply accepted_calm | now apply accepted_quiet |].
      apply validMarkup_content, validMarkup_concat. intros x Hx. apply validMarkup_header.
      rewrite forallb_forall in Hh. now apply Hh.
    - apply validMarkup_concat. intros r Hx. apply validMarkup_row.
      rewrite forallb_forall in Hr. now apply Hr. }
  destruct Hin as (ts & L & A).
  exists (StartElement (tagged "table") [] :: StartElement (tagged "tbody") [] :: ts
          ++ [EndElement (tagged "tbody"); EndElement (tagged "table")])%list.
  split; [| now apply accepted_table].
  assert (L1 : lexed ("<tbody>" ++ (h ++ rows) ++ "</tbody>")
                 ([StartElement (tagged "tbody") []] ++ ts ++ [EndElement (tagged "tbody")])).
  { apply (lexed_element "<tbody>" "/tbody>"); [raw_refl | raw_refl |].
    intros stk tail. apply L. }
  assert (L2 : lexed ("<table>" ++ ("<tbody>" ++ (h ++ rows) ++ "</tbody>") ++ "</table>")
                 ([StartElement (tagged "table") []]
                  ++ ([StartElement (tagged "tbody") []] ++ ts ++ [EndElement (tagged "tbody")])
                  ++ [EndElement (tagged "table")])).
  { apply (lexed_element "<table>" "/table>"); [raw_refl | raw_refl |].
    intros stk tail. apply L1. }
  replace ("<table><tbody>" ++ h ++ rows ++ "</tbody></table>")
    with ("<table>" ++ ("<tbody>" ++ (h ++ rows) ++ "</tbody>") ++ "</table>")
    by (rewrite !append_assoc; reflexivity).
  replace (StartElement (tagged "table") [] :: StartElement (tagged "tbody") [] :: ts
           ++ [EndElement (tagged "tbody"); EndElement (tagged "table")])%list
    with ([StartElement (tagged "table") []]
          ++ ([StartElement (tagged "tbody") []] ++ ts ++ [EndElement (tagged "tbody")])
          ++ [EndElement (tagged "table")])%list
    by (cbn [app]; rewrite <- app_assoc; reflexivity).
  exact L2.
Qed.

Lemma validMarkup_codeBlock (cb : CodeBlock) :
  validText (Language cb) = true -> validText (Code cb) = true ->
  cdataSafe (Code cb) = true ->
  validMarkup (renderCodeBlock cb).
Proof.
  intros Hl Hc Hs. unfold renderCodeBlock.
  set (lang := if String.eqb (Language cb) EmptyString then EmptyString
               else "<ac:parameter ac:name=" ++ str1 dquote ++ "language" ++ str1 dquote
                    ++ ">" ++ EscapeString (Language cb) ++ "</ac:parameter>").
  replace ("<ac:structured-macro ac:name=" ++ str1 dquote ++ "code" ++ str1 dquote ++ ">"
           ++ lang
           ++ "<ac:plain-text-body><![CDATA[" ++ Code cb ++ "]]></ac:plain-text-body>"
           ++ "</ac:structured-macro>")
    with ("<" ++ "ac:structured-macro" ++ " ac:name=" ++ str1 dquote
          ++ EscapeString "code" ++ str1 dquote ++ ">"
          ++ (lang ++ "<" ++ "ac:plain-text-body" ++ ">"
              ++ ("<![CDATA[" ++ Code cb ++ "]]>")
              ++ "</" ++ "ac:plain-text-body" ++ ">")
          ++ "</" ++ "ac:structured-macro" ++ ">")
    by (rewrite !append_assoc; reflexivity).
  apply (validMarkup_named_element "ac:structured-macro" (ac "structured-macro") "code" "code").
  - intros r. exact (rawToken_macro_open uF uS ents "code" r eq_refl).
  - raw_refl.
  - reflexivity.
  - reflexivity.
  - apply validMarkup_content, validMarkup_app.
    + subst lang. destruct (String.eqb (Language cb) EmptyString); [apply validMarkup_nil |].
      change (validMarkup ("<" ++ "ac:parameter" ++ " ac:name=" ++ str1 dquote
                           ++ EscapeString "language" ++ str1 dquote ++ ">"
                           ++ EscapeString (Language cb) ++ "</" ++ "ac:parameter" ++ ">")).
      apply (validMarkup_named_element "ac:parameter" (ac "parameter") "language" "language").
      * intros r. exact (rawToken_param_open uF uS ents "language" r eq_refl).
      * raw_refl.
      * reflexivity.
      * reflexivity.
      * now apply validContent_text.
    + apply (validMarkup_simple_element "ac:plain-text-body" (ac "plain-text-body"));
        [raw_refl | raw_refl | now apply accepted_quiet | now apply accepted_quiet |].
      apply validMarkup_content.
      exists [CharData (crlf false (Code cb))]. split; [| now apply accepted_quiet].
      intros stk tail. rewrite !append_assoc.
      now rewrite (stream_chars uF uS ents stk _ _ _
                     (rawToken_cdata_cr uF uS ents (Code cb) tail Hc Hs)).
Qed.

Lemma validMarkup_block (b : Block) (s : string) :
  validBlock uF uS ents b = true -> RenderBlock mapRange b = Ok s -> validMarkup s.
Proof.
  destruct b as [t | p | h | bl | nl | m | cb |]; cbn [validBlock RenderBlock];
    intros Hg Hr; try (inversion Hr; subst; clear Hr).
  - apply andb_true_iff in Hg as [Hh Hrows]. now apply validMarkup_table.
  - now apply validMarkup_paragraph.
  - now apply (validMarkup_heading h).
  - apply (validMarkup_list "ul"); [raw_refl | raw_refl | | | exact Hg]; reflexivity.
  - apply (validMarkup_list "ol"); [raw_refl | raw_refl | | | exact Hg]; reflexivity.
  - now apply validMarkup_macro.
  - apply andb_true_iff in Hg as [Hg Hs]. apply andb_true_iff in Hg as [Hl Hc].
    now apply validMarkup_codeBlock.
  - apply validMarkup_hr.
Qed.

Lemma validMarkup_blocks (blocks : list Block) :
  forall s, forallb (validBlock uF uS ents) blocks = true ->
            Render_blocks mapRange blocks = Ok s -> validMarkup s.
Proof.
  induction blocks as [| b blocks IH]; intros s Hg Hr.
  - inversion Hr; subst. apply validMarkup_nil.
  - cbn [forallb] in Hg. apply andb_true_iff in Hg as [Hb Hg].
    cbn [Render_blocks] in Hr.
    destruct (RenderBlock mapRange b) as [sb | |] eqn:Eb; cbn [bind] in Hr; try discriminate.
    destruct (Render_blocks mapRange blocks) as [sr | |] eqn:Er; cbn [bind] in Hr;
      try discriminate.
    inversion Hr; subst.
    apply validMarkup_app; [now apply (validMarkup_block b) | now apply IH].
Qed.

End Blocks.

End ValidatedMarkup.


(** So does the rendering of a body that is not well-formed, of a text
    with a byte that is no XML character, and of code with the end of a
    CDATA section. *)
Lemma unbalanced_body_rejected :
  exists s e,
    render {| Blocks := [BMacro {| Name := "info"; Params := ∅; Body := "<b>x" |}] |} = Ok s
    /\ validate s = Some e.
Proof.
  eexists. eexists. split; [vm_compute; reflexivity |]. vm_compute. reflexivity.
Qed.

Lemma control_byte_rejected :
  exists s e,
    render {| Blocks := [BParagraph {| Paragraph_Text := String "001" "a" |}] |} = Ok s
    /\ validate s = Some e.
Proof.
  eexists. eexists. split; [vm_compute; reflexivity |]. vm_compute. reflexivity.
Qed.

Lemma cdata_end_in_code_rejected :
  exists s e,
    render {| Blocks := [BCodeBlock {| Language := "go"; Code := "a]]>b" |}] |} = Ok s
    /\ validate s = Some e.
Proof.
  eexists. eexists. split; [vm_compute; reflexivity |]. vm_compute. reflexivity.
Qed.



(* ================================================================== *)
(** ** The inputs [Parse] accepts *)

Lemma reads_Tok {A : Type} (r : result (A * Decoder)) (t : xml.Token) (d : Decoder) :
  reads r d -> reads r (Tok t d).
Proof.
  destruct r as [[x d'] | e |]; cbn [reads IsValidXML_loop xml.remaining];
    [intros [H1 H2]; split; [exact H1 | lia] | trivial | trivial].
Qed.

Lemma reads_bind {A B : Type} (m : result (A * Decoder))
    (k : A * Decoder -> result (B * Decoder)) (d1 d : Decoder) :
  reads m d1 ->
  IsValidXML_loop d1 = IsValidXML_loop d ->
  (forall x d'', IsValidXML_loop d'' = IsValidXML_loop d ->
                 (xml.remaining d'' <= xml.remaining d1)%nat -> reads (k (x, d'')) d) ->
  reads (bind m k) d.
Proof.
  destruct m as [[x d''] | e |]; cbn [reads bind]; intros Hm Hd Hk.
  - destruct Hm as [H1 H2]. apply Hk; [congruence | exact H2].
  - congruence.
  - contradiction.
Qed.

Lemma skipElement_reads (d : Decoder) :
  forall depth, reads (skipElement_loop depth d) d.
Proof.
  induction d as [| e | t d IH]; intros depth; destruct depth as [| k];
    cbn [skipElement_loop reads IsValidXML_loop]; try (split; [reflexivity | lia]);
    try reflexivity.
  destruct t; apply reads_Tok, IH.
Qed.

Lemma extractNestedText_reads (d : Decoder) :
  forall depth content, reads (extractNestedText_loop depth content d) d.
Proof.
  induction d as [| e | t d IH]; intros depth content; destruct depth as [| k];
    cbn [extractNestedText_loop reads IsValidXML_loop]; try (split; [reflexivity | lia]);
    try reflexivity.
  destruct t; apply reads_Tok, IH.
Qed.

(** The steps shared by the loops. *)
Ltac read_rec IH := apply reads_Tok, IH; cbn [xml.remaining] in *; lia.

Ltac read_done := cbn [reads IsValidXML_loop xml.remaining]; split; [reflexivity | lia].

Ltac read_call d' H IH :=
  cbv zeta; apply (reads_bind _ _ d');
  [ apply H; cbn [xml.remaining] in *; try lia
  | reflexivity
  | let x := fresh "x" in let d'' := fresh "d" in
    let Hv := fresh "Hv" in let Hle := fresh "Hle" in
    intros x d'' Hv Hle;
    match type of x with (_ * _)%type => destruct x | _ => idtac end;
    cbn [IsValidXML_loop] in Hv;
    match goal with
    | |- reads ?r (Tok ?t ?d0) =>
        assert (Hrec : reads r d'') by (apply IH; cbn [xml.remaining] in *; lia);
        destruct r as [[? ?] | ? |]; cbn [reads IsValidXML_loop xml.remaining] in *;
        [ destruct Hrec; split; [congruence | lia] | congruence | contradiction ]
    end ].

Ltac read_start fuel d IH :=
  induction fuel as [| fuel IH]; [intros; lia |];
  intros until d; intros Hlt; destruct d as [| e | t d];
  [ read_done | reflexivity | ].

Lemma parseTextContent_reads (fuel : nat) :
  forall endTag content d,
    (xml.remaining d < fuel)%nat ->
    reads (parseTextContent_loop fuel endTag content d) d.
Proof.
  read_start fuel d IH.
  cbn [parseTextContent_loop]. destruct t as [n a | n | | | |]; try read_rec IH.
  - unfold skipElement. read_call d skipElement_reads IH.
  - destruct (String.eqb (Local n) endTag); [read_done | read_rec IH].
Qed.

Lemma parseMacro_reads (fuel : nat) :
  forall m d, (xml.remaining d < fuel)%nat -> reads (parseMacro_loop fuel m d) d.
Proof.
  read_start fuel d IH.
  cbn [parseMacro_loop]. destruct t as [n a | n | | | |]; try read_rec IH.
  - unfold parseTextContent, skipElement.
    destruct (String.eqb (Local n) "parameter");
      [| destruct (String.eqb (Local n) "rich-text-body"
                   || String.eqb (Local n) "plain-text-body")].
    + read_call d parseTextContent_reads IH.
    + read_call d parseTextContent_reads IH.
    + read_call d skipElement_reads IH.
  - destruct (String.eqb (Local n) "structured-macro"); [read_done | read_rec IH].
Qed.

Lemma parseTableCell_reads (fuel : nat) :
  forall tagName macro content d,
    (xml.remaining d < fuel)%nat ->
    reads (parseTableCell_loop fuel tagName macro content d) d.
Proof.
  read_start fuel d IH.
  cbn [parseTableCell_loop]. destruct t as [n a | n | | | |]; try read_rec IH.
  - unfold parseMacro, extractNestedText.
    destruct (String.eqb (Local n) "structured-macro").
    + read_call d parseMacro_reads IH.
    + read_call d extractNestedText_reads IH.
  - destruct (String.eqb (Local n) tagName); [read_done | read_rec IH].
Qed.

Lemma parseTableRow_reads (fuel : nat) :
  forall row isHeader d,
    (xml.remaining d < fuel)%nat -> reads (parseTableRow_loop fuel row isHeader d) d.
Proof.
  read_start fuel d IH.
  cbn [parseTableRow_loop]. destruct t as [n a | n | | | |]; try read_rec IH.
  - unfold parseTableCell, skipElement.
    destruct (String.eqb (Local n) "th"); [| destruct (String.eqb (Local n) "td")].
    + read_call d parseTableCell_reads IH.
    + read_call d parseTableCell_reads IH.
    + read_call d skipElement_reads IH.
  - destruct (String.eqb (Local n) "tr"); [read_done | read_rec IH].
Qed.

Lemma parseTbody_reads (fuel : nat) :
  forall table d, (xml.remaining d < fuel)%nat -> reads (parseTbody fuel d table) d.
Proof.
  induction fuel as [| fuel IH]; [intros; lia |].
  intros table d Hlt. destruct d as [| e | t d]; [read_done | reflexivity |].
  cbn [parseTbody]. destruct t as [n a | n | | | |]; try read_rec IH.
  - unfold parseTableRow, skipElement. destruct (String.eqb (Local n) "tr").
    + read_call d parseTableRow_reads IH.
    + read_call d skipElement_reads IH.
  - destruct (String.eqb (Local n) "tbody"); [read_done | read_rec IH].
Qed.

Lemma parseTable_reads (fuel : nat) :
  forall table d, (xml.remaining d < fuel)%nat -> reads (parseTable_loop fuel table d) d.
Proof.
  read_start fuel d IH.
  cbn [parseTable_loop]. destruct t as [n a | n | | | |]; try read_rec IH.
  - unfold parseTableRow, skipElement.
    destruct (String.eqb (Local n) "tbody"); [| destruct (String.eqb (Local n) "tr")].
    + read_call d parseTbody_reads IH.
    + read_call d parseTableRow_reads IH.
    + read_call d skipElement_reads IH.
  - destruct (String.eqb (Local n) "table"); [read_done | read_rec IH].
Qed.

Lemma parseParagraph_reads (fuel : nat) :
  forall content d,
    (xml.remaining d < fuel)%nat -> reads (parseParagraph_loop fuel content d) d.
Proof.
  read_start fuel d IH.
  cbn [parseParagraph_loop]. destruct t as [n a | n | | | |]; try read_rec IH.
  - unfold extractNestedText. read_call d extractNestedText_reads IH.
  - destruct (String.eqb (Local n) "p"); [read_done | read_rec IH].
Qed.

Lemma parseHeading_reads (fuel : nat) :
  forall level content d,
    (xml.remaining d < fuel)%nat -> reads (parseHeading_loop fuel level content d) d.
Proof.
  read_start fuel d IH.
  cbn [parseHeading_loop]. destruct t as [n a | n | | | |]; try read_rec IH.
  - unfold extractNestedText. read_call d extractNestedText_reads IH.
  - destruct (HasPrefix (Local n) "h"); [read_done | read_rec IH].
Qed.

Lemma parseListItem_reads (fuel : nat) :
  forall content d,
    (xml.remaining d < fuel)%nat -> reads (parseListItem_loop fuel content d) d.
Proof.
  read_start fuel d IH.
  cbn [parseListItem_loop]. destruct t as [n a | n | | | |]; try read_rec IH.
  - unfold extractNestedText. read_call d extractNestedText_reads IH.
  - destruct (String.eqb (Local n) "li"); [read_done | read_rec IH].
Qed.

Lemma parseList_reads (fuel : nat) :
  forall endTag items d,
    (xml.remaining d < fuel)%nat -> reads (parseList_loop fuel endTag items d) d.
Proof.
  read_start fuel d IH.
  cbn [parseList_loop]. destruct t as [n a | n | | | |]; try read_rec IH.
  - unfold parseListItem, skipElement. destruct (String.eqb (Local n) "li").
    + read_call d parseListItem_reads IH.
    + read_call d skipElement_reads IH.
  - destruct (String.eqb (Local n) endTag); [read_done | read_rec IH].
Qed.

Lemma reads_wrap {A B : Type} (m : result (A * Decoder)) (f : A -> B) (d : Decoder) :
  reads m d -> reads (bind m (fun '(x, d') => Ok (f x, d'))) d.
Proof. destruct m as [[x d'] | e |]; cbn [reads bind]; trivial. Qed.

Lemma parseElement_reads (fuel : nat) (d : Decoder) (start : xml.Name)
    (attr : list xml.Attr) :
  (xml.remaining d < fuel)%nat -> reads (parseElement fuel d start attr) d.
Proof.
  intros Hlt. unfold parseElement, parseTable, parseParagraph, parseHeading,
    parseBulletList, parseNumberedList, parseMacro, skipElement. cbv zeta.
  repeat match goal with
         | |- reads (if ?c then _ else _) _ => destruct c
         end;
    try read_done.
  - apply (reads_wrap _ (fun t => Some (BTable t))), parseTable_reads, Hlt.
  - apply (reads_wrap _ (fun p => Some (BParagraph p))), parseParagraph_reads, Hlt.
  - apply (reads_wrap _ (fun h => Some (BHeading h))), parseHeading_reads, Hlt.
  - apply (reads_wrap _ (fun l => Some (BBulletList l))).
    apply (reads_wrap _ (fun items => {| BulletList_Items := items |})).
    apply parseList_reads, Hlt.
  - apply (reads_wrap _ (fun l => Some (BNumberedList l))).
    apply (reads_wrap _ (fun items => {| NumberedList_Items := items |})).
    apply parseList_reads, Hlt.
  - apply (reads_wrap _ (fun m => Some (BMacro m))), parseMacro_reads, Hlt.
  - apply (reads_wrap _ (fun _ => None)), skipElement_reads.
Qed.

Lemma Parse_loop_reads (fuel : nat) :
  forall blocks d,
    (xml.remaining d < fuel)%nat ->
    match Parse_loop fuel blocks d with
    | Ok _ => IsValidXML_loop d = true
    | Err _ => IsValidXML_loop d = false
    | Exhausted => False
    end.
Proof.
  induction fuel as [| fuel IH]; [intros; lia |].
  intros blocks d Hlt. destruct d as [| e | t d]; [reflexivity | reflexivity |].
  cbn [xml.remaining] in Hlt. cbn [Parse_loop IsValidXML_loop].
  destruct t as [n a | n | | | |]; try (apply IH; lia).
  pose proof (parseElement_reads fuel d n a ltac:(lia)) as Hr.
  destruct (parseElement fuel d n a) as [[b d''] | e |]; cbn [reads bind] in *;
    [| exact Hr | contradiction].
  destruct Hr as [Hv Hle]. rewrite <- Hv. apply IH. lia.
Qed.

Section WrappedDecoder.

Variable uF uS : N -> bool.
Variable ents : gmap string string.

(** Both wrappers open with a start tag of [root], after which the
    decoder is in the same state. *)
Lemma newDecoder_root (s : string) :
  newDecoder uF uS ents s
  = Tok (StartElement (tagged "root") rootAttr)
      (xml.stream uF uS ents [tagged "root"] None (s ++ "</root>")).
Proof.
  unfold newDecoder, xml.NewDecoder, wrapped.
  match goal with
  | |- xml.stream _ _ _ _ _ (?a ++ ?b ++ ?c ++ ?d ++ ?e ++ ?f ++ ?g ++ ?h ++ ?i ++ s ++ ?z) = _ =>
      set (open := a ++ b ++ c ++ d ++ e ++ f ++ g ++ h ++ i);
      change (a ++ b ++ c ++ d ++ e ++ f ++ g ++ h ++ i ++ s ++ z) with (open ++ s ++ z)
  end.
  apply (stream_start uF uS ents [] (open ++ s ++ "</root>") (tagged "root") rootAttr
           (s ++ "</root>") eq_refl).
Qed.

Lemma plainDecoder_root (s : string) :
  xml.NewDecoder uF uS ents ("<root>" ++ s ++ "</root>")
  = Tok (StartElement (tagged "root") [])
      (xml.stream uF uS ents [tagged "root"] None (s ++ "</root>")).
Proof.
  unfold xml.NewDecoder.
  apply (stream_start uF uS ents [] ("<root>" ++ s ++ "</root>") (tagged "root") []
           (s ++ "</root>") eq_refl).
Qed.

Lemma ParseTokens_root (attr : list xml.Attr) (d : Decoder) :
  match ParseTokens (Tok (StartElement (tagged "root") attr) d) with
  | Ok _ => IsValidXML_loop d = true
  | Err _ => IsValidXML_loop d = false
  | Exhausted => False
  end.
Proof.
  unfold ParseTokens. cbn [xml.remaining].
  change (Parse_loop (S (S (xml.remaining d))) [] (Tok (StartElement (tagged "root") attr) d))
    with (Parse_loop (S (xml.remaining d)) [] d).
  apply Parse_loop_reads. lia.
Qed.

End WrappedDecoder.

(** X1: [Parse] returns a page exactly for the inputs that [IsValidXML]
    accepts: every well-formed input is parsed, whatever elements it
    holds, and every failure of [Parse] is an error of the decoder. *)
Theorem Parse_succeeds_iff_IsValidXML (uF uS : N -> bool) (ents : gmap string string)
    (xhtml : string) :
  (exists page, Parse uF uS ents xhtml = Ok page) <-> IsValidXML uF uS ents xhtml = true.
Proof.
  unfold Parse, IsValidXML. destruct (String.eqb xhtml EmptyString) eqn:He.
  - apply String.eqb_eq in He. subst xhtml. split; [intros _; reflexivity | eauto].
  - rewrite newDecoder_root, plainDecoder_root. cbn [IsValidXML_loop].
    pose proof (ParseTokens_root rootAttr
                  (xml.stream uF uS ents [tagged "root"] None (xhtml ++ "</root>"))) as H.
    destruct (ParseTokens _) as [page | e |].
    + split; [intros _; exact H | eauto].
    + split; [intros [page Hp]; discriminate | congruence].
    + contradiction.
Qed.

(* ================================================================== *)
(** ** What the validator accepts *)

Lemma validate_loop_well_formed (opts : ValidatorOptions) (d : Decoder) :
  forall depth found,
    validate_loop opts depth found d = None -> IsValidXML_loop d = true.
Proof.
  induction d as [| e | t d IH]; intros depth found; [reflexivity | discriminate |].
  cbn [validate_loop IsValidXML_loop]. destruct t as [n a | n | | | |]; try apply IH.
  - destruct (index (ForbiddenTags opts) (Local n)); [discriminate |].
    destruct (_ && _ && _ && _); [discriminate |].
    destruct (if String.eqb (Local n) "table" then _ else _) as [depth' found'].
    destruct (_ && _ && _ && _); [discriminate | apply IH].
  - destruct (String.eqb (Local n) "table"); [| apply IH].
    destruct (_ && _); [discriminate | apply IH].
Qed.

(** X2: an input that [ValidateWithOptions] accepts, under any options,
    is well-formed for [IsValidXML] and is parsed by [Parse]. *)
Theorem validated_input_is_parsed (uF uS : N -> bool) (ents : gmap string string)
    (xhtml : string) (opts : ValidatorOptions) :
  ValidateWithOptions uF uS ents xhtml opts = None ->
  IsValidXML uF uS ents xhtml = true
  /\ exists page, Parse uF uS ents xhtml = Ok page.
Proof.
  unfold ValidateWithOptions, IsValidXML, Parse, ValidateTokens.
  destruct (String.eqb xhtml EmptyString) eqn:He.
  - apply String.eqb_eq in He. subst xhtml. intros _. split; [reflexivity | eauto].
  - rewrite newDecoder_root, plainDecoder_root. intros Hv.
    apply validate_loop_well_formed in Hv. cbn [IsValidXML_loop] in *.
    split; [exact Hv |].
    pose proof (ParseTokens_root rootAttr
                  (xml.stream uF uS ents [tagged "root"] None (xhtml ++ "</root>"))) as H.
    destruct (ParseTokens _) as [page | e |]; [eauto | congruence | contradiction].
Qed.

Lemma validated_input_is_parsed_witness :
  IsValidXML asciiOnly asciiOnly someEntities "<p>a</p><hr/>" = true
  /\ exists page, parse "<p>a</p><hr/>" = Ok page.
Proof.
  apply (validated_input_is_parsed asciiOnly asciiOnly someEntities "<p>a</p><hr/>"
           DefaultValidatorOptions).
  vm_compute. reflexivity.
Defined.

Lemma validate_loop_permitted (opts : ValidatorOptions) (d : Decoder) :
  forall depth found,
    validate_loop opts depth found d = None -> Forall (permitted opts) (startTags d).
Proof.
  induction d as [| e | t d IH]; intros depth found; [constructor | constructor |].
  cbn [validate_loop startTags]. destruct t as [n a | n | | | |]; try apply IH.
  - destruct (index (ForbiddenTags opts) (Local n)) eqn:Hf; [discriminate |].
    destruct (String.eqb (Local n) "structured-macro"
              && (0 <? size (AllowedMacros opts))%nat
              && negb (String.eqb (getMacroName a) EmptyString)
              && negb (index (AllowedMacros opts) (getMacroName a))) eqn:Hm;
      [discriminate |].
    destruct (if String.eqb (Local n) "table" then _ else _) as [depth' found'].
    match goal with
    | |- (if ?c then _ else _) = None -> _ => destruct c; [discriminate |]
    end.
    intros Hv. constructor; [| eapply IH; exact Hv].
    split; [exact Hf |]. cbn [fst snd]. intros Hn Hsz Hne.
    apply String.eqb_eq in Hn. apply Nat.ltb_lt in Hsz. apply String.eqb_neq in Hne.
    rewrite Hn, Hsz, Hne in Hm. cbn [andb negb] in Hm.
    now apply negb_false_iff in Hm.
  - destruct (String.eqb (Local n) "table"); [| apply IH].
    destruct (_ && _); [discriminate | apply IH].
Qed.

(** X3: when [ValidateWithOptions] accepts a non-empty input, no start
    tag of the input, at any depth, has a forbidden name, and under a
    non-empty allow list every macro with a name has an allowed one. *)
Theorem accepted_input_has_permitted_tags (uF uS : N -> bool) (ents : gmap string string)
    (xhtml : string) (opts : ValidatorOptions) :
  xhtml <> EmptyString ->
  ValidateWithOptions uF uS ents xhtml opts = None ->
  Forall (permitted opts) (startTags (newDecoder uF uS ents xhtml)).
Proof.
  intros Hne. unfold ValidateWithOptions, ValidateTokens.
  apply String.eqb_neq in Hne. rewrite Hne. apply validate_loop_permitted.
Qed.

Lemma accepted_input_has_permitted_tags_witness :
  Forall (permitted DefaultValidatorOptions)
    (startTags (newDecoder asciiOnly asciiOnly someEntities "<p>a<b>c</b></p>")).
Proof.
  apply (accepted_input_has_permitted_tags asciiOnly asciiOnly someEntities
           "<p>a<b>c</b></p>" DefaultValidatorOptions).
  - discriminate.
  - vm_compute. reflexivity.
Defined.

Lemma validate_loop_laxer (lax opts : ValidatorOptions) (d : Decoder) :
  laxer lax opts ->
  forall depth found,
    validate_loop opts depth found d = None -> validate_loop lax depth found d = None.
Proof.
  intros (Hforb & Hreq & Hallow).
  induction d as [| e | t d IH]; intros depth found; [reflexivity | discriminate |].
  cbn [validate_loop]. destruct t as [n a | n | | | |]; try apply IH.
  - destruct (index (ForbiddenTags opts) (Local n)) eqn:Hf; [discriminate |].
    destruct (index (ForbiddenTags lax) (Local n)) eqn:Hf';
      [apply Hforb in Hf'; congruence |].
    destruct (String.eqb (Local n) "structured-macro"
              && (0 <? size (AllowedMacros opts))%nat
              && negb (String.eqb (getMacroName a) EmptyString)
              && negb (index (AllowedMacros opts) (getMacroName a))) eqn:Hm;
      [discriminate |].
    assert (Hm' : String.eqb (Local n) "structured-macro"
                  && (0 <? size (AllowedMacros lax))%nat
                  && negb (String.eqb (getMacroName a) EmptyString)
                  && negb (index (AllowedMacros lax) (getMacroName a)) = false).
    { destruct Hallow as [Hz | [Hsz Hsub]].
      - rewrite Hz. cbn. now rewrite andb_false_r.
      - apply Nat.ltb_lt in Hsz. rewrite Hsz in Hm.
        destruct (String.eqb (Local n) "structured-macro"); [| reflexivity].
        destruct (String.eqb (getMacroName a) EmptyString);
          [cbn; now rewrite andb_false_r |].
        cbn [andb negb] in Hm. apply negb_false_iff in Hm.
        rewrite (Hsub _ Hm). cbn. now rewrite andb_false_r. }
    rewrite Hm'.
    destruct (if String.eqb (Local n) "table" then _ else _) as [depth' found'].
    destruct (String.eqb (Local n) "tr" && (0 <? depth')%Z
              && negb (if String.eqb (Local n) "tbody" && (0 <? depth')%Z
                       then true else found')) eqn:Htr.
    + cbn [andb]. destruct (RequireTableTbody opts) eqn:Hr; [discriminate |].
      destruct (RequireTableTbody lax) eqn:Hr'; [specialize (Hreq eq_refl); congruence |].
      apply IH.
    + cbn [andb]. apply IH.
  - destruct (String.eqb (Local n) "table"); [| apply IH].
    destruct (negb found); cbn [andb]; [| apply IH].
    destruct (RequireTableTbody opts) eqn:Hr; [discriminate |].
    destruct (RequireTableTbody lax) eqn:Hr'; [specialize (Hreq eq_refl); congruence |].
    apply IH.
Qed.

(** X4: what [ValidateWithOptions] accepts under some options it accepts
    under laxer ones: with fewer forbidden tags, without the [tbody]
    requirement, and with no allow list or a larger one. *)
Theorem laxer_options_accept_more (uF uS : N -> bool) (ents : gmap string string)
    (xhtml : string) (lax opts : ValidatorOptions) :
  laxer lax opts ->
  ValidateWithOptions uF uS ents xhtml opts = None ->
  ValidateWithOptions uF uS ents xhtml lax = None.
Proof.
  intros Hl. unfold ValidateWithOptions, ValidateTokens.
  destruct (String.eqb xhtml EmptyString); [reflexivity |].
  now apply validate_loop_laxer.
Qed.

Lemma laxer_options_accept_more_witness :
  validateWith "<table><tbody><tr><td>a</td></tr></tbody></table>"
    {| RequireTableTbody := false; AllowedMacros := ∅; ForbiddenTags := ∅ |}
  = None.
Proof.
  apply (laxer_options_accept_more asciiOnly asciiOnly someEntities
           "<table><tbody><tr><td>a</td></tr></tbody></table>"
           {| RequireTableTbody := false; AllowedMacros := ∅; ForbiddenTags := ∅ |}
           DefaultValidatorOptions).
  - split; [| split].
    + intros t H. vm_compute in H. discriminate.
    + discriminate.
    + left. reflexivity.
  - vm_compute. reflexivity.
Defined.

(* ================================================================== *)
(** ** Rendering pages: what [Parse] returns, concatenation, failure *)

Lemma parseHeading_level (fuel : nat) :
  forall level content d h d',
    parseHeading_loop fuel level content d = Ok (h, d') -> Level h = level.
Proof.
  induction fuel as [| fuel IH]; [discriminate |].
  intros level content d h d'. cbn [parseHeading_loop].
  destruct d as [| e | t d]; [intros H; now inversion H | discriminate |].
  destruct t as [n a | n | | | |]; try apply IH.
  - unfold extractNestedText.
    destruct (extractNestedText_loop 1 EmptyString d) as [[nested d''] | e |];
      cbn [bind]; [apply IH | discriminate | discriminate].
  - destruct (HasPrefix (Local n) "h"); [intros H; now inversion H | apply IH].
Qed.

Lemma isHeadingTag_level (local : string) :
  isHeadingTag local = true -> (1 <= headingLevel local <= 6)%Z.
Proof.
  unfold isHeadingTag. intros H.
  repeat (apply orb_true_iff in H as [H | H]);
    apply String.eqb_eq in H; subst local;
    match goal with
    | |- (1 <= ?x <= 6)%Z => let v := eval vm_compute in x in change x with v
    end; lia.
Qed.

Lemma parseElement_parsedBlock (fuel : nat) (d : Decoder) (start : xml.Name)
    (attr : list xml.Attr) (b : Block) (d' : Decoder) :
  parseElement fuel d start attr = Ok (Some b, d') -> parsedBlock b.
Proof.
  unfold parseElement, parseBulletList, parseNumberedList. cbv zeta.
  destruct (String.eqb (Local start) "root"); [discriminate |].
  destruct (String.eqb (Local start) "table").
  { destruct (parseTable fuel d) as [[x dx] | |]; cbn [bind]; intros H; inversion H; exact I. }
  destruct (String.eqb (Local start) "p").
  { destruct (parseParagraph fuel d) as [[x dx] | |]; cbn [bind]; intros H; inversion H;
      exact I. }
  destruct (isHeadingTag (Local start)) eqn:Hh.
  { unfold parseHeading.
    destruct (parseHeading_loop fuel (headingLevel (Local start)) EmptyString d)
      as [[x dx] | |] eqn:Hp; cbn [bind]; intros H; inversion H; subst.
    cbn [parsedBlock]. rewrite (parseHeading_level _ _ _ _ _ _ Hp).
    now apply isHeadingTag_level. }
  destruct (String.eqb (Local start) "ul").
  { destruct (parseList_loop fuel "ul" [] d) as [[x dx] | |]; cbn [bind]; intros H;
      inversion H; exact I. }
  destruct (String.eqb (Local start) "ol").
  { destruct (parseList_loop fuel "ol" [] d) as [[x dx] | |]; cbn [bind]; intros H;
      inversion H; exact I. }
  destruct (String.eqb (Local start) "hr"); [intros H; inversion H; exact I |].
  destruct (String.eqb (Local start) "structured-macro").
  { destruct (parseMacro fuel d attr) as [[x dx] | |]; cbn [bind]; intros H; inversion H;
      exact I. }
  destruct (skipElement d) as [[x dx] | |]; cbn [bind]; discriminate.
Qed.

Lemma Parse_loop_parsedBlock (fuel : nat) :
  forall blocks d page,
    Forall parsedBlock blocks ->
    Parse_loop fuel blocks d = Ok page -> Forall parsedBlock (Blocks page).
Proof.
  induction fuel as [| fuel IH]; [discriminate |].
  intros blocks d page Hb. cbn [Parse_loop].
  destruct d as [| e | t d]; [intros H; now inversion H | discriminate |].
  destruct t as [n a | n | | | |]; try (apply IH; exact Hb).
  destruct (parseElement fuel d n a) as [[[b |] d''] | e |] eqn:Hp; cbn [bind];
    try discriminate.
  - apply IH. apply Forall_app. split; [exact Hb |].
    constructor; [| constructor]. eapply parseElement_parsedBlock. exact Hp.
  - apply IH. exact Hb.
Qed.

Lemma Render_blocks_parsed (ord : gmap string string -> list (string * string))
    (blocks : list Block) :
  Forall parsedBlock blocks -> exists out, Render_blocks ord blocks = Ok out.
Proof.
  induction 1 as [| b blocks Hb _ [out IH]]; [now exists EmptyString |].
  cbn [Render_blocks]. rewrite IH.
  destruct b as [t | p | h | bl | nl | m | cb |]; cbn [RenderBlock bind]; eauto.
  unfold renderHeading. cbn [parsedBlock] in Hb.
  destruct (Level h <? 1)%Z eqn:Hlo; [apply Z.ltb_lt in Hlo; lia |].
  destruct (6 <? Level h)%Z eqn:Hhi; [apply Z.ltb_lt in Hhi; lia |].
  cbn [orb bind]. eauto.
Qed.

Lemma ParseTokens_parsedBlock (d : Decoder) (page : Page) :
  ParseTokens d = Ok page -> Forall parsedBlock (Blocks page).
Proof. apply Parse_loop_parsedBlock. constructor. Qed.

(** X5: a page returned by [Parse] holds no code block and only headings
    of a level from 1 to 6, so that [Render] never fails on it. *)
Theorem parsed_page_renders (uF uS : N -> bool) (ents : gmap string string)
    (ord : gmap string string -> list (string * string)) (xhtml : string) (page : Page) :
  Parse uF uS ents xhtml = Ok page ->
  Forall parsedBlock (Blocks page) /\ exists out, Render ord page = Ok out.
Proof.
  intros Hp.
  assert (Hb : Forall parsedBlock (Blocks page)).
  { unfold Parse in Hp. destruct (String.eqb xhtml EmptyString).
    - inversion Hp. constructor.
    - exact (ParseTokens_parsedBlock _ _ Hp). }
  split; [exact Hb | now apply Render_blocks_parsed].
Qed.

Lemma parsed_page_renders_witness :
  Forall parsedBlock
    [BHeading {| Level := 3; Heading_Text := "T" |}; BParagraph {| Paragraph_Text := "a" |}]
  /\ exists out,
       render {| Blocks := [BHeading {| Level := 3; Heading_Text := "T" |};
                            BParagraph {| Paragraph_Text := "a" |}] |} = Ok out.
Proof.
  apply (parsed_page_renders asciiOnly asciiOnly someEntities listOrder
           "<h3>T</h3><p>a</p>"
           {| Blocks := [BHeading {| Level := 3; Heading_Text := "T" |};
                         BParagraph {| Paragraph_Text := "a" |}] |}).
  vm_compute. reflexivity.
Defined.

Lemma Render_blocks_app (ord : gmap string string -> list (string * string))
    (a b : list Block) :
  Render_blocks ord (a ++ b)
  = let* s := Render_blocks ord a in
    let* t := Render_blocks ord b in
    Ok (s ++ t).
Proof.
  induction a as [| x a IH]; cbn [app Render_blocks bind].
  - destruct (Render_blocks ord b); reflexivity.
  - destruct (RenderBlock ord x) as [sx | e |]; cbn [bind]; try reflexivity.
    rewrite IH. destruct (Render_blocks ord a) as [sa | e |]; cbn [bind]; try reflexivity.
    destruct (Render_blocks ord b) as [sb | e |]; cbn [bind]; try reflexivity.
    now rewrite append_assoc.
Qed.

(** X6: rendering the blocks of two pages one after the other gives the
    concatenation of the two renderings, or the first error met in that
    order. *)
Theorem Render_concatenates (ord : gmap string string -> list (string * string))
    (p q : Page) :
  Render ord {| Blocks := Blocks p ++ Blocks q |}
  = let* s := Render ord p in
    let* t := Render ord q in
    Ok (s ++ t).
Proof. unfold Render. cbn [Blocks]. apply Render_blocks_app. Qed.

Lemma Render_blocks_firstBadLevel (ord : gmap string string -> list (string * string))
    (blocks : list Block) :
  match firstBadLevel blocks with
  | Some z => Render_blocks ord blocks = Err ("invalid heading level: " ++ itoa z)
  | None => exists out, Render_blocks ord blocks = Ok out
  end.
Proof.
  induction blocks as [| b blocks IH]; [now exists EmptyString |].
  cbn [firstBadLevel Render_blocks].
  destruct b as [t | p | h | bl | nl | m | cb |]; cbn [RenderBlock bind];
    try (destruct (firstBadLevel blocks) as [z |];
         [rewrite IH; reflexivity | destruct IH as [out IH]; rewrite IH; cbn [bind]; eauto]).
  unfold renderHeading.
  destruct ((Level h <? 1)%Z || (6 <? Level h)%Z); cbn [bind]; [reflexivity |].
  destruct (firstBadLevel blocks) as [z |];
    [rewrite IH; reflexivity | destruct IH as [out IH]; rewrite IH; cbn [bind]; eauto].
Qed.

(** X7: [Render] fails exactly when the page holds a heading of a level
    outside 1..6, and the error names the level of the first such heading;
    no other block makes it fail. *)
Theorem Render_fails_on_first_bad_heading
    (ord : gmap string string -> list (string * string)) (page : Page) :
  match firstBadLevel (Blocks page) with
  | Some z => Render ord page = Err ("invalid heading level: " ++ itoa z)
  | None => exists out, Render ord page = Ok out
  end.
Proof. apply Render_blocks_firstBadLevel. Qed.

(* ================================================================== *)
(** ** The name of a macro: first attribute or last *)

Lemma getMacroName_first (attrs : list xml.Attr) :
  getMacroName attrs = List.hd EmptyString (nameValues attrs).
Proof.
  unfold nameValues. induction attrs as [| a r IH]; [reflexivity |].
  cbn [getMacroName List.filter].
  destruct (String.eqb (Local (xml.AName a)) "name"); [reflexivity | exact IH].
Qed.

Lemma last_cons_default {A : Type} (l : list A) :
  forall (x d1 d2 : A), List.last (x :: l) d1 = List.last (x :: l) d2.
Proof.
  induction l as [| y l IH]; intros x d1 d2; [reflexivity |].
  change (List.last (y :: l) d1 = List.last (y :: l) d2). apply IH.
Qed.

Lemma attrNamed_last (attrs : list xml.Attr) :
  forall acc, attrNamed attrs acc = List.last (nameValues attrs) acc.
Proof.
  unfold nameValues. induction attrs as [| a r IH]; intros acc; [reflexivity |].
  cbn [attrNamed List.filter]. rewrite IH.
  destruct (String.eqb (Local (xml.AName a)) "name"); [| reflexivity].
  cbn [map]. destruct (map xml.Value (List.filter _ r)) as [| v l]; [reflexivity |].
  change (List.last (xml.Value a :: v :: l) acc) with (List.last (v :: l) acc).
  apply last_cons_default.
Qed.

Lemma parseMacro_loop_Name (fuel : nat) :
  forall m0 d m d', parseMacro_loop fuel m0 d = Ok (m, d') -> Name m = Name m0.
Proof.
  induction fuel as [| fuel IH]; [discriminate |].
  intros m0 d m d'. cbn [parseMacro_loop].
  destruct d as [| e | t d]; [intros H; now inversion H | discriminate |].
  destruct t as [n a | n | | | |]; try apply IH.
  - destruct (String.eqb (Local n) "parameter").
    + cbv zeta. destruct (parseTextContent fuel d "parameter") as [[v d''] | e |];
        cbn [bind]; try discriminate.
      intros H. apply IH in H. rewrite H.
      destruct (String.eqb (attrNamed a EmptyString) EmptyString); reflexivity.
    + destruct (String.eqb (Local n) "rich-text-body"
                || String.eqb (Local n) "plain-text-body").
      * destruct (parseTextContent fuel d (Local n)) as [[v d''] | e |];
          cbn [bind]; try discriminate.
        intros H. apply IH in H. exact H.
      * destruct (skipElement d) as [[v d''] | e |]; cbn [bind]; try discriminate.
        apply IH.
  - destruct (String.eqb (Local n) "structured-macro");
      [intros H; now inversion H | apply IH].
Qed.

(** X8: of several attributes with local name [name] on a macro start
    tag, the validator's allow list reads the first ([getMacroName]) while
    [parseMacro] keeps the last; the two agree when there is at most one
    such attribute. *)
Theorem macro_name_first_or_last (fuel : nat) (d d' : Decoder) (attrs : list xml.Attr)
    (m : Macro) :
  parseMacro fuel d attrs = Ok (m, d') ->
  getMacroName attrs = List.hd EmptyString (nameValues attrs)
  /\ Name m = List.last (nameValues attrs) EmptyString
  /\ ((length (nameValues attrs) <= 1)%nat -> Name m = getMacroName attrs).
Proof.
  intros Hp. unfold parseMacro in Hp. apply parseMacro_loop_Name in Hp.
  cbn [Name] in Hp. rewrite attrNamed_last in Hp.
  split; [apply getMacroName_first | split; [exact Hp |]].
  intros Hlen. rewrite Hp, getMacroName_first.
  destruct (nameValues attrs) as [| v [| w r]]; [reflexivity | reflexivity |].
  cbn [length] in Hlen. lia.
Qed.

Lemma macro_name_first_or_last_witness :
  getMacroName [{| xml.AName := tagged "name"; xml.Value := "info" |};
                {| xml.AName := ac "name"; xml.Value := "html" |}]
  = List.hd EmptyString
      (nameValues [{| xml.AName := tagged "name"; xml.Value := "info" |};
                   {| xml.AName := ac "name"; xml.Value := "html" |}])
  /\ Name {| Name := "html"; Params := ∅; Body := EmptyString |}
     = List.last (nameValues [{| xml.AName := tagged "name"; xml.Value := "info" |};
                         {| xml.AName := ac "name"; xml.Value := "html" |}]) EmptyString
  /\ ((length (nameValues [{| xml.AName := tagged "name"; xml.Value := "info" |};
                           {| xml.AName := ac "name"; xml.Value := "html" |}]) <= 1)%nat ->
      Name {| Name := "html"; Params := ∅; Body := EmptyString |}
      = getMacroName [{| xml.AName := tagged "name"; xml.Value := "info" |};
                      {| xml.AName := ac "name"; xml.Value := "html" |}]).
Proof.
  apply (macro_name_first_or_last 1 (Tok (EndElement (ac "structured-macro")) EOF) EOF).
  reflexivity.
Defined.

(** A macro start tag with two such attributes passes an allow list by
    its first name and is parsed under its last. *)
Lemma allow_list_reads_first_name :
  validateWith "<ac:structured-macro name='info' ac:name='html'></ac:structured-macro>"
    statusInfoOnly = None
  /\ parse "<ac:structured-macro name='info' ac:name='html'></ac:structured-macro>"
     = Ok {| Blocks := [BMacro {| Name := "html"; Params := ∅; Body := EmptyString |}] |}.
Proof. split; vm_compute; reflexivity. Qed.

(* ================================================================== *)
(** ** [ValidateBlock] on rendered blocks *)

Lemma Validate_rendered_blocks (uF uS : N -> bool) (ents : gmap string string)
    (ord : gmap string string -> list (string * string)) (blocks : list Block) (s : string) :
  (forall m, Permutation (ord m) (map_to_list m)) ->
  forallb goodBlock blocks = true ->
  Render_blocks ord blocks = Ok s ->
  Validate uF uS ents s = None.
Proof.
  intros Hperm Hg Hr. unfold Validate, ValidateWithOptions.
  destruct (String.eqb s EmptyString); [reflexivity |].
  rewrite (newDecoder_rendered uF uS ents ord Hperm {| Blocks := blocks |} s Hg Hr).
  unfold ValidateTokens. rewrite tokens_Element.
  rewrite validate_quiet_token by reflexivity. cbn [Blocks].
  destruct (validate_blockNodes ord blocks s false
              (Tok (EndElement (tagged "root")) EOF) Hr) as [found Hv].
  rewrite Hv. rewrite validate_quiet_token by reflexivity. reflexivity.
Qed.

(** X9: on a block whose texts are well-formed character data (macro
    bodies without [<], [&] and []]>], code without the end of a CDATA
    section),
    [ValidateBlock] fails only when [RenderBlock] does, that is on a
    heading of a level outside 1..6, and then returns the error of
    [RenderBlock] unchanged. *)
Theorem ValidateBlock_good_block (uF uS : N -> bool) (ents : gmap string string)
    (ord : gmap string string -> list (string * string)) (b : Block) :
  (forall m, Permutation (ord m) (map_to_list m)) ->
  goodBlock b = true ->
  ValidateBlock uF uS ents ord b
  = match RenderBlock ord b with
    | Ok _ => Ok tt
    | Err e => Err e
    | Exhausted => Exhausted
    end.
Proof.
  intros Hperm Hg. unfold ValidateBlock.
  destruct (RenderBlock ord b) as [s | e |] eqn:Hr; cbn [bind]; try reflexivity.
  rewrite (Validate_rendered_blocks uF uS ents ord [b] s Hperm); [reflexivity | |].
  - cbn [forallb]. now rewrite Hg.
  - cbn [Render_blocks]. rewrite Hr. cbn [bind]. now rewrite append_nil_r.
Qed.

Lemma ValidateBlock_good_block_witness :
  ValidateBlock asciiOnly asciiOnly someEntities listOrder
    (BHeading {| Level := 7; Heading_Text := "T" |})
  = Err "invalid heading level: 7"
  /\ ValidateBlock asciiOnly asciiOnly someEntities listOrder
       (BTable {| Headers := ["a"];
                  Rows := [{| Cells := [{| Cell_Text := "b"; Cell_Macro := None |}] |}] |})
     = Ok tt.
Proof.
  split.
  - rewrite (ValidateBlock_good_block asciiOnly asciiOnly someEntities listOrder
               (BHeading {| Level := 7; Heading_Text := "T" |}));
      [reflexivity | intros m; reflexivity | reflexivity].
  - rewrite (ValidateBlock_good_block asciiOnly asciiOnly someEntities listOrder
               (BTable {| Headers := ["a"];
                          Rows := [{| Cells := [{| Cell_Text := "b";
                                                   Cell_Macro := None |}] |}] |}));
      [reflexivity | intros m; reflexivity | reflexivity].
Defined.

(* ================================================================== *)
(** ** Elements without a case in [parseElement] *)

Lemma blocksOf_unknown (n : xml.Name) (attr : list xml.Attr) (kids : list Node) :
  isBlockTag (Local n) = false -> blocksOf (Element n attr kids) = [].
Proof.
  unfold isBlockTag. intros H.
  repeat (apply orb_false_iff in H as [H ?]).
  cbn [blocksOf]. cbv zeta.
  repeat match goal with
         | Hx : ?c = false |- context [if ?c then _ else _] => rewrite Hx
         end.
  reflexivity.
Qed.

(** X10: an element for which [parseElement] has no case is skipped with
    all it holds, the blocks nested in it included: [Parse] returns the
    blocks it would return were the element not there. *)
Theorem unknown_element_is_dropped (root n : xml.Name) (rattr attr : list xml.Attr)
    (pre kids post : list Node) :
  Local root = "root" ->
  isBlockTag (Local n) = false ->
  ParseTokens (tokens (Element root rattr (pre ++ Element n attr kids :: post)) EOF)
  = ParseTokens (tokens (Element root rattr (pre ++ post)) EOF).
Proof.
  intros Hroot Hn.
  change (tokens ?e EOF) with (tokensList [e] EOF).
  rewrite !ParseTokens_tree. cbn [flat_map blocksOf]. rewrite Hroot.
  cbn [String.eqb Ascii.eqb Bool.eqb]. cbv zeta.
  rewrite !flat_map_app. cbn [flat_map]. now rewrite (blocksOf_unknown n attr kids Hn).
Qed.

Lemma unknown_element_is_dropped_witness :
  ParseTokens
    (tokens (Element (tagged "root") []
               ([] ++ Element (tagged "div") []
                        [Element (tagged "table") []
                           [Element (tagged "tr") []
                              [Element (tagged "td") [] [Chars "x"]]]]
                :: [Element (tagged "p") [] [Chars "a"]])) EOF)
  = ParseTokens
      (tokens (Element (tagged "root") []
                 ([] ++ [Element (tagged "p") [] [Chars "a"]])) EOF).
Proof.
  apply (unknown_element_is_dropped (tagged "root") (tagged "div") [] [] []
           [Element (tagged "table") []
              [Element (tagged "tr") [] [Element (tagged "td") [] [Chars "x"]]]]
           [Element (tagged "p") [] [Chars "a"]]);
    reflexivity.
Defined.

(* ================================================================== *)
(** ** Blocks to loosely typed values and back *)

Section ConvertFacts.

Context {float64 : Type}.
Variable truncate : float64 -> Z.

Local Abbreviation any := (any float64).

(** X11: the [type] entry that [blockToJSON] writes for a pointer to a
    block is the [BlockType] of the block; for a struct value it writes
    [unknown] and nothing else. *)
Theorem blockToJSON_type (b : Block) :
  blockToJSON (float64 := float64) true b !! "type" = Some (Str (BlockType b))
  /\ blockToJSON (float64 := float64) false b = <["type" := Str "unknown"]> ∅.
Proof. split; [| reflexivity]. destruct b; reflexivity. Qed.

Lemma stringAt_lookup (m : gmap string any) (k s : string) :
  stringAt m k = s -> s <> EmptyString -> m !! k = Some (Str s).
Proof.
  unfold stringAt. destruct (m !! k) as [[] |]; intros H Hne; subst; try congruence.
Qed.

(** X12: [parseBlock] fails on a value that is no object, and on an
    object whose [type] entry is not a string naming one of the eight
    block types (a missing entry counts as the empty string); otherwise
    it returns a block of the type named, whatever else the object holds. *)
Theorem parseBlock_result (raw : any) :
  match parseBlock truncate raw with
  | Ok b => exists m, raw = Map m /\ m !! "type" = Some (Str (BlockType b))
  | Err e =>
      (e = "block must be an object" /\ forall m, raw <> Map m)
      \/ (exists m, raw = Map m /\ e = "unknown block type: " ++ stringAt m "type"
                    /\ forall b, BlockType b <> stringAt m "type")
  | Exhausted => False
  end.
Proof.
  destruct raw as [| b | f | z | s | l | m | l | sm | rs];
    try (left; split; [reflexivity | intros m Hm; discriminate]).
  cbn [parseBlock]. cbv zeta.
  repeat match goal with
         | |- context [if String.eqb (stringAt m "type") ?t then _ else _] =>
             destruct (String.eqb (stringAt m "type") t) eqn:?
         end;
    try (match goal with
         | H : String.eqb (stringAt m "type") _ = true |- _ =>
             apply String.eqb_eq in H; exists m; split; [reflexivity |];
             apply (stringAt_lookup _ _ _ H); discriminate
         end).
  right. exists m. split; [reflexivity | split; [reflexivity |]].
  intros b Hb.
  destruct b; cbn [BlockType] in Hb; rewrite <- Hb in *;
    match goal with H : String.eqb ?x ?x = false |- _ => rewrite String.eqb_refl in H end;
    discriminate.
Qed.

Lemma parseBlocks_loop_ok (l : list any) :
  forall acc page,
    parseBlocks_loop truncate acc l = Ok page
    <-> exists bs, Forall2 (fun raw b => parseBlock truncate raw = Ok b) l bs
                   /\ Blocks page = (acc ++ bs)%list.
Proof.
  induction l as [| raw l IH]; intros acc page; cbn [parseBlocks_loop].
  - split.
    + intros H. inversion H. exists []. split; [constructor | now rewrite app_nil_r].
    + intros (bs & Hf & Hb). inversion Hf; subst. rewrite app_nil_r in Hb.
      destruct page as [blocks]. cbn in Hb. now subst.
  - destruct (parseBlock truncate raw) as [b | e |] eqn:Hp; cbn [bind].
    + rewrite IH. split.
      * intros (bs & Hf & Hb). exists (b :: bs). split; [now constructor |].
        now rewrite Hb, <- app_assoc.
      * intros (bs & Hf & Hb). inversion Hf as [| ? b' ? bs' Hraw Hrest]; subst.
        rewrite Hp in Hraw. inversion Hraw; subst b'.
        exists bs'. split; [exact Hrest |]. now rewrite Hb, <- app_assoc.
    + split; [discriminate |]. intros (bs & Hf & _). inversion Hf; subst. congruence.
    + split; [discriminate |]. intros (bs & Hf & _). inversion Hf; subst. congruence.
Qed.

(** X13: [parseBlocks] returns a page exactly when [parseBlock] accepts
    every element, and the page then holds the block of each element, in
    order: no block is dropped or added. *)
Theorem parseBlocks_all_or_nothing (blocksRaw : list any) (page : Page) :
  (parseBlocks truncate blocksRaw = Ok page
   <-> Forall2 (fun raw b => parseBlock truncate raw = Ok b) blocksRaw (Blocks page))
  /\ (parseBlocks truncate blocksRaw = Ok page ->
      length (Blocks page) = length blocksRaw).
Proof.
  unfold parseBlocks.
  assert (Hiff : parseBlocks_loop truncate [] blocksRaw = Ok page
                 <-> Forall2 (fun raw b => parseBlock truncate raw = Ok b) blocksRaw
                       (Blocks page)).
  { rewrite parseBlocks_loop_ok. split.
    - intros (bs & Hf & Hb). cbn [app] in Hb. now rewrite Hb.
    - intros Hf. now exists (Blocks page). }
  split; [exact Hiff |].
  intros H. apply Hiff in H. symmetry. eapply List.Forall2_length. exact H.
Qed.

Lemma parseCell_textOrBodilessMacro (raw : any) : textOrBodilessMacro (parseCell raw).
Proof.
  unfold textOrBodilessMacro.
  destruct raw as [| b | f | z | s | l | m | l | sm | rs]; cbn [parseCell];
    try (split; [left; reflexivity | intros m' H'; discriminate]).
  destruct (m !! "text") as [[] |];
    try (split; [left; reflexivity | intros m' H'; discriminate]);
    destruct (m !! "macro") as [[] |];
    try (split; [left; reflexivity | intros m' H'; discriminate]);
    (split; [right; reflexivity | intros m' H'; inversion H'; reflexivity]).
Qed.

(** X14: in a table returned by [parseBlock] every cell has at most one
    of its two fields set, and the macro of a cell has no body: the
    [text] entry of a cell object wins over its [macro] entry, and a
    [body] entry of the macro is not read. *)
Theorem parseBlock_cells (raw : any) (t : Table) :
  parseBlock truncate raw = Ok (BTable t) ->
  Forall (fun row => Forall textOrBodilessMacro (Cells row)) (Rows t).
Proof.
  destruct raw as [| b | f | z | s | l | m | l | sm | rs]; try discriminate.
  cbn [parseBlock]. cbv zeta.
  repeat match goal with
         | |- context [if ?c then _ else _] => destruct c
         end;
    intros H; inversion H; subst; clear H.
  unfold parseTableBlock. cbn [Rows].
  destruct (m !! "rows") as [[| | | | | rows | | | |] |]; try constructor.
  apply List.Forall_forall. intros row Hin. apply in_map_iff in Hin as (rowRaw & <- & _).
  destruct rowRaw as [| | | | | cells | | | |]; cbn [parseRow Cells]; try constructor.
  apply List.Forall_forall. intros c Hc. apply in_map_iff in Hc as (cellRaw & <- & _).
  apply parseCell_textOrBodilessMacro.
Qed.

(** X15: [blockToJSON] does not write the body of the macro of a table
    cell, nor the text of a cell that holds a macro: two blocks that
    differ in these only have the same image. *)
Theorem blockToJSON_keeps (pointer : bool) (b : Block) :
  blockToJSON (float64 := float64) pointer b = blockToJSON pointer (keptBlock b).
Proof.
  destruct b as [t | p | h | bl | nl | m | cb |]; try reflexivity.
  unfold blockToJSON. destruct pointer; cbn [negb]; [| reflexivity].
  cbn [keptBlock Headers Rows]. do 4 f_equal.
  rewrite map_map. apply map_ext. intros row. cbn [Cells]. f_equal.
  rewrite map_map. apply map_ext. intros c.
  unfold cellToJSON, keptCell. destruct c as [text [m |]]; reflexivity.
Qed.

End ConvertFacts.

Lemma parseBlock_cells_witness :
  Forall (fun row => Forall textOrBodilessMacro (Cells row))
    [{| Cells := [{| Cell_Text := "a"; Cell_Macro := None |};
                  {| Cell_Text := EmptyString;
                     Cell_Macro := Some {| Name := "status"; Params := ∅;
                                           Body := EmptyString |} |}] |}].
Proof.
  apply (parseBlock_cells (float64 := Z) (fun z => z)
           (Map (<["type" := Str "table"]>
                   (<["rows" :=
                        Slice [Slice [Map (<["text" := Str "a"]>
                                             (<["macro" := Map ∅]> ∅));
                                      Map (<["macro" :=
                                               Map (<["name" := Str "status"]>
                                                      (<["body" := Str "b"]> ∅))]> ∅)]]]> ∅)))
           {| Headers := [];
              Rows := [{| Cells := [{| Cell_Text := "a"; Cell_Macro := None |};
                                    {| Cell_Text := EmptyString;
                                       Cell_Macro := Some {| Name := "status"; Params := ∅;
                                                             Body := EmptyString |} |}] |}] |}).
  vm_compute. reflexivity.
Defined.

(* ================================================================== *)
(** ** Reading back what [blockToJSON] wrote *)

Ltac lookups :=
  repeat first [ rewrite lookup_insert_eq
               | rewrite lookup_insert_ne by discriminate
               | rewrite lookup_empty ].

Section ReadBack.

Context {float64 : Type}.
Variable truncate : float64 -> Z.
Variable toFloat : Z -> float64.

Local Abbreviation any := (any float64).

Lemma stringsOf_Str (l : list string) : stringsOf (float64 := float64) (map Str l) = l.
Proof. induction l as [| s l IH]; cbn [map stringsOf]; [reflexivity | now rewrite IH]. Qed.

Lemma stringParams_Str (m : gmap string string) :
  stringParams (float64 := float64) (Str <$> m) = m.
Proof.
  unfold stringParams. apply map_eq. intros k.
  rewrite lookup_omap, lookup_fmap. now destruct (m !! k).
Qed.

Lemma items_Str (items : list ListItem) :
  map (fun s => {| ListItem_Text := s |})
    (stringsOf (float64 := float64) (map Str (map ListItem_Text items)))
  = items.
Proof.
  rewrite stringsOf_Str, map_map. rewrite <- (map_id items) at 2.
  apply map_ext. now intros [t].
Qed.

Lemma parseCell_cellToJSON (depth : nat) (c : Cell) :
  parseCell (retyped toFloat (S (S (S depth))) (cellToJSON c)) = keptCell c.
Proof.
  unfold cellToJSON, keptCell. destruct c as [text [m |]]; cbn [Cell_Macro Cell_Text];
    [| reflexivity].
  cbn [retyped]. rewrite !fmap_insert, !fmap_empty. cbn [retyped].
  unfold parseCell. lookups. unfold stringAt, paramsAt. lookups.
  now rewrite stringParams_Str.
Qed.

Lemma parseRow_cells (depth : nat) (row : Row) :
  parseRow (retyped toFloat (S (S (S (S depth)))) (Slice (map cellToJSON (Cells row))))
  = {| Cells := map keptCell (Cells row) |}.
Proof.
  cbn [retyped parseRow]. f_equal. rewrite !map_map. apply map_ext.
  intros c. apply parseCell_cellToJSON.
Qed.

(** X16: [parseBlock] reads back the object that [blockToJSON] wrote for
    a pointer to a block, once its values have the dynamic types that
    [parseBlock] asserts ([[]interface{}], [map[string]interface{}],
    [float64]); the block is returned but for what [blockToJSON] does not
    write: the body of the macro of a table cell and the text of a cell
    that holds a macro.  The one number read is the level of a heading:
    for a heading, and only there, the level must survive the conversion
    to [float64] and back, [int(float64(level)) = level], as every [int]
    of at most 53 bits does. *)
Theorem parseBlock_reads_blockToJSON (b : Block) :
  (forall h, b = BHeading h -> truncate (toFloat (Level h)) = Level h) ->
  parseBlock truncate (retyped toFloat 6 (Map (blockToJSON true b))) = Ok (keptBlock b).
Proof.
  intros Hfloat.
  destruct b as [t | p | h | bl | nl | m | cb |];
    cbn [blockToJSON negb retyped keptBlock];
    rewrite ?fmap_insert, ?fmap_empty; cbn [retyped];
    unfold parseBlock, stringAt; lookups; cbv zeta;
    cbn [String.eqb Ascii.eqb Bool.eqb].
  - unfold parseTableBlock. lookups. rewrite stringsOf_Str. do 3 f_equal.
    rewrite !map_map. apply map_ext. intros row.
    apply (parseRow_cells 0 row).
  - now destruct p.
  - rewrite (Hfloat h eq_refl). now destruct h.
  - unfold parseBulletListBlock. lookups. rewrite items_Str. now destruct bl.
  - unfold parseNumberedListBlock. lookups. rewrite items_Str. now destruct nl.
  - unfold parseMacroBlock, stringAt, paramsAt. lookups.
    rewrite stringParams_Str. now destruct m.
  - now destruct cb.
  - reflexivity.
Qed.

End ReadBack.

(** The theorem at a heading of level 2 and at a paragraph, with a
    conversion that is exact up to 53 bits only. *)
Lemma parseBlock_reads_blockToJSON_witness :
  parseBlock (fun z : Z => z)
    (retyped roundedInt 6
       (Map (blockToJSON true (BHeading {| Level := 2; Heading_Text := "T" |}))))
  = Ok (keptBlock (BHeading {| Level := 2; Heading_Text := "T" |}))
  /\ parseBlock (fun z : Z => z)
       (retyped roundedInt 6 (Map (blockToJSON true (BParagraph {| Paragraph_Text := "p" |}))))
     = Ok (keptBlock (BParagraph {| Paragraph_Text := "p" |})).
Proof.
  split.
  - apply (parseBlock_reads_blockToJSON (fun z : Z => z) roundedInt
             (BHeading {| Level := 2; Heading_Text := "T" |})).
    intros h Hh. inversion Hh. reflexivity.
  - apply (parseBlock_reads_blockToJSON (fun z : Z => z) roundedInt
             (BParagraph {| Paragraph_Text := "p" |})).
    intros h Hh. discriminate Hh.
Defined.

(** [roundedInt] is not exact on every integer. *)
Lemma roundedInt_not_exact : roundedInt (2 ^ 53 + 1) <> (2 ^ 53 + 1)%Z.
Proof. vm_compute. discriminate. Qed.

(** Without the change of types the object is read back with a loss: the
    level of a heading, written as an [int], is not found and is 1. *)
Lemma heading_level_not_read_back (z : Z) (text : string) :
  parseBlock (fun z : Z => z)
    (Map (blockToJSON true (BHeading {| Level := z; Heading_Text := text |})))
  = Ok (BHeading {| Level := 1; Heading_Text := text |}).
Proof. reflexivity. Qed.

(* ================================================================== *)
(** ** [handleCreateTable] *)

Lemma createRows_filter {float64 : Type} (rowsRaw : list (any float64)) :
  createRows rowsRaw = map parseRow (List.filter isSlice rowsRaw).
Proof.
  induction rowsRaw as [| v r IH]; [reflexivity |].
  destruct v; cbn [createRows List.filter isSlice map parseRow]; try exact IH.
  now rewrite IH.
Qed.

(** X17: [handleCreateTable] and [parseTableBlock] build their table from
    the same entries in the same way, but for the elements of [rows] that
    are no arrays: [parseTableBlock] keeps each as a row without cells,
    [handleCreateTable] leaves them out. *)
Theorem createTable_leaves_out_rows {float64 : Type} (input : gmap string (any float64)) :
  Headers (createTable input) = Headers (parseTableBlock input)
  /\ Rows (parseTableBlock input) = map parseRow (sliceAt input "rows")
  /\ Rows (createTable input) = map parseRow (List.filter isSlice (sliceAt input "rows")).
Proof.
  unfold createTable, parseTableBlock, sliceAt. cbn [Headers Rows].
  split; [| split].
  - destruct (input !! "headers") as [[] |]; reflexivity.
  - destruct (input !! "rows") as [[] |]; reflexivity.
  - apply createRows_filter.
Qed.

(** X18: when the strings of the table built from the input are
    well-formed character data, [handleCreateTable] succeeds, and returns
    the table with the markup that [RenderBlock] gives for it. *)
Theorem handleCreateTable_succeeds (uF uS : N -> bool) (ents : gmap string string)
    (ord : gmap string string -> list (string * string)) {float64 : Type}
    (input : gmap string (any float64)) :
  (forall m, Permutation (ord m) (map_to_list m)) ->
  goodBlock (BTable (createTable input)) = true ->
  handleCreateTable uF uS ents ord input
  = Ok (<["block" := Map (<["type" := Str "table"]>
                            (<["headers" := Strings (Headers (createTable input))]>
                               (<["rows" := RowSlice (Rows (createTable input))]> ∅)))]>
          (<["xhtml" := Str (renderTable ord (createTable input))]> ∅)).
Proof.
  intros Hperm Hg. unfold handleCreateTable, ValidateBlock. cbv zeta.
  cbn [RenderBlock bind].
  rewrite (Validate_rendered_blocks uF uS ents ord [BTable (createTable input)]
             (renderTable ord (createTable input)) Hperm); [reflexivity | |].
  - cbn [forallb]. now rewrite Hg.
  - cbn [Render_blocks RenderBlock bind]. now rewrite append_nil_r.
Qed.

Lemma handleCreateTable_succeeds_witness :
  handleCreateTable asciiOnly asciiOnly someEntities listOrder (float64 := Z)
    (<["headers" := Slice [Str "a"; Int 1]]>
       (<["rows" := Slice [Slice [Str "b"]; Str "c"]]> ∅))
  = Ok (<["block" :=
            Map (<["type" := Str "table"]>
                   (<["headers" :=
                        Strings (Headers (createTable (float64 := Z)
                                            (<["headers" := Slice [Str "a"; Int 1]]>
                                               (<["rows" :=
                                                    Slice [Slice [Str "b"]; Str "c"]]> ∅))))]>
                      (<["rows" :=
                           RowSlice (Rows (createTable (float64 := Z)
                                             (<["headers" := Slice [Str "a"; Int 1]]>
                                                (<["rows" :=
                                                     Slice [Slice [Str "b"]; Str "c"]]> ∅))))]>
                         ∅)))]>
          (<["xhtml" :=
               Str (renderTable listOrder
                      (createTable (float64 := Z)
                         (<["headers" := Slice [Str "a"; Int 1]]>
                            (<["rows" := Slice [Slice [Str "b"]; Str "c"]]> ∅))))]> ∅)).
Proof.
  apply (handleCreateTable_succeeds asciiOnly asciiOnly someEntities listOrder
           (<["headers" := Slice [Str "a"; Int 1]]>
              (<["rows" := Slice [Slice [Str "b"]; Str "c"]]> ∅))).
  - intros m. reflexivity.
  - vm_compute. reflexivity.
Defined.

(** On that input the table has the header and the row that are strings
    and arrays. *)
Lemma createTable_example :
  createTable (float64 := Z)
    (<["headers" := Slice [Str "a"; Int 1]]>
       (<["rows" := Slice [Slice [Str "b"]; Str "c"]]> ∅))
  = {| Headers := ["a"];
       Rows := [{| Cells := [{| Cell_Text := "b"; Cell_Macro := None |}] |}] |}.
Proof. vm_compute. reflexivity. Qed.

(* ================================================================== *)
(** ** The verdicts of the validator *)

Lemma validate_loop_noRules (d : Decoder) :
  forall depth found,
    validate_loop noRules depth found d = None <-> IsValidXML_loop d = true.
Proof.
  induction d as [| e | t d IH]; intros depth found; cbn [validate_loop IsValidXML_loop].
  - tauto.
  - split; discriminate.
  - destruct t as [n a | n | | | |]; try apply IH.
    + change (index (ForbiddenTags noRules) (Local n)) with false.
      change (size (AllowedMacros noRules)) with 0%nat.
      cbn [Nat.ltb Nat.leb andb RequireTableTbody noRules].
      rewrite !andb_false_r.
      destruct (if String.eqb (Local n) "table" then _ else _) as [depth' found'].
      rewrite !andb_false_r. apply IH.
    + cbn [RequireTableTbody noRules]. rewrite andb_false_r.
      destruct (String.eqb (Local n) "table"); apply IH.
Qed.

(** X19: with no rule enabled (no forbidden tag, no allow list, [tbody]
    not required) [ValidateWithOptions] accepts exactly the inputs that
    [IsValidXML] accepts. *)
Theorem no_rules_is_IsValidXML (uF uS : N -> bool) (ents : gmap string string)
    (xhtml : string) :
  ValidateWithOptions uF uS ents xhtml noRules = None
  <-> IsValidXML uF uS ents xhtml = true.
Proof.
  unfold ValidateWithOptions, IsValidXML, ValidateTokens.
  destruct (String.eqb xhtml EmptyString) eqn:He.
  - apply String.eqb_eq in He. subst xhtml. split; reflexivity.
  - rewrite newDecoder_root, plainDecoder_root. cbn [IsValidXML_loop].
    change (validate_loop noRules 0 false (Tok (StartElement (tagged "root") rootAttr) ?d))
      with (validate_loop noRules 0 false d).
    apply validate_loop_noRules.
Qed.

Lemma validate_loop_errorKind (opts : ValidatorOptions) (d : Decoder) :
  forall depth found e,
    validate_loop opts depth found d = Some e -> errorKind opts e.
Proof.
  induction d as [| err | t d IH]; intros depth found e; cbn [validate_loop].
  - discriminate.
  - intros H. inversion H. left. now exists err.
  - destruct t as [n a | n | | | |]; try apply IH.
    + destruct (index (ForbiddenTags opts) (Local n)) eqn:Hf.
      { intros H. inversion H. right. left. now split. }
      destruct (String.eqb (Local n) "structured-macro"
                && (0 <? size (AllowedMacros opts))%nat
                && negb (String.eqb (getMacroName a) EmptyString)
                && negb (index (AllowedMacros opts) (getMacroName a))) eqn:Hm.
      { intros H. inversion H. right. right. left. cbn [Message Tag].
        repeat (apply andb_true_iff in Hm as [Hm ?]).
        repeat match goal with Hx : negb _ = true |- _ => apply negb_true_iff in Hx end.
        split; [reflexivity | split; [now apply String.eqb_neq | split]];
          [now apply Nat.ltb_lt | assumption]. }
      destruct (if String.eqb (Local n) "table" then _ else _) as [depth' found'].
      match goal with
      | |- (if ?c then _ else _) = Some e -> _ => destruct c eqn:Htr
      end; [| apply IH].
      intros H. inversion H. right. right. right. left.
      apply andb_true_iff in Htr as [_ Hr]. now split.
    + destruct (String.eqb (Local n) "table"); [| apply IH].
      destruct (negb found && RequireTableTbody opts) eqn:Hr; [| apply IH].
      intros H. inversion H. right. right. right. right.
      apply andb_true_iff in Hr as [_ Hr]. now split.
Qed.

(** X20: an error of [ValidateWithOptions] is of one of five kinds: an
    error of the decoder, a forbidden tag that the options forbid, a
    macro with a name that a non-empty allow list does not allow, and
    the two [tbody] errors, which need [RequireTableTbody]. *)
Theorem validation_error_kinds (uF uS : N -> bool) (ents : gmap string string)
    (xhtml : string) (opts : ValidatorOptions) (e : ValidationError) :
  ValidateWithOptions uF uS ents xhtml opts = Some e -> errorKind opts e.
Proof.
  unfold ValidateWithOptions, ValidateTokens.
  destruct (String.eqb xhtml EmptyString); [discriminate |].
  apply validate_loop_errorKind.
Qed.

Lemma validation_error_kinds_witness :
  errorKind DefaultValidatorOptions {| Message := "forbidden tag"; Tag := "div" |}.
Proof.
  apply (validation_error_kinds asciiOnly asciiOnly someEntities "<p><div>x</div></p>").
  vm_compute. reflexivity.
Defined.

(* ================================================================== *)
(** ** Nested tables and the one [tbody] flag *)

Lemma validate_calm_nodes (opts : ValidatorOptions) (kids : list Node) :
  forallb (allTokens (calm opts)) kids = true ->
  forall depth d,
    validate_loop opts depth true (tokensList kids d) = validate_loop opts depth true d.
Proof.
  induction kids as [| c r IH]; intros Hk depth d; [reflexivity |].
  cbn [forallb] in Hk. apply andb_true_iff in Hk as [Hc Hr].
  rewrite tokensList_cons, (validate_calm_node opts c Hc). now apply IH.
Qed.

Lemma validate_quiet_nodes (opts : ValidatorOptions) (kids : list Node) :
  forallb (allTokens (quiet opts)) kids = true ->
  forall depth found d,
    validate_loop opts depth found (tokensList kids d) = validate_loop opts depth found d.
Proof.
  induction kids as [| c r IH]; intros Hk depth found d; [reflexivity |].
  cbn [forallb] in Hk. apply andb_true_iff in Hk as [Hc Hr].
  rewrite tokensList_cons, (validate_quiet_node opts c Hc). now apply IH.
Qed.

Lemma validate_table_start (opts : ValidatorOptions) (n : xml.Name) (attr : list xml.Attr)
    (depth : Z) (found : bool) (d : Decoder) :
  Local n = "table" -> index (ForbiddenTags opts) "table" = false ->
  validate_loop opts depth found (Tok (StartElement n attr) d)
  = validate_loop opts (depth + 1) false d.
Proof.
  intros Hn Hf. cbn [validate_loop]. rewrite Hn, Hf. cbn.
  destruct (0 <? depth + 1)%Z; reflexivity.
Qed.

Lemma validate_tbody_start (opts : ValidatorOptions) (n : xml.Name) (attr : list xml.Attr)
    (depth : Z) (found : bool) (d : Decoder) :
  Local n = "tbody" -> index (ForbiddenTags opts) "tbody" = false -> (0 < depth)%Z ->
  validate_loop opts depth found (Tok (StartElement n attr) d)
  = validate_loop opts depth true d.
Proof.
  intros Hn Hf Hd. cbn [validate_loop]. rewrite Hn, Hf. cbn.
  apply Z.ltb_lt in Hd. rewrite Hd. reflexivity.
Qed.

Lemma validate_table_end (opts : ValidatorOptions) (n : xml.Name) (depth : Z) (d : Decoder) :
  Local n = "table" ->
  validate_loop opts depth true (Tok (EndElement n) d) = validate_loop opts (depth - 1) true d.
Proof. intros Hn. cbn [validate_loop]. rewrite Hn. reflexivity. Qed.

(** X21: the validator has one [tbody] flag, not one for each table: a
    table that holds, after content without table, row or table body, a
    nested table with a [tbody] is accepted whatever follows the nested
    table in it, rows outside any [tbody] of its own included. *)
Theorem nested_tbody_satisfies_outer_table (opts : ValidatorOptions)
    (outer inner tbody : xml.Name) (oattr iattr battr : list xml.Attr)
    (pre ipre kids ipost post : list Node) (depth : Z) (found : bool) (d : Decoder) :
  Local outer = "table" -> Local inner = "table" -> Local tbody = "tbody" ->
  index (ForbiddenTags opts) "table" = false ->
  index (ForbiddenTags opts) "tbody" = false ->
  (0 <= depth)%Z ->
  forallb (allTokens (quiet opts)) pre = true ->
  forallb (allTokens (quiet opts)) ipre = true ->
  forallb (allTokens (calm opts)) kids = true ->
  forallb (allTokens (calm opts)) ipost = true ->
  forallb (allTokens (calm opts)) post = true ->
  validate_loop opts depth found
    (tokens (Element outer oattr
               (pre ++ Element inner iattr (ipre ++ Element tbody battr kids :: ipost)
                :: post)) d)
  = validate_loop opts depth true d.
Proof.
  intros Ho Hi Hb Hft Hfb Hd Hpre Hipre Hkids Hipost Hpost.
  rewrite tokens_Element, (validate_table_start opts outer oattr depth found _ Ho Hft).
  rewrite tokensList_app, (validate_quiet_nodes opts pre Hpre), tokensList_cons.
  rewrite tokens_Element, (validate_table_start opts inner iattr _ false _ Hi Hft).
  rewrite tokensList_app, (validate_quiet_nodes opts ipre Hipre), tokensList_cons.
  rewrite tokens_Element, (validate_tbody_start opts tbody battr _ false _ Hb Hfb)
    by lia.
  rewrite (validate_calm_nodes opts kids Hkids).
  assert (Hend : forall dd d', validate_loop opts dd true (Tok (EndElement tbody) d')
                               = validate_loop opts dd true d').
  { intros dd d'. cbn [validate_loop]. rewrite Hb. reflexivity. }
  rewrite Hend, (validate_calm_nodes opts ipost Hipost).
  rewrite (validate_table_end opts inner _ _ Hi).
  rewrite (validate_calm_nodes opts post Hpost).
  rewrite (validate_table_end opts outer _ _ Ho).
  f_equal. lia.
Qed.

Lemma nested_tbody_satisfies_outer_table_witness :
  validate_loop DefaultValidatorOptions 0 false
    (tokens (Element (tagged "table") []
               ([] ++ Element (tagged "table") []
                        ([] ++ Element (tagged "tbody") [] [] :: [])
                :: [Element (tagged "tr") [] [Element (tagged "td") [] [Chars "x"]]]))
       EOF)
  = validate_loop DefaultValidatorOptions 0 true EOF.
Proof.
  apply (nested_tbody_satisfies_outer_table DefaultValidatorOptions
           (tagged "table") (tagged "table") (tagged "tbody") [] [] []
           [] [] [] [] [Element (tagged "tr") [] [Element (tagged "td") [] [Chars "x"]]]
           0 false EOF);
    first [reflexivity | lia].
Defined.

(* ================================================================== *)
(** ** What [Parse] returns for a rendered page *)

Lemma flowText_text (t : string) : flowText (textNodes t) = TrimSpace t.
Proof. destruct t; reflexivity. Qed.

Lemma directText_trim (t : string) : TrimSpace (directText (textNodes t)) = TrimSpace t.
Proof. now rewrite directText_textNodes. Qed.

Lemma macroChild_paramNode (m0 : Macro) (kv : string * string) :
  macroChild m0 (paramNode kv)
  = {| Name := Name m0; Params := readParam (Params m0) kv; Body := Body m0 |}.
Proof.
  destruct kv as [k v]. unfold paramNode, macroChild, readParam. cbn [fst snd].
  change (Local (ac "parameter")) with "parameter".
  change (attrNamed [nameAttr k] EmptyString) with k.
  change (String.eqb "parameter" "parameter") with true. cbv iota.
  rewrite directText_trim.
  destruct (String.eqb k EmptyString); [now destruct m0 | reflexivity].
Qed.

Lemma macroChild_readParam (l : list (string * string)) :
  forall m0 : Macro,
    fold_left macroChild (map paramNode l) m0
    = {| Name := Name m0; Params := fold_left readParam l (Params m0); Body := Body m0 |}.
Proof.
  induction l as [| kv l IH]; intros m0; [now destruct m0 |].
  cbn [map fold_left]. now rewrite macroChild_paramNode, IH.
Qed.

Lemma readParam_lookup (l : list (string * string)) :
  forall (acc : gmap string string) (k : string),
    NoDup (map fst l) ->
    fold_left readParam l acc !! k
    = if String.eqb k EmptyString then acc !! k
      else match (list_to_map l : gmap string string) !! k with
           | Some v => Some (TrimSpace v)
           | None => acc !! k
           end.
Proof.
  induction l as [| [k0 v0] l IH]; intros acc k Hnd.
  - cbn [fold_left]. rewrite list_to_map_nil, lookup_empty.
    now destruct (String.eqb k EmptyString).
  - cbn [map fst] in Hnd. apply NoDup_cons in Hnd as [Hk0 Hnd].
    cbn [fold_left]. rewrite (IH _ _ Hnd), list_to_map_cons.
    unfold readParam at 1 2. cbn [fst snd].
    destruct (String.eqb k EmptyString) eqn:Hk.
    + apply String.eqb_eq in Hk. subst k.
      destruct (String.eqb k0 EmptyString) eqn:Hk0e; [reflexivity |].
      apply String.eqb_neq in Hk0e. now rewrite lookup_insert_ne.
    + destruct (decide (k0 = k)) as [-> | Hne].
      * rewrite lookup_insert_eq, Hk.
        assert (Hnone : (list_to_map l : gmap string string) !! k = None).
        { apply not_elem_of_list_to_map_1. exact Hk0. }
        rewrite Hnone. now rewrite lookup_insert_eq.
      * rewrite (lookup_insert_ne (list_to_map l)) by exact Hne.
        destruct (String.eqb k0 EmptyString); [reflexivity |].
        now rewrite lookup_insert_ne.
Qed.

Lemma RenderBlock_nonempty (ord : gmap string string -> list (string * string))
    (b : Block) (s : string) :
  RenderBlock ord b = Ok s -> s <> EmptyString.
Proof.
  destruct b as [t | p | h | bl | nl | m | cb |]; cbn [RenderBlock];
    try (intros H; inversion H; discriminate).
  unfold renderHeading. destruct (_ || _); [discriminate |].
  intros H. inversion H. discriminate.
Qed.

Lemma Render_blocks_empty (ord : gmap string string -> list (string * string))
    (blocks : list Block) :
  Render_blocks ord blocks = Ok EmptyString -> blocks = [].
Proof.
  destruct blocks as [| b blocks]; [reflexivity |]. cbn [Render_blocks].
  destruct (RenderBlock ord b) as [sb | |] eqn:Hb; cbn [bind]; try discriminate.
  destruct (Render_blocks ord blocks) as [sr | |]; cbn [bind]; try discriminate.
  intros H. inversion H as [Hs]. apply RenderBlock_nonempty in Hb.
  destruct sb; [congruence | discriminate].
Qed.

Section ParseRender.

Variable ord : gmap string string -> list (string * string).
Hypothesis ord_perm : forall m, Permutation (ord m) (map_to_list m).

Lemma readParams_ord (m : gmap string string) :
  fold_left readParam (ord m) ∅ = TrimSpace <$> delete EmptyString m.
Proof.
  assert (Hnd : NoDup (map fst (ord m))).
  { assert (Hp : Permutation (map fst (ord m)) (map fst (map_to_list m)))
      by (apply Permutation_map, ord_perm).
    rewrite Hp. apply NoDup_fst_map_to_list. }
  assert (Hm : (list_to_map (ord m) : gmap string string) = m).
  { transitivity (list_to_map (M := gmap string string) (map_to_list m));
      [| apply list_to_map_to_list].
    apply list_to_map_proper; [exact Hnd | apply ord_perm]. }
  apply map_eq. intros k. rewrite (readParam_lookup _ _ _ Hnd), Hm, lookup_empty.
  rewrite lookup_fmap. destruct (String.eqb k EmptyString) eqn:Hk.
  - apply String.eqb_eq in Hk. subst k. now rewrite lookup_delete_eq.
  - apply String.eqb_neq in Hk. rewrite lookup_delete_ne by congruence.
    now destruct (m !! k).
Qed.

Lemma macroOf_macroNode_parsed (m : Macro) :
  macroOf [nameAttr (Name m)]
    (map paramNode (ord (Params m))
     ++ (if String.eqb (Body m) EmptyString then []
         else [Element (ac "rich-text-body") [] (textNodes (Body m))]))%list
  = asParsedMacro m.
Proof.
  unfold macroOf, asParsedMacro. rewrite fold_left_app, macroChild_readParam.
  cbn [Name Params Body]. rewrite readParams_ord.
  change (attrNamed [nameAttr (Name m)] EmptyString) with (Name m).
  destruct (String.eqb (Body m) EmptyString) eqn:Hb.
  - apply String.eqb_eq in Hb. rewrite Hb. reflexivity.
  - cbn [fold_left macroChild Local ac xml.Local String.eqb Ascii.eqb Bool.eqb isBodyTag orb
           Name Params Body].
    now rewrite directText_trim.
Qed.

Lemma cellOf_cellNode_parsed (c : Cell) :
  match cellNode ord c with
  | Element _ _ kids => cellOf kids = asParsedCell c
  | _ => False
  end.
Proof.
  unfold cellNode, asParsedCell. destruct c as [t [m |]]; cbn [Cell_Macro Cell_Text].
  - unfold cellOf, macroNode.
    cbn [fold_left cellChild Local ac xml.Local String.eqb Ascii.eqb Bool.eqb fst snd].
    now rewrite macroOf_macroNode_parsed.
  - unfold cellOf. destruct t; reflexivity.
Qed.

Lemma rowOf_cells_parsed (cells : list Cell) :
  forall acc flag,
    fold_left rowChild (map (cellNode ord) cells) ({| Cells := acc |}, flag)
    = ({| Cells := acc ++ map asParsedCell cells |}, flag).
Proof.
  induction cells as [| c cells IH]; intros acc flag.
  - cbn. now rewrite app_nil_r.
  - cbn [map fold_left].
    assert (Hstep : rowChild ({| Cells := acc |}, flag) (cellNode ord c)
                    = ({| Cells := acc ++ [asParsedCell c] |}, flag)).
    { pose proof (cellOf_cellNode_parsed c) as Hcell. unfold cellNode in *.
      cbn [rowChild Local tagged xml.Local String.eqb Ascii.eqb Bool.eqb fst snd Cells].
      now rewrite Hcell. }
    rewrite Hstep, IH. now rewrite <- app_assoc.
Qed.

Lemma rowOf_headers_parsed (hs : list string) :
  forall acc flag,
    fold_left rowChild (map headerNode hs) ({| Cells := acc |}, flag)
    = ({| Cells := acc ++ map (fun h => {| Cell_Text := TrimSpace h; Cell_Macro := None |}) hs |},
       flag || (0 <? length hs)%nat).
Proof.
  induction hs as [| h hs IH]; intros acc flag.
  - cbn. now rewrite app_nil_r, orb_false_r.
  - cbn [map fold_left].
    assert (Hstep : rowChild ({| Cells := acc |}, flag) (headerNode h)
                    = ({| Cells := acc ++ [{| Cell_Text := TrimSpace h;
                                              Cell_Macro := None |}] |}, true)).
    { unfold headerNode.
      cbn [rowChild Local tagged xml.Local String.eqb Ascii.eqb Bool.eqb fst snd Cells].
      do 3 f_equal. unfold cellOf. destruct h; reflexivity. }
    rewrite Hstep, IH. cbn [length Nat.ltb Nat.leb orb]. rewrite orb_true_r.
    now rewrite <- app_assoc.
Qed.

Lemma parsedRows_rows_parsed (rows : list Row) :
  parsedRows (map (rowNode ord) rows)
  = map (fun r => ({| Cells := map asParsedCell (Cells r) |}, false)) rows.
Proof.
  induction rows as [| r rows IH]; [reflexivity |].
  cbn [map]. rewrite <- IH. unfold rowNode at 1. rewrite parsedRows_tr.
  unfold rowOf. now rewrite rowOf_cells_parsed.
Qed.

Lemma headerTexts_rows (rows : list Row) (f : Row -> Row) :
  headerTexts (map (fun r => (f r, false)) rows) = [].
Proof. unfold headerTexts. induction rows; cbn; auto. Qed.

Lemma dataRows_rows (rows : list Row) (f : Row -> Row) :
  dataRows (map (fun r => (f r, false)) rows) = map f rows.
Proof. unfold dataRows. induction rows as [| r rows IH]; cbn; [reflexivity | now f_equal]. Qed.

Lemma blocksOf_tableNode_parsed (t : Table) :
  blocksOf (tableNode ord t) = [asParsed (BTable t)].
Proof.
  unfold tableNode, asParsed.
  change (blocksOf (Element (tagged "table") [] ?kids)) with [BTable (tableOf kids)].
  do 2 f_equal. unfold tableOf.
  rewrite tableRows_tbody, parsedRows_app, parsedRows_rows_parsed.
  destruct (0 <? length (Headers t))%nat eqn:Hlen.
  - rewrite parsedRows_tr. unfold rowOf. rewrite rowOf_headers_parsed, Hlen.
    change (parsedRows []) with (@nil (Row * bool)).
    cbn [orb app].
    unfold headerTexts, dataRows. cbn [List.filter snd fst negb flat_map Cells map].
    fold (headerTexts (map (fun r => ({| Cells := map asParsedCell (Cells r) |}, false))
                         (Rows t))).
    fold (dataRows (map (fun r => ({| Cells := map asParsedCell (Cells r) |}, false))
                      (Rows t))).
    rewrite (headerTexts_rows _ (fun r => {| Cells := map asParsedCell (Cells r) |})).
    rewrite (dataRows_rows _ (fun r => {| Cells := map asParsedCell (Cells r) |})).
    rewrite app_nil_r. f_equal. rewrite map_map. reflexivity.
  - change (parsedRows []) with (@nil (Row * bool)). cbn [app].
    rewrite (headerTexts_rows _ (fun r => {| Cells := map asParsedCell (Cells r) |})).
    rewrite (dataRows_rows _ (fun r => {| Cells := map asParsedCell (Cells r) |})).
    destruct (Headers t); [reflexivity | discriminate].
Qed.

Lemma listItems_parsed (items : list ListItem) :
  listItems (map itemNode items) = map asParsedItem items.
Proof.
  induction items as [| [t] items IH]; [reflexivity |].
  cbn [map]. unfold itemNode at 1. cbn [ListItem_Text].
  change (listItems (Element (tagged "li") [] ?k :: ?r))
    with ({| ListItem_Text := flowText k |} :: listItems r).
  now rewrite flowText_text, IH.
Qed.

Lemma blocksOf_codeBlockNode (cb : CodeBlock) :
  blocksOf (codeBlockNode cb) = [asParsed (BCodeBlock cb)].
Proof.
  unfold codeBlockNode, asParsed.
  change (blocksOf (Element (ac "structured-macro") ?a ?kids)) with [BMacro (macroOf a kids)].
  do 2 f_equal. unfold macroOf.
  change (attrNamed [nameAttr "code"] EmptyString) with "code".
  rewrite fold_left_app.
  assert (Hbody : forall m0,
             fold_left macroChild [Element (ac "plain-text-body") [] [Chars (Code cb)]] m0
             = {| Name := Name m0; Params := Params m0; Body := TrimSpace (Code cb) |}).
  { intros m0. cbn [fold_left macroChild Local ac xml.Local String.eqb Ascii.eqb Bool.eqb
                      isBodyTag orb directText].
    now rewrite append_nil_r. }
  rewrite Hbody.
  destruct (String.eqb (Language cb) EmptyString); [reflexivity |].
  change [Element (ac "parameter") [nameAttr "language"] (textNodes (Language cb))]
    with (map paramNode [("language", Language cb)]).
  rewrite macroChild_readParam. reflexivity.
Qed.

Lemma blocksOf_blockNode_parsed (b : Block) (s : string) :
  RenderBlock ord b = Ok s -> blocksOf (blockNode ord b) = [asParsed b].
Proof.
  destruct b as [t | p | h | bl | nl | m | cb |]; cbn [blockNode]; intros Hr.
  - apply blocksOf_tableNode_parsed.
  - change (blocksOf (Element (tagged "p") [] ?k))
      with [BParagraph {| Paragraph_Text := flowText k |}].
    now rewrite flowText_text.
  - cbn [RenderBlock] in Hr. unfold renderHeading in Hr.
    destruct (Level h <? 1)%Z eqn:Hlo; [discriminate |].
    destruct (6 <? Level h)%Z eqn:Hhi; [discriminate |].
    apply Z.ltb_ge in Hlo. apply Z.ltb_ge in Hhi.
    rewrite blocksOf_heading by lia. now rewrite flowText_text.
  - change (blocksOf (Element (tagged "ul") [] ?k))
      with [BBulletList {| BulletList_Items := listItems k |}].
    now rewrite listItems_parsed.
  - change (blocksOf (Element (tagged "ol") [] ?k))
      with [BNumberedList {| NumberedList_Items := listItems k |}].
    now rewrite listItems_parsed.
  - unfold macroNode.
    change (blocksOf (Element (ac "structured-macro") ?a ?kids))
      with [BMacro (macroOf a kids)].
    now rewrite macroOf_macroNode_parsed.
  - apply blocksOf_codeBlockNode.
  - reflexivity.
Qed.

Lemma blocksOf_blockNodes_parsed (blocks : list Block) :
  forall s, Render_blocks ord blocks = Ok s ->
            flat_map blocksOf (map (blockNode ord) blocks) = map asParsed blocks.
Proof.
  induction blocks as [| b blocks IH]; intros s Hr; [reflexivity |].
  cbn [Render_blocks] in Hr.
  destruct (RenderBlock ord b) as [sb | |] eqn:Eb; cbn [bind] in Hr; try discriminate.
  destruct (Render_blocks ord blocks) as [sr | |] eqn:Er; cbn [bind] in Hr; try discriminate.
  cbn [map flat_map]. now rewrite (blocksOf_blockNode_parsed b sb Eb), (IH sr eq_refl).
Qed.

End ParseRender.

(** X22: for a page whose texts are well-formed character data (macro
    bodies without [<], [&] and []]>], code without the end of a CDATA
    section),
    [Parse] of the rendering returns the page with every text trimmed,
    the parameters without name dropped, no text in the cells that hold a
    macro, and each code block as a macro named [code] with the trimmed
    code as body. *)
Theorem Parse_of_Render (uF uS : N -> bool) (ents : gmap string string)
    (ord : gmap string string -> list (string * string)) (page : Page) (s : string) :
  (forall m, Permutation (ord m) (map_to_list m)) ->
  goodPage page = true ->
  Render ord page = Ok s ->
  Parse uF uS ents s = Ok {| Blocks := map asParsed (Blocks page) |}.
Proof.
  intros Hperm Hg Hr. unfold Parse. destruct (String.eqb s EmptyString) eqn:Es.
  - apply String.eqb_eq in Es. subst s.
    now rewrite (Render_blocks_empty ord (Blocks page) Hr).
  - rewrite (newDecoder_rendered uF uS ents ord Hperm page s Hg Hr).
    change (tokens ?n EOF) with (tokensList [n] EOF).
    rewrite ParseTokens_tree. do 2 f_equal.
    cbn [flat_map]. rewrite app_nil_r.
    change (blocksOf (Element (tagged "root") rootAttr ?k)) with (flat_map blocksOf k).
    exact (blocksOf_blockNodes_parsed ord Hperm (Blocks page) s Hr).
Qed.

Lemma Parse_of_Render_witness :
  parse (match render {| Blocks := [BParagraph {| Paragraph_Text := " a " |};
                                    BCodeBlock {| Language := "go"; Code := "  x" |}] |} with
         | Ok s => s
         | _ => EmptyString
         end)
  = Ok {| Blocks := map asParsed [BParagraph {| Paragraph_Text := " a " |};
                                  BCodeBlock {| Language := "go"; Code := "  x" |}] |}.
Proof.
  apply (Parse_of_Render asciiOnly asciiOnly someEntities listOrder
           {| Blocks := [BParagraph {| Paragraph_Text := " a " |};
                         BCodeBlock {| Language := "go"; Code := "  x" |}] |}).
  - intros m. reflexivity.
  - vm_compute. reflexivity.
  - vm_compute. reflexivity.
Defined.

(** In that page the paragraph comes back trimmed and the code block as
    a macro. *)
Lemma asParsed_example :
  map asParsed [BParagraph {| Paragraph_Text := " a " |};
                BCodeBlock {| Language := "go"; Code := "  x" |}]
  = [BParagraph {| Paragraph_Text := "a" |};
     BMacro {| Name := "code"; Params := <["language" := "go"]> ∅; Body := "x" |}].
Proof. vm_compute. reflexivity. Qed.
